(* ===== verification/_CoqProject ===== *)
-Q . S2P
Prelude.v
CLib.v
Db.v
DbRep.v
DbChain.v
DbSpec.v
DbApi.v
Monitor.v
Mq.v
MqSpec.v
MqOpen.v
MqApi.v
Rwlock.v
Barrier.v
Workq.v
DtaQueue.v
DtaQueueSpec.v
DtaQueueApi.v
DtaConc.v
Net.v
DtaNet.v
DtaNetSpec.v
DtaNetApi.v
DtaAdmin.v
DtaQm.v
LcName.v
Lcsplit.v
Print.v
PrintIpp.v
Printd.v
PrintdSpec.v
PrintApi.v
