(* ===== verification/Prelude.v ===== *)
(** * Verified components of the [programming] repository

    The repository collects C programs of several projects.  This library models the ones that
    carry their own logic, by shallow embedding: a C function is a Rocq function of the same
    name, fallible and stateful code is a program of the state and fault monad [M] of this
    file, threads and processes are step relations over such programs.  All source paths are
    below [src/cprogramming].

    ** The parts and their files

    - Shared: [Prelude] (the monad, faults, loops with fuel, total and partial correctness,
      machine integers, tactics), [CLib] (C strings, [sprintf]/[atol] of decimals, [errno]
      values, POSIX byte files), [Monitor] (threads under a mutex with condition variables:
      segments between two points where a thread gives up the mutex, steps, wake-ups,
      invariants, counting of threads), [Net] (two programs at the ends of a stream socket, and
      that their interleaving does not matter).
    - The key/value database library [apue.3e/db/db.c], [apue_db.h]: [Db] (the two files, the
      handle, the record locks and every function), [DbRep] (the layout of the files),
      [DbChain] (hash chains and free list), [DbSpec] (the database as a finite map), [DbApi].
    - POSIX message queues over a mapped file, [unpv22e/my_pxmsg_mmap]: [Mq] (the calls cut into
      segments), [MqSpec] (the abstract priority queue), [MqOpen] ([mq_open.c], [mq_unlink.c]),
      [MqApi].
    - Thread synchronisation, [programs]: [Rwlock] ([rwlock.c]), [Barrier] ([barrier.c]), [Workq]
      ([workq.c]: the linked list in the heap, clients, and servers that are created while the
      system runs).  The three are clients of [Monitor].
    - The DTA transport, [boss/bude/syscomp/src/dta/src]: [DtaQueue] (the queue calls of
      [dtalib.c] under their semaphores), [DtaQueueSpec] (the queue as a list of numbered
      messages, one lemma per call), [DtaQueueApi]; [DtaConc] (processes that share a queue);
      [DtaNet] (client calls of [dtalib.c], the server process of [dtaserver.c], the sender of
      [dtaqm.c]), [DtaNetSpec] (runs of a call against a request), [DtaNetApi]; [DtaAdmin]
      ([createq.c], [deleteq.c]); [DtaQm] (the cleaner and the rounds of [dtaqm.c]).
    - The file splitter [lcsplit.c] of the same directory: [LcName] (file names from a format and
      back, and the cleaner of old files), [Lcsplit] (the reference that cuts a stream, and the
      program).
    - The print spooler [apue.3e/printer]: [Print] ([print.c], [util.c], the records of [print.h],
      [writen.c] and [readn.c] of [apue.3e/lib]), [PrintIpp] (the headers of a request and
      [printer_status] of [printd.c], with [ipp.h]), [Printd] (the lists in the heap, and the
      client, printer and signal threads of [printd.c] and its start), [PrintdSpec] (the list as a
      queue, the invariant of the spool, and what each thread may assume of the others),
      [PrintApi].

    The parts of the DTA transport build on one another: [sendq] of [DtaNet] reads the queue of
    [DtaQueue] on one side of a connection and the server's [sendmsg] puts into a [DtaQueue] on
    the other; the cleaner of [DtaQm] and the programs of [DtaAdmin] work on the same queue
    files; [DtaConc] runs the calls of [DtaQueue] in processes.

    ** What the theorems show

    - C1 to C6, database: sessions, store, fetch and delete refine a finite map; a scan shows
      each record once; closing and reopening keeps the contents.  [db_store_bad_args] and
      [db_separator_key_aborts] show the refused arguments and a key that makes its chain
      unreadable.
    - C7 to C11, message queues: safety under any interleaving, refinement of the priority queue
      with the situations of every error, the opening protocol, and the notification;
      [mq_refusals] evaluates the errors, [mq_receiver_lost_wakeup] runs two receivers into a
      wake-up that is lost, and [mymq_open_overflows] asks for a queue whose size overflows.
    - C12 to C15, lock and barrier: exclusion and exact counts, no lost wake-up without
      cancellation, both as long as the lock is not destroyed ([rwl_destroy_races] shows what a
      destruction under its users does), rounds of the barrier and absence of deadlock; beside
      them the try variants
      ([rwl_trylock_spec]), the statuses of the destructors ([rwl_destroy_spec],
      [barrier_destroy_spec]) and the runs in which a cancelled reader loses a wake-up and too
      many threads overtake one.
    - C16 and C17, DTA queue: sessions refine the abstract queue, browsing shows every message
      once; [dta_read_orders] and [dta_failed_put_stays] show reading orders that are not the
      documented ones and what a failed write leaves.
    - C18 and C19, shared DTA queue: processes, each with the buffer of its stream, act
      atomically section by section, and every schedule ends; [dta_section_races] runs two races
      between the sections of one call, and in [dta_stale_read] a buffer delivers the bytes of a
      message that is gone.
    - C20 to C24, transport: [readn] and [writen], transfer of files with resumption, round trip,
      remote commands, and that the sender forwards every message once and in order.
    - C25 to C27, administration: [createq], [deleteq], and the times at which the manager
      starts senders and cleaners; [deleteq_answers] types answers that do not fit,
      [round_fork_fails] says how a failed [fork] ends the manager.
    - C28 and C29, work queue: requests are served once and in order with bounded servers,
      destruction leaves nothing behind, everything can run to its end; an add wakes no server.
    - C30 to C32, file splitter: names that are made are recognised; the cleaner removes the old
      files of its format only, up to the first that is not old ([deloldfile_stops_early],
      [deloldfile_blank_name] show files that are spared); and the files written are those of
      the reference [parts], which says where the input is cut when its reads come up short
      ([lcsplit_short_read]).
    - C33 to C40, print spooler: jobs are kept in order with their files until they are printed
      whole, whatever the threads do; no accepted job is lost by a crash as long as there are
      descriptors for the control files ([printd_leaves_jobs]) and they can be read
      ([printd_read_error]); what [print] sends is
      accepted and answered; a printer that answers gets all jobs; the places that can fail; the
      IPP header and its size; the records on the wire; and a response that hangs the printer
      thread.  [printd_restart] says what the start makes of a spool, and [printd_restarted] that
      it ends where the theorems about the threads begin.
      [printd_worker_dangles] and [printd_number_reused] are runs into freed memory and into a
      job number given out twice.

    ** Faults, fuel and bounds

    Undefined behaviour the code reaches, [abort]-like exits and exhausted fuel are the values
    [UB], [Abort], [Quit] and [NoFuel] of [fault]; the safety theorems and the total
    correctness judgement [wp] exclude all of them.  Loops without structural recursion are
    [iter] with a fuel computed from the state: the length of the index file bounds a hash
    chain ([chain_fuel]), the mapped table a scan of a DTA queue ([scan_fuel]), the announced
    length a file transfer ([file_fuel]); one run of a work-queue server between two points
    where it gives up the mutex passes at most four points of its loop ([SERVER_FUEL]); the
    bytes and the cuts of the input bound the file splitter ([input_fuel]).  The
    searches of [printer_status] that read more take a fuel as parameter, since they need not
    end: any fuel above a buffer and the interim answers is enough where the response is good
    ([good_answer]), and none is where it is cut in its header ([printer_status_hangs]).  The
    theorems are about runs that end in [Ok], so the fuel is proved to be enough.  Integers are
    [Z]; where a width matters the bound is a hypothesis (lengths below the buffer sizes of the
    source) or the conversion is written out ([wrap_s]).  Liveness of threads is stated for the
    step relation: some thread can run, every schedule ends, or a run to the end exists.

    ** Parameters and assumptions

    Status codes of the pthread calls are inputs of the operations, with theorems for the
    error-free case and for the errors the code handles.  A failed unlock is taken to have no
    effect on the mutex of the model.  Signals wake one waiting thread of the scheduler's
    choice, spurious wake-ups and time-outs can happen at any time, so the two seconds of
    [workq_server] are not measured.

    For the transport, the shell that [system] runs, the contents of fresh memory, the process
    number, the size of [time_t] (4 in the theorems about transfers, as the code takes it),
    what the streams read ahead, [fork], and the failures of opening and writing in [createq]
    are parameters; a stream socket delivers the bytes that were sent, cut into pieces of any
    size.  The semaphore operations are taken to succeed, although the code does not test them:
    no signal interrupts them and the set is not removed under its users.  The [fprintf] of
    [createq] to the list and of [deleteq] to its copy reach the disk.

    For the splitter the clock, the cuts of the input, and what [ls], [rm] and the first run of
    the cleaner do are inputs; the output files can be opened and written.

    For the print spooler a connection is the list of what arrives, with the pauses that outlast
    a timed read.  The errors of [creat] and [write], of opening a data file and of opening and
    reading a control file at the start, of reading the file in [print], of the job number file
    and of memory, the error texts, [getaddrinfo], the connections to the printer and the
    contents of fresh memory and of buffers on the stack are parameters.  Whether a file can be
    opened depends on its name only, and an [fstat] that fails counts as an [open] that fails;
    the data file that was opened can be read.  A thread of the server does one thing to the
    shared state or to its files at a time, which is finer than its locks.

    ** Not modelled

    Third-party programs in the tree (libxml2, SpiderMonkey, GNU make, the regular expression
    library), the C++ middleware and applications, scripts, and the book examples whose content
    is a sequence of system calls.  Of the modelled programs: [DTA_INIT], [DTA_CONN], [DTA_DISC]
    and [DTA_EXIT] (sockets and shared memory), the error texts of [DTA_CHKERR], the forks of the
    servers, the alarm that runs the cleaner of [lcsplit.c] again, [main] of the print server with
    its sockets and privileges, [SIGTERM], and the printer thread during [build_qonstart].  The
    small threaded programs that are left ([crew.c] and [alarm_cond.c] of [programs], the
    semaphores [unpv22e/my_pxsem_mmap], the lock [unpv22e/my_rwlock]) repeat what [Monitor],
    [Workq] and [Rwlock] show on a larger scale. *)
From stdpp Require Export base tactics option list numbers functions gmap strings.
From Stdlib Require Export ZArith Lia.
#[global] Open Scope Z_scope.

(** ** Faults and results *)

(** What a C function can do instead of returning: [Abort] is [err_dump] or
    [err_abort] (print and abort), [Quit] is [err_quit] or [exit], [UB] is
    undefined behaviour the code reaches, [NoFuel] is a loop that ran out of the
    fuel the model gave it. *)
Inductive fault :=
  | Abort (msg : string)
  | Quit (msg : string)
  | UB (what : string)
  | NoFuel.

Inductive result (A : Type) :=
  | Ok (a : A)
  | Fault (f : fault).
Arguments Ok {_} _.
Arguments Fault {_} _.

#[export] Instance fault_eq_dec : EqDecision fault.
Proof. solve_decision. Defined.
#[export] Instance result_eq_dec `{EqDecision A} : EqDecision (result A).
Proof. solve_decision. Defined.

(** ** The state and fault monad the components are written in *)

Definition M (S A : Type) : Type := S → result (A * S).

#[export] Instance M_ret S : MRet (M S) := λ A a s, Ok (a, s).
#[export] Instance M_bind S : MBind (M S) := λ A B k m s,
  match m s with Ok (a, s') => k a s' | Fault f => Fault f end.

Definition get {S} : M S S := λ s, Ok (s, s).
Definition gets {S A} (f : S → A) : M S A := λ s, Ok (f s, s).
Definition modify {S} (f : S → S) : M S () := λ s, Ok ((), f s).
Definition fail {S A} (f : fault) : M S A := λ _, Fault f.
Definition when {S} (b : bool) (m : M S ()) : M S () := if b then m else mret ().

(** A loop whose body says whether to go round again ([inl] with the new locals)
    or to leave ([inr] with the loop's result). *)
Fixpoint iter {S X R} (fuel : nat) (body : X → M S (X + R)) (x : X) : M S R :=
  match fuel with
  | O => fail NoFuel
  | Datatypes.S n => r ← body x; match r with inl x' => iter n body x' | inr r => mret r end
  end.

(** Total correctness: the run ends in [Ok] and the post-condition holds. *)
Definition wp {S A} (m : M S A) (Q : A → S → Prop) (s : S) : Prop :=
  match m s with Ok (a, s') => Q a s' | Fault _ => False end.

Section wp.
Context {S : Type}.
Implicit Types s : S.

Lemma wp_ret {A} (a : A) Q s : Q a s → wp (mret a) Q s.
Proof. done. Qed.

Lemma wp_bind {A B} (m : M S A) (k : A → M S B) Q s :
  wp m (λ a s', wp (k a) Q s') s → wp (m ≫= k) Q s.
Proof. unfold wp, mbind, M_bind. by destruct (m s) as [[a s']|]. Qed.

Lemma wp_conseq {A} (m : M S A) (P Q : A → S → Prop) s :
  wp m P s → (∀ a s', P a s' → Q a s') → wp m Q s.
Proof. unfold wp. destruct (m s) as [[a s']|]; naive_solver. Qed.

Lemma wp_get Q s : Q s s → wp get Q s.
Proof. done. Qed.
Lemma wp_gets {A} (f : S → A) Q s : Q (f s) s → wp (gets f) Q s.
Proof. done. Qed.
Lemma wp_modify (f : S → S) (Q : () → S → Prop) s : Q () (f s) → wp (modify f) Q s.
Proof. done. Qed.

Lemma wp_eq {A} (m : M S A) a s' Q s : m s = Ok (a, s') → Q a s' → wp m Q s.
Proof. unfold wp. by intros ->. Qed.

Lemma wp_run {A} (m : M S A) Q s :
  wp m Q s ↔ ∃ a s', m s = Ok (a, s') ∧ Q a s'.
Proof.
  unfold wp. destruct (m s) as [[a s']|f]; split; try naive_solver.
Qed.

(** The rule for loops: an invariant and a measure on the locals and the state. *)
Lemma wp_iter {X R} (body : X → M S (X + R)) (I : X → S → Prop)
    (mu : X → S → nat) (Q : R → S → Prop) :
  (∀ x s, I x s →
     wp (body x) (λ r s', match r with
                          | inl x' => I x' s' ∧ (mu x' s' < mu x s)%nat
                          | inr r => Q r s' end) s) →
  ∀ fuel x s, I x s → (mu x s < fuel)%nat → wp (iter fuel body x) Q s.
Proof.
  intros Hbody fuel. induction fuel as [|fuel IH]; intros x s HI Hmu; [lia|].
  simpl. apply wp_bind. eapply wp_conseq; [by apply Hbody|].
  intros [x'|r] s' H; simpl in H; [|by apply wp_ret].
  destruct H. apply IH; [done|lia].
Qed.
End wp.

(** Equations for symbolic execution. *)
Section bind_eqs.
Context {S A B : Type}.
Implicit Types (s : S).

Lemma bind_ok (m : M S A) (k : A → M S B) s a s' :
  m s = Ok (a, s') → (m ≫= k) s = k a s'.
Proof. unfold mbind, M_bind. by intros ->. Qed.
Lemma bind_fault (m : M S A) (k : A → M S B) s f :
  m s = Fault f → (m ≫= k) s = Fault f.
Proof. unfold mbind, M_bind. by intros ->. Qed.
Lemma bind_ret (a : A) (k : A → M S B) s : (mret a ≫= k) s = k a s.
Proof. done. Qed.
Lemma bind_gets (f : S → A) (k : A → M S B) s : (gets f ≫= k) s = k (f s) s.
Proof. done. Qed.
Lemma bind_modify (f : S → S) (k : () → M S B) s : (modify f ≫= k) s = k () (f s).
Proof. done. Qed.
End bind_eqs.

Lemma bind_assoc {S A B C} (m : M S A) (k : A → M S B) (k' : B → M S C) s :
  ((m ≫= k) ≫= k') s = (m ≫= λ a, k a ≫= k') s.
Proof. unfold mbind, M_bind. by destruct (m s) as [[a s']|]. Qed.

(** Runs the steps of a monadic program that need no side condition. *)
Ltac mstep :=
  repeat (progress (rewrite ?bind_assoc, ?bind_ret, ?bind_gets, ?bind_modify; cbv beta iota zeta delta [negb orb andb])).

(** Partial correctness: if the run ends in [Ok], the post-condition holds. *)
Definition wlp {S A} (m : M S A) (Q : A → S → Prop) (s : S) : Prop :=
  match m s with Ok (a, s') => Q a s' | Fault _ => True end.

Section wlp.
Context {S : Type}.
Lemma wlp_ret {A} (a : A) Q (s : S) : Q a s → wlp (mret a) Q s.
Proof. done. Qed.
Lemma wlp_bind {A B} (m : M S A) (k : A → M S B) Q s :
  wlp m (λ a s', wlp (k a) Q s') s → wlp (m ≫= k) Q s.
Proof. unfold wlp, mbind, M_bind. by destruct (m s) as [[a s']|]. Qed.
Lemma wlp_conseq {A} (m : M S A) (P Q : A → S → Prop) s :
  wlp m P s → (∀ a s', P a s' → Q a s') → wlp m Q s.
Proof. unfold wlp. destruct (m s) as [[a s']|]; naive_solver. Qed.
Lemma wlp_fail {A} f (Q : A → S → Prop) s : wlp (fail f) Q s.
Proof. done. Qed.
Lemma wlp_iter {X R} (body : X → M S (X + R)) (I : X → S → Prop) (Q : R → S → Prop) :
  (∀ x s, I x s →
     wlp (body x) (λ r s', match r with inl x' => I x' s' | inr r => Q r s' end) s) →
  ∀ fuel x s, I x s → wlp (iter fuel body x) Q s.
Proof.
  intros Hbody fuel. induction fuel as [|fuel IH]; intros x s HI; [done|].
  simpl. apply wlp_bind. eapply wlp_conseq; [by apply Hbody|].
  intros [x'|r] s' H; simpl in H; [by apply IH|by apply wlp_ret].
Qed.
End wlp.

(** ** Machine integers *)

Definition wrap_u (w x : Z) : Z := x mod 2 ^ w.
Definition wrap_s (w x : Z) : Z :=
  let y := x mod 2 ^ w in if y <? 2 ^ (w - 1) then y else y - 2 ^ w.

Lemma wrap_u_id w x : 0 ≤ x < 2 ^ w → wrap_u w x = x.
Proof. apply Z.mod_small. Qed.

Lemma wrap_s_id w x : 0 < w → - 2 ^ (w - 1) ≤ x < 2 ^ (w - 1) → wrap_s w x = x.
Proof.
  intros Hw Hx. unfold wrap_s.
  assert (2 ^ w = 2 * 2 ^ (w - 1)) as E.
  { rewrite <- Z.pow_succ_r by lia. f_equal. lia. }
  assert (0 < 2 ^ (w - 1)) by (apply Z.pow_pos_nonneg; lia).
  destruct (Z_lt_dec x 0).
  - replace (x mod 2 ^ w) with (x + 2 ^ w).
    2:{ rewrite <- (Z_mod_plus_full x 1), Z.mul_1_l. symmetry. apply Z.mod_small. lia. }
    destruct (Z.ltb_spec (x + 2 ^ w) (2 ^ (w - 1))); lia.
  - rewrite Z.mod_small by lia. destruct (Z.ltb_spec x (2 ^ (w - 1))); lia.
Qed.

(** ** Boolean tests of the source as propositions *)

Create HintDb cverif.

Ltac btests :=
  repeat match goal with
  | H : (_ =? _) = true |- _ => apply Z.eqb_eq in H
  | H : (_ =? _) = false |- _ => apply Z.eqb_neq in H
  | H : (_ <? _) = true |- _ => apply Z.ltb_lt in H
  | H : (_ <? _) = false |- _ => apply Z.ltb_ge in H
  | H : (_ <=? _) = true |- _ => apply Z.leb_le in H
  | H : (_ <=? _) = false |- _ => apply Z.leb_gt in H
  | H : _ && _ = true |- _ => apply andb_true_iff in H; destruct H
  | H : _ || _ = false |- _ => apply orb_false_iff in H; destruct H
  | H : negb _ = true |- _ => apply negb_true_iff in H
  | H : negb _ = false |- _ => apply negb_false_iff in H
  end.

(** Splits on the first boolean test of the goal, with its meaning as a hypothesis. *)
Ltac case_test :=
  match goal with
  | |- context [if ?a =? ?b then _ else _] => destruct (Z.eqb_spec a b)
  | |- context [if ?a <? ?b then _ else _] => destruct (Z.ltb_spec a b)
  | |- context [if ?a <=? ?b then _ else _] => destruct (Z.leb_spec a b)
  | |- context [if ?b then _ else _] => destruct b eqn:?; btests
  end.

(** A loop that ends with some fuel ends the same way with more. *)
Lemma iter_more {S X R} (body : X → M S (X + R)) n k x s r :
  iter n body x s = Ok r → iter (n + k) body x s = Ok r.
Proof.
  revert x s. induction n as [|n IH]; intros x s; [done|]. simpl. unfold mbind, M_bind.
  destruct (body x s) as [[[x'|r'] s']|]; [apply IH|done|done].
Qed.

Lemma iter_S {S X R} (body : X → M S (X + R)) n x :
  iter (Datatypes.S n) body x = (r ← body x; match r with inl x' => iter n body x' | inr r => mret r end).
Proof. done. Qed.

Lemma filter_all {A} (P : A → Prop) `{∀ x, Decision (P x)} (l : list A) : Forall P l → filter P l = l.
Proof. induction 1 as [|x l Hx _ IH]; [done|]. by rewrite filter_cons_True, IH. Qed.

Lemma list_snoc_case {A} (l : list A) : l = [] ∨ ∃ l' x, l = l' ++ [x].
Proof. destruct l as [|x l]; [by left|right]. destruct (exists_last (l := x :: l)) as (l' & y & ->); [done|by exists l', y]. Qed.
