(* ===== verification/CLib.v ===== *)
(** The parts of the C library the modelled sources use: strings in character
    buffers, [strchr], decimal conversion by [sprintf] and [atol]/[atoi], and the
    POSIX byte files behind [lseek]/[read]/[write].  Bytes are [Z]s in [0, 256). *)
From Stdlib Require Import Ascii.
From S2P Require Import Prelude.

Definition zlen {A} (l : list A) : Z := Z.of_nat (length l).

Lemma zlen_app {A} (l k : list A) : zlen (l ++ k) = zlen l + zlen k.
Proof. unfold zlen. rewrite length_app. lia. Qed.
Lemma zlen_cons {A} (x : A) l : zlen (x :: l) = 1 + zlen l.
Proof. unfold zlen. simpl length. lia. Qed.
Lemma zlen_nonneg {A} (l : list A) : 0 ≤ zlen l.
Proof. unfold zlen. lia. Qed.
Lemma zlen_replicate {A} n (x : A) : zlen (replicate n x) = Z.of_nat n.
Proof. unfold zlen. by rewrite length_replicate. Qed.

(** ** Constants of the system headers (Linux, x86-64) *)

Definition ENOENT : Z := 2.
Definition EBADF : Z := 9.
Definition EAGAIN : Z := 11.
Definition EBUSY : Z := 16.
Definition EEXIST : Z := 17.
Definition EINVAL : Z := 22.
Definition EMSGSIZE : Z := 90.
Definition ETIMEDOUT : Z := 110.

Definition O_CREAT : Z := 64.
Definition O_EXCL : Z := 128.
Definition O_TRUNC : Z := 512.
Definition O_NONBLOCK : Z := 2048.

(** [flags & bit] as a condition. *)
Definition has_flag (fl bit : Z) : bool := negb (Z.land fl bit =? 0).

(** ** C strings *)

(** The string a pointer to the buffer denotes: the bytes before the first NUL. *)
Fixpoint cstr (b : list Z) : list Z :=
  match b with
  | [] => []
  | c :: b' => if c =? 0 then [] else c :: cstr b'
  end.

Definition strlen (b : list Z) : Z := zlen (cstr b).

(** [strchr(b, c)] for [c] not NUL, as an offset from [b]. *)
Fixpoint strchr (b : list Z) (c : Z) : option Z :=
  match b with
  | [] => None
  | x :: b' => if x =? 0 then None else if x =? c then Some 0 else Z.succ <$> strchr b' c
  end.

(** [strcmp(a, b) == 0] *)
Definition str_eqb (a b : list Z) : bool := bool_decide (cstr a = cstr b).

Definition no_nul (s : list Z) : Prop := Forall (λ c, c ≠ 0) s.

Lemma cstr_app s b : no_nul s → cstr (s ++ 0 :: b) = s.
Proof.
  induction 1 as [|c s Hc _ IH]; [done|]. simpl.
  destruct (Z.eqb_spec c 0); [done|by rewrite IH].
Qed.

Lemma cstr_id s : no_nul s → cstr s = s.
Proof.
  induction 1 as [|c s Hc _ IH]; [done|]. simpl.
  destruct (Z.eqb_spec c 0); [done|by rewrite IH].
Qed.

Lemma strchr_found s c b : no_nul s → c ≠ 0 → c ∉ s →
  strchr (s ++ c :: b) c = Some (zlen s).
Proof.
  intros Hs Hc. induction Hs as [|x s Hx _ IH]; intros Hn; simpl.
  - destruct (Z.eqb_spec c 0); [done|]. by rewrite Z.eqb_refl.
  - apply not_elem_of_cons in Hn as [Hxc Hn].
    destruct (Z.eqb_spec x 0); [done|]. destruct (Z.eqb_spec x c); [congruence|].
    rewrite IH by done. simpl. rewrite zlen_cons. f_equal. lia.
Qed.

Lemma strchr_none s c b : no_nul s → c ∉ s → strchr (s ++ 0 :: b) c = None.
Proof.
  intros Hs. induction Hs as [|x s Hx _ IH]; intros Hn; simpl; [done|].
  apply not_elem_of_cons in Hn as [Hxc Hn].
  destruct (Z.eqb_spec x 0); [done|]. destruct (Z.eqb_spec x c); [congruence|].
  by rewrite IH.
Qed.

(** ** Characters *)

Definition isspace (c : Z) : bool := (c =? 32) || ((9 <=? c) && (c <=? 13)).
Definition isdigit (c : Z) : bool := (48 <=? c) && (c <=? 57).

(** A [char] read from a buffer, as the signed value C gives it. *)
Definition schar (c : Z) : Z := wrap_s 8 c.

(** ** Decimal output: the [%lld], [%ld], [%d] conversions and [%*lld] padding *)

Fixpoint udec (fuel : nat) (n : Z) : list Z :=
  match fuel with
  | O => []
  | S f => if n <? 10 then [48 + n] else udec f (n / 10) ++ [48 + n mod 10]
  end.

(** Twenty digits hold every 64-bit integer. *)
Definition dec (n : Z) : list Z := if n <? 0 then 45 :: udec 20 (- n) else udec 20 n.

Definition pad (w : Z) (s : list Z) : list Z :=
  replicate (Z.to_nat (w - zlen s)) 32 ++ s.

(** ** Decimal input *)

Definition LONG_MAX : Z := 2 ^ 63 - 1.
Definition LONG_MIN : Z := - 2 ^ 63.

Fixpoint skip_space (s : list Z) : list Z :=
  match s with c :: s' => if isspace c then skip_space s' else s | [] => [] end.

Fixpoint digits_val (acc : Z) (s : list Z) : Z :=
  match s with
  | c :: s' => if isdigit c then digits_val (acc * 10 + (c - 48)) s' else acc
  | [] => acc
  end.

(** [strtol(s, NULL, 10)]: leading white space, a sign, digits, clamped. *)
Definition strtol (s : list Z) : Z :=
  let v := match skip_space s with
           | [] => 0
           | c :: s' => if c =? 45 then - digits_val 0 s'
                        else if c =? 43 then digits_val 0 s' else digits_val 0 (c :: s')
           end in
  Z.max LONG_MIN (Z.min LONG_MAX v).

Definition atol (s : list Z) : Z := strtol s.
Definition atoi (s : list Z) : Z := wrap_s 32 (strtol s).

Lemma udec_digits fuel n : 0 ≤ n → Forall (λ c, 48 ≤ c ≤ 57) (udec fuel n).
Proof.
  revert n. induction fuel as [|fuel IH]; intros n Hn; simpl; [constructor|].
  destruct (Z.ltb_spec n 10).
  - repeat constructor; lia.
  - apply Forall_app; split.
    + apply IH. apply Z.div_pos; lia.
    + pose proof (Z.mod_pos_bound n 10). repeat constructor; lia.
Qed.

Lemma udec_length fuel n k : (0 < k)%nat → 0 ≤ n < 10 ^ Z.of_nat k →
  (length (udec fuel n) ≤ k)%nat.
Proof.
  revert n k. induction fuel as [|fuel IH]; intros n k Hk Hn; cbn [udec]; [simpl; lia|].
  destruct (Z.ltb_spec n 10); [simpl; lia|].
  rewrite length_app. simpl. destruct k as [|[|k]]; [lia|simpl in Hn; lia|].
  assert (length (udec fuel (n / 10)) ≤ S k)%nat; [|lia].
  apply IH; [lia|]. split; [apply Z.div_pos; lia|].
  apply Z.div_lt_upper_bound; [lia|].
  rewrite <- Z.pow_succ_r, <- Nat2Z.inj_succ by lia. lia.
Qed.

Lemma udec_nonempty fuel n : (0 < fuel)%nat → udec fuel n ≠ [].
Proof.
  destruct fuel; [lia|]. intros _. simpl. destruct (n <? 10); [done|].
  by destruct (udec fuel (n / 10)).
Qed.

Lemma digits_val_app a s t : Forall (λ c, 48 ≤ c ≤ 57) s →
  digits_val a (s ++ t) = digits_val (digits_val a s) t.
Proof.
  intros Hs. revert a. induction Hs as [|c s Hc _ IH]; intros a; simpl; [done|].
  unfold isdigit. destruct (Z.leb_spec 48 c), (Z.leb_spec c 57); simpl; try lia. apply IH.
Qed.

Lemma digits_val_udec fuel n : 0 ≤ n < 10 ^ Z.of_nat fuel →
  digits_val 0 (udec fuel n) = n.
Proof.
  revert n. induction fuel as [|fuel IH]; intros n Hn.
  { simpl in *. lia. }
  cbn [udec].
  destruct (Z.ltb_spec n 10).
  - simpl. unfold isdigit. destruct (Z.leb_spec 48 (48 + n)), (Z.leb_spec (48 + n) 57); simpl; lia.
  - assert (0 ≤ n / 10 < 10 ^ Z.of_nat fuel) as Hd.
    { split; [apply Z.div_pos; lia|]. apply Z.div_lt_upper_bound; [lia|].
      rewrite <- Z.pow_succ_r, <- Nat2Z.inj_succ by lia. lia. }
    rewrite digits_val_app by (apply udec_digits; lia). rewrite IH by done. simpl.
    pose proof (Z.mod_pos_bound n 10). pose proof (Z.div_mod n 10).
    unfold isdigit. destruct (Z.leb_spec 48 (48 + n mod 10)), (Z.leb_spec (48 + n mod 10) 57); simpl; lia.
Qed.

Lemma dec_nonneg n : 0 ≤ n → dec n = udec 20 n.
Proof. intros. unfold dec. destruct (Z.ltb_spec n 0); [lia|done]. Qed.

Lemma dec_digits n : 0 ≤ n → Forall (λ c, 48 ≤ c ≤ 57) (dec n).
Proof. intros. rewrite dec_nonneg by done. by apply udec_digits. Qed.

Lemma dec_length n k : (0 < k)%nat → 0 ≤ n < 10 ^ Z.of_nat k → (length (dec n) ≤ k)%nat.
Proof. intros ? [? ?]. rewrite dec_nonneg by done. by apply udec_length. Qed.

Lemma dec_pos_length n : (0 < length (dec n))%nat.
Proof.
  unfold dec. destruct (n <? 0); [apply Nat.lt_0_succ|].
  pose proof (udec_nonempty 20 n). destruct (udec 20 n); [exfalso; apply H; [lia|done]|simpl; lia].
Qed.

Lemma skip_space_replicate n s : skip_space (replicate n 32 ++ s) = skip_space s.
Proof. by induction n. Qed.

(** Reading back a padded decimal: what follows must not start with a digit. *)
Lemma atol_pad w n rest : 0 ≤ n ≤ LONG_MAX → (∀ a, digits_val a rest = a) →
  atol (pad w (dec n) ++ rest) = n.
Proof.
  intros Hn Hrest. unfold atol, strtol, pad. rewrite <- app_assoc, skip_space_replicate.
  pose proof (dec_digits n ltac:(lia)) as Hd. pose proof (dec_pos_length n) as Hl.
  assert (digits_val 0 (dec n ++ rest) = n) as Hv.
  { rewrite digits_val_app by done. rewrite dec_nonneg by lia.
    rewrite digits_val_udec; [apply Hrest|]. unfold LONG_MAX in Hn. split; [lia|].
    eapply Z.le_lt_trans; [apply Hn|]. by vm_compute. }
  destruct (dec n) as [|c d]; [simpl in Hl; lia|]. apply Forall_cons in Hd as [Hc _].
  change (c :: d ++ rest) with ((c :: d) ++ rest). remember ((c :: d) ++ rest) as t eqn:Et.
  assert (skip_space t = t) as ->.
  { subst t. simpl. unfold isspace.
    destruct (Z.eqb_spec c 32), (Z.leb_spec 9 c), (Z.leb_spec c 13); simpl; (lia || done). }
  rewrite Et in Hv |- *. simpl app in Hv |- *. cbv iota.
  destruct (Z.eqb_spec c 45), (Z.eqb_spec c 43); try lia. rewrite Hv.
  unfold LONG_MIN, LONG_MAX in *. lia.
Qed.

Lemma atol_dec n rest : 0 ≤ n ≤ LONG_MAX → (∀ a, digits_val a rest = a) →
  atol (dec n ++ rest) = n.
Proof.
  intros. rewrite <- (atol_pad 0 n rest) at 2 by done. unfold pad.
  by replace (Z.to_nat (0 - zlen (dec n))) with O by (unfold zlen; lia).
Qed.

Lemma atoi_small s : - 2 ^ 31 ≤ atol s < 2 ^ 31 → atoi s = atol s.
Proof. intros. unfold atoi. apply wrap_s_id; [lia|done]. Qed.

Lemma pad_length w n : zlen (dec n) ≤ w → zlen (pad w (dec n)) = w.
Proof.
  intros. unfold pad. rewrite zlen_app, zlen_replicate. pose proof (zlen_nonneg (dec n)). lia.
Qed.

Lemma pad_no_nul w n : 0 ≤ n → no_nul (pad w (dec n)).
Proof.
  intros. unfold no_nul, pad. apply Forall_app; split.
  - by apply Forall_replicate.
  - eapply Forall_impl; [by apply dec_digits|]. simpl. lia.
Qed.

(** ** Byte files *)

(** [read] at an offset returns what is there, up to the end of the file. *)
Definition bread (d : list Z) (off n : Z) : list Z :=
  take (Z.to_nat n) (drop (Z.to_nat off) d).

(** [write] at an offset overwrites and extends; a gap reads as zeros. *)
Definition bwrite (d : list Z) (off : Z) (bs : list Z) : list Z :=
  take (Z.to_nat off) (d ++ replicate (Z.to_nat off - length d) 0) ++ bs
    ++ drop (Z.to_nat off + length bs) d.

Lemma bread_mid a b c off n : off = zlen a → n = zlen b → bread (a ++ b ++ c) off n = b.
Proof.
  intros -> ->. unfold bread, zlen. rewrite !Nat2Z.id, drop_app_length. apply take_app_length.
Qed.

Lemma bread_end a off n : zlen a ≤ off → bread a off n = [].
Proof. intros. unfold bread, zlen in *. rewrite drop_ge by lia. apply take_nil. Qed.

Lemma bwrite_mid a b b' c off : off = zlen a → length b = length b' →
  bwrite (a ++ b ++ c) off b' = a ++ b' ++ c.
Proof.
  intros -> Hb. unfold bwrite, zlen. rewrite Nat2Z.id.
  rewrite length_app. replace (length a - (length a + length (b ++ c)))%nat with O by lia.
  simpl. rewrite app_nil_r, take_app_length, <- Hb. do 2 f_equal.
  rewrite <- length_app, app_assoc. apply drop_app_length.
Qed.

Lemma bwrite_end a b off : off = zlen a → bwrite a off b = a ++ b.
Proof.
  intros ->. unfold bwrite, zlen. rewrite Nat2Z.id, Nat.sub_diag. simpl.
  rewrite app_nil_r, firstn_all, drop_ge, app_nil_r by lia. done.
Qed.

Lemma bwrite_length_in d off bs : 0 ≤ off → off + zlen bs ≤ zlen d →
  length (bwrite d off bs) = length d.
Proof.
  intros. unfold bwrite, zlen in *. rewrite !length_app, length_take, length_drop, length_app.
  rewrite length_replicate. lia.
Qed.

(** ** Text of the program, and copies of strings *)

Definition bytes (s : string) : list Z := (λ a, Z.of_nat (nat_of_ascii a)) <$> String.list_ascii_of_string s.

(** [strcpy] into an array of [n] bytes. *)
Definition strcpy {S} (n : Z) (s : list Z) : M S (list Z) :=
  if zlen s <? n then mret s else fail (UB "string copied beyond the array").

Lemma strcpy_ok {S} n s (h : S) : zlen s < n → strcpy n s h = Ok (s, h).
Proof. intros H. unfold strcpy. by rewrite (proj2 (Z.ltb_lt _ _)). Qed.

(** ** Scanning *)

(** At most [w] digits, and the rest. *)
Fixpoint scan_digits (w : nat) (s : list Z) : list Z * list Z :=
  match w, s with
  | Datatypes.S w, c :: s' => if isdigit c then let '(ds, r) := scan_digits w s' in (c :: ds, r) else ([], s)
  | _, _ => ([], s)
  end.

Lemma digit_isdigit c : 48 ≤ c ≤ 57 → isdigit c = true.
Proof. intros. unfold isdigit. rewrite (proj2 (Z.leb_le _ _)), (proj2 (Z.leb_le _ _)) by lia. done. Qed.

Lemma scan_digits_all w ds r : Forall (λ c, 48 ≤ c ≤ 57) ds → (length ds ≤ w)%nat → (∀ c r', r = c :: r' → isdigit c = false) →
  scan_digits w (ds ++ r) = (ds, r).
Proof.
  intros Hds. revert w. induction Hds as [|c ds Hc _ IH]; intros w Hw Hr; simpl in *.
  - destruct w, r as [|c r]; try done. simpl. by rewrite (Hr c r eq_refl).
  - destruct w as [|w]; [lia|]. simpl. rewrite digit_isdigit, IH by (done || lia). done.
Qed.

(** [fgets] of at most [n - 1] bytes: the line, and the rest. *)
Definition fgets (n : Z) (s : list Z) : list Z * list Z :=
  let fix go (k : nat) s :=
    match k, s with
    | Datatypes.S k, c :: s' => if c =? 10 then ([c], s') else let '(l, r) := go k s' in (c :: l, r)
    | _, _ => ([], s)
    end in go (Z.to_nat (n - 1)) s.

(** It reads a line that fits the buffer whole. *)
Lemma fgets_line n l rest : 10 ∉ l → zlen l < n - 1 → fgets n (l ++ 10 :: rest) = (l ++ [10], rest).
Proof.
  intros Hl Hn. unfold fgets. assert (length l < Z.to_nat (n - 1))%nat as H by (unfold zlen in Hn; lia).
  revert H. generalize (Z.to_nat (n - 1)) as k. clear Hn. induction l as [|c l IH]; intros [|k] H; simpl in *; try lia; [done|].
  apply not_elem_of_cons in Hl as [Hc Hl]. rewrite (proj2 (Z.eqb_neq c 10)) by congruence. by rewrite IH by (done || lia).
Qed.

(** ** Fixed buffers and integers on the wire *)

(** [strncpy] into a buffer of [n] bytes. *)
Definition strncpy (n : Z) (s : list Z) : list Z := take (Z.to_nat n) (cstr s ++ replicate (Z.to_nat n) 0).

Lemma strncpy_eq n s : no_nul s → zlen s ≤ n → strncpy n s = s ++ replicate (Z.to_nat (n - zlen s)) 0.
Proof.
  intros Hs Hn. unfold strncpy. rewrite cstr_id by done. unfold zlen in *. rewrite take_app_ge by lia. f_equal.
  rewrite take_replicate. f_equal. lia.
Qed.
Lemma zlen_strncpy n s : 0 ≤ n → zlen (strncpy n s) = n.
Proof. intros. unfold strncpy, zlen. rewrite length_take, length_app, length_replicate. lia. Qed.
Lemma cstr_strncpy n s : no_nul s → zlen s < n → cstr (strncpy n s) = s ∧ 0 ∈ strncpy n s.
Proof.
  intros Hs Hn. rewrite strncpy_eq by (done || lia). assert (Z.to_nat (n - zlen s) = S (Z.to_nat (n - zlen s - 1))) as -> by lia.
  cbn [replicate]. rewrite cstr_app by done. split; [done|]. apply elem_of_app. right. left.
Qed.

(** [htonl] and the four bytes it is sent as; [ntohl] into an unsigned and into an [int]. *)
Definition be32 (z : Z) : list Z := [(z / 2 ^ 24) mod 256; (z / 2 ^ 16) mod 256; (z / 2 ^ 8) mod 256; z mod 256].
Definition of_be (bs : list Z) : Z := foldl (λ a b, 256 * a + b) 0 bs.
Definition of_be32 (bs : list Z) : Z := wrap_s 32 (of_be bs).

Lemma of_be_be32 z : of_be (be32 z) = z mod 2 ^ 32.
Proof.
  unfold of_be, be32. cbn [foldl].
  change (2 ^ 24) with (16777216). change (2 ^ 16) with 65536. change (2 ^ 8) with 256. change (2 ^ 32) with 4294967296.
  Z.to_euclidean_division_equations. lia.
Qed.

Lemma of_be32_be32 z : - 2 ^ 31 ≤ z < 2 ^ 31 → of_be32 (be32 z) = z.
Proof.
  intros Hz. unfold of_be32. rewrite of_be_be32. transitivity (wrap_s 32 z); [|by apply wrap_s_id]. unfold wrap_s. by rewrite Z.mod_mod by lia.
Qed.

Lemma zlen_be32 z : zlen (be32 z) = 4.
Proof. done. Qed.
