(* ===== verification/Db.v ===== *)
(** The key/value database library of [apue.3e/db/db.c] and [apue_db.h]: the [DB]
    handle, the index and data files as byte lists with a file offset each, the
    record locks, and one definition per function of the source. *)
From S2P Require Import Prelude CLib.

(** ** Constants ([db.c] 13-26, [apue_db.h] 19-29) *)

Definition IDXLEN_SZ : Z := 4.
Definition SEP : Z := 58.
Definition SPACE : Z := 32.
Definition NEWLINE : Z := 10.
Definition PTR_SZ : Z := 7.
Definition PTR_MAX : Z := 9999999.
Definition NHASH_DEF : Z := 137.
Definition FREE_OFF : Z := 0.
Definition HASH_OFF : Z := PTR_SZ.

Definition DB_INSERT : Z := 1.
Definition DB_REPLACE : Z := 2.
Definition DB_STORE : Z := 3.

Definition IDXLEN_MIN : Z := 6.
Definition IDXLEN_MAX : Z := 1024.
Definition DATLEN_MIN : Z := 2.
Definition DATLEN_MAX : Z := 1024.


(** ** The state *)

(** The offsets and lengths of the [DB] struct that describe the current record. *)
Record cursor := Cursor {
  idxoff : Z;   (** offset in index file of index record *)
  idxlen : Z;   (** length of index record, with its newline *)
  datoff : Z;   (** offset in data file of data record *)
  datlen : Z;   (** length of data record, with its newline *)
  ptrval : Z;   (** contents of chain ptr in index record *)
  ptroff : Z;   (** chain ptr offset pointing to this index record *)
  chainoff : Z  (** offset of hash chain for this index record *)
}.

(** The statistics counters of the [DB] struct. *)
Record counters := Counters {
  cnt_delok : Z; cnt_delerr : Z; cnt_fetchok : Z; cnt_fetcherr : Z; cnt_nextrec : Z;
  cnt_stor1 : Z; cnt_stor2 : Z; cnt_stor3 : Z; cnt_stor4 : Z; cnt_storerr : Z
}.

(** The [DB] struct without the two descriptors, which are [idx] and [dat] below. *)
Record DB := MkDB {
  idxbuf : list Z;
  datbuf : list Z;
  name : list Z;
  cur : cursor;
  hashoff : Z;
  nhash : Z;
  cnt : counters
}.

Inductive fd := FIdx | FDat.
#[export] Instance fd_eq_dec : EqDecision fd.
Proof. solve_decision. Defined.

(** An open file: its bytes and the offset of the descriptor. *)
Record ofile := OFile { fdata : list Z; fpos : Z }.

(** One [fcntl] record-lock request that was granted: read lock, write lock or
    unlock, on [lk_len] bytes from [lk_off] (to the end of the file and beyond
    when [lk_len] is 0). *)
Inductive lkop := RdLock | WrLock | UnLock.
#[export] Instance lkop_eq_dec : EqDecision lkop.
Proof. solve_decision. Defined.
Record lkreq := LkReq { lk_fd : fd; lk_op : lkop; lk_off : Z; lk_len : Z }.

(** What a process with one open database sees: the handle, the two files, its
    lock requests (latest first) and [errno]. *)
Record world := World {
  db : DB; idx : ofile; dat : ofile; lks : list lkreq; errno : Z
}.

Definition covers (r : lkreq) (f : fd) (b : Z) : bool :=
  bool_decide (lk_fd r = f) && (lk_off r <=? b)
    && ((lk_len r =? 0) || (b <? lk_off r + lk_len r)).

(** The lock the process holds on a byte: the latest request that covers it decides. *)
Fixpoint held (l : list lkreq) (f : fd) (b : Z) : option lkop :=
  match l with
  | [] => None
  | r :: l' => if covers r f b then
                 match lk_op r with UnLock => None | o => Some o end
               else held l' f b
  end.

(** ** Field updates *)

Definition upd_db (g : DB → DB) (w : world) : world :=
  World (g (db w)) (idx w) (dat w) (lks w) (errno w).
Definition upd_cur (g : cursor → cursor) : world → world :=
  upd_db (λ d, MkDB (idxbuf d) (datbuf d) (name d) (g (cur d)) (hashoff d) (nhash d) (cnt d)).
Definition upd_cnt (g : counters → counters) : world → world :=
  upd_db (λ d, MkDB (idxbuf d) (datbuf d) (name d) (cur d) (hashoff d) (nhash d) (g (cnt d))).
Definition set_idxbuf (b : list Z) : world → world :=
  upd_db (λ d, MkDB b (datbuf d) (name d) (cur d) (hashoff d) (nhash d) (cnt d)).
Definition set_datbuf (b : list Z) : world → world :=
  upd_db (λ d, MkDB (idxbuf d) b (name d) (cur d) (hashoff d) (nhash d) (cnt d)).
Definition set_errno (e : Z) (w : world) : world :=
  World (db w) (idx w) (dat w) (lks w) e.

Definition set_idxoff v := upd_cur (λ c, Cursor v (idxlen c) (datoff c) (datlen c) (ptrval c) (ptroff c) (chainoff c)).
Definition set_idxlen v := upd_cur (λ c, Cursor (idxoff c) v (datoff c) (datlen c) (ptrval c) (ptroff c) (chainoff c)).
Definition set_datoff v := upd_cur (λ c, Cursor (idxoff c) (idxlen c) v (datlen c) (ptrval c) (ptroff c) (chainoff c)).
Definition set_datlen v := upd_cur (λ c, Cursor (idxoff c) (idxlen c) (datoff c) v (ptrval c) (ptroff c) (chainoff c)).
Definition set_ptrval v := upd_cur (λ c, Cursor (idxoff c) (idxlen c) (datoff c) (datlen c) v (ptroff c) (chainoff c)).
Definition set_ptroff v := upd_cur (λ c, Cursor (idxoff c) (idxlen c) (datoff c) (datlen c) (ptrval c) v (chainoff c)).
Definition set_chainoff v := upd_cur (λ c, Cursor (idxoff c) (idxlen c) (datoff c) (datlen c) (ptrval c) (ptroff c) v).

Definition bump_delok := upd_cnt (λ c, Counters (cnt_delok c + 1) (cnt_delerr c) (cnt_fetchok c) (cnt_fetcherr c) (cnt_nextrec c) (cnt_stor1 c) (cnt_stor2 c) (cnt_stor3 c) (cnt_stor4 c) (cnt_storerr c)).
Definition bump_delerr := upd_cnt (λ c, Counters (cnt_delok c) (cnt_delerr c + 1) (cnt_fetchok c) (cnt_fetcherr c) (cnt_nextrec c) (cnt_stor1 c) (cnt_stor2 c) (cnt_stor3 c) (cnt_stor4 c) (cnt_storerr c)).
Definition bump_fetchok := upd_cnt (λ c, Counters (cnt_delok c) (cnt_delerr c) (cnt_fetchok c + 1) (cnt_fetcherr c) (cnt_nextrec c) (cnt_stor1 c) (cnt_stor2 c) (cnt_stor3 c) (cnt_stor4 c) (cnt_storerr c)).
Definition bump_fetcherr := upd_cnt (λ c, Counters (cnt_delok c) (cnt_delerr c) (cnt_fetchok c) (cnt_fetcherr c + 1) (cnt_nextrec c) (cnt_stor1 c) (cnt_stor2 c) (cnt_stor3 c) (cnt_stor4 c) (cnt_storerr c)).
Definition bump_nextrec := upd_cnt (λ c, Counters (cnt_delok c) (cnt_delerr c) (cnt_fetchok c) (cnt_fetcherr c) (cnt_nextrec c + 1) (cnt_stor1 c) (cnt_stor2 c) (cnt_stor3 c) (cnt_stor4 c) (cnt_storerr c)).
Definition bump_stor1 := upd_cnt (λ c, Counters (cnt_delok c) (cnt_delerr c) (cnt_fetchok c) (cnt_fetcherr c) (cnt_nextrec c) (cnt_stor1 c + 1) (cnt_stor2 c) (cnt_stor3 c) (cnt_stor4 c) (cnt_storerr c)).
Definition bump_stor2 := upd_cnt (λ c, Counters (cnt_delok c) (cnt_delerr c) (cnt_fetchok c) (cnt_fetcherr c) (cnt_nextrec c) (cnt_stor1 c) (cnt_stor2 c + 1) (cnt_stor3 c) (cnt_stor4 c) (cnt_storerr c)).
Definition bump_stor3 := upd_cnt (λ c, Counters (cnt_delok c) (cnt_delerr c) (cnt_fetchok c) (cnt_fetcherr c) (cnt_nextrec c) (cnt_stor1 c) (cnt_stor2 c) (cnt_stor3 c + 1) (cnt_stor4 c) (cnt_storerr c)).
Definition bump_stor4 := upd_cnt (λ c, Counters (cnt_delok c) (cnt_delerr c) (cnt_fetchok c) (cnt_fetcherr c) (cnt_nextrec c) (cnt_stor1 c) (cnt_stor2 c) (cnt_stor3 c) (cnt_stor4 c + 1) (cnt_storerr c)).
Definition bump_storerr := upd_cnt (λ c, Counters (cnt_delok c) (cnt_delerr c) (cnt_fetchok c) (cnt_fetcherr c) (cnt_nextrec c) (cnt_stor1 c) (cnt_stor2 c) (cnt_stor3 c) (cnt_stor4 c) (cnt_storerr c + 1)).

(** ** System calls on the two descriptors *)

Definition file (f : fd) (w : world) : ofile := match f with FIdx => idx w | FDat => dat w end.
Definition set_file (f : fd) (o : ofile) (w : world) : world :=
  match f with
  | FIdx => World (db w) o (dat w) (lks w) (errno w)
  | FDat => World (db w) (idx w) o (lks w) (errno w)
  end.

Inductive whence := SEEK_SET | SEEK_CUR | SEEK_END.

Definition lseek (f : fd) (off : Z) (wh : whence) : M world Z := λ w,
  let o := file f w in
  let p := match wh with SEEK_SET => off | SEEK_CUR => fpos o + off
                       | SEEK_END => zlen (fdata o) + off end in
  if p <? 0 then Ok (-1, w) else Ok (p, set_file f (OFile (fdata o) p) w).

Definition read (f : fd) (n : Z) : M world (list Z) := λ w,
  let o := file f w in
  let bs := bread (fdata o) (fpos o) n in
  Ok (bs, set_file f (OFile (fdata o) (fpos o + zlen bs)) w).

(** Writes on a regular file succeed in full. *)
Definition write (f : fd) (bs : list Z) : M world Z := λ w,
  let o := file f w in
  Ok (zlen bs, set_file f (OFile (bwrite (fdata o) (fpos o) bs) (fpos o + zlen bs)) w).

(** [readw_lock], [writew_lock] and [un_lock] of [apue.h]: [fcntl] requests that
    wait until they are granted. *)
Definition lock_req (op : lkop) (f : fd) (off len : Z) : M world () :=
  modify (λ w, World (db w) (idx w) (dat w) (LkReq f op off len :: lks w) (errno w)).
Notation readw_lock := (lock_req RdLock).
Notation writew_lock := (lock_req WrLock).
Notation un_lock := (lock_req UnLock).

Definition err_dump {A} (msg : string) : M world A := fail (Abort msg).
Definition err_quit {A} (msg : string) : M world A := fail (Quit msg).

(** Copies bytes into a character buffer; outside the buffer is undefined. *)
Definition bput (b : list Z) (off : Z) (bs : list Z) : M world (list Z) :=
  if off + zlen bs <=? zlen b then mret (bwrite b off bs)
  else fail (UB "write past the end of a buffer").

(** ** Low-level access to the files *)

(** [_db_hash]: each character times its 1-based position, in an [unsigned long]. *)
Fixpoint hash_loop (hval i : Z) (key : list Z) : Z :=
  match key with
  | [] => hval
  | c :: key' => hash_loop (wrap_u 64 (hval + schar c * i)) (i + 1) key'
  end.
Definition _db_hash (d : DB) (key : list Z) : Z := hash_loop 0 1 key mod nhash d.

Definition _db_readptr (offset : Z) : M world Z :=
  p ← lseek FIdx offset SEEK_SET;
  if p =? -1 then err_dump "_db_readptr: lseek error to ptr field" else
  asciiptr ← read FIdx PTR_SZ;
  if negb (zlen asciiptr =? PTR_SZ) then err_dump "_db_readptr: read error of ptr field" else
  mret (atol (asciiptr ++ [0])).

Definition _db_readidx (offset : Z) : M world Z :=
  p ← lseek FIdx offset (if offset =? 0 then SEEK_CUR else SEEK_SET);
  _ ← modify (set_idxoff p);
  if p =? -1 then err_dump "_db_readidx: lseek error" else
  iov ← read FIdx (PTR_SZ + IDXLEN_SZ);
  if negb (zlen iov =? PTR_SZ + IDXLEN_SZ) then
    if (zlen iov =? 0) && (offset =? 0) then mret (-1)
    else err_dump "_db_readidx: readv error of index record"
  else
  let asciiptr := take (Z.to_nat PTR_SZ) iov in
  let asciilen := drop (Z.to_nat PTR_SZ) iov in
  let ptr := atol (asciiptr ++ [0]) in
  let len := wrap_u 64 (atoi (asciilen ++ [0])) in
  _ ← modify (set_ptrval ptr);
  _ ← modify (set_idxlen len);
  if (len <? IDXLEN_MIN) || (IDXLEN_MAX <? len) then err_dump "_db_readidx: invalid length" else
  bs ← read FIdx len;
  if negb (zlen bs =? len) then err_dump "_db_readidx: read error of index record" else
  b0 ← gets (λ w, idxbuf (db w));
  b1 ← bput b0 0 bs;
  _ ← modify (set_idxbuf b1);
  if negb (bool_decide (bs !! Z.to_nat (len - 1) = Some NEWLINE)) then
    err_dump "_db_readidx: missing newline" else
  b2 ← bput b1 (len - 1) [0];
  _ ← modify (set_idxbuf b2);
  match strchr b2 SEP with
  | None => err_dump "_db_readidx: missing first separator"
  | Some ptr1 =>
    b3 ← bput b2 ptr1 [0];
    _ ← modify (set_idxbuf b3);
    match strchr (drop (Z.to_nat (ptr1 + 1)) b3) SEP with
    | None => err_dump "_db_readidx: missing second separator"
    | Some d2 =>
      let ptr2 := ptr1 + 1 + d2 in
      b4 ← bput b3 ptr2 [0];
      _ ← modify (set_idxbuf b4);
      match strchr (drop (Z.to_nat (ptr2 + 1)) b4) SEP with
      | Some _ => err_dump "_db_readidx: too many separators"
      | None =>
        let off := atol (drop (Z.to_nat (ptr1 + 1)) b4) in
        let dl := wrap_u 64 (atol (drop (Z.to_nat (ptr2 + 1)) b4)) in
        _ ← modify (set_datoff off);
        if off <? 0 then err_dump "_db_readidx: starting offset < 0" else
        _ ← modify (set_datlen dl);
        if (dl <=? 0) || (DATLEN_MAX <? dl) then err_dump "_db_readidx: invalid length" else
        gets (λ w, ptrval (cur (db w)))
      end
    end
  end.

(** Returns the NUL-terminated data, the string in the data buffer. *)
Definition _db_readdat : M world (list Z) :=
  c ← gets (λ w, cur (db w));
  p ← lseek FDat (datoff c) SEEK_SET;
  if p =? -1 then err_dump "_db_readdat: lseek error" else
  bs ← read FDat (datlen c);
  if negb (zlen bs =? datlen c) then err_dump "_db_readdat: read error" else
  b0 ← gets (λ w, datbuf (db w));
  b1 ← bput b0 0 bs;
  _ ← modify (set_datbuf b1);
  if negb (bool_decide (bs !! Z.to_nat (datlen c - 1) = Some NEWLINE)) then
    err_dump "_db_readdat: missing newline" else
  b2 ← bput b1 (datlen c - 1) [0];
  _ ← modify (set_datbuf b2);
  mret (cstr b2).

(** [data] is the string the pointer denotes; [datlen] becomes its length plus the newline. *)
Definition _db_writedat (data : list Z) (offset : Z) (wh : whence) : M world () :=
  _ ← when (match wh with SEEK_END => true | _ => false end) (writew_lock FDat 0 0);
  p ← lseek FDat offset wh;
  _ ← modify (set_datoff p);
  if p =? -1 then err_dump "_db_writedat: lseek error" else
  let dl := zlen data + 1 in
  _ ← modify (set_datlen dl);
  n ← write FDat (data ++ [NEWLINE]);
  if negb (n =? dl) then err_dump "_db_writedat: writev error of data record" else
  when (match wh with SEEK_END => true | _ => false end) (un_lock FDat 0 0).

(** The index record [sprintf] builds in [idxbuf]. *)
Definition idx_fmt (key : list Z) (doff dlen : Z) : list Z :=
  key ++ [SEP] ++ dec doff ++ [SEP] ++ dec dlen ++ [NEWLINE].

(** [key] is the string the pointer denotes when the function is called;
    [_db_dodelete] passes [idxbuf] itself, the destination of the [sprintf]. *)
Definition _db_writeidx (key : list Z) (offset : Z) (wh : whence) (ptr : Z) : M world () :=
  _ ← modify (set_ptrval ptr);
  if (ptr <? 0) || (PTR_MAX <? ptr) then err_quit "_db_writeidx: invalid ptr" else
  d ← gets db;
  let s := idx_fmt key (datoff (cur d)) (datlen (cur d)) in
  b ← bput (idxbuf d) 0 (s ++ [0]);
  _ ← modify (set_idxbuf b);
  let len := zlen s in
  if (len <? IDXLEN_MIN) || (IDXLEN_MAX <? len) then err_dump "_db_writeidx: invalid length" else
  let asciiptrlen := pad PTR_SZ (dec ptr) ++ pad IDXLEN_SZ (dec len) in
  _ ← when (match wh with SEEK_END => true | _ => false end)
        (writew_lock FIdx ((nhash d + 1) * PTR_SZ + 1) 0);
  p ← lseek FIdx offset wh;
  _ ← modify (set_idxoff p);
  if p =? -1 then err_dump "_db_writeidx: lseek error" else
  n ← write FIdx (asciiptrlen ++ s);
  if negb (n =? PTR_SZ + IDXLEN_SZ + len) then
    err_dump "_db_writeidx: writev error of index record" else
  when (match wh with SEEK_END => true | _ => false end)
    (un_lock FIdx ((nhash d + 1) * PTR_SZ + 1) 0).

Definition _db_writeptr (offset ptr : Z) : M world () :=
  if (ptr <? 0) || (PTR_MAX <? ptr) then err_quit "_db_writeptr: invalid ptr" else
  p ← lseek FIdx offset SEEK_SET;
  if p =? -1 then err_dump "_db_writeptr: lseek error to ptr field" else
  n ← write FIdx (pad PTR_SZ (dec ptr));
  if negb (n =? PTR_SZ) then err_dump "_db_writeptr: write error of ptr field" else
  mret ().

(** ** Operations *)

(** Rounds a chain walk may take: more than the records the index file can hold. *)
Definition chain_fuel (w : world) : nat := S (length (fdata (idx w))).

(** One round of the search loop on a chain: [offset] is the record to look at. *)
Definition find_body (key : list Z) (offset : Z) : M world (Z + Z) :=
  if offset =? 0 then mret (inr 0) else
  nextoffset ← _db_readidx offset;
  b ← gets (λ w, idxbuf (db w));
  if str_eqb b key then mret (inr offset) else
  _ ← modify (set_ptroff offset);
  mret (inl nextoffset).

Definition _db_find_and_lock (key : list Z) (writelock : bool) : M world Z :=
  d ← gets db;
  let co := _db_hash d key * PTR_SZ + hashoff d in
  _ ← modify (set_chainoff co);
  _ ← modify (set_ptroff co);
  _ ← lock_req (if writelock then WrLock else RdLock) FIdx co 1;
  offset ← _db_readptr co;
  fuel ← gets chain_fuel;
  offset ← iter fuel (find_body key) offset;
  mret (if offset =? 0 then -1 else 0).

(** Returns the data, or [None] for the null pointer. *)
Definition db_fetch (key : list Z) : M world (option (list Z)) :=
  rc ← _db_find_and_lock key false;
  ptr ← (if rc <? 0 then _ ← modify bump_fetcherr; mret None
         else data ← _db_readdat; _ ← modify bump_fetchok; mret (Some data));
  c ← gets (λ w, cur (db w));
  _ ← un_lock FIdx (chainoff c) 1;
  mret ptr.

(** The blanked key: [while ( *ptr) *ptr++ = SPACE]. *)
Definition blank (s : list Z) : list Z := replicate (length s) SPACE.

Definition _db_dodelete : M world () :=
  d ← gets db;
  let n := datlen (cur d) - 1 in
  b ← bput (datbuf d) 0 (replicate (Z.to_nat n) SPACE ++ [0]);
  _ ← modify (set_datbuf b);
  let k := blank (cstr (idxbuf d)) in
  b ← bput (idxbuf d) 0 k;
  _ ← modify (set_idxbuf b);
  _ ← writew_lock FIdx FREE_OFF 1;
  d ← gets db;
  _ ← _db_writedat (cstr (datbuf d)) (datoff (cur d)) SEEK_SET;
  freeptr ← _db_readptr FREE_OFF;
  d ← gets db;
  let saveptr := ptrval (cur d) in
  _ ← _db_writeidx (cstr (idxbuf d)) (idxoff (cur d)) SEEK_SET freeptr;
  d ← gets db;
  _ ← _db_writeptr FREE_OFF (idxoff (cur d));
  _ ← _db_writeptr (ptroff (cur d)) saveptr;
  un_lock FIdx FREE_OFF 1.

Definition db_delete (key : list Z) : M world Z :=
  found ← _db_find_and_lock key true;
  rc ← (if found =? 0 then _ ← _db_dodelete; _ ← modify bump_delok; mret 0
        else _ ← modify bump_delerr; mret (-1));
  c ← gets (λ w, cur (db w));
  _ ← un_lock FIdx (chainoff c) 1;
  mret rc.

(** One round of the free-list search; the locals are [offset] and [saveoffset]. *)
Definition findfree_body (keylen dl : Z) (x : Z * Z) : M world ((Z * Z) + (Z * Z)) :=
  let '(offset, saveoffset) := x in
  if offset =? 0 then mret (inr (0, saveoffset)) else
  nextoffset ← _db_readidx offset;
  d ← gets db;
  if (strlen (idxbuf d) =? keylen) && (datlen (cur d) =? dl)
  then mret (inr (offset, saveoffset))
  else mret (inl (nextoffset, offset)).

Definition _db_findfree (keylen dl : Z) : M world Z :=
  _ ← writew_lock FIdx FREE_OFF 1;
  offset ← _db_readptr FREE_OFF;
  fuel ← gets chain_fuel;
  '(offset, saveoffset) ← iter fuel (findfree_body keylen dl) (offset, FREE_OFF);
  rc ← (if offset =? 0 then mret (-1)
        else c ← gets (λ w, cur (db w));
             _ ← _db_writeptr saveoffset (ptrval c); mret 0);
  _ ← un_lock FIdx FREE_OFF 1;
  mret rc.

Definition db_store (key data : list Z) (flag : Z) : M world Z :=
  if negb (flag =? DB_INSERT) && negb (flag =? DB_REPLACE) && negb (flag =? DB_STORE)
  then _ ← modify (set_errno EINVAL); mret (-1) else
  let keylen := zlen key in
  let dl := zlen data + 1 in
  if (dl <? DATLEN_MIN) || (DATLEN_MAX <? dl) then err_dump "db_store: invalid data length" else
  found ← _db_find_and_lock key true;
  rc ← (if found <? 0 then
          if flag =? DB_REPLACE then
            _ ← modify bump_storerr; _ ← modify (set_errno ENOENT); mret (-1)
          else
          c ← gets (λ w, cur (db w));
          ptr ← _db_readptr (chainoff c);
          free ← _db_findfree keylen dl;
          if free <? 0 then
            _ ← _db_writedat data 0 SEEK_END;
            _ ← _db_writeidx key 0 SEEK_END ptr;
            c ← gets (λ w, cur (db w));
            _ ← _db_writeptr (chainoff c) (idxoff c);
            _ ← modify bump_stor1; mret 0
          else
            c ← gets (λ w, cur (db w));
            _ ← _db_writedat data (datoff c) SEEK_SET;
            c ← gets (λ w, cur (db w));
            _ ← _db_writeidx key (idxoff c) SEEK_SET ptr;
            c ← gets (λ w, cur (db w));
            _ ← _db_writeptr (chainoff c) (idxoff c);
            _ ← modify bump_stor2; mret 0
        else if flag =? DB_INSERT then _ ← modify bump_storerr; mret 1
        else
          c ← gets (λ w, cur (db w));
          if negb (dl =? datlen c) then
            _ ← _db_dodelete;
            ptr ← _db_readptr (chainoff c);
            _ ← _db_writedat data 0 SEEK_END;
            _ ← _db_writeidx key 0 SEEK_END ptr;
            c ← gets (λ w, cur (db w));
            _ ← _db_writeptr (chainoff c) (idxoff c);
            _ ← modify bump_stor3; mret 0
          else
            _ ← _db_writedat data (datoff c) SEEK_SET;
            _ ← modify bump_stor4; mret 0);
  c ← gets (λ w, cur (db w));
  _ ← un_lock FIdx (chainoff c) 1;
  mret rc.

Definition db_rewind : M world () :=
  d ← gets db;
  p ← lseek FIdx ((nhash d + 1) * PTR_SZ + 1) SEEK_SET;
  _ ← modify (set_idxoff p);
  if p =? -1 then err_dump "db_rewind: lseek error" else mret ().

(** The inner [while] of [db_nextrec]: the character it stops on. *)
Fixpoint skip_blank (b : list Z) : Z :=
  match b with
  | [] => 0
  | c :: b' => if (negb (c =? 0)) && (c =? SPACE) then skip_blank b' else c
  end.

(** One round of the [do ... while] of [db_nextrec]; [true] when a record was found. *)
Definition nextrec_body (_ : ()) : M world (() + bool) :=
  r ← _db_readidx 0;
  if r <? 0 then mret (inr false) else
  b ← gets (λ w, idxbuf (db w));
  if skip_blank b =? 0 then mret (inl ()) else mret (inr true).

(** Returns the key copied to the caller and the data, or [None] at the end of file. *)
Definition db_nextrec : M world (option (list Z * list Z)) :=
  _ ← readw_lock FIdx FREE_OFF 1;
  fuel ← gets chain_fuel;
  more ← iter fuel nextrec_body ();
  ptr ← (if more : bool then
           b ← gets (λ w, idxbuf (db w));
           data ← _db_readdat;
           _ ← modify bump_nextrec; mret (Some (cstr b, data))
         else mret None);
  _ ← un_lock FIdx FREE_OFF 1;
  mret ptr.

(** ** Opening and closing *)


(** The directory: file names to contents. *)
Abbreviation fsys := (gmap (list Z) (list Z)).

(** [open]: [None] is a negative descriptor. *)
Definition open_file (fs : fsys) (path : list Z) (oflag : Z) : option (list Z * fsys) :=
  match fs !! path with
  | Some d => if has_flag oflag O_CREAT && has_flag oflag O_EXCL then None
              else if has_flag oflag O_TRUNC then Some ([], <[path:=[]]> fs) else Some (d, fs)
  | None => if has_flag oflag O_CREAT then Some ([], <[path:=[]]> fs) else None
  end.

Definition idx_suffix : list Z := [46; 105; 100; 120].
Definition dat_suffix : list Z := [46; 100; 97; 116].

Definition _db_alloc (pathname : list Z) : DB :=
  MkDB (replicate (Z.to_nat (IDXLEN_MAX + 2)) 0) (replicate (Z.to_nat (DATLEN_MAX + 2)) 0)
    pathname (Cursor 0 0 0 0 0 0 0) HASH_OFF NHASH_DEF (Counters 0 0 0 0 0 0 0 0 0 0).

(** The hash table [db_open] writes: [NHASH_DEF + 1] pointers of value 0 and a newline. *)
Definition empty_table : list Z :=
  concat (replicate (Z.to_nat (NHASH_DEF + 1)) (pad PTR_SZ (dec 0))) ++ [NEWLINE].

Definition db_init : M world () :=
  _ ← writew_lock FIdx 0 0;
  size ← gets (λ w, zlen (fdata (idx w)));
  _ ← (if size =? 0 then
         n ← write FIdx empty_table;
         if negb (n =? zlen empty_table) then err_dump "db_open: index file init write error"
         else mret ()
       else mret ());
  un_lock FIdx 0 0.

Definition db_open (fs : fsys) (pathname : list Z) (oflag : Z) : result (option world * fsys) :=
  match open_file fs (pathname ++ idx_suffix) oflag with
  | None =>
      let fs' := match open_file fs (pathname ++ dat_suffix) oflag with
                 | Some (_, fs') => fs' | None => fs end in
      Ok (None, fs')
  | Some (i, fs1) =>
    match open_file fs1 (pathname ++ dat_suffix) oflag with
    | None => Ok (None, fs1)
    | Some (d, fs2) =>
      let w := World (_db_alloc pathname) (OFile i 0) (OFile d 0) [] 0 in
      match (_ ← when (has_flag oflag O_CREAT && has_flag oflag O_TRUNC) db_init; db_rewind) w with
      | Ok (_, w') => Ok (Some w', fs2)
      | Fault f => Fault f
      end
    end
  end.

(** [db_close]/[_db_free]: the descriptors are closed, so the directory shows the
    contents, and the locks of the process on the files are gone. *)
Definition db_close (fs : fsys) (w : world) : fsys :=
  <[name (db w) ++ dat_suffix := fdata (dat w)]>
    (<[name (db w) ++ idx_suffix := fdata (idx w)]> fs).
