(* ===== verification/DbRep.v ===== *)
(** The layout of the two database files: the index file is a table of chain
    pointers followed by index records, the data file is the data records in the
    same order.  Each low-level access of [Db] is shown to read or update one
    component of this layout. *)
From S2P Require Import Prelude CLib Db.

(** ** The layout *)

(** One index record with its data record; [rptr] is the chain pointer. *)
Record rec := Rec { rptr : Z; rkey : list Z; rdata : list Z }.

(** The contents of the files: the free-list pointer and the hash table, then the records. *)
Record img := Img { ihdr : list Z; irecs : list rec }.

Definition rec_dlen (r : rec) : Z := zlen (rdata r) + 1.
Definition rec_body (doff : Z) (r : rec) : list Z := idx_fmt (rkey r) doff (rec_dlen r).
Definition enc_rec (doff : Z) (r : rec) : list Z :=
  pad PTR_SZ (dec (rptr r)) ++ pad IDXLEN_SZ (dec (zlen (rec_body doff r))) ++ rec_body doff r.

Fixpoint enc_recs (doff : Z) (rs : list rec) : list Z :=
  match rs with
  | [] => []
  | r :: rs' => enc_rec doff r ++ enc_recs (doff + rec_dlen r) rs'
  end.
Definition enc_dat (rs : list rec) : list Z := concat (map (λ r, rdata r ++ [NEWLINE]) rs).
Definition enc_ptrs (ps : list Z) : list Z := concat (map (λ p, pad PTR_SZ (dec p)) ps).

Definition idx_bytes (m : img) : list Z := enc_ptrs (ihdr m) ++ [NEWLINE] ++ enc_recs 0 (irecs m).
Definition dat_bytes (m : img) : list Z := enc_dat (irecs m).

(** Offsets of the [i]-th record in the data and index files. *)
Definition doff (m : img) (i : nat) : Z := zlen (enc_dat (take i (irecs m))).
Definition ioff (m : img) (i : nat) : Z :=
  zlen (enc_ptrs (ihdr m)) + 1 + zlen (enc_recs 0 (take i (irecs m))).

(** Places that hold a chain pointer. *)
Inductive loc := LHdr (j : nat) | LRec (i : nat).
#[export] Instance loc_eq_dec : EqDecision loc.
Proof. solve_decision. Defined.

Definition loc_off (m : img) (l : loc) : Z :=
  match l with LHdr j => PTR_SZ * Z.of_nat j | LRec i => ioff m i end.
Definition ptr_at (m : img) (l : loc) : option Z :=
  match l with LHdr j => ihdr m !! j | LRec i => rptr <$> irecs m !! i end.
Definition set_rptr (v : Z) (r : rec) : rec := Rec v (rkey r) (rdata r).
Definition wptr (l : loc) (v : Z) (m : img) : img :=
  match l with
  | LHdr j => Img (<[j:=v]> (ihdr m)) (irecs m)
  | LRec i => Img (ihdr m) (alter (set_rptr v) i (irecs m))
  end.
Definition set_rec (i : nat) (r : rec) (m : img) : img := Img (ihdr m) (<[i:=r]> (irecs m)).
Definition add_rec (r : rec) (m : img) : img := Img (ihdr m) (irecs m ++ [r]).

(** ** Well-formed components *)

Definition ptr_ok (p : Z) : Prop := 0 ≤ p ≤ PTR_MAX.

(** What a key and a data string must satisfy to be stored and read back. *)
Definition key_ok (k : list Z) : Prop := no_nul k ∧ SEP ∉ k.
Definition data_ok (d : list Z) : Prop := no_nul d ∧ 1 ≤ zlen d ≤ DATLEN_MAX - 1.

Definition rec_ok (doff : Z) (r : rec) : Prop :=
  ptr_ok (rptr r) ∧ key_ok (rkey r) ∧ data_ok (rdata r) ∧
  IDXLEN_MIN ≤ zlen (rec_body doff r) ≤ IDXLEN_MAX ∧ 0 ≤ doff ≤ LONG_MAX.

(** Every component of the image can be encoded. *)
Definition img_ok (m : img) : Prop :=
  Forall ptr_ok (ihdr m) ∧ ∀ i r, irecs m !! i = Some r → rec_ok (doff m i) r.

Definition same_shape (r r' : rec) : Prop :=
  length (rkey r) = length (rkey r') ∧ length (rdata r) = length (rdata r').

(** ** Lengths *)

Lemma dec_ptr_le p : ptr_ok p → zlen (dec p) ≤ PTR_SZ.
Proof.
  intros [? ?]. unfold zlen. pose proof (dec_length p 7). unfold PTR_SZ, PTR_MAX in *.
  change (10 ^ Z.of_nat 7) with 10000000 in *. lia.
Qed.

Lemma pad_ptr p : ptr_ok p → zlen (pad PTR_SZ (dec p)) = PTR_SZ.
Proof. intros. by apply pad_length, dec_ptr_le. Qed.

Lemma pad_len n : 0 ≤ n ≤ IDXLEN_MAX → zlen (pad IDXLEN_SZ (dec n)) = IDXLEN_SZ.
Proof.
  intros. apply pad_length. unfold zlen. pose proof (dec_length n 4).
  unfold IDXLEN_SZ, IDXLEN_MAX in *. change (10 ^ Z.of_nat 4) with 10000 in *. lia.
Qed.

Lemma rec_body_shape d r r' : same_shape r r' → zlen (rec_body d r) = zlen (rec_body d r').
Proof.
  intros [Hk Hd]. unfold rec_body, idx_fmt, rec_dlen. rewrite !zlen_app. unfold zlen. by rewrite Hk, Hd.
Qed.

Lemma enc_rec_length d r : ptr_ok (rptr r) → 0 ≤ zlen (rec_body d r) ≤ IDXLEN_MAX →
  zlen (enc_rec d r) = PTR_SZ + IDXLEN_SZ + zlen (rec_body d r).
Proof. intros. unfold enc_rec. rewrite !zlen_app, pad_ptr, pad_len by done. lia. Qed.

Lemma enc_ptrs_app a b : enc_ptrs (a ++ b) = enc_ptrs a ++ enc_ptrs b.
Proof. unfold enc_ptrs. by rewrite map_app, concat_app. Qed.

Lemma enc_ptrs_length ps : Forall ptr_ok ps → zlen (enc_ptrs ps) = PTR_SZ * zlen ps.
Proof.
  induction 1 as [|p ps Hp _ IH]; [done|].
  change (enc_ptrs (p :: ps)) with (pad PTR_SZ (dec p) ++ enc_ptrs ps).
  rewrite zlen_app, pad_ptr, IH, zlen_cons by done. lia.
Qed.

Lemma enc_dat_app a b : enc_dat (a ++ b) = enc_dat a ++ enc_dat b.
Proof. unfold enc_dat. by rewrite map_app, concat_app. Qed.

Lemma enc_dat_cons r rs : enc_dat (r :: rs) = rdata r ++ [NEWLINE] ++ enc_dat rs.
Proof. unfold enc_dat. simpl. by rewrite <- app_assoc. Qed.

Lemma enc_dat_zcons r rs : zlen (enc_dat (r :: rs)) = rec_dlen r + zlen (enc_dat rs).
Proof. rewrite enc_dat_cons, !zlen_app. unfold rec_dlen. change (zlen [NEWLINE]) with 1. lia. Qed.

Lemma enc_recs_app d a b :
  enc_recs d (a ++ b) = enc_recs d a ++ enc_recs (d + zlen (enc_dat a)) b.
Proof.
  revert d. induction a as [|r a IH]; intros d; cbn [enc_recs app].
  - change (zlen (enc_dat [])) with 0. by rewrite Z.add_0_r.
  - rewrite IH, enc_dat_zcons, <- app_assoc. by rewrite Z.add_assoc.
Qed.

Lemma ptr_at_split m L p : ptr_at m L = Some p → img_ok m →
  ∃ a c, idx_bytes m = a ++ pad PTR_SZ (dec p) ++ c ∧ zlen a = loc_off m L ∧
    ∀ v, idx_bytes (wptr L v m) = a ++ pad PTR_SZ (dec v) ++ c.
Proof.
  intros Hp [Hh Hr]. destruct L as [j|i]; simpl in Hp.
  - exists (enc_ptrs (take j (ihdr m))),
      (enc_ptrs (drop (S j) (ihdr m)) ++ [NEWLINE] ++ enc_recs 0 (irecs m)).
    pose proof (lookup_lt_Some _ _ _ Hp) as Hlt.
    split_and!.
    + unfold idx_bytes. rewrite <- (take_drop_middle _ _ _ Hp) at 1.
      rewrite enc_ptrs_app. change (p :: ?l) with ([p] ++ l). rewrite enc_ptrs_app.
      unfold enc_ptrs at 2. simpl. by rewrite app_nil_r, <- !app_assoc.
    + rewrite enc_ptrs_length by by apply Forall_take.
      simpl. unfold zlen. rewrite length_take. f_equal. lia.
    + intros v. unfold idx_bytes. simpl. rewrite insert_take_drop by done.
      rewrite enc_ptrs_app. change (v :: ?l) with ([v] ++ l). rewrite enc_ptrs_app.
      unfold enc_ptrs at 2. simpl. by rewrite app_nil_r, <- !app_assoc.
  - destruct (irecs m !! i) as [r|] eqn:Hi; simplify_eq/=.
    pose proof (lookup_lt_Some _ _ _ Hi) as Hlt.
    exists (enc_ptrs (ihdr m) ++ [NEWLINE] ++ enc_recs 0 (take i (irecs m))),
      (pad IDXLEN_SZ (dec (zlen (rec_body (doff m i) r))) ++ rec_body (doff m i) r
        ++ enc_recs (doff m i + rec_dlen r) (drop (S i) (irecs m))).
    split_and!.
    + unfold idx_bytes. rewrite <- (take_drop_middle _ _ _ Hi) at 1.
      rewrite enc_recs_app. cbn [enc_recs]. unfold enc_rec, doff.
      by rewrite <- !app_assoc, Z.add_0_l.
    + unfold ioff. rewrite !zlen_app. change (zlen [NEWLINE]) with 1. lia.
    + intros v. unfold idx_bytes. simpl.
      replace (alter (set_rptr v) i (irecs m)) with (<[i:=set_rptr v r]> (irecs m)).
      2:{ symmetry. apply list_eq. intros k. destruct (decide (k = i)) as [->|].
          - by rewrite list_lookup_alter_eq, Hi, list_lookup_insert_eq.
          - by rewrite list_lookup_alter_ne, list_lookup_insert_ne. }
      rewrite insert_take_drop by done.
      rewrite enc_recs_app. cbn [enc_recs]. unfold enc_rec, doff.
      by rewrite <- !app_assoc, Z.add_0_l.
Qed.

Lemma rec_split m i r : irecs m !! i = Some r →
  ∃ a c, idx_bytes m = a ++ enc_rec (doff m i) r ++ c ∧ zlen a = ioff m i ∧
    ∀ r', length (rdata r') = length (rdata r) →
      idx_bytes (set_rec i r' m) = a ++ enc_rec (doff m i) r' ++ c.
Proof.
  intros Hi. pose proof (lookup_lt_Some _ _ _ Hi) as Hlt.
  exists (enc_ptrs (ihdr m) ++ [NEWLINE] ++ enc_recs 0 (take i (irecs m))),
    (enc_recs (doff m i + rec_dlen r) (drop (S i) (irecs m))).
  split_and!.
  - unfold idx_bytes. rewrite <- (take_drop_middle _ _ _ Hi) at 1.
    rewrite enc_recs_app. cbn [enc_recs]. unfold doff. by rewrite <- !app_assoc, Z.add_0_l.
  - unfold ioff. rewrite !zlen_app. change (zlen [NEWLINE]) with 1. lia.
  - intros r' Hd. unfold idx_bytes, set_rec. simpl. rewrite insert_take_drop by done.
    rewrite enc_recs_app. cbn [enc_recs]. unfold doff.
    replace (rec_dlen r') with (rec_dlen r) by (unfold rec_dlen, zlen; by rewrite Hd).
    by rewrite <- !app_assoc, Z.add_0_l.
Qed.

Lemma dat_split m i r : irecs m !! i = Some r →
  ∃ a c, dat_bytes m = a ++ (rdata r ++ [NEWLINE]) ++ c ∧ zlen a = doff m i ∧
    ∀ r', dat_bytes (set_rec i r' m) = a ++ (rdata r' ++ [NEWLINE]) ++ c.
Proof.
  intros Hi. pose proof (lookup_lt_Some _ _ _ Hi) as Hlt.
  exists (enc_dat (take i (irecs m))), (enc_dat (drop (S i) (irecs m))).
  split_and!; [|done|].
  - unfold dat_bytes. rewrite <- (take_drop_middle _ _ _ Hi) at 1.
    by rewrite enc_dat_app, enc_dat_cons, <- !app_assoc.
  - intros r'. unfold dat_bytes, set_rec. simpl. rewrite insert_take_drop by done.
    by rewrite enc_dat_app, enc_dat_cons, <- !app_assoc.
Qed.

(** ** Offsets depend only on the shape of the records *)

Lemma ptr_at_off_nonneg m L : 0 ≤ loc_off m L.
Proof.
  destruct L; simpl; [unfold PTR_SZ; lia|]. unfold ioff.
  pose proof (zlen_nonneg (enc_ptrs (ihdr m))). pose proof (zlen_nonneg (enc_recs 0 (take i (irecs m)))). lia.
Qed.

Lemma doff_nonneg m i : 0 ≤ doff m i.
Proof. apply zlen_nonneg. Qed.

Definition shape_eq (rs rs' : list rec) : Prop := Forall2 same_shape rs rs'.

Lemma same_shape_refl r : same_shape r r.
Proof. done. Qed.

#[export] Instance same_shape_equiv : Equivalence same_shape.
Proof.
  split.
  - intros r. done.
  - intros r r' [? ?]. by split.
  - intros r1 r2 r3 [? ?] [? ?]. split; congruence.
Qed.

#[export] Instance shape_eq_equiv : Equivalence shape_eq.
Proof.
  split; intros ?; unfold shape_eq.
  - induction x; by constructor.
  - intros ? H. by symmetry in H.
  - intros ?? H H'. by etrans.
Qed.

Lemma enc_dat_shape rs rs' : shape_eq rs rs' → zlen (enc_dat rs) = zlen (enc_dat rs').
Proof.
  induction 1 as [|r r' rs rs' [_ Hd] _ IH]; [done|].
  rewrite !enc_dat_zcons, IH. unfold rec_dlen, zlen. by rewrite Hd.
Qed.

(** The images of two file states with the same records up to contents. *)
Definition img_shape (m m' : img) : Prop :=
  length (ihdr m) = length (ihdr m') ∧ shape_eq (irecs m) (irecs m').

#[export] Instance img_shape_equiv : Equivalence img_shape.
Proof.
  split.
  - intros m. split; [done|]. reflexivity.
  - intros m m' [? H]. split; [done|]. by symmetry.
  - intros m1 m2 m3 [? H] [? H']. split; [congruence|]. by transitivity (irecs m2).
Qed.

Lemma img_shape_doff m m' i : img_shape m m' → doff m i = doff m' i.
Proof. intros [_ H]. unfold doff. apply enc_dat_shape. by apply Forall2_take. Qed.

Lemma img_shape_lookup m m' i : img_shape m m' →
  (irecs m !! i = None ∧ irecs m' !! i = None) ∨
  ∃ r r', irecs m !! i = Some r ∧ irecs m' !! i = Some r' ∧ same_shape r r'.
Proof.
  intros [_ H]. destruct (irecs m !! i) as [r|] eqn:E.
  - right. eapply Forall2_lookup_l in H as (r' & ? & ?); [|done]. eauto.
  - left. split; [done|]. apply lookup_ge_None. apply lookup_ge_None in E.
    by rewrite <- (Forall2_length _ _ _ H).
Qed.

Lemma enc_recs_shape d rs rs' :
  shape_eq rs rs' →
  (∀ i r, rs !! i = Some r → rec_ok (d + zlen (enc_dat (take i rs))) r) →
  (∀ i r, rs' !! i = Some r → rec_ok (d + zlen (enc_dat (take i rs'))) r) →
  zlen (enc_recs d rs) = zlen (enc_recs d rs').
Proof.
  intros H. revert d. induction H as [|r r' rs rs' Hr Hrs IH]; intros d H1 H2; [done|].
  cbn [enc_recs]. rewrite !zlen_app.
  pose proof (H1 0%nat r eq_refl) as (Hp & _ & _ & Hb & _).
  pose proof (H2 0%nat r' eq_refl) as (Hp' & _ & _ & Hb' & _).
  change (zlen (enc_dat (take 0 _))) with 0 in *. rewrite Z.add_0_r in *.
  unfold IDXLEN_MIN in *.
  rewrite !enc_rec_length by (done || lia). rewrite (rec_body_shape _ _ _ Hr). f_equal.
  assert (rec_dlen r = rec_dlen r') as E by (unfold rec_dlen, zlen; by rewrite (proj2 Hr)).
  rewrite <- E. apply IH; intros i x Hi.
  - specialize (H1 (S i) x Hi). cbn [take] in H1. by rewrite enc_dat_zcons, Z.add_assoc in H1.
  - specialize (H2 (S i) x Hi). cbn [take] in H2. by rewrite enc_dat_zcons, <- E, Z.add_assoc in H2.
Qed.

Lemma img_ok_take m i k r : img_ok m → take i (irecs m) !! k = Some r →
  rec_ok (0 + zlen (enc_dat (take k (take i (irecs m))))) r.
Proof.
  intros [_ H] Hk. pose proof (lookup_lt_Some _ _ _ Hk) as Hl. rewrite length_take in Hl.
  rewrite lookup_take_lt in Hk by lia. rewrite take_take, Nat.min_l by lia. by apply H.
Qed.

Lemma img_shape_ioff m m' i : img_shape m m' → img_ok m → img_ok m' → ioff m i = ioff m' i.
Proof.
  intros [Hh H] Hm Hm'. unfold ioff.
  rewrite !enc_ptrs_length by (apply Hm || apply Hm'). unfold zlen at 1 3. rewrite Hh. f_equal.
  apply enc_recs_shape; [by apply Forall2_take| |]; intros k r; by apply img_ok_take.
Qed.

Lemma img_shape_loc_off m m' L : img_shape m m' → img_ok m → img_ok m' →
  loc_off m L = loc_off m' L.
Proof. intros. destruct L; [done|]. by apply img_shape_ioff. Qed.

Lemma insert_shape_eq (rs : list rec) (i : nat) r r' : rs !! i = Some r → same_shape r r' → shape_eq rs (<[i:=r']> rs).
Proof.
  intros Hi Hs. rewrite <- (list_insert_id rs i r Hi) at 1. apply Forall2_insert; [|done].
  reflexivity.
Qed.

Lemma set_rec_shape m i r r' : irecs m !! i = Some r → same_shape r r' → img_shape m (set_rec i r' m).
Proof. intros. split; [done|]. simpl. by eapply insert_shape_eq. Qed.

Lemma alter_insert (f : rec → rec) (rs : list rec) (i : nat) r : rs !! i = Some r → alter f i rs = <[i:=f r]> rs.
Proof.
  intros Hi. pose proof (lookup_lt_Some _ _ _ Hi). apply list_eq. intros k.
  destruct (decide (k = i)) as [->|].
  - by rewrite list_lookup_alter_eq, Hi, list_lookup_insert_eq.
  - by rewrite list_lookup_alter_ne, list_lookup_insert_ne.
Qed.

Lemma wptr_shape m L v : img_shape m (wptr L v m).
Proof.
  destruct L as [j|i]; split; simpl; try reflexivity.
  - by rewrite length_insert.
  - destruct (irecs m !! i) as [r|] eqn:Hi.
    + rewrite (alter_insert _ _ _ _ Hi). by eapply insert_shape_eq.
    + replace (alter (set_rptr v) i (irecs m)) with (irecs m); [reflexivity|].
      symmetry. apply list_eq. intros k. destruct (decide (k = i)) as [->|].
      * by rewrite list_lookup_alter_eq, Hi.
      * by rewrite list_lookup_alter_ne.
Qed.

Lemma set_rec_ok m i r r' : img_ok m → irecs m !! i = Some r → same_shape r r' →
  rec_ok (doff m i) r' → img_ok (set_rec i r' m).
Proof.
  intros [Hh Hr] Hi Hs Hr'. split; [done|]. intros k x Hk.
  rewrite <- (img_shape_doff m (set_rec i r' m)) by by eapply set_rec_shape.
  simpl in Hk. apply list_lookup_insert_Some in Hk as [(-> & -> & _)|[_ Hk]]; [done|by apply Hr].
Qed.

Lemma wptr_ok m L v : img_ok m → ptr_ok v → img_ok (wptr L v m).
Proof.
  intros [Hh Hr] Hv. split.
  - destruct L as [j|i]; simpl; [|done]. by apply Forall_insert.
  - intros k x Hk. rewrite <- (img_shape_doff m) by apply wptr_shape.
    destruct L as [j|i]; simpl in Hk; [by apply Hr|].
    destruct (decide (k = i)) as [->|Hne].
    + rewrite list_lookup_alter_eq in Hk. destruct (irecs m !! i) as [r|] eqn:E; simplify_eq/=.
      destruct (Hr _ _ E) as (_ & ?). by split.
    + rewrite list_lookup_alter_ne in Hk by done. by apply Hr.
Qed.

Lemma wptr_dat m L v : dat_bytes (wptr L v m) = dat_bytes m.
Proof.
  destruct L as [j|i]; [done|]. unfold dat_bytes, enc_dat. simpl. f_equal.
  apply list_eq. intros k. rewrite !list_lookup_fmap. destruct (decide (k = i)) as [->|].
  - rewrite list_lookup_alter_eq. by destruct (irecs m !! i).
  - by rewrite list_lookup_alter_ne.
Qed.

(** ** The low-level functions on the layout *)

(** The world holds the image, and the handle is as [db_open] made it. *)
Definition wok (m : img) (w : world) : Prop :=
  fdata (idx w) = idx_bytes m ∧ fdata (dat w) = dat_bytes m ∧
  zlen (idxbuf (db w)) = IDXLEN_MAX + 2 ∧ zlen (datbuf (db w)) = DATLEN_MAX + 2 ∧
  nhash (db w) = NHASH_DEF ∧ hashoff (db w) = HASH_OFF.

Lemma readptr_spec m L p w : fdata (idx w) = idx_bytes m → img_ok m → ptr_at m L = Some p →
  _db_readptr (loc_off m L) w =
    Ok (p, set_file FIdx (OFile (idx_bytes m) (loc_off m L + PTR_SZ)) w).
Proof.
  intros Hw Hok Hp. destruct (ptr_at_split m L p Hp Hok) as (a & c & E & Ha & _).
  assert (ptr_ok p) as Hpok.
  { destruct Hok as [Hh Hr]. destruct L; simpl in Hp; [by eapply Forall_lookup_1|].
    destruct (irecs m !! i) as [r|] eqn:Ei; simplify_eq/=. by apply (Hr _ _ Ei). }
  pose proof (ptr_at_off_nonneg m L) as Hn.
  unfold _db_readptr, mbind, M_bind, lseek. simpl.
  destruct (Z.ltb_spec (loc_off m L) 0); [lia|].
  destruct (Z.eqb_spec (loc_off m L) (-1)); [lia|].
  unfold read. simpl. rewrite Hw, E, bread_mid by (done || by rewrite pad_ptr).
  rewrite pad_ptr by done. simpl. unfold mret, M_ret.
  rewrite atol_pad; [done| |done]. unfold ptr_ok, PTR_MAX, LONG_MAX in *. lia.
Qed.

Lemma writeptr_spec m L p v w : fdata (idx w) = idx_bytes m → img_ok m →
  ptr_at m L = Some p → ptr_ok v →
  _db_writeptr (loc_off m L) v w =
    Ok ((), set_file FIdx (OFile (idx_bytes (wptr L v m)) (loc_off m L + PTR_SZ)) w).
Proof.
  intros Hw Hok Hp Hv. destruct (ptr_at_split m L p Hp Hok) as (a & c & E & Ha & E').
  assert (ptr_ok p) as Hpok.
  { destruct Hok as [Hh Hr]. destruct L; simpl in Hp; [by eapply Forall_lookup_1|].
    destruct (irecs m !! i) as [r|] eqn:Ei; simplify_eq/=. by apply (Hr _ _ Ei). }
  pose proof (ptr_at_off_nonneg m L) as Hn. pose proof Hv as [Hv1 Hv2].
  unfold _db_writeptr, mbind, M_bind, lseek. simpl.
  destruct (Z.ltb_spec v 0); [lia|]. destruct (Z.ltb_spec PTR_MAX v); [lia|]. simpl.
  destruct (Z.ltb_spec (loc_off m L) 0); [lia|].
  destruct (Z.eqb_spec (loc_off m L) (-1)); [lia|].
  unfold write. simpl. pose proof (pad_ptr v Hv) as HP. pose proof (pad_ptr p Hpok) as HP'. rewrite HP. simpl.
  rewrite Hw, E, bwrite_mid by (done || unfold zlen in *; lia). by rewrite E'.
Qed.

Lemma bput_eq {b off bs} (w : world) : off + zlen bs ≤ zlen b →
  bput b off bs w = Ok (bwrite b off bs, w).
Proof. intros. unfold bput. by destruct (Z.leb_spec (off + zlen bs) (zlen b)); [|lia]. Qed.

Lemma lseek_set_eq f off w : 0 ≤ off →
  lseek f off SEEK_SET w = Ok (off, set_file f (OFile (fdata (file f w)) off) w).
Proof. intros. unfold lseek. by destruct (Z.ltb_spec off 0); [lia|]. Qed.

Lemma dec_no_sep n : 0 ≤ n → no_nul (dec n) ∧ SEP ∉ dec n.
Proof.
  intros Hn. pose proof (dec_digits n Hn) as H. split.
  - eapply Forall_impl; [done|]. simpl. lia.
  - intros Hin. rewrite Forall_forall in H. apply H in Hin. unfold SEP in Hin. lia.
Qed.

(** The index buffer while [_db_readidx] takes the record apart: [x] and [y] stand
    where the separators were, [z] where the newline was. *)
Definition idx_edit (x y z : Z) (b : list Z) (d : Z) (r : rec) : list Z :=
  rkey r ++ [x] ++ dec d ++ [y] ++ dec (rec_dlen r) ++ [z] ++ drop (length (rec_body d r)) b.

(** What it leaves: key, offset and length as three C strings. *)
Definition idxbuf_after : list Z → Z → rec → list Z := idx_edit 0 0 0.

Lemma idxbuf_after_key b d r : key_ok (rkey r) → cstr (idxbuf_after b d r) = rkey r.
Proof. intros [? _]. unfold idxbuf_after. by apply cstr_app. Qed.

Definition read_cursor (m : img) (i : nat) (r : rec) (c : cursor) : cursor :=
  Cursor (ioff m i) (zlen (rec_body (doff m i) r)) (doff m i) (rec_dlen r) (rptr r)
    (ptroff c) (chainoff c).

Definition after_readidx (m : img) (i : nat) (r : rec) (w : world) : world :=
  set_file FIdx (OFile (idx_bytes m)
      (ioff m i + PTR_SZ + IDXLEN_SZ + zlen (rec_body (doff m i) r)))
    (upd_cur (read_cursor m i r) (set_idxbuf (idxbuf_after (idxbuf (db w)) (doff m i) r) w)).

Lemma rec_body_zlen d r :
  zlen (rec_body d r) = zlen (rkey r) + 1 + zlen (dec d) + 1 + zlen (dec (rec_dlen r)) + 1.
Proof.
  unfold rec_body, idx_fmt. rewrite !zlen_app. change (zlen [SEP]) with 1.
  change (zlen [NEWLINE]) with 1. lia.
Qed.

Lemma idx_edit_zlen x y z b d r : zlen (rec_body d r) ≤ zlen b →
  zlen (idx_edit x y z b d r) = zlen b.
Proof.
  intros H. pose proof (rec_body_zlen d r) as E. unfold idx_edit. rewrite !zlen_app.
  change (zlen [x]) with 1. change (zlen [y]) with 1. change (zlen [z]) with 1.
  unfold zlen in *. rewrite length_drop. lia.
Qed.

(** The buffer edits of [_db_readidx] on a well-formed record, one lemma per edit. *)
Section idx_edits.
Context (d : Z) (r : rec) (b : list Z).
Hypothesis (Hd : 0 ≤ d) (Hk : key_ok (rkey r)).

Lemma edit_read : bwrite b 0 (rec_body d r) = idx_edit SEP SEP NEWLINE b d r.
Proof.
  unfold bwrite, idx_edit. change (Z.to_nat 0) with O. rewrite take_0. simpl.
  unfold rec_body at 1, idx_fmt. rewrite <- !app_assoc. done.
Qed.

Lemma body_last : rec_body d r !! Z.to_nat (zlen (rec_body d r) - 1) = Some NEWLINE.
Proof.
  unfold rec_body, idx_fmt. rewrite !app_assoc.
  rewrite lookup_app_r; rewrite zlen_app; change (zlen [NEWLINE]) with 1; unfold zlen; [|lia].
  by rewrite Z.add_simpl_r, Nat2Z.id, Nat.sub_diag.
Qed.

Lemma edit_newline : bwrite (idx_edit SEP SEP NEWLINE b d r) (zlen (rec_body d r) - 1) [0]
  = idx_edit SEP SEP 0 b d r.
Proof.
  unfold idx_edit. set (rest := drop _ _).
  pose proof (bwrite_mid (rkey r ++ [SEP] ++ dec d ++ [SEP] ++ dec (rec_dlen r)) [NEWLINE] [0] rest
    (zlen (rec_body d r) - 1)) as H.
  rewrite <- !app_assoc in H. apply H; [|done].
  rewrite rec_body_zlen, !zlen_app. change (zlen [SEP]) with 1. lia.
Qed.

Lemma find_sep1 : strchr (idx_edit SEP SEP 0 b d r) SEP = Some (zlen (rkey r)).
Proof. apply strchr_found; [apply Hk|done|apply Hk]. Qed.

Lemma edit_sep1 :
  bwrite (idx_edit SEP SEP 0 b d r) (zlen (rkey r)) [0] = idx_edit 0 SEP 0 b d r.
Proof. by apply bwrite_mid. Qed.

Lemma drop_key x (t : list Z) :
  drop (Z.to_nat (zlen (rkey r) + 1)) (rkey r ++ [x] ++ t) = t.
Proof. rewrite app_assoc. apply drop_app_length'. rewrite length_app. unfold zlen. simpl. lia. Qed.

Lemma find_sep2 : strchr (drop (Z.to_nat (zlen (rkey r) + 1)) (idx_edit 0 SEP 0 b d r)) SEP
  = Some (zlen (dec d)).
Proof. unfold idx_edit. rewrite drop_key. apply strchr_found; [by apply dec_no_sep|done|by apply dec_no_sep]. Qed.

Lemma edit_sep2 :
  bwrite (idx_edit 0 SEP 0 b d r) (zlen (rkey r) + 1 + zlen (dec d)) [0] = idx_edit 0 0 0 b d r.
Proof.
  unfold idx_edit. set (rest := drop _ _).
  pose proof (bwrite_mid (rkey r ++ [0] ++ dec d) [SEP] [0] (dec (rec_dlen r) ++ [0] ++ rest)
    (zlen (rkey r) + 1 + zlen (dec d))) as H.
  rewrite <- !app_assoc in H. apply H; [|done].
  rewrite !zlen_app. change (zlen [0]) with 1. lia.
Qed.

Lemma drop_off x y (t : list Z) :
  drop (Z.to_nat (zlen (rkey r) + 1 + zlen (dec d) + 1)) (rkey r ++ [x] ++ dec d ++ [y] ++ t) = t.
Proof.
  rewrite !app_assoc. apply drop_app_length'. rewrite !length_app. unfold zlen. simpl. lia.
Qed.

Lemma find_sep3 :
  strchr (drop (Z.to_nat (zlen (rkey r) + 1 + zlen (dec d) + 1)) (idx_edit 0 0 0 b d r)) SEP = None.
Proof.
  unfold idx_edit. rewrite drop_off.
  assert (0 ≤ rec_dlen r) by (unfold rec_dlen; pose proof (zlen_nonneg (rdata r)); lia).
  apply strchr_none; by apply dec_no_sep.
Qed.

Lemma parse_off : d ≤ LONG_MAX →
  atol (drop (Z.to_nat (zlen (rkey r) + 1)) (idx_edit 0 0 0 b d r)) = d.
Proof. intros. unfold idx_edit. rewrite drop_key. by apply atol_dec. Qed.

Lemma parse_len : data_ok (rdata r) →
  atol (drop (Z.to_nat (zlen (rkey r) + 1 + zlen (dec d) + 1)) (idx_edit 0 0 0 b d r)) = rec_dlen r.
Proof.
  intros [_ Hl]. unfold idx_edit. rewrite drop_off. apply atol_dec; [|done].
  unfold rec_dlen, DATLEN_MAX, LONG_MAX in *. lia.
Qed.
End idx_edits.

Lemma read_eq f n bs w : bread (fdata (file f w)) (fpos (file f w)) n = bs →
  read f n w = Ok (bs, set_file f (OFile (fdata (file f w)) (fpos (file f w) + zlen bs)) w).
Proof. unfold read. by intros ->. Qed.

(** [_db_readidx] on the layout, from a given offset or from the current one. *)
Lemma readidx_spec m i r off w :
  wok m w → img_ok m → irecs m !! i = Some r →
  (off = ioff m i ∧ off ≠ 0 ∨ off = 0 ∧ fpos (idx w) = ioff m i) →
  _db_readidx off w = Ok (rptr r, after_readidx m i r w).
Proof.
  intros (Hi & _ & Hb & _) Hok Hr Hoff.
  destruct (rec_split m i r Hr) as (a & c & E & Ha & _).
  destruct (proj2 Hok i r Hr) as (Hp & Hkey & Hdat & Hbody & Hdoff).
  pose proof (ptr_at_off_nonneg m (LRec i)) as Hn. simpl in Hn.
  pose proof (pad_ptr _ Hp) as Lp. pose proof (zlen_nonneg (rec_body (doff m i) r)).
  pose proof (pad_len (zlen (rec_body (doff m i) r)) ltac:(lia)) as Ll.
  assert (zlen (rec_body (doff m i) r) ≤ zlen (idxbuf (db w))) as Hlb
    by (rewrite Hb; unfold IDXLEN_MAX in *; lia).
  pose proof (rec_body_zlen (doff m i) r) as Hbl.
  pose proof (zlen_nonneg (rkey r)). pose proof (zlen_nonneg (dec (doff m i))).
  pose proof (zlen_nonneg (dec (rec_dlen r))).
  destruct w as [d ix dt lk er]; destruct d as [ib dbf nm cu ho nh cn]; simpl in *.
  unfold _db_readidx.
  erewrite bind_ok with (a := ioff m i).
  2:{ unfold lseek. destruct Hoff as [[-> Hne]|[-> Hpos]].
      - destruct (Z.eqb_spec (ioff m i) 0); [done|]. by destruct (Z.ltb_spec (ioff m i) 0); [lia|].
      - simpl. rewrite Hpos, Z.add_0_r. by destruct (Z.ltb_spec (ioff m i) 0); [lia|]. }
  mstep. destruct (Z.eqb_spec (ioff m i) (-1)); [lia|].
  erewrite bind_ok.
  2:{ apply read_eq. simpl. rewrite Hi, E. unfold enc_rec.
      rewrite <- (app_assoc (pad PTR_SZ _)), <- (app_assoc (pad IDXLEN_SZ _)).
      rewrite (app_assoc (pad PTR_SZ _)).
      rewrite bread_mid; [reflexivity|done|rewrite zlen_app; lia]. }
  rewrite zlen_app, Lp, Ll, Z.eqb_refl. mstep.
  rewrite (take_app_length' (pad PTR_SZ _)), (drop_app_length' (pad PTR_SZ _)) by (unfold zlen in *; lia).
  rewrite atol_pad by (done || (unfold ptr_ok, PTR_MAX, LONG_MAX in *; lia)).
  rewrite atoi_small; rewrite atol_pad by (done || (unfold IDXLEN_MAX, LONG_MAX in *; lia));
    [|unfold IDXLEN_MAX in *; lia].
  rewrite wrap_u_id by (unfold IDXLEN_MAX in *; lia). mstep.
  destruct (Z.ltb_spec (zlen (rec_body (doff m i) r)) IDXLEN_MIN); [lia|].
  destruct (Z.ltb_spec IDXLEN_MAX (zlen (rec_body (doff m i) r))); [lia|]. mstep.
  erewrite bind_ok.
  2:{ apply read_eq. simpl. rewrite Hi, E. unfold enc_rec.
      rewrite (app_assoc (pad PTR_SZ _)), <- app_assoc, (app_assoc a).
      rewrite bread_mid; [reflexivity|rewrite !zlen_app; lia|done]. }
  rewrite Z.eqb_refl. mstep. simpl idxbuf.
  erewrite bind_ok by by apply bput_eq; simpl; lia. mstep.
  rewrite edit_read, body_last, bool_decide_eq_true_2 by done. mstep.
  erewrite bind_ok.
  2:{ apply bput_eq. rewrite idx_edit_zlen by done. change (zlen [0]) with 1. lia. }
  mstep. rewrite edit_newline, find_sep1 by done.
  erewrite bind_ok.
  2:{ apply bput_eq. rewrite idx_edit_zlen by done. change (zlen [0]) with 1. lia. }
  mstep. rewrite edit_sep1, find_sep2 by (done || lia).
  erewrite bind_ok.
  2:{ apply bput_eq. rewrite idx_edit_zlen by done. change (zlen [0]) with 1. lia. }
  mstep. rewrite edit_sep2, find_sep3, parse_off, parse_len by (done || lia). mstep.
  destruct (Z.ltb_spec (doff m i) 0); [lia|].
  destruct Hdat as [_ Hdat]. unfold rec_dlen, DATLEN_MAX in *. mstep.
  rewrite wrap_u_id by lia.
  destruct (Z.leb_spec (zlen (rdata r) + 1) 0); [lia|].
  destruct (Z.ltb_spec 1024 (zlen (rdata r) + 1)); [lia|]. mstep.
  unfold after_readidx. rewrite <- Hi, <- (Z.add_assoc (ioff m i)). reflexivity.
Qed.

Definition add_lks (l : list lkreq) (w : world) : world :=
  World (db w) (idx w) (dat w) (l ++ lks w) (errno w).

Lemma lock_req_eq op f off len w : lock_req op f off len w = Ok ((), add_lks [LkReq f op off len] w).
Proof. done. Qed.

Lemma bind_lock_req {A} op f off len (k : () → M world A) w :
  (lock_req op f off len ≫= k) w = k () (add_lks [LkReq f op off len] w).
Proof. done. Qed.

Lemma write_eq f bs d' w : bwrite (fdata (file f w)) (fpos (file f w)) bs = d' →
  write f bs w = Ok (zlen bs, set_file f (OFile d' (fpos (file f w) + zlen bs)) w).
Proof. unfold write. by intros ->. Qed.

(** At the end of the index file [_db_readidx] reports EOF to [db_nextrec]. *)
Lemma readidx_eof w : 0 ≤ fpos (idx w) → zlen (fdata (idx w)) ≤ fpos (idx w) →
  _db_readidx 0 w = Ok (-1, set_idxoff (fpos (idx w)) w).
Proof.
  intros Hn Hp. unfold _db_readidx. destruct w as [d [ix p] dt lk er]; simpl in *.
  erewrite bind_ok with (a := p).
  2:{ unfold lseek. simpl. rewrite Z.add_0_r. by destruct (Z.ltb_spec p 0); [lia|]. }
  mstep. destruct (Z.eqb_spec p (-1)); [lia|].
  erewrite bind_ok by (apply read_eq; simpl; by apply bread_end).
  change (zlen []) with 0. mstep. simpl. unfold mret, M_ret, set_idxoff, upd_cur, upd_db. simpl.
  by rewrite Z.add_0_r.
Qed.

Definition datbuf_after (b : list Z) (r : rec) : list Z :=
  rdata r ++ [0] ++ drop (length (rdata r ++ [NEWLINE])) b.

Lemma readdat_spec m i r w :
  wok m w → img_ok m → irecs m !! i = Some r →
  datoff (cur (db w)) = doff m i → datlen (cur (db w)) = rec_dlen r →
  _db_readdat w = Ok (rdata r, set_file FDat (OFile (dat_bytes m) (doff m i + rec_dlen r))
                      (set_datbuf (datbuf_after (datbuf (db w)) r) w)).
Proof.
  intros (_ & Hd & _ & Hb & _) Hok Hr Ho Hl.
  destruct (dat_split m i r Hr) as (a & c & E & Ha & _).
  destruct (proj2 Hok i r Hr) as (_ & _ & [Hnn Hdat] & _ & Hdoff).
  assert (zlen (rdata r ++ [NEWLINE]) = rec_dlen r) as Lr by by rewrite zlen_app.
  unfold _db_readdat. mstep. rewrite Ho, Hl.
  erewrite bind_ok by (apply lseek_set_eq; lia). mstep.
  destruct (Z.eqb_spec (doff m i) (-1)); [lia|].
  destruct w as [d ix dt lk er]; destruct d as [ib dbf nm cu ho nh cn]; simpl in *.
  erewrite bind_ok.
  2:{ apply read_eq. simpl. rewrite Hd, E, bread_mid by (done || lia). reflexivity. }
  rewrite Lr, Z.eqb_refl. mstep. simpl datbuf.
  erewrite bind_ok by (apply bput_eq; unfold DATLEN_MAX, rec_dlen in *; lia). mstep.
  rewrite bool_decide_eq_true_2.
  2:{ rewrite lookup_app_r by (unfold rec_dlen, zlen; lia). unfold rec_dlen, zlen.
      by rewrite Z.add_simpl_r, Nat2Z.id, Nat.sub_diag. }
  mstep.
  assert (bwrite dbf 0 (rdata r ++ [NEWLINE]) =
    rdata r ++ [NEWLINE] ++ drop (length (rdata r ++ [NEWLINE])) dbf) as ->.
  { unfold bwrite. change (Z.to_nat 0) with O. rewrite take_0. simpl. by rewrite <- app_assoc. }
  erewrite bind_ok.
  2:{ apply bput_eq. rewrite !zlen_app. change (zlen [0]) with 1. change (zlen [NEWLINE]) with 1.
      unfold rec_dlen in *. pose proof (zlen_nonneg (drop (length (rdata r ++ [NEWLINE])) dbf)). lia. }
  mstep. rewrite bwrite_mid by (done || unfold rec_dlen; lia).
  change ([0] ++ ?l) with (0 :: l). rewrite cstr_app by done. rewrite <- Hd. reflexivity.
Qed.

(** The two ways [_db_writedat] is called. *)
Lemma writedat_set data off w : 0 ≤ off →
  _db_writedat data off SEEK_SET w =
    Ok ((), set_file FDat (OFile (bwrite (fdata (dat w)) off (data ++ [NEWLINE])) (off + (zlen data + 1)))
              (set_datlen (zlen data + 1) (set_datoff off w))).
Proof.
  intros Ho. unfold _db_writedat, when. mstep.
  erewrite bind_ok by by apply lseek_set_eq. mstep. destruct (Z.eqb_spec off (-1)); [lia|]. mstep.
  erewrite bind_ok by by apply write_eq. rewrite zlen_app. change (zlen [NEWLINE]) with 1.
  rewrite Z.eqb_refl. mstep. by destruct w.
Qed.

Lemma writedat_end data w :
  _db_writedat data 0 SEEK_END w =
    Ok ((), set_file FDat (OFile (fdata (dat w) ++ data ++ [NEWLINE]) (zlen (fdata (dat w)) + (zlen data + 1)))
              (set_datlen (zlen data + 1) (set_datoff (zlen (fdata (dat w)))
                (add_lks [LkReq FDat UnLock 0 0; LkReq FDat WrLock 0 0] w)))).
Proof.
  unfold _db_writedat, when. rewrite bind_lock_req.
  pose proof (zlen_nonneg (fdata (dat w))). pose proof (bwrite_end (fdata (dat w)) (data ++ [NEWLINE]) _ eq_refl) as E.
  destruct w as [d ix [dt p] lk er]; simpl in *.
  erewrite bind_ok with (a := zlen dt).
  2:{ unfold lseek. simpl. rewrite Z.add_0_r. by destruct (Z.ltb_spec (zlen dt) 0); [lia|]. }
  mstep. destruct (Z.eqb_spec (zlen dt) (-1)); [lia|]. mstep.
  erewrite bind_ok by (apply write_eq; exact E). rewrite zlen_app. change (zlen [NEWLINE]) with 1.
  rewrite Z.eqb_refl. mstep. by rewrite lock_req_eq.
Qed.

Definition idxbuf_written (b s : list Z) : list Z := bwrite b 0 (s ++ [0]).

(** What [_db_writeidx] sets in the handle, before the file is written. *)
Definition writeidx_handle (s : list Z) (off ptr : Z) (w : world) : world :=
  set_idxoff off (set_idxbuf (idxbuf_written (idxbuf (db w)) s) (set_ptrval ptr w)).

Lemma writeidx_set key off ptr s w :
  0 ≤ off → ptr_ok ptr → s = idx_fmt key (datoff (cur (db w))) (datlen (cur (db w))) →
  IDXLEN_MIN ≤ zlen s ≤ IDXLEN_MAX → zlen s + 1 ≤ zlen (idxbuf (db w)) →
  _db_writeidx key off SEEK_SET ptr w =
    Ok ((), set_file FIdx (OFile (bwrite (fdata (idx w)) off
                (pad PTR_SZ (dec ptr) ++ pad IDXLEN_SZ (dec (zlen s)) ++ s)) (off + (PTR_SZ + IDXLEN_SZ + zlen s)))
              (writeidx_handle s off ptr w)).
Proof.
  intros Ho Hp Hs Hlen Hbuf. pose proof (pad_ptr _ Hp) as Lp. pose proof (zlen_nonneg s).
  pose proof (pad_len (zlen s) ltac:(lia)) as Ll. destruct Hp as [Hp1 Hp2].
  destruct w as [d ix dt lk er]; destruct d as [ib dbf nm cu ho nh cn]; simpl in *.
  unfold _db_writeidx. mstep. simpl.
  destruct (Z.ltb_spec ptr 0); [lia|]. destruct (Z.ltb_spec PTR_MAX ptr); [lia|]. mstep. simpl.
  rewrite <- Hs. erewrite bind_ok.
  2:{ apply bput_eq. rewrite zlen_app. change (zlen [0]) with 1. lia. }
  mstep. destruct (Z.ltb_spec (zlen s) IDXLEN_MIN); [lia|].
  destruct (Z.ltb_spec IDXLEN_MAX (zlen s)); [lia|]. mstep. unfold when. mstep.
  erewrite bind_ok by by apply lseek_set_eq. mstep. destruct (Z.eqb_spec off (-1)); [lia|]. mstep.
  erewrite bind_ok by by apply write_eq. rewrite !zlen_app, Lp, Ll.
  rewrite Z.eqb_refl. mstep. simpl. unfold mret, M_ret. by rewrite <- app_assoc.
Qed.

Lemma writeidx_end key ptr s w :
  ptr_ok ptr → s = idx_fmt key (datoff (cur (db w))) (datlen (cur (db w))) →
  IDXLEN_MIN ≤ zlen s ≤ IDXLEN_MAX → zlen s + 1 ≤ zlen (idxbuf (db w)) →
  _db_writeidx key 0 SEEK_END ptr w =
    let len := zlen (fdata (idx w)) in let lo := (nhash (db w) + 1) * PTR_SZ + 1 in
    Ok ((), set_file FIdx (OFile (fdata (idx w) ++
                pad PTR_SZ (dec ptr) ++ pad IDXLEN_SZ (dec (zlen s)) ++ s) (len + (PTR_SZ + IDXLEN_SZ + zlen s)))
              (writeidx_handle s len ptr (add_lks [LkReq FIdx UnLock lo 0; LkReq FIdx WrLock lo 0] w))).
Proof.
  intros Hp Hs Hlen Hbuf. pose proof (pad_ptr _ Hp) as Lp. pose proof (zlen_nonneg s).
  pose proof (pad_len (zlen s) ltac:(lia)) as Ll. destruct Hp as [Hp1 Hp2].
  pose proof (zlen_nonneg (fdata (idx w))).
  pose proof (bwrite_end (fdata (idx w)) (pad PTR_SZ (dec ptr) ++ pad IDXLEN_SZ (dec (zlen s)) ++ s) _ eq_refl) as E.
  destruct w as [d [ix p] dt lk er]; destruct d as [ib dbf nm cu ho nh cn]; simpl in *.
  unfold _db_writeidx. mstep. simpl.
  destruct (Z.ltb_spec ptr 0); [lia|]. destruct (Z.ltb_spec PTR_MAX ptr); [lia|]. mstep. simpl.
  rewrite <- Hs. erewrite bind_ok.
  2:{ apply bput_eq. rewrite zlen_app. change (zlen [0]) with 1. lia. }
  mstep. destruct (Z.ltb_spec (zlen s) IDXLEN_MIN); [lia|].
  destruct (Z.ltb_spec IDXLEN_MAX (zlen s)); [lia|]. mstep. unfold when.
  rewrite bind_lock_req. erewrite bind_ok with (a := zlen ix).
  2:{ unfold lseek. simpl. rewrite Z.add_0_r. by destruct (Z.ltb_spec (zlen ix) 0); [lia|]. }
  mstep. destruct (Z.eqb_spec (zlen ix) (-1)); [lia|].
  rewrite <- app_assoc. erewrite bind_ok by (apply write_eq; exact E). rewrite !zlen_app, Lp, Ll.
  rewrite <- (Z.add_assoc PTR_SZ), Z.eqb_refl. mstep. rewrite lock_req_eq. reflexivity.
Qed.

(** ** Writes as image updates *)

Definition set_data (v : list Z) (r : rec) : rec := Rec (rptr r) (rkey r) v.

Lemma enc_rec_eq d r ptr key dl :
  ptr = rptr r → key = rkey r → dl = rec_dlen r →
  pad PTR_SZ (dec ptr) ++ pad IDXLEN_SZ (dec (zlen (idx_fmt key d dl))) ++ idx_fmt key d dl = enc_rec d r.
Proof. by intros -> -> ->. Qed.

Lemma dat_overwrite m i r r' : irecs m !! i = Some r → length (rdata r') = length (rdata r) →
  bwrite (dat_bytes m) (doff m i) (rdata r' ++ [NEWLINE]) = dat_bytes (set_rec i r' m).
Proof.
  intros Hi Hl. destruct (dat_split m i r Hi) as (a & c & E & Ha & E').
  rewrite E, (E' r'). apply bwrite_mid; [done|]. by rewrite !length_app, Hl.
Qed.

Lemma idx_overwrite m i r r' : img_ok m → irecs m !! i = Some r → same_shape r r' →
  ptr_ok (rptr r') →
  bwrite (idx_bytes m) (ioff m i) (enc_rec (doff m i) r') = idx_bytes (set_rec i r' m).
Proof.
  intros Hok Hi Hs Hp. destruct (rec_split m i r Hi) as (a & c & E & Ha & E').
  destruct (proj2 Hok i r Hi) as (Hp0 & _ & _ & Hb & _). unfold IDXLEN_MIN in Hb.
  rewrite E, (E' r') by (by rewrite (proj2 Hs)). apply bwrite_mid; [done|].
  pose proof (rec_body_shape (doff m i) _ _ Hs) as Hsb.
  pose proof (enc_rec_length (doff m i) r Hp0 ltac:(lia)).
  pose proof (enc_rec_length (doff m i) r' Hp ltac:(lia)). unfold zlen in *. lia.
Qed.

Lemma idx_bytes_set_data m i r v : irecs m !! i = Some r → length v = length (rdata r) →
  idx_bytes (set_rec i (set_data v r) m) = idx_bytes m.
Proof.
  intros Hi Hl. destruct (rec_split m i r Hi) as (a & c & E & _ & E').
  rewrite E, E' by done. do 2 f_equal. unfold enc_rec.
  assert (rec_body (doff m i) (set_data v r) = rec_body (doff m i) r) as ->; [|done].
  unfold rec_body, rec_dlen, zlen. simpl. by rewrite Hl.
Qed.

Lemma dat_bytes_set_rec m i r r' : irecs m !! i = Some r → rdata r' = rdata r →
  dat_bytes (set_rec i r' m) = dat_bytes m.
Proof. intros Hi Hl. destruct (dat_split m i r Hi) as (a & c & E & _ & E'). by rewrite E, E', Hl. Qed.

Lemma idx_bytes_add m r : idx_bytes (add_rec r m) = idx_bytes m ++ enc_rec (zlen (dat_bytes m)) r.
Proof.
  unfold idx_bytes, add_rec. simpl. rewrite enc_recs_app. simpl. by rewrite app_nil_r, <- app_assoc.
Qed.

Lemma dat_bytes_add m r : dat_bytes (add_rec r m) = dat_bytes m ++ rdata r ++ [NEWLINE].
Proof. unfold dat_bytes, add_rec. simpl. by rewrite enc_dat_app, enc_dat_cons, app_nil_r. Qed.

Lemma doff_add m r i : (i ≤ length (irecs m))%nat → doff (add_rec r m) i = doff m i.
Proof. intros. unfold doff, add_rec. simpl. by rewrite take_app_le. Qed.

Lemma ioff_add m r i : (i ≤ length (irecs m))%nat → ioff (add_rec r m) i = ioff m i.
Proof. intros. unfold ioff, add_rec. simpl. by rewrite take_app_le. Qed.

Lemma doff_end m : doff m (length (irecs m)) = zlen (dat_bytes m).
Proof. unfold doff. by rewrite firstn_all. Qed.

Lemma ioff_end m : ioff m (length (irecs m)) = zlen (idx_bytes m).
Proof. unfold ioff, idx_bytes. rewrite firstn_all, !zlen_app. change (zlen [NEWLINE]) with 1. lia. Qed.

Lemma add_rec_ok m r : img_ok m → rec_ok (zlen (dat_bytes m)) r → img_ok (add_rec r m).
Proof.
  intros [Hh Hr] Hok. split; [done|]. intros i x Hi. simpl in Hi.
  apply lookup_app_Some in Hi as [Hi|[Hge Hi]].
  - pose proof (lookup_lt_Some _ _ _ Hi). rewrite doff_add by lia. by apply Hr.
  - apply list_lookup_singleton_Some in Hi as [Hi <-].
    assert (i = length (irecs m)) as -> by lia. by rewrite doff_add, doff_end.
Qed.

Lemma ptr_at_ok m L p : img_ok m → ptr_at m L = Some p → ptr_ok p.
Proof.
  intros [Hh Hr] Hp. destruct L as [j|i]; simpl in Hp; [by eapply Forall_lookup_1|].
  destruct (irecs m !! i) as [r|] eqn:E; simplify_eq/=. by apply (Hr _ _ E).
Qed.

(** Reading back what [ptr_at] says after one pointer or record was changed. *)
Lemma ptr_at_wptr m L v : is_Some (ptr_at m L) → ptr_at (wptr L v m) L = Some v.
Proof.
  destruct L as [j|i]; simpl; intros [p Hp].
  - apply list_lookup_insert_eq. by eapply lookup_lt_Some.
  - destruct (irecs m !! i) as [r|] eqn:E; simplify_eq/=. by rewrite list_lookup_alter_eq, E.
Qed.

Lemma ptr_at_wptr_ne m L L' v : L ≠ L' → ptr_at (wptr L v m) L' = ptr_at m L'.
Proof.
  intros Hne. destruct L as [j|i], L' as [j'|i']; simpl; try done.
  - apply list_lookup_insert_ne. congruence.
  - by rewrite list_lookup_alter_ne by congruence.
Qed.

Lemma ptr_at_set_rec m i r : (i < length (irecs m))%nat → ptr_at (set_rec i r m) (LRec i) = Some (rptr r).
Proof. intros. simpl. by rewrite list_lookup_insert_eq. Qed.

Lemma ptr_at_set_rec_ne m i r L : L ≠ LRec i → ptr_at (set_rec i r m) L = ptr_at m L.
Proof. destruct L as [j|k]; simpl; [done|]. intros. by rewrite list_lookup_insert_ne by congruence. Qed.
