(* ===== verification/DbChain.v ===== *)
(** The hash chains and the free list: linked lists threaded through the chain
    pointers of the layout, the search along a chain, and the removal and insertion
    of a record. *)
From S2P Require Import Prelude CLib Db DbRep.

(** ** Chains *)

(** [chain m L l]: from the pointer at [L] the records [l] follow each other to a 0. *)
Fixpoint chain (m : img) (L : loc) (l : list nat) : Prop :=
  match l with
  | [] => ptr_at m L = Some 0
  | i :: l' => ptr_at m L = Some (ioff m i) ∧ chain m (LRec i) l'
  end.

(** The place of the pointer that leads past the prefix [l]. *)
Fixpoint last_loc (L : loc) (l : list nat) : loc :=
  match l with [] => L | i :: l' => last_loc (LRec i) l' end.

(** The first record offset of a chain, 0 when it is empty. *)
Definition head_off (m : img) (l : list nat) : Z :=
  match l with [] => 0 | i :: _ => ioff m i end.

Lemma chain_ptr m L l : chain m L l → ptr_at m L = Some (head_off m l).
Proof. destruct l; simpl; naive_solver. Qed.

Lemma chain_app m L l1 l2 : chain m L (l1 ++ l2) → chain m (last_loc L l1) l2.
Proof. revert L. induction l1 as [|i l1 IH]; intros L; simpl; [done|]. intros [_ ?]. by apply IH. Qed.

Lemma chain_lookup m L l i : chain m L l → i ∈ l → is_Some (irecs m !! i).
Proof.
  revert L. induction l as [|k l IH]; intros L; simpl; [by intros _ ?%not_elem_of_nil|].
  intros [_ Hc] [->|Hin]%elem_of_cons; [|by eapply IH].
  apply chain_ptr in Hc. simpl in Hc. by destruct (irecs m !! k).
Qed.

Lemma chain_nodes_ptr m L l i : chain m L l → i ∈ l →
  ∃ L', ptr_at m L' = Some (ioff m i).
Proof.
  revert L. induction l as [|k l IH]; intros L; simpl; [by intros _ ?%not_elem_of_nil|].
  intros [Hp Hc] [->|Hin]%elem_of_cons; [by exists L|by eapply IH].
Qed.

Lemma last_loc_in L l : last_loc L l = L ∨ ∃ i, i ∈ l ∧ last_loc L l = LRec i.
Proof.
  revert L. induction l as [|i l IH]; intros L; simpl; [by left|].
  right. destruct (IH (LRec i)) as [->|(k & ? & ->)]; [exists i|exists k]; set_solver.
Qed.

(** A chain only depends on the pointers along it and on the offsets of its records. *)
Lemma chain_frame m m' L l :
  (∀ i, i ∈ l → ioff m' i = ioff m i) →
  (∀ L', L' = L ∨ (∃ i, i ∈ l ∧ L' = LRec i) → ptr_at m' L' = ptr_at m L') →
  chain m L l → chain m' L l.
Proof.
  revert L. induction l as [|i l IH]; intros L Ho Hp; simpl.
  - intros. rewrite Hp by by left. done.
  - intros [H1 H2]. rewrite Hp by by left. rewrite Ho by set_solver. split; [done|].
    apply IH; [set_solver| |done]. intros L' [->|(k & ? & ->)]; apply Hp; set_solver.
Qed.

(** Unlinking a record: the pointer before it takes the value of its own pointer. *)
Lemma chain_unlink m m' L l1 i l2 p :
  NoDup (l1 ++ i :: l2) → (∀ k, L ≠ LRec k ∨ k ∉ l1 ++ i :: l2) →
  ptr_at m (LRec i) = Some p → 
  (∀ k, k ∈ l1 ++ l2 → ioff m' k = ioff m k) →
  ptr_at m' (last_loc L l1) = Some p →
  (∀ L', L' ≠ last_loc L l1 → L' = L ∨ (∃ k, k ∈ l1 ++ l2 ∧ L' = LRec k) →
     ptr_at m' L' = ptr_at m L') →
  chain m L (l1 ++ i :: l2) → chain m' L (l1 ++ l2).
Proof.
  revert L. induction l1 as [|x l1 IH]; intros L Hnd HL Hpi Hoff Hprev Hother; cbn [app chain last_loc] in *.
  - intros [_ Hc]. pose proof (chain_ptr _ _ _ Hc) as Hq. rewrite Hpi in Hq. simplify_eq.
    apply NoDup_cons in Hnd as [Hi Hnd].
    destruct l2 as [|y l2]; simpl in *; [done|]. destruct Hc as [_ Hc].
    rewrite Hprev. split; [by rewrite Hoff by set_solver|].
    assert (∀ k, k ∈ y :: l2 → LRec k ≠ L) as HLk.
    { intros k Hk <-. destruct (HL k); set_solver. }
    apply (chain_frame m); [set_solver| |done].
    intros L' [->|(k & Hk & ->)]; apply Hother; try (apply HLk; set_solver); set_solver.
  - intros [Hp Hc]. apply NoDup_cons in Hnd as [Hx Hnd].
    assert (last_loc (LRec x) l1 ≠ L) as Hne.
    { intros E. destruct (last_loc_in (LRec x) l1) as [E'|(k & Hk & E')]; rewrite E' in E; subst;
        [destruct (HL x)|destruct (HL k)]; set_solver. }
    split.
    + rewrite Hother by (done || by left). rewrite Hoff by set_solver. done.
    + apply IH; try done.
      * intros k. destruct (decide (k = x)) as [->|]; [by right|left; congruence].
      * set_solver.
      * intros L' Hn [->|(k & ? & ->)]; apply Hother; set_solver.
Qed.

(** Linking a record in front: it takes over the old head, the head points to it. *)
Lemma chain_push m m' L l i :
  (∀ k, L ≠ LRec k ∨ k ∉ l) → i ∉ l → L ≠ LRec i →
  (∀ k, k ∈ l → ioff m' k = ioff m k) →
  ptr_at m' L = Some (ioff m' i) → ptr_at m' (LRec i) = ptr_at m L →
  (∀ k, k ∈ l → ptr_at m' (LRec k) = ptr_at m (LRec k)) →
  chain m L l → chain m' L (i :: l).
Proof.
  intros HL Hi HLi Hoff Hhead Hnew Hother Hc. simpl. split; [done|].
  destruct l as [|x l]; simpl in *; [by rewrite Hnew|]. destruct Hc as [Hp Hc].
  rewrite Hnew, Hp. split; [by rewrite Hoff by set_solver|].
  apply (chain_frame m); [set_solver| |done]. intros L' [->|(k & ? & ->)]; apply Hother; set_solver.
Qed.

(** ** What an operation leaves alone *)

Record frame (w w' : world) : Prop := {
  fr_idx : fdata (idx w') = fdata (idx w);
  fr_dat : dat w' = dat w;
  fr_lks : lks w' = lks w;
  fr_errno : errno w' = errno w;
  fr_cnt : cnt (db w') = cnt (db w);
  fr_chainoff : chainoff (cur (db w')) = chainoff (cur (db w));
  fr_nhash : nhash (db w') = nhash (db w);
  fr_hashoff : hashoff (db w') = hashoff (db w);
  fr_idxbuf : zlen (idxbuf (db w')) = zlen (idxbuf (db w));
  fr_datbuf : datbuf (db w') = datbuf (db w);
  fr_name : name (db w') = name (db w)
}.

#[export] Instance frame_preorder : PreOrder frame.
Proof.
  split; [by intros w; split|].
  intros w1 w2 w3 [] []. split; etrans; eauto.
Qed.

Lemma frame_wok m w w' : frame w w' → wok m w → wok m w'.
Proof.
  intros [] (? & ? & ? & ? & ? & ?). unfold wok.
  rewrite fr_idx0, fr_dat0, fr_idxbuf0, fr_datbuf0, fr_nhash0, fr_hashoff0. done.
Qed.

Lemma frame_readidx m i r w : wok m w → img_ok m → irecs m !! i = Some r →
  frame w (after_readidx m i r w).
Proof.
  intros (Hi & _ & Hb & _) Hok Hr. destruct (proj2 Hok i r Hr) as (_ & _ & _ & Hbody & _).
  split; try done; simpl. unfold idxbuf_after. apply idx_edit_zlen.
  rewrite Hb. unfold IDXLEN_MAX in *. lia.
Qed.

Lemma frame_set_ptroff v w : frame w (set_ptroff v w).
Proof. by split. Qed.

Lemma frame_set_idxpos p w : frame w (set_file FIdx (OFile (fdata (idx w)) p) w).
Proof. by split. Qed.

(** The current record of the handle is record [i]. *)
Definition at_rec (m : img) (i : nat) (r : rec) (w : world) : Prop :=
  let c := cur (db w) in
  idxoff c = ioff m i ∧ datoff c = doff m i ∧ datlen c = rec_dlen r ∧ ptrval c = rptr r ∧
  ∃ rest, idxbuf (db w) = rkey r ++ 0 :: rest.

Lemma at_rec_readidx m i r w : at_rec m i r (after_readidx m i r w).
Proof. split_and!; try done. simpl. eexists. reflexivity. Qed.

(** ** Searching a chain *)

Lemma ioff_pos m i : 0 < ioff m i.
Proof.
  unfold ioff. pose proof (zlen_nonneg (enc_ptrs (ihdr m))).
  pose proof (zlen_nonneg (enc_recs 0 (take i (irecs m)))). lia.
Qed.

Lemma readidx_chain m i r w : wok m w → img_ok m → irecs m !! i = Some r →
  _db_readidx (ioff m i) w = Ok (rptr r, after_readidx m i r w).
Proof.
  intros. apply readidx_spec; [done..|]. left. split; [done|]. pose proof (ioff_pos m i). lia.
Qed.

Definition key_at (m : img) (k : list Z) (i : nat) : Prop :=
  ∃ r, irecs m !! i = Some r ∧ rkey r = k.

(** The outcome of the search from [L] along [l]. *)
Definition found_spec (m : img) (L : loc) (l : list nat) (P : rec → Prop) (o : Z) (w' : world)
    (prev : Z) : Prop :=
  (o = 0 ∧ ∀ i r, i ∈ l → irecs m !! i = Some r → ¬ P r) ∨
  ∃ l1 i l2 r, l = l1 ++ i :: l2 ∧ irecs m !! i = Some r ∧ P r ∧ o = ioff m i ∧
    at_rec m i r w' ∧ prev = loc_off m (last_loc L l1).

Lemma find_loop m k l L w fuel :
  wok m w → img_ok m → no_nul k → chain m L l → (length l < fuel)%nat →
  ptroff (cur (db w)) = loc_off m L →
  ∃ o w', iter fuel (find_body k) (head_off m l) w = Ok (o, w') ∧ frame w w' ∧
    found_spec m L l (λ r, rkey r = k) o w' (ptroff (cur (db w'))).
Proof.
  intros Hw Hok Hk. revert L w fuel Hw. induction l as [|i l IH]; intros L w fuel Hw Hc Hf Hpo;
    destruct fuel as [|fuel]; simpl in Hf; try lia.
  - exists 0, w. simpl. split_and!; [done|reflexivity|]. left. split; [done|].
    by intros ?? ?%not_elem_of_nil.
  - destruct Hc as [Hp Hc]. pose proof (chain_ptr _ _ _ Hc) as Hq. simpl in Hq.
    destruct (irecs m !! i) as [r|] eqn:Hr; simplify_eq/=.
    pose proof (frame_readidx m i r w Hw Hok Hr) as Hfr.
    destruct (proj2 Hok i r Hr) as (_ & Hkey & _).
    assert (find_body k (ioff m i) w =
      if bool_decide (rkey r = k) then Ok (inr (ioff m i), after_readidx m i r w)
      else Ok (inl (rptr r), set_ptroff (ioff m i) (after_readidx m i r w))) as E.
    { unfold find_body. pose proof (ioff_pos m i). destruct (Z.eqb_spec (ioff m i) 0); [lia|].
      erewrite bind_ok by by apply readidx_chain. mstep. unfold str_eqb. simpl.
      rewrite idxbuf_after_key, (cstr_id k) by done. by case_bool_decide. }
    case_bool_decide as Hkk.
    + exists (ioff m i), (after_readidx m i r w). erewrite bind_ok by exact E.
      split_and!; [done|done|]. right. exists [], i, l, r.
      split_and!; try done. by apply at_rec_readidx.
    + erewrite bind_ok by exact E. cbv iota beta.
      destruct (IH (LRec i) (set_ptroff (ioff m i) (after_readidx m i r w)) fuel) as (o & w' & E' & Hfr' & Hs);
        [|done|lia|done|].
      { eapply frame_wok; [|exact Hw]. etrans; [exact Hfr|apply frame_set_ptroff]. }
      rewrite Hq. exists o, w'. split_and!; [done| |].
      { etrans; [exact Hfr|]. etrans; [apply frame_set_ptroff|exact Hfr']. }
      destruct Hs as [[-> Hno]|(l1 & x & l2 & rx & -> & Hx & HP & -> & Hat & Hprev)].
      * left. split; [done|]. intros y ry [->|Hy]%elem_of_cons Hry; [by simplify_eq|by eapply Hno].
      * right. by exists (i :: l1), x, l2, rx.
Qed.

Lemma findfree_loop m keylen dl l L w fuel :
  wok m w → img_ok m → chain m L l → (length l < fuel)%nat →
  ∃ o so w', iter fuel (findfree_body keylen dl) (head_off m l, loc_off m L) w = Ok ((o, so), w') ∧
    frame w w' ∧ ptroff (cur (db w')) = ptroff (cur (db w)) ∧
    found_spec m L l (λ r, zlen (rkey r) = keylen ∧ rec_dlen r = dl) o w' so.
Proof.
  intros Hw Hok. revert L w fuel Hw. induction l as [|i l IH]; intros L w fuel Hw Hc Hf;
    destruct fuel as [|fuel]; simpl in Hf; try lia.
  - exists 0, (loc_off m L), w. simpl. split_and!; [done|reflexivity|done|]. left. split; [done|].
    by intros ?? ?%not_elem_of_nil.
  - destruct Hc as [Hp Hc]. pose proof (chain_ptr _ _ _ Hc) as Hq. simpl in Hq.
    destruct (irecs m !! i) as [r|] eqn:Hr; simplify_eq/=.
    pose proof (frame_readidx m i r w Hw Hok Hr) as Hfr.
    destruct (proj2 Hok i r Hr) as (_ & Hkey & _).
    set (b := bool_decide (zlen (rkey r) = keylen ∧ rec_dlen r = dl)).
    assert (findfree_body keylen dl (ioff m i, loc_off m L) w =
      if b then Ok (inr (ioff m i, loc_off m L), after_readidx m i r w)
      else Ok (inl (rptr r, ioff m i), after_readidx m i r w)) as E.
    { unfold findfree_body. pose proof (ioff_pos m i). destruct (Z.eqb_spec (ioff m i) 0); [lia|].
      erewrite bind_ok by by apply readidx_chain. mstep. simpl. unfold strlen.
      rewrite idxbuf_after_key by done. unfold b.
      destruct (Z.eqb_spec (zlen (rkey r)) keylen), (Z.eqb_spec (rec_dlen r) dl); simpl;
        case_bool_decide; naive_solver. }
    destruct b eqn:Hb; subst b.
    + apply bool_decide_eq_true in Hb. exists (ioff m i), (loc_off m L), (after_readidx m i r w).
      erewrite bind_ok by exact E.
      split_and!; [done|done|done|]. right. exists [], i, l, r.
      split_and!; try done. all: try apply Hb. by apply at_rec_readidx.
    + apply bool_decide_eq_false in Hb. erewrite bind_ok by exact E. cbv iota beta.
      destruct (IH (LRec i) (after_readidx m i r w) fuel) as (o & so & w' & E' & Hfr' & Hpo' & Hs);
        [|done|lia|].
      { by eapply frame_wok. }
      rewrite Hq. exists o, so, w'. split_and!; [done| |done|].
      { by etrans. }
      destruct Hs as [[-> Hno]|(l1 & x & l2 & rx & -> & Hx & HP & -> & Hat & Hprev)].
      * left. split; [done|]. intros y ry [->|Hy]%elem_of_cons Hry; [by simplify_eq|by eapply Hno].
      * right. by exists (i :: l1), x, l2, rx.
Qed.
