(* ===== verification/DbSpec.v ===== *)
(** The database as a finite map: the representation invariant and, for each
    operation of [Db], that it refines the corresponding operation on the map. *)
From S2P Require Import Prelude CLib Db DbRep DbChain.

(** ** The abstract specification *)

Module spec.
Abbreviation map := (gmap (list Z) (list Z)).

Definition store (M : map) (k d : list Z) (flag : Z) : Z * map :=
  match M !! k with
  | None => if flag =? DB_REPLACE then (-1, M) else (0, <[k:=d]> M)
  | Some _ => if flag =? DB_INSERT then (1, M) else (0, <[k:=d]> M)
  end.
Definition delete_key (M : map) (k : list Z) : Z * map :=
  match M !! k with None => (-1, M) | Some _ => (0, delete k M) end.
End spec.

(** ** The representation invariant *)

Definition NSLOT : nat := 138.

(** The header slot of a key: slot 0 is the free list, slot [h + 1] hash chain [h]. *)
Definition hslot (k : list Z) : nat := S (Z.to_nat (hash_loop 0 1 k mod NHASH_DEF)).

(** The key and data of the [i]-th record. *)
Definition kd (m : img) (i : nat) : option (list Z * list Z) :=
  (λ r, (rkey r, rdata r)) <$> irecs m !! i.

Record inv (M : spec.map) (m : img) (ch : nat → list nat) : Prop := {
  inv_ok : img_ok m;
  inv_hdr : length (ihdr m) = NSLOT;
  inv_chain : ∀ j, (j < NSLOT)%nat → chain m (LHdr j) (ch j);
  inv_nodup : ∀ j, (j < NSLOT)%nat → NoDup (ch j);
  inv_disj : ∀ j k i, (j < NSLOT)%nat → (k < NSLOT)%nat → i ∈ ch j → i ∈ ch k → j = k;
  inv_all : ∀ i, (i < length (irecs m))%nat → ∃ j, (j < NSLOT)%nat ∧ i ∈ ch j;
  inv_free : ∀ i k d, i ∈ ch 0%nat → kd m i = Some (k, d) → k = blank k;
  inv_hash : ∀ j i k d, (0 < j < NSLOT)%nat → i ∈ ch j → kd m i = Some (k, d) → hslot k = j;
  inv_key : ∀ i i' k d d', i ∈ ch (hslot k) → i' ∈ ch (hslot k) →
    kd m i = Some (k, d) → kd m i' = Some (k, d') → i = i';
  inv_map : ∀ k d, M !! k = Some d ↔ ∃ i, i ∈ ch (hslot k) ∧ kd m i = Some (k, d)
}.

(** The files and the handle represent the map. *)
Definition rep (M : spec.map) (w : world) : Prop := ∃ m ch, wok m w ∧ inv M m ch.

Lemma hslot_range k : (0 < hslot k < NSLOT)%nat.
Proof.
  unfold hslot, NSLOT, NHASH_DEF. pose proof (Z.mod_pos_bound (hash_loop 0 1 k) 137 ltac:(lia)). lia.
Qed.

Lemma hslot_off k w : nhash (db w) = NHASH_DEF → hashoff (db w) = HASH_OFF →
  _db_hash (db w) k * PTR_SZ + hashoff (db w) = PTR_SZ * Z.of_nat (hslot k).
Proof.
  intros Hn Hh. unfold _db_hash, hslot. rewrite Hn, Hh. unfold NHASH_DEF, HASH_OFF, PTR_SZ.
  pose proof (Z.mod_pos_bound (hash_loop 0 1 k) 137 ltac:(lia)). lia.
Qed.

Section inv_facts.
Context (M : spec.map) (m : img) (ch : nat → list nat) (I : inv M m ch).

Lemma inv_ch_lookup j i : (j < NSLOT)%nat → i ∈ ch j → ∃ r, irecs m !! i = Some r.
Proof. intros Hj Hi. by apply (chain_lookup _ _ _ _ (inv_chain _ _ _ I j Hj)) in Hi. Qed.

Lemma inv_ioff_ok j i : (j < NSLOT)%nat → i ∈ ch j → ptr_ok (ioff m i).
Proof.
  intros Hj Hi. destruct (chain_nodes_ptr _ _ _ _ (inv_chain _ _ _ I j Hj) Hi) as [L HL].
  by eapply ptr_at_ok; [apply (inv_ok _ _ _ I)|].
Qed.

Lemma inv_miss k : (∀ i r, i ∈ ch (hslot k) → irecs m !! i = Some r → rkey r ≠ k) → M !! k = None.
Proof.
  intros Hno. destruct (M !! k) eqn:E; [|done].
  apply (inv_map _ _ _ I) in E as (i & Hi & Hr). unfold kd in Hr.
  destruct (irecs m !! i) as [r|] eqn:E; simplify_eq/=. by destruct (Hno i r).
Qed.

Lemma inv_length_chain j : (j < NSLOT)%nat → (length (ch j) ≤ length (irecs m))%nat.
Proof.
  intros Hj. rewrite <- (length_seq (length (irecs m)) 0).
  apply submseteq_length, NoDup_submseteq; [by apply (inv_nodup _ _ _ I)|].
  intros i Hi. apply elem_of_seq. destruct (inv_ch_lookup j i Hj Hi) as [r Hr].
  apply lookup_lt_Some in Hr. lia.
Qed.

Lemma inv_records_fit : (length (irecs m) ≤ length (idx_bytes m))%nat.
Proof.
  assert (∀ rs d, (∀ i r, rs !! i = Some r → rec_ok (d + zlen (enc_dat (take i rs))) r) →
    (length rs ≤ length (enc_recs d rs))%nat) as H.
  { induction rs as [|r rs IH]; intros d Hr; simpl; [lia|]. rewrite length_app.
    pose proof (Hr 0%nat r eq_refl) as (Hp & _ & _ & Hb & _).
    change (zlen (enc_dat (take 0 _))) with 0 in Hb. rewrite Z.add_0_r in Hb.
    pose proof (enc_rec_length d r Hp) as Hl. unfold IDXLEN_MIN, PTR_SZ, IDXLEN_SZ in *.
    assert (length rs ≤ length (enc_recs (d + rec_dlen r) rs))%nat.
    { apply IH. intros i x Hx. specialize (Hr (S i) x Hx). cbn [take] in Hr.
      by rewrite enc_dat_zcons, Z.add_assoc in Hr. }
    unfold zlen in *. lia. }
  unfold idx_bytes. rewrite !length_app. specialize (H (irecs m) 0). simpl in H.
  assert (length (irecs m) ≤ length (enc_recs 0 (irecs m)))%nat; [|lia].
  apply H. intros i r Hr. apply (proj2 (inv_ok _ _ _ I)). done.
Qed.
End inv_facts.

(** ** Locks *)

(** A run of lock requests after which every byte that was unlocked is unlocked again. *)
Definition balanced (evs : list lkreq) : Prop :=
  ∀ l f b, held l f b = None → held (evs ++ l) f b = None.

Lemma balanced_nil : balanced [].
Proof. by intros l f b. Qed.

Lemma balanced_app e1 e2 : balanced e1 → balanced e2 → balanced (e1 ++ e2).
Proof. intros H1 H2 l f b Hl. rewrite <- app_assoc. by apply H1, H2. Qed.

Lemma balanced_region f o n op evs : balanced evs →
  balanced (LkReq f UnLock o n :: evs ++ [LkReq f op o n]).
Proof.
  intros He l g b Hl. simpl. unfold covers at 1. simpl. rewrite <- app_assoc.
  destruct (bool_decide (f = g) && (o <=? b) && ((n =? 0) || (b <? o + n))) eqn:E; [done|].
  apply He. simpl. unfold covers. simpl. by rewrite E.
Qed.

Lemma balanced_pair f o n op : balanced [LkReq f UnLock o n; LkReq f op o n].
Proof. apply (balanced_region f o n op []). apply balanced_nil. Qed.

#[export] Hint Resolve balanced_nil balanced_app balanced_region balanced_pair : cverif.

(** ** The search *)

Lemma find_and_lock_spec M m ch k wl w :
  wok m w → inv M m ch → no_nul k →
  ∃ rc w', _db_find_and_lock k wl w = Ok (rc, w') ∧
    frame (set_chainoff (loc_off m (LHdr (hslot k)))
             (add_lks [LkReq FIdx (if wl then WrLock else RdLock) (loc_off m (LHdr (hslot k))) 1] w)) w' ∧
    ((rc = -1 ∧ M !! k = None ∧
        ∀ i r, i ∈ ch (hslot k) → irecs m !! i = Some r → rkey r ≠ k) ∨
     ∃ l1 i l2 r, rc = 0 ∧ ch (hslot k) = l1 ++ i :: l2 ∧ irecs m !! i = Some r ∧ rkey r = k ∧
       M !! k = Some (rdata r) ∧ at_rec m i r w' ∧
       ptroff (cur (db w')) = loc_off m (last_loc (LHdr (hslot k)) l1)).
Proof.
  intros Hw I Hk. pose proof Hw as (Hi & _ & _ & _ & Hn & Hh). pose proof (hslot_range k) as [_ Hj].
  pose proof (inv_chain _ _ _ I _ Hj) as Hc. pose proof (inv_ok _ _ _ I) as Hok.
  unfold _db_find_and_lock. mstep. rewrite hslot_off by done.
  set (L := LHdr (hslot k)). change (PTR_SZ * Z.of_nat (hslot k)) with (loc_off m L).
  rewrite bind_lock_req.
  set (w1 := add_lks _ (set_ptroff (loc_off m L) (set_chainoff (loc_off m L) w))).
  erewrite bind_ok by (apply readptr_spec with (m := m) (L := L); [done|done|by apply chain_ptr]).
  mstep. set (w2 := set_file FIdx _ w1).
  assert (wok m w2) as Hw2.
  { subst w2 w1. destruct Hw as (? & ? & ? & ? & ? & ?). by split_and!. }
  assert (frame (set_chainoff (loc_off m L)
             (add_lks [LkReq FIdx (if wl then WrLock else RdLock) (loc_off m L) 1] w)) w2) as Hfr2.
  { subst w2 w1. split; try done. }
  destruct (find_loop m k (ch (hslot k)) L w2 (chain_fuel w2)) as (o & w' & E & Hfr & Hs); try done.
  { unfold chain_fuel. rewrite (proj1 Hw2).
    pose proof (inv_length_chain _ _ _ I _ Hj). pose proof (inv_records_fit _ _ _ I). lia. }
  erewrite bind_ok by exact E. unfold mret, M_ret.
  destruct Hs as [[-> Hno]|(l1 & i & l2 & r & Hl & Hr & HP & -> & Hat & Hprev)].
  - eexists _, w'. split; [done|]. split; [by etrans|]. left. split_and!; [done| |done].
    by eapply inv_miss.
  - pose proof (ioff_pos m i). destruct (Z.eqb_spec (ioff m i) 0); [lia|].
    eexists _, w'. split; [done|]. split; [by etrans|]. right. exists l1, i, l2, r.
    split_and!; try done. apply (inv_map _ _ _ I). exists i. unfold kd. rewrite Hr, Hl. simpl.
    rewrite HP. split; [set_solver|done].
Qed.

Lemma set_chainoff_wok m off evs w : wok m w → wok m (set_chainoff off (add_lks evs w)).
Proof. by intros (? & ? & ? & ? & ? & ?). Qed.

(** ** Fetch *)

(** An operation adds at most one record of maximal size to the files. *)
Record grown (w w' : world) : Prop := {
  gr_idx : zlen (fdata (idx w')) ≤ zlen (fdata (idx w)) + (PTR_SZ + IDXLEN_SZ + IDXLEN_MAX);
  gr_dat : zlen (fdata (dat w')) ≤ zlen (fdata (dat w)) + DATLEN_MAX
}.

Lemma grown_same w w' : zlen (fdata (idx w')) = zlen (fdata (idx w)) →
  zlen (fdata (dat w')) = zlen (fdata (dat w)) → grown w w'.
Proof. split; unfold PTR_SZ, IDXLEN_SZ, IDXLEN_MAX, DATLEN_MAX; lia. Qed.

Lemma img_shape_sizes m m' : img_shape m m' → img_ok m → img_ok m' →
  zlen (idx_bytes m) = zlen (idx_bytes m') ∧ zlen (dat_bytes m) = zlen (dat_bytes m').
Proof.
  intros S H H'. rewrite <- !ioff_end, <- !doff_end, (Forall2_length _ _ _ (proj2 S)).
  split; [by apply img_shape_ioff|by apply img_shape_doff].
Qed.

Lemma grown_shape m m' w w' : img_shape m m' → img_ok m → img_ok m' → wok m w → wok m' w' → grown w w'.
Proof.
  intros S H H' (Hi & Hd & _) (Hi' & Hd' & _). destruct (img_shape_sizes m m' S H H').
  apply grown_same; congruence.
Qed.

Lemma grown_from m m' w w' w'' : img_shape m m' → img_ok m → img_ok m' → wok m w → wok m' w' →
  grown w' w'' → grown w w''.
Proof.
  intros S H H' (Hi & Hd & _) (Hi' & Hd' & _) [G1 G2]. destruct (img_shape_sizes m m' S H H').
  split; congruence.
Qed.

(** The post-condition the operations share: the map, the lock requests, the counters
    and the size of the files. *)
Definition op_post (M' : spec.map) (bump : world → world) (w w' : world) : Prop :=
  rep M' w' ∧ (∃ evs, lks w' = evs ++ lks w ∧ balanced evs) ∧
  cnt (db w') = cnt (db (bump w)) ∧ grown w w'.

Lemma db_fetch_ok M w k : rep M w → no_nul k →
  ∃ w', db_fetch k w = Ok (M !! k, w') ∧
    op_post M (match M !! k with Some _ => bump_fetchok | None => bump_fetcherr end) w w' ∧
    fdata (idx w') = fdata (idx w) ∧ fdata (dat w') = fdata (dat w) ∧ errno w' = errno w.
Proof.
  intros (m & ch & Hw & I) Hk.
  destruct (find_and_lock_spec M m ch k false w Hw I Hk) as (rc & w1 & E & Hfr & Hs).
  pose proof (frame_wok _ _ _ Hfr (set_chainoff_wok _ _ _ _ Hw)) as Hw1.
  unfold db_fetch. erewrite bind_ok by exact E.
  destruct Hs as [(-> & HM & _)|(l1 & i & l2 & r & -> & Hl & Hr & _ & HM & Hat & _)].
  - simpl. mstep. rewrite bind_lock_req. rewrite HM. eexists. split; [reflexivity|].
    destruct Hfr, Hw1 as (? & ? & ? & ? & ? & ?); simpl in *.
    split_and!; try congruence.
    split_and!; [by exists m, ch| | |].
    + eexists [_; _]. simpl. rewrite fr_lks, fr_chainoff. split; [reflexivity|apply balanced_pair].
    + simpl. by rewrite fr_cnt.
    + apply grown_same; simpl; congruence.
  - simpl. destruct Hat as (_ & Ho & Hd & _).
    mstep. erewrite bind_ok by (apply (readdat_spec m i r); try done; apply (inv_ok _ _ _ I)).
    mstep. rewrite bind_lock_req, HM. eexists. split; [reflexivity|].
    destruct (proj2 (inv_ok _ _ _ I) i r Hr) as (_ & _ & [_ Hdat] & _).
    destruct Hfr, Hw1 as (? & ? & ? & ? & ? & ?); simpl in *.
    split_and!; try congruence.
    split_and!.
    + exists m, ch. split; [|done]. split_and!; simpl; try done.
      unfold datbuf_after. rewrite app_assoc, zlen_app. unfold zlen in *.
      rewrite length_drop, !length_app. simpl. unfold DATLEN_MAX in *. lia.
    + eexists [_; _]. simpl. rewrite fr_lks, fr_chainoff. split; [reflexivity|apply balanced_pair].
    + simpl. by rewrite fr_cnt.
    + apply grown_same; simpl; congruence.
Qed.

(** ** Moving a record between chains *)

(** The part of [inv] that is about the chains only. *)
Record chains_ok (m : img) (ch : nat → list nat) : Prop := {
  co_chain : ∀ j, (j < NSLOT)%nat → chain m (LHdr j) (ch j);
  co_nodup : ∀ j, (j < NSLOT)%nat → NoDup (ch j);
  co_disj : ∀ j k i, (j < NSLOT)%nat → (k < NSLOT)%nat → i ∈ ch j → i ∈ ch k → j = k;
  co_all : ∀ i, (i < length (irecs m))%nat → ∃ j, (j < NSLOT)%nat ∧ i ∈ ch j
}.

Lemma inv_chains M m ch : inv M m ch → chains_ok m ch.
Proof. by intros []; split. Qed.

Definition move (ch : nat → list nat) (a b i : nat) (rest : list nat) : nat → list nat :=
  <[b := i :: ch b]> (<[a := rest]> ch).

Lemma move_a ch a b i rest : a ≠ b → move ch a b i rest a = rest.
Proof. intros. unfold move. rewrite fn_lookup_insert_ne by done. apply fn_lookup_insert. Qed.
Lemma move_b ch a b i rest : move ch a b i rest b = i :: ch b.
Proof. apply fn_lookup_insert. Qed.
Lemma move_other ch a b i rest j : j ≠ a → j ≠ b → move ch a b i rest j = ch j.
Proof. intros. unfold move. by rewrite !fn_lookup_insert_ne by congruence. Qed.

Lemma elem_of_move ch a b i l1 l2 j x :
  a ≠ b → NoDup (ch a) → ch a = l1 ++ i :: l2 →
  x ∈ move ch a b i (l1 ++ l2) j ↔ (x = i ∧ j = b) ∨ (x ∈ ch j ∧ (x ≠ i ∨ j ≠ a)).
Proof.
  intros Hab Hnd Ha. rewrite Ha in Hnd. apply NoDup_app in Hnd as (_ & Hl1 & [Hl2 _]%NoDup_cons).
  destruct (decide (j = b)) as [->|Hb]; [rewrite move_b; set_solver|].
  destruct (decide (j = a)) as [->|]; [|rewrite move_other by done; set_solver].
  rewrite move_a, Ha by done. set_solver.
Qed.

Section move.
Context (m m' : img) (ch : nat → list nat) (a b i : nat) (l1 l2 : list nat) (p : Z).
Hypothesis (C : chains_ok m ch) (Ha : (a < NSLOT)%nat) (Hb : (b < NSLOT)%nat) (Hab : a ≠ b).
Hypothesis (Hch : ch a = l1 ++ i :: l2) (Hp : ptr_at m (LRec i) = Some p).
Let prev := last_loc (LHdr a) l1.
Hypothesis (Hoff : ∀ x, ioff m' x = ioff m x) (Hlen : length (irecs m') = length (irecs m)).
Hypothesis (Hprev : ptr_at m' prev = Some p).
Hypothesis (Hhead : ptr_at m' (LHdr b) = Some (ioff m i)).
Hypothesis (Hnew : ptr_at m' (LRec i) = Some (head_off m (ch b))).
Hypothesis (Hother : ∀ L, L ≠ prev → L ≠ LHdr b → L ≠ LRec i → ptr_at m' L = ptr_at m L).

Lemma prev_cases : prev = LHdr a ∨ ∃ x, x ∈ l1 ∧ prev = LRec x.
Proof. apply last_loc_in. Qed.

Lemma move_not_in_b x : x ∈ l1 ++ i :: l2 → x ∉ ch b.
Proof. rewrite <- Hch. intros Hx Hx'. by apply Hab, (co_disj _ _ C a b x). Qed.

Lemma move_chains_ok : chains_ok m' (move ch a b i (l1 ++ l2)).
Proof.
  pose proof (co_nodup _ _ C a Ha) as Hnd.
  pose proof (elem_of_move ch a b i l1 l2) as Hin.
  split.
  - intros j Hj. destruct (decide (j = b)) as [->|Hjb]; [|destruct (decide (j = a)) as [->|Hja]].
    + rewrite move_b. apply (chain_push m); try done.
      * intros k. by left.
      * apply move_not_in_b. set_solver.
      * by rewrite Hoff.
      * rewrite Hnew. symmetry. by apply chain_ptr, (co_chain _ _ C).
      * intros k Hk. apply Hother; [|done|].
        -- destruct prev_cases as [->|(x & Hx & ->)]; [done|]. intros [= ->].
           by apply (move_not_in_b x); [set_solver|].
        -- intros [= ->]. by apply (move_not_in_b i); [set_solver|].
      * by apply (co_chain _ _ C).
    + rewrite move_a by done. rewrite Hch in Hnd. pose proof (co_chain _ _ C a Ha) as Hc. rewrite Hch in Hc.
      apply NoDup_app in Hnd as Hnd'. destruct Hnd' as (_ & Hd1 & [Hd2 _]%NoDup_cons).
      eapply (chain_unlink m m' (LHdr a)); try done; [by left|].
      intros L' HL' [->|(k & Hk & ->)]; apply Hother; try done; [congruence|].
      intros [= ->]. set_solver.
    + rewrite move_other by done. apply (chain_frame m); [done| |by apply (co_chain _ _ C)].
      intros L' [->|(k & Hk & ->)]; apply Hother; try congruence.
      * destruct prev_cases as [->|(x & Hx & ->)]; congruence.
      * destruct prev_cases as [->|(x & Hx & ->)]; [done|]. intros [= ->].
        apply Hja, (co_disj _ _ C j a x); try done. rewrite Hch. set_solver.
      * intros [= ->]. apply Hja, (co_disj _ _ C j a i); try done. rewrite Hch. set_solver.
  - intros j Hj. destruct (decide (j = b)) as [->|Hjb]; [|destruct (decide (j = a)) as [->|Hja]].
    + rewrite move_b. apply NoDup_cons. split; [apply move_not_in_b; set_solver|by apply (co_nodup _ _ C)].
    + rewrite move_a by done. rewrite Hch in Hnd. apply NoDup_app in Hnd as (? & ? & [? ?]%NoDup_cons).
      apply NoDup_app. split_and!; set_solver.
    + rewrite move_other by done. by apply (co_nodup _ _ C).
  - intros j k x Hj Hk. rewrite !Hin by done.
    intros [[-> ->]|[Hx Hx']] [[Hxi ->]|[Hy Hy']]; try done.
    + destruct Hy' as [|Hka]; [done|]. destruct Hka. apply (co_disj _ _ C k a i); try done. rewrite Hch. set_solver.
    + subst. destruct Hx' as [|Hja]; [done|]. destruct Hja. apply (co_disj _ _ C j a i); try done. rewrite Hch. set_solver.
    + by apply (co_disj _ _ C j k x).
  - intros x Hx. rewrite Hlen in Hx. destruct (co_all _ _ C x Hx) as (j & Hj & Hxj).
    destruct (decide (x = i)) as [->|]; [exists b|exists j]; (split; [done|]); apply Hin; auto.
Qed.
End move.

(** Appending a record and linking it in front of chain [b]. *)
Section append.
Context (m m' : img) (ch : nat → list nat) (b : nat).
Let n := length (irecs m).
Hypothesis (C : chains_ok m ch) (Hb : (b < NSLOT)%nat).
Hypothesis (Hoff : ∀ x, (x ≤ n)%nat → ioff m' x = ioff m x) (Hlen : length (irecs m') = S n).
Hypothesis (Hhead : ptr_at m' (LHdr b) = Some (ioff m n)).
Hypothesis (Hnew : ptr_at m' (LRec n) = Some (head_off m (ch b))).
Hypothesis (Hother : ∀ L, L ≠ LHdr b → L ≠ LRec n → ptr_at m' L = ptr_at m L).

Lemma append_lt j x : (j < NSLOT)%nat → x ∈ ch j → (x < n)%nat.
Proof.
  intros Hj Hx. destruct (chain_lookup _ _ _ x (co_chain _ _ C j Hj) Hx) as [r Hr].
  by apply lookup_lt_Some in Hr.
Qed.

Lemma append_chains_ok : chains_ok m' (<[b := n :: ch b]> ch).
Proof.
  assert (∀ j, (j < NSLOT)%nat → n ∉ ch j) as Hn.
  { intros j Hj Hx. apply append_lt in Hx; lia. }
  split.
  - intros j Hj. destruct (decide (j = b)) as [->|Hjb].
    + rewrite fn_lookup_insert. apply (chain_push m); try done.
      * intros k. by left.
      * by apply Hn.
      * intros k Hk. apply Hoff. apply append_lt in Hk; lia.
      * by rewrite Hoff.
      * rewrite Hnew. symmetry. by apply chain_ptr, (co_chain _ _ C).
      * intros k Hk. apply Hother; [done|]. intros [= ->]. by eapply Hn.
      * by apply (co_chain _ _ C).
    + rewrite fn_lookup_insert_ne by done. apply (chain_frame m); [| |by apply (co_chain _ _ C)].
      * intros k Hk. apply Hoff. apply append_lt in Hk; lia.
      * intros L' [->|(k & Hk & ->)]; apply Hother; try congruence. intros [= ->]. by eapply Hn.
  - intros j Hj. destruct (decide (j = b)) as [->|Hjb].
    + rewrite fn_lookup_insert. apply NoDup_cons. split; [by apply Hn|by apply (co_nodup _ _ C)].
    + rewrite fn_lookup_insert_ne by done. by apply (co_nodup _ _ C).
  - intros j k x Hj Hk.
    assert (∀ j, (j < NSLOT)%nat → x ∈ (<[b := n :: ch b]> ch : nat → list nat) j →
      (x = n ∧ j = b) ∨ (x ≠ n ∧ x ∈ ch j)) as Hx.
    { clear j k Hj Hk. intros j Hj. destruct (decide (j = b)) as [->|].
      - rewrite fn_lookup_insert. intros [->|Hx]%elem_of_cons; [by left|right].
        split; [intros ->; by eapply Hn|done].
      - rewrite fn_lookup_insert_ne by done. intros Hx. right. split; [intros ->; by eapply Hn|done]. }
    intros [[-> ->]|[? ?]]%Hx [[? ->]|[? ?]]%Hx; try done. by apply (co_disj _ _ C j k x).
  - intros x Hx. rewrite Hlen in Hx. destruct (decide (x = n)) as [->|].
    + exists b. split; [done|]. rewrite fn_lookup_insert. set_solver.
    + destruct (co_all _ _ C x) as (j & Hj & Hxj); [lia|]. exists j. split; [done|].
      destruct (decide (j = b)) as [->|]; [rewrite fn_lookup_insert; set_solver|].
      by rewrite fn_lookup_insert_ne.
Qed.
End append.

(** ** What the operations do to the contents *)

Record content_ok (M : spec.map) (m : img) (ch : nat → list nat) : Prop := {
  ct_free : ∀ i k d, i ∈ ch 0%nat → kd m i = Some (k, d) → k = blank k;
  ct_hash : ∀ j i k d, (0 < j < NSLOT)%nat → i ∈ ch j → kd m i = Some (k, d) → hslot k = j;
  ct_key : ∀ i i' k d d', i ∈ ch (hslot k) → i' ∈ ch (hslot k) →
    kd m i = Some (k, d) → kd m i' = Some (k, d') → i = i';
  ct_map : ∀ k d, M !! k = Some d ↔ ∃ i, i ∈ ch (hslot k) ∧ kd m i = Some (k, d)
}.

Lemma inv_content M m ch : inv M m ch → content_ok M m ch.
Proof. by intros []; split. Qed.

Lemma inv_intro M m ch : img_ok m → length (ihdr m) = NSLOT → chains_ok m ch →
  content_ok M m ch → inv M m ch.
Proof. by intros ?? [] []; split. Qed.

Lemma blank_blank k : blank (blank k) = blank k.
Proof. unfold blank. by rewrite length_replicate. Qed.

Section content.
Context (M : spec.map) (m m' : img) (ch : nat → list nat).
Hypothesis (C : chains_ok m ch) (T : content_ok M m ch).

Lemma content_delete k d l1 i l2 :
  ch (hslot k) = l1 ++ i :: l2 → kd m i = Some (k, d) →
  (∃ d', kd m' i = Some (blank k, d')) → (∀ x, x ≠ i → kd m' x = kd m x) →
  content_ok (delete k M) m' (move ch (hslot k) 0 i (l1 ++ l2)).
Proof.
  intros Hch Hi [d' Hi'] Hx. pose proof (hslot_range k) as Hk.
  pose proof (co_nodup _ _ C (hslot k) ltac:(lia)) as Hnd.
  pose proof (λ j x, elem_of_move ch (hslot k) 0 i l1 l2 j x ltac:(lia) Hnd Hch) as Hin.
  assert (i ∈ ch (hslot k)) as Hick by (rewrite Hch; set_solver).
  split.
  - intros x k' e. rewrite Hin. destruct (decide (x = i)) as [->|Hne].
    + rewrite Hi'. intros _ [= <- <-]. by rewrite blank_blank.
    + rewrite Hx by done. intros [[? _]|[? _]]; [done|]. by eapply (ct_free _ _ _ T).
  - intros j x k' e Hj. rewrite Hin. intros [[-> ->]|[Hxj Hxi]]; [lia|].
    destruct (decide (x = i)) as [->|Hne].
    + destruct Hxi as [|Hjk]; [done|]. destruct Hjk. by apply (co_disj _ _ C j (hslot k) i); [lia|lia|..].
    + rewrite Hx by done. by apply (ct_hash _ _ _ T).
  - intros x y k' e e'. pose proof (hslot_range k'). rewrite !Hin.
    intros [[-> ?]|[Hxj Hxi]] [[-> ?]|[Hyj Hyi]]; try lia.
    assert (∀ z, z ∈ ch (hslot k') → (z ≠ i ∨ hslot k' ≠ hslot k) → z ≠ i) as Hz.
    { intros z Hz [|Hjk]; [done|]. intros ->. destruct Hjk. by apply (co_disj _ _ C _ (hslot k) i); [lia|lia|..]. }
    rewrite !Hx by auto. by apply (ct_key _ _ _ T).
  - intros k' e. rewrite lookup_delete_Some, (ct_map _ _ _ T). pose proof (hslot_range k'). split.
    + intros [Hne (x & Hx1 & Hx2)]. exists x. rewrite Hin.
      assert (x ≠ i) by (intros ->; congruence). rewrite Hx by done. auto.
    + intros (x & [[-> ?]|[Hxj Hxi]]%Hin & Hx2); [lia|].
      assert (x ≠ i) as Hne.
      { destruct Hxi as [|Hjk]; [done|]. intros ->. destruct Hjk. by apply (co_disj _ _ C _ (hslot k) i); [lia|lia|..]. }
      rewrite Hx in Hx2 by done. split; [|by exists x]. intros <-. apply Hne. by eapply (ct_key _ _ _ T).
Qed.

(** A new key in a record that joins chain [hslot k]; the chains are given by what
    they contain. *)
Lemma content_insert ch' k d i :
  M !! k = None → (∀ k', i ∉ ch (hslot k')) → kd m' i = Some (k, d) → (∀ x, x ≠ i → kd m' x = kd m x) →
  (∀ j x, (j < NSLOT)%nat → x ∈ ch' j ↔ (x = i ∧ j = hslot k) ∨ (x ∈ ch j ∧ x ≠ i)) →
  content_ok (<[k:=d]> M) m' ch'.
Proof.
  intros HM Hni Hi Hx Hin. pose proof (hslot_range k) as Hk.
  assert (∀ x e, x ∈ ch (hslot k) → kd m x = Some (k, e) → False) as Hnone.
  { intros x e Hxk Hxe. assert (M !! k = Some e) by (apply (ct_map _ _ _ T); eauto). congruence. }
  split.
  - intros x k' e. rewrite Hin by (unfold NSLOT; lia). intros [[_ ?]|[Hx0 Hne]]; [lia|].
    rewrite Hx by done. by apply (ct_free _ _ _ T).
  - intros j x k' e Hj. rewrite Hin by lia. intros [[-> ->]|[Hxj Hne]].
    + rewrite Hi. by intros [= <- <-].
    + rewrite Hx by done. by apply (ct_hash _ _ _ T).
  - intros x y k' e e'. pose proof (hslot_range k') as Hk'. rewrite !Hin by lia.
    intros [[-> Hj]|[Hxj Hxi]] [[-> Hj']|[Hyj Hyi]]; try done.
    + rewrite Hi, (Hx y) by done. intros [= <- <-] Hy. exfalso. eauto.
    + rewrite Hi, (Hx x) by done. intros Hx' [= <- <-]. exfalso. eauto.
    + rewrite (Hx x), (Hx y) by done. by apply (ct_key _ _ _ T).
  - intros k' e. pose proof (hslot_range k') as Hk'. rewrite lookup_insert_Some, (ct_map _ _ _ T). split.
    + intros [[<- <-]|[Hne (x & Hx1 & Hx2)]].
      * exists i. rewrite Hin by lia. auto.
      * assert (x ≠ i) as Hxi by (intros ->; by eapply Hni).
        exists x. rewrite Hin, Hx by (done || lia). auto.
    + intros (x & [[-> Hj]|[Hxj Hxi]]%Hin & Hx2); [| |lia].
      * rewrite Hi in Hx2. left. by simplify_eq.
      * rewrite Hx in Hx2 by done. destruct (decide (k = k')) as [<-|]; [|right; eauto].
        exfalso. eauto.
Qed.

(** New data for a key, in the same record. *)
Lemma content_replace k d0 d i :
  i ∈ ch (hslot k) → kd m i = Some (k, d0) → kd m' i = Some (k, d) →
  (∀ x, x ≠ i → kd m' x = kd m x) → content_ok (<[k:=d]> M) m' ch.
Proof.
  intros Hick Hi Hi' Hx. pose proof (hslot_range k) as Hk.
  assert (∀ x, kd m' x = if decide (x = i) then Some (k, d) else kd m x) as Hkd.
  { intros x. case_decide; [by subst|by apply Hx]. }
  split.
  - intros x k' e Hx0. rewrite Hkd. case_decide as Hxi; [|by apply (ct_free _ _ _ T)].
    subst. pose proof (co_disj _ _ C 0%nat (hslot k) i) as Hd. unfold NSLOT in *. lia || (exfalso; assert (0%nat = hslot k) by (apply Hd; lia || done); lia).
  - intros j x k' e Hj Hxj. rewrite Hkd. case_decide as Hxi; [|by apply (ct_hash _ _ _ T)].
    subst. intros [= <- <-]. by apply (ct_hash _ _ _ T j i k d0).
  - intros x y k' e e' Hxj Hyj. rewrite !Hkd. do 2 case_decide; subst; try done.
    + intros [= <- <-] Hy. by apply (ct_key _ _ _ T i y k d0 e').
    + intros Hx' [= <- <-]. by apply (ct_key _ _ _ T x i k e d0).
    + by apply (ct_key _ _ _ T).
  - intros k' e. rewrite lookup_insert_Some, (ct_map _ _ _ T). split.
    + intros [[<- <-]|[Hne (x & Hx1 & Hx2)]]; [by exists i|]. exists x. rewrite Hkd.
      case_decide; [subst; congruence|done].
    + intros (x & Hx1 & Hx2). rewrite Hkd in Hx2. case_decide; [left; by simplify_eq|].
      destruct (decide (k = k')) as [<-|]; [|right; eauto].
      exfalso. pose proof (ct_key _ _ _ T x i k e d0). auto.
Qed.
End content.

(** ** Deletion *)

Lemma kd_wptr m L v x : kd (wptr L v m) x = kd m x.
Proof.
  destruct L as [j|i]; [done|]. unfold kd. simpl. destruct (decide (x = i)) as [->|].
  - rewrite list_lookup_alter_eq. by destruct (irecs m !! i).
  - by rewrite list_lookup_alter_ne.
Qed.

Lemma kd_set_rec m i r : (i < length (irecs m))%nat → kd (set_rec i r m) i = Some (rkey r, rdata r).
Proof. intros. unfold kd. simpl. by rewrite list_lookup_insert_eq. Qed.

Lemma kd_set_rec_ne m i r x : x ≠ i → kd (set_rec i r m) x = kd m x.
Proof. intros. unfold kd. simpl. by rewrite list_lookup_insert_ne by done. Qed.

Lemma kd_lookup m i r : irecs m !! i = Some r → kd m i = Some (rkey r, rdata r).
Proof. unfold kd. by intros ->. Qed.

Lemma irecs_length_wptr m L v : length (irecs (wptr L v m)) = length (irecs m).
Proof. destruct L; [done|]. apply length_alter. Qed.

Lemma blank_no_nul k : no_nul (blank k).
Proof. by apply Forall_replicate. Qed.

Lemma blank_key_ok k : key_ok (blank k).
Proof.
  split; [apply blank_no_nul|]. intros Hin. apply elem_of_replicate in Hin as [? _]. done.
Qed.

Lemma zlen_blank k : zlen (blank k) = zlen k.
Proof. unfold blank. by rewrite zlen_replicate. Qed.

Lemma blank_shape r p : same_shape r (Rec p (blank (rkey r)) (blank (rdata r))).
Proof. split; simpl; unfold blank; by rewrite length_replicate. Qed.

Lemma blank_data_ok d : data_ok d → data_ok (blank d).
Proof. intros [_ H]. split; [apply blank_no_nul|]. by rewrite zlen_blank. Qed.

Lemma blank_rec_ok d p r : rec_ok d r → ptr_ok p → rec_ok d (Rec p (blank (rkey r)) (blank (rdata r))).
Proof.
  intros (_ & _ & Hd & Hb & Hdo) Hp.
  split; [done|]. split; [apply blank_key_ok|]. split; [by apply blank_data_ok|].
  split; [|done]. by rewrite <- (rec_body_shape d r) by apply blank_shape.
Qed.

(** The image after [_db_dodelete] of record [i] after the prefix [l1] of its chain. *)
Definition deleted (m : img) (i : nat) (r : rec) (prev : loc) (freeptr : Z) : img :=
  wptr prev (rptr r) (wptr (LHdr 0) (ioff m i)
    (set_rec i (Rec freeptr (blank (rkey r)) (blank (rdata r))) m)).

Section delete.
Context (M : spec.map) (m : img) (ch : nat → list nat) (I : inv M m ch).
Context (k : list Z) (l1 l2 : list nat) (i : nat) (r : rec).
Hypothesis (Hch : ch (hslot k) = l1 ++ i :: l2) (Hr : irecs m !! i = Some r) (Hk : rkey r = k).
Let prev := last_loc (LHdr (hslot k)) l1.
Let fp := head_off m (ch 0%nat).
Let m2 := set_rec i (Rec fp (blank (rkey r)) (blank (rdata r))) m.
Let m3 := wptr (LHdr 0) (ioff m i) m2.
Let m4 := deleted m i r prev fp.

Lemma del_shape : img_shape m m2 ∧ img_shape m m3 ∧ img_shape m m4.
Proof.
  assert (img_shape m m2) as H2 by (eapply set_rec_shape; [done|apply blank_shape]).
  assert (img_shape m m3) as H3 by (etrans; [exact H2|apply wptr_shape]).
  split_and!; try done. etrans; [exact H3|apply wptr_shape].
Qed.

Lemma del_free_ptr : ptr_at m (LHdr 0) = Some fp.
Proof. apply chain_ptr, (inv_chain _ _ _ I). unfold NSLOT. lia. Qed.

Lemma del_i_in : i ∈ ch (hslot k).
Proof. rewrite Hch. set_solver. Qed.

Lemma del_ok : img_ok m2 ∧ img_ok m3 ∧ img_ok m4.
Proof.
  pose proof (inv_ok _ _ _ I) as Hok. pose proof (hslot_range k) as Hj.
  assert (img_ok m2) as H2.
  { eapply set_rec_ok; [done|done|apply blank_shape|]. apply blank_rec_ok; [by apply (proj2 Hok)|].
    eapply ptr_at_ok; [done|apply del_free_ptr]. }
  assert (img_ok m3) as H3.
  { apply wptr_ok; [done|]. eapply inv_ioff_ok; [done|apply Hj|apply del_i_in]. }
  split; [done|split; [done|]]. apply wptr_ok; [done|]. apply (proj2 Hok i r Hr).
Qed.

Lemma del_prev_ne : prev ≠ LHdr 0 ∧ prev ≠ LRec i ∧ is_Some (ptr_at m prev).
Proof.
  pose proof (hslot_range k) as Hj. pose proof (inv_nodup _ _ _ I (hslot k) ltac:(lia)) as Hnd.
  rewrite Hch in Hnd. apply NoDup_app in Hnd as (_ & Hd & _).
  pose proof (inv_chain _ _ _ I (hslot k) ltac:(lia)) as Hc. rewrite Hch in Hc.
  pose proof (chain_app _ _ _ _ Hc) as Hc'. apply chain_ptr in Hc'.
  split_and!; [| |by eexists]; unfold prev;
    destruct (last_loc_in (LHdr (hslot k)) l1) as [->|(x & Hx & ->)]; try done; intros [= ?]. subst. set_solver.
Qed.

Lemma del_kd_other x : x ≠ i → kd m4 x = kd m x.
Proof. intros. unfold m4, deleted. rewrite !kd_wptr. by apply kd_set_rec_ne. Qed.

Lemma deleted_inv : inv (delete k M) m4 (move ch (hslot k) 0 i (l1 ++ l2)).
Proof.
  destruct del_shape as (S2 & S3 & S4), del_ok as (O2 & O3 & O4), del_prev_ne as (Hp0 & Hpi & Hps).
  pose proof (hslot_range k) as Hj. pose proof (lookup_lt_Some _ _ _ Hr) as Hlt.
  pose proof (inv_ok _ _ _ I) as Hok. pose proof (inv_hdr _ _ _ I) as Hhdr.
  assert (∀ L, ptr_at m3 L = if decide (L = LHdr 0) then Some (ioff m i)
    else if decide (L = LRec i) then Some fp else ptr_at m L) as P3.
  { intros L. unfold m3, m2. case_decide as HL; [subst L|].
    - apply ptr_at_wptr. rewrite ptr_at_set_rec_ne by done. by rewrite del_free_ptr.
    - rewrite ptr_at_wptr_ne by congruence. case_decide as HL2; [subst; by apply ptr_at_set_rec|].
      by apply ptr_at_set_rec_ne. }
  assert (∀ L, ptr_at m4 L = if decide (L = prev) then Some (rptr r) else ptr_at m3 L) as P4.
  { intros L. unfold m4, deleted. case_decide as HL; [subst L|by apply ptr_at_wptr_ne; congruence].
    apply ptr_at_wptr. change (is_Some (ptr_at m3 prev)). rewrite P3.
    rewrite !decide_False by done. done. }
  apply inv_intro; [done|by rewrite <- (proj1 S4)| |].
  - apply (move_chains_ok m) with (p := rptr r); try done; try (unfold NSLOT in *; lia).
    + by apply inv_chains with M.
    + simpl. by rewrite Hr.
    + intros x. symmetry. by apply img_shape_ioff.
    + unfold m4, deleted. rewrite !irecs_length_wptr. simpl. by rewrite length_insert.
    + by rewrite P4, decide_True.
    + rewrite P4, decide_False, P3, decide_True by congruence. done.
    + rewrite P4, decide_False by congruence. rewrite P3. rewrite decide_False by congruence. by rewrite decide_True by congruence.
    + intros L HL1 HL2 HL3. by rewrite P4, decide_False, P3, !decide_False by done.
  - eapply content_delete.
    + by apply inv_chains with M.
    + by apply inv_content.
    + done.
    + rewrite <- Hk. by apply kd_lookup.
    + exists (blank (rdata r)). unfold m4, deleted. rewrite !kd_wptr, kd_set_rec, Hk by done. done.
    + apply del_kd_other.
Qed.
End delete.

(** Overwriting a record with one of the same shape. *)
Lemma writeidx_rec m i r r' w :
  fdata (idx w) = idx_bytes m → img_ok m → irecs m !! i = Some r → same_shape r r' →
  ptr_ok (rptr r') → datoff (cur (db w)) = doff m i → datlen (cur (db w)) = rec_dlen r →
  zlen (idxbuf (db w)) = IDXLEN_MAX + 2 →
  let s := rec_body (doff m i) r' in
  _db_writeidx (rkey r') (ioff m i) SEEK_SET (rptr r') w =
    Ok ((), set_file FIdx (OFile (idx_bytes (set_rec i r' m)) (ioff m i + (PTR_SZ + IDXLEN_SZ + zlen s)))
              (writeidx_handle s (ioff m i) (rptr r') w)).
Proof.
  intros Hi Hok Hr Hs Hp Ho Hl Hb s. pose proof (ioff_pos m i).
  destruct (proj2 Hok i r Hr) as (_ & _ & _ & Hbody & _).
  assert (rec_dlen r = rec_dlen r') as El by (unfold rec_dlen, zlen; by rewrite (proj2 Hs)).
  pose proof (rec_body_shape (doff m i) _ _ Hs) as Es.
  rewrite (writeidx_set (rkey r') (ioff m i) (rptr r') s).
  - do 4 f_equal. rewrite <- (idx_overwrite _ _ _ _ Hok Hr Hs Hp), Hi. done.
  - lia.
  - done.
  - unfold s, rec_body. by rewrite Ho, Hl, El.
  - unfold s. lia.
  - unfold s. rewrite Hb. lia.
Qed.

Lemma idxbuf_written_zlen b s : zlen s + 1 ≤ zlen b → zlen (idxbuf_written b s) = zlen b.
Proof.
  intros. unfold idxbuf_written, zlen at 1. rewrite bwrite_length_in; [done|lia|]. by rewrite zlen_app.
Qed.

(** The three index writes of [_db_dodelete] and the data write, on the layout. *)
Section dodelete.
Context (M : spec.map) (m : img) (ch : nat → list nat) (I : inv M m ch).
Context (k : list Z) (l1 l2 : list nat) (i : nat) (r : rec).
Hypothesis (Hch : ch (hslot k) = l1 ++ i :: l2) (Hr : irecs m !! i = Some r) (Hk : rkey r = k).
Let prev := last_loc (LHdr (hslot k)) l1.
Let fp := head_off m (ch 0%nat).
Let r' := Rec fp (blank (rkey r)) (blank (rdata r)).

(** The blanking of the two buffers. *)
Lemma blank_datbuf b (w : world) : zlen b = DATLEN_MAX + 2 →
  bput b 0 (replicate (Z.to_nat (rec_dlen r - 1)) SPACE ++ [0]) w =
    Ok (blank (rdata r) ++ 0 :: drop (length (rdata r) + 1) b, w).
Proof.
  intros Hb. destruct (proj2 (inv_ok _ _ _ I) i r Hr) as (_ & _ & [_ Hd] & _).
  replace (Z.to_nat (rec_dlen r - 1)) with (length (rdata r)) by (unfold rec_dlen, zlen; lia).
  fold (blank (rdata r)). rewrite bput_eq.
  2:{ rewrite zlen_app, zlen_blank, Hb. change (zlen [0]) with 1. lia. }
  unfold bwrite. simpl. rewrite <- app_assoc. simpl.
  unfold blank. by rewrite length_app, length_replicate.
Qed.

Lemma blank_idxbuf rest (w : world) :
  bput (rkey r ++ 0 :: rest) 0 (blank (cstr (rkey r ++ 0 :: rest))) w =
    Ok (blank (rkey r) ++ 0 :: rest, w).
Proof.
  destruct (proj2 (inv_ok _ _ _ I) i r Hr) as (_ & [Hn _] & _). rewrite cstr_app by done.
  rewrite bput_eq; [|rewrite zlen_app, zlen_blank; pose proof (zlen_nonneg (0 :: rest)); lia].
  unfold bwrite. simpl. unfold blank at 2. rewrite length_replicate, drop_app_length. done.
Qed.

Lemma dodelete_spec w : wok m w → at_rec m i r w → ptroff (cur (db w)) = loc_off m prev →
  ∃ w', _db_dodelete w = Ok ((), w') ∧
  wok (deleted m i r prev fp) w' ∧
  lks w' = [LkReq FIdx UnLock FREE_OFF 1; LkReq FIdx WrLock FREE_OFF 1] ++ lks w ∧
  cnt (db w') = cnt (db w) ∧ chainoff (cur (db w')) = chainoff (cur (db w)) ∧ errno w' = errno w.
Proof.
  destruct (del_shape m ch k l1 i r Hr) as (S2 & S3 & S4).
  destruct (del_ok M m ch I k l1 l2 i r Hch Hr Hk) as (O2 & O3 & O4).
  destruct (del_prev_ne M m ch I k l1 l2 i r Hch Hr Hk) as (Hp0 & Hpi & [pv Hps]).
  pose proof (inv_ok _ _ _ I) as Hok. pose proof (del_free_ptr M m ch I) as Hfp.
  pose proof (ptr_at_ok _ _ _ Hok Hfp) as Hfpok.
  destruct (proj2 Hok i r Hr) as (Hpr & [Hkn _] & [Hdn Hdl] & Hbody & Hdo).
  destruct w as [[ib dbf nm [io il do dl pt po co] ho nh cn] [id ip] [dd dp] lk en].
  intros (Hi & Hd & Hib & Hdb & Hnh & Hho) (Hio & Hdoff & Hdlen & Hpv & rest & Hbuf) Hpo.
  cbn [db idx dat lks errno idxbuf datbuf cur nhash hashoff idxoff datoff datlen ptrval ptroff fdata cnt chainoff] in *.
  subst io do dl pt po id dd ib ho nh.
  unfold _db_dodelete. mstep. erewrite bind_ok by by apply blank_datbuf. mstep.
  erewrite bind_ok by apply blank_idxbuf. mstep. rewrite bind_lock_req. mstep. 
  simpl datbuf. simpl datoff. simpl idxbuf.
  rewrite cstr_app by apply blank_no_nul.
  erewrite bind_ok by by apply writedat_set; lia. 
  simpl.
  erewrite bind_ok by (apply (readptr_spec m (LHdr 0)); done). mstep. simpl.
  rewrite cstr_app by apply blank_no_nul.
  erewrite (bind_ok (_db_writeidx _ _ _ _)).
  2:{ apply (writeidx_rec m i r r'); try done; try by apply blank_shape.
      - simpl. unfold rec_dlen. by rewrite zlen_blank.
      - simpl. rewrite <- Hib, !zlen_app, zlen_blank. done. }
  mstep. simpl.
  set (m2 := set_rec i r' m) in *. set (m3 := wptr (LHdr 0) (ioff m i) m2) in *.
  erewrite (bind_ok (_db_writeptr _ _)).
  2:{ apply (writeptr_spec m2 (LHdr 0) fp); [reflexivity|done| |].
      - unfold m2. by rewrite ptr_at_set_rec_ne.
      - eapply (inv_ioff_ok _ _ _ I (hslot k)); [apply hslot_range|rewrite Hch; set_solver]. }
  mstep. simpl. rewrite (img_shape_loc_off _ _ prev S3 Hok O3).
  erewrite bind_ok.
  2:{ apply (writeptr_spec m3 prev pv); [reflexivity|done| |done].
      unfold m3, m2. by rewrite ptr_at_wptr_ne, ptr_at_set_rec_ne. }
  rewrite lock_req_eq. eexists. split; [reflexivity|]. split; [|done].
  split_and!; try done; simpl.
  - unfold deleted. rewrite !wptr_dat.
    apply (dat_overwrite m i r r'); [done|]. simpl. unfold blank. by rewrite length_replicate.
  - rewrite idxbuf_written_zlen; rewrite !zlen_app, zlen_blank, <- zlen_app, Hib; [done|].
    unfold r'. rewrite <- (rec_body_shape (doff m i) r) by apply blank_shape. lia.
  - rewrite zlen_app, zlen_blank, zlen_cons. unfold zlen in *. rewrite length_drop.
    unfold DATLEN_MAX in *. lia.
Qed.
End dodelete.

(** The lock requests of an operation that has region [evs] between the lock and the
    unlock of its chain byte. *)
Lemma op_locks w w1 w2 op co evs :
  lks w1 = [LkReq FIdx op co 1] ++ lks w → lks w2 = evs ++ lks w1 → balanced evs →
  ∃ e, lks (add_lks [LkReq FIdx UnLock co 1] w2) = e ++ lks w ∧ balanced e.
Proof.
  intros H1 H2 He. exists (LkReq FIdx UnLock co 1 :: evs ++ [LkReq FIdx op co 1]).
  split; [|by apply balanced_region]. simpl. rewrite H2, H1. by rewrite <- app_assoc.
Qed.

Lemma wok_ext m w w' : fdata (idx w') = fdata (idx w) → fdata (dat w') = fdata (dat w) → idxbuf (db w') = idxbuf (db w) →
  datbuf (db w') = datbuf (db w) → nhash (db w') = nhash (db w) → hashoff (db w') = hashoff (db w) →
  wok m w → wok m w'.
Proof. unfold wok. by intros -> -> -> -> -> ->. Qed.

Lemma db_delete_ok M w k : rep M w → no_nul k →
  ∃ w', db_delete k w = Ok (fst (spec.delete_key M k), w') ∧
    op_post (snd (spec.delete_key M k))
      (match M !! k with Some _ => bump_delok | None => bump_delerr end) w w' ∧ errno w' = errno w.
Proof.
  intros (m & ch & Hw & I) Hk. unfold spec.delete_key.
  destruct (find_and_lock_spec M m ch k true w Hw I Hk) as (rc & w1 & E & Hfr & Hs).
  pose proof (frame_wok _ _ _ Hfr (set_chainoff_wok _ _ _ _ Hw)) as Hw1.
  unfold db_delete. erewrite bind_ok by exact E.
  destruct Hs as [(-> & HM & _)|(l1 & i & l2 & r & -> & Hl & Hr & Hkey & HM & Hat & Hpo)]; rewrite HM.
  - simpl. mstep. rewrite bind_lock_req. eexists. split; [reflexivity|]. destruct Hfr. simpl in *.
    split; [split_and!|simpl in *; congruence].
    + exists m, ch. split; [|done]. by eapply wok_ext; [..|exact Hw1].
    + rewrite fr_chainoff. by eapply (op_locks w w1 _ _ _ []); [exact fr_lks| |apply balanced_nil].
    + simpl. by rewrite fr_cnt.
    + apply grown_same; simpl; congruence.
  - destruct (dodelete_spec M m ch I k l1 l2 i r Hl Hr Hkey w1 Hw1 Hat Hpo)
      as (w2 & E2 & Hw2 & Hlk & Hcnt & Hco & Herr).
    simpl. mstep. erewrite bind_ok by exact E2. mstep. rewrite bind_lock_req.
    eexists. split; [reflexivity|]. destruct Hfr. simpl in *. split; [split_and!|simpl in *; congruence].
    + eexists _, _. split; [|by eapply deleted_inv]. by eapply wok_ext; [..|exact Hw2].
    + rewrite Hco, fr_chainoff.
      by apply (op_locks w w1 w2 _ _ [_; _] fr_lks Hlk), balanced_pair.
    + simpl. by rewrite Hcnt, fr_cnt.
    + destruct (del_shape m ch k l1 i r Hr) as (_ & _ & S4).
      eapply (grown_shape m _ _ _ S4); [apply I| |exact Hw|by eapply wok_ext; [..|exact Hw2]].
      apply (inv_ok _ _ _ (deleted_inv M m ch I k l1 l2 i r Hl Hr Hkey)).
Qed.

(** ** Store *)

(** There is room for the record at the end of the files: its offset fits a chain
    pointer and its index record has an admissible length. *)
Definition room (k d : list Z) (w : world) : Prop :=
  zlen (fdata (idx w)) ≤ PTR_MAX ∧ zlen (fdata (dat w)) ≤ LONG_MAX ∧
  IDXLEN_MIN ≤ zlen (idx_fmt k (zlen (fdata (dat w))) (zlen d + 1)) ≤ IDXLEN_MAX.

(** What the writes of an operation keep: counters, [errno] and the chain. *)
Definition kept (w w' : world) : Prop :=
  cnt (db w') = cnt (db w) ∧ chainoff (cur (db w')) = chainoff (cur (db w)) ∧ errno w' = errno w.

(** The image after a record was appended and linked in front of chain [b]. *)
Definition appended (m : img) (b : nat) (ptr : Z) (k d : list Z) : img :=
  wptr (LHdr b) (zlen (idx_bytes m)) (add_rec (Rec ptr k d) m).

Lemma append_spec {A} m b ptr k d w (K : M world A) :
  wok m w → img_ok m → ptr_at m (LHdr b) = Some ptr → chainoff (cur (db w)) = loc_off m (LHdr b) →
  key_ok k → data_ok d → room k d w →
  ∃ w' evs, (_db_writedat d 0 SEEK_END ≫= λ _, _db_writeidx k 0 SEEK_END ptr ≫= λ _,
        gets (λ w, cur (db w)) ≫= λ c, _db_writeptr (chainoff c) (idxoff c) ≫= λ _, K) w = K w' ∧
    wok (appended m b ptr k d) w' ∧ lks w' = evs ++ lks w ∧ balanced evs ∧ kept w w'.
Proof.
  intros (Hi & Hd & Hib & Hdb & Hnh & Hho) Hok Hp Hco Hk Hdok (Hr1 & Hr2 & Hr3).
  destruct w as [[ib dbf nm [io il do dl pt po co] ho nh cn] [id ip] [dd dp] lk en].
  cbn [db idx dat lks errno idxbuf datbuf cur nhash hashoff chainoff fdata] in *.
  subst id dd co ho nh. pose proof (ptr_at_ok _ _ _ Hok Hp) as Hpok.
  set (r := Rec ptr k d). set (s := idx_fmt k (zlen (dat_bytes m)) (zlen d + 1)) in *.
  assert (rec_ok (zlen (dat_bytes m)) r) as Hrok.
  { split; [done|]. split; [done|]. split; [done|]. split; [done|].
    pose proof (zlen_nonneg (dat_bytes m)). lia. }
  pose proof (add_rec_ok m r Hok Hrok) as Hok'.
  assert (ptr_ok (zlen (idx_bytes m))) as Hip.
  { split; [apply zlen_nonneg|done]. }
  rewrite (bind_ok _ _ _ _ _ (writedat_end _ _)). simpl.
  erewrite (bind_ok (_db_writeidx _ _ _ _)).
  2:{ apply (writeidx_end k ptr s); try done. simpl. lia. }
  mstep. simpl.
  erewrite (bind_ok (_db_writeptr _ _)).
  2:{ apply (writeptr_spec (add_rec r m) (LHdr b) ptr); try done. simpl.
      by rewrite idx_bytes_add. }
  eexists _, [_; _; _; _]. split; [reflexivity|]. split.
  - split_and!; try done; simpl.
    + unfold appended. by rewrite wptr_dat, dat_bytes_add.
    + rewrite idxbuf_written_zlen; lia.
  - split; [reflexivity|]. split; [|done]. simpl.
    apply (balanced_app [_; _] [_; _]); apply balanced_pair.
Qed.

Lemma room_rec_ok m k d w ptr : wok m w → room k d w → ptr_ok ptr → key_ok k → data_ok d →
  rec_ok (zlen (dat_bytes m)) (Rec ptr k d) ∧ ptr_ok (zlen (idx_bytes m)).
Proof.
  intros (Hi & Hd & _) (Hr1 & Hr2 & Hr3) Hp Hk Hdok. rewrite Hi, Hd in *.
  pose proof (zlen_nonneg (dat_bytes m)). pose proof (zlen_nonneg (idx_bytes m)).
  split; [|split; lia]. split; [done|]. split; [done|]. split; [done|]. split; [done|lia].
Qed.

Lemma grown_appended m b ptr k d w w' :
  img_ok m → ptr_ok (zlen (idx_bytes m)) → rec_ok (zlen (dat_bytes m)) (Rec ptr k d) →
  wok m w → wok (appended m b ptr k d) w' → grown w w'.
Proof.
  intros Hok Hip Hr (Hi & Hd & _) (Hi' & Hd' & _). pose proof (add_rec_ok _ _ Hok Hr) as Hok1.
  destruct (img_shape_sizes _ _ (wptr_shape (add_rec (Rec ptr k d) m) (LHdr b) (zlen (idx_bytes m))))
    as [E1 E2]; [done|by apply wptr_ok|].
  destruct Hr as (Hp & _ & [_ Hdl] & Hb & _).
  pose proof (enc_rec_length (zlen (dat_bytes m)) _ Hp ltac:(unfold IDXLEN_MIN in *; lia)) as El.
  split.
  - rewrite Hi, Hi'. unfold appended. rewrite <- E1, idx_bytes_add, zlen_app, El. lia.
  - rewrite Hd, Hd'. unfold appended. rewrite <- E2, dat_bytes_add, !zlen_app. change (zlen [NEWLINE]) with 1. simpl in *. lia.
Qed.

Section appended.
Context (M : spec.map) (m : img) (ch : nat → list nat) (I : inv M m ch) (k d : list Z).
Let n := length (irecs m).
Let ptr := head_off m (ch (hslot k)).
Let m' := appended m (hslot k) ptr k d.
Hypothesis (HM : M !! k = None) (Hrok : rec_ok (zlen (dat_bytes m)) (Rec ptr k d)).
Hypothesis (Hip : ptr_ok (zlen (idx_bytes m))).

Lemma appended_kd x : kd m' x = if decide (x = n) then Some (k, d) else kd m x.
Proof.
  unfold m', appended. rewrite kd_wptr. unfold kd. simpl. case_decide as Hx.
  - subst x. by rewrite list_lookup_middle.
  - destruct (decide (x < n)%nat); [by rewrite lookup_app_l|].
    rewrite !lookup_ge_None_2; [done| |rewrite length_app; simpl]; unfold n in *; lia.
Qed.

Lemma appended_inv : inv (<[k:=d]> M) m' (<[hslot k := n :: ch (hslot k)]> ch).
Proof.
  pose proof (inv_ok _ _ _ I) as Hok. pose proof (hslot_range k) as Hj.
  pose proof (add_rec_ok _ _ Hok Hrok) as Hok1.
  assert (img_ok m') as Hok' by by apply wptr_ok.
  pose proof (wptr_shape (add_rec (Rec ptr k d) m) (LHdr (hslot k)) (zlen (idx_bytes m))) as Hs.
  assert (∀ x, ioff m' x = ioff (add_rec (Rec ptr k d) m) x) as Hoff.
  { intros x. symmetry. by apply img_shape_ioff. }
  assert (is_Some (ptr_at m (LHdr (hslot k)))) as Hh.
  { eexists. apply chain_ptr, (inv_chain _ _ _ I). lia. }
  apply inv_intro; [done| | |].
  - simpl. rewrite length_insert. apply (inv_hdr _ _ _ I).
  - apply (append_chains_ok m); try done; try lia.
    + by eapply inv_chains.
    + intros x Hx. by rewrite Hoff, ioff_add.
    + simpl. by rewrite length_app, Nat.add_comm.
    + unfold m', appended. rewrite ptr_at_wptr by done. by rewrite <- ioff_end.
    + simpl. by rewrite list_lookup_middle.
    + intros L HL1 HL2. unfold m', appended. rewrite ptr_at_wptr_ne by done.
      destruct L as [|x]; [done|]. simpl.
      assert (x ≠ n) by (intros ->; done). destruct (decide (x < n)%nat); [by rewrite lookup_app_l|].
      rewrite !lookup_ge_None_2; [done| |rewrite length_app; simpl]; unfold n in *; lia.
  - assert (∀ j, (j < NSLOT)%nat → n ∉ ch j) as Hn.
    { intros j Hj' Hx. destruct (inv_ch_lookup _ _ _ I j n Hj' Hx) as [r Hr].
      apply lookup_lt_Some in Hr. unfold n in *. lia. }
    apply (content_insert M m m' ch) with (i := n); try done.
    + by eapply inv_content.
    + intros k'. apply Hn, hslot_range.
    + by rewrite appended_kd, decide_True.
    + intros x Hx. by rewrite appended_kd, decide_False.
    + intros j x Hj'. destruct (decide (j = hslot k)) as [->|Hne].
      * rewrite fn_lookup_insert. rewrite elem_of_cons. split; [|intros [[-> _]|[? _]]; auto].
        intros [->|Hx]; [by left|right; split; [done|]]. intros ->. by eapply Hn.
      * rewrite fn_lookup_insert_ne by done. split; [|intros [[_ ?]|[? _]]; done].
        intros Hx. right. split; [done|]. intros ->. by eapply Hn.
Qed.
End appended.

(** The free-list search takes a record of the wanted sizes off the list. *)
Lemma findfree_spec M m ch keylen dl w : wok m w → inv M m ch →
  ∃ rc w', _db_findfree keylen dl w = Ok (rc, w') ∧
    lks w' = [LkReq FIdx UnLock FREE_OFF 1; LkReq FIdx WrLock FREE_OFF 1] ++ lks w ∧ kept w w' ∧
    ((rc = -1 ∧ wok m w') ∨
     ∃ l1 i l2 r, rc = 0 ∧ ch 0%nat = l1 ++ i :: l2 ∧ irecs m !! i = Some r ∧
       zlen (rkey r) = keylen ∧ rec_dlen r = dl ∧ at_rec m i r w' ∧
       wok (wptr (last_loc (LHdr 0) l1) (rptr r) m) w').
Proof.
  intros Hw I. pose proof (inv_ok _ _ _ I) as Hok. assert (0 < NSLOT)%nat as H0 by (unfold NSLOT; lia).
  pose proof (inv_chain _ _ _ I 0%nat H0) as Hc.
  unfold _db_findfree. rewrite bind_lock_req.
  set (w1 := add_lks _ w).
  erewrite bind_ok by (apply (readptr_spec m (LHdr 0)); [apply Hw|done|by apply chain_ptr]). mstep.
  set (w2 := set_file FIdx _ w1).
  assert (wok m w2) as Hw2 by by (destruct Hw as (? & ? & ? & ? & ? & ?); split_and!).
  destruct (findfree_loop m keylen dl (ch 0%nat) (LHdr 0) w2 (chain_fuel w2))
    as (o & so & w3 & E & Hfr & _ & Hs); try done.
  { unfold chain_fuel. rewrite (proj1 Hw2).
    pose proof (inv_length_chain _ _ _ I 0%nat H0). pose proof (inv_records_fit _ _ _ I). lia. }
  change (loc_off m (LHdr 0)) with FREE_OFF in E. erewrite bind_ok by exact E. cbv beta iota.
  pose proof (frame_wok _ _ _ Hfr Hw2) as Hw3. destruct Hfr. simpl in *.
  destruct Hs as [[-> _]|(l1 & i & l2 & r & Hl & Hr & [HP1 HP2] & -> & Hat & ->)].
  - simpl. mstep. rewrite bind_lock_req. eexists _, _. split; [reflexivity|]. split.
    { simpl. by rewrite fr_lks. }
    split; [done|]. left. split; [done|]. by eapply wok_ext; [..|exact Hw3].
  - pose proof (ioff_pos m i). destruct (Z.eqb_spec (ioff m i) 0); [lia|]. mstep.
    rewrite Hl in Hc. pose proof (chain_ptr _ _ _ (chain_app _ _ _ _ Hc)) as Hprev.
    pose proof Hat as (_ & _ & _ & -> & _).
    erewrite bind_ok.
    2:{ eapply writeptr_spec; [apply Hw3|done|exact Hprev|]. by apply (proj2 Hok i r Hr). }
    mstep. rewrite bind_lock_req. eexists _, _. split; [reflexivity|]. split.
    { simpl. by rewrite fr_lks. }
    split; [done|]. right. exists l1, i, l2, r.
    destruct Hw3 as (? & ? & ? & ? & ? & ?). do 5 (split; [done|]).
    split; [exact Hat|]. split_and!; try done. simpl. by rewrite wptr_dat.
Qed.

(** The image after a record of the same shape was overwritten and linked in front of
    chain [b]. *)
Definition reused (m : img) (b i : nat) (ptr : Z) (k d : list Z) : img :=
  wptr (LHdr b) (ioff m i) (set_rec i (Rec ptr k d) m).

Lemma reuse_rec_ok d0 r ptr k d : rec_ok d0 r → ptr_ok ptr → key_ok k → data_ok d →
  same_shape r (Rec ptr k d) → rec_ok d0 (Rec ptr k d).
Proof.
  intros (_ & _ & _ & Hb & Hdo) Hp Hk Hd Hs. split; [done|]. split; [done|]. split; [done|].
  split; [|done]. by rewrite <- (rec_body_shape d0 r).
Qed.

Lemma reuse_spec {A} m b i r p0 ptr k d w (K : M world A) :
  wok m w → img_ok m → irecs m !! i = Some r → at_rec m i r w → ptr_at m (LHdr b) = Some p0 →
  chainoff (cur (db w)) = loc_off m (LHdr b) → ptr_ok ptr → ptr_ok (ioff m i) →
  key_ok k → data_ok d → same_shape r (Rec ptr k d) →
  ∃ w', (gets (λ w, cur (db w)) ≫= λ c, _db_writedat d (datoff c) SEEK_SET ≫= λ _,
      gets (λ w, cur (db w)) ≫= λ c, _db_writeidx k (idxoff c) SEEK_SET ptr ≫= λ _,
      gets (λ w, cur (db w)) ≫= λ c, _db_writeptr (chainoff c) (idxoff c) ≫= λ _, K) w = K w' ∧
    wok (reused m b i ptr k d) w' ∧ lks w' = lks w ∧ kept w w'.
Proof.
  intros (Hi & Hd & Hib & Hdb & Hnh & Hho) Hok Hr (Hio & Hdoff & Hdlen & _) Hp Hco Hpok Hiok Hk Hdok Hs.
  destruct w as [[ib dbf nm [io il do dl pt po co] ho nh cn] [id ip] [dd dp] lk en].
  cbn [db idx dat lks errno idxbuf datbuf cur nhash hashoff chainoff fdata idxoff datoff datlen] in *.
  subst id dd co ho nh io do dl.
  pose proof (proj2 Hok i r Hr) as Hrok. destruct (Hrok) as (_ & _ & _ & Hbody & Hdo).
  set (r' := Rec ptr k d) in *.
  assert (img_ok (set_rec i r' m)) as Hok'.
  { eapply set_rec_ok; [done|done|done|]. by eapply reuse_rec_ok. }
  rewrite bind_gets. simpl. rewrite (bind_ok _ _ _ _ _ (writedat_set _ _ _ (doff_nonneg m i))). simpl.
  rewrite bind_gets. simpl.
  erewrite (bind_ok (_db_writeidx _ _ _ _)).
  2:{ apply (writeidx_rec m i r r'); try done. simpl. unfold rec_dlen, zlen. by rewrite (proj2 Hs). }
  rewrite bind_gets. simpl.
  erewrite (bind_ok (_db_writeptr _ _)).
  2:{ apply (writeptr_spec (set_rec i r' m) (LHdr b) p0); done. }
  eexists. split; [reflexivity|]. split; [|done]. split_and!; try done; simpl.
  - unfold reused. rewrite wptr_dat. apply (dat_overwrite m i r r'); [done|]. symmetry. apply Hs.
  - rewrite idxbuf_written_zlen; [done|]. rewrite <- (rec_body_shape (doff m i) r) by done. lia.
Qed.

Section reused.
Context (M : spec.map) (m : img) (ch : nat → list nat) (I : inv M m ch) (k d : list Z).
Context (l1 l2 : list nat) (i : nat) (r : rec).
Let ptr := head_off m (ch (hslot k)).
Let prev := last_loc (LHdr 0) l1.
Let m1 := wptr prev (rptr r) m.
Let m' := reused m1 (hslot k) i ptr k d.
Hypothesis (HM : M !! k = None) (Hk : key_ok k) (Hd : data_ok d).
Hypothesis (Hch : ch 0%nat = l1 ++ i :: l2) (Hr : irecs m !! i = Some r).
Hypothesis (Hs : same_shape r (Rec ptr k d)).

Lemma reused_prev : prev ≠ LHdr (hslot k) ∧ prev ≠ LRec i ∧ is_Some (ptr_at m prev).
Proof.
  assert (0 < NSLOT)%nat as H0 by (unfold NSLOT; lia).
  pose proof (inv_nodup _ _ _ I 0%nat H0) as Hnd. pose proof (inv_chain _ _ _ I 0%nat H0) as Hc.
  rewrite Hch in Hnd, Hc. apply NoDup_app in Hnd as (_ & Hdj & _).
  apply chain_app, chain_ptr in Hc. split_and!; [| |by eexists];
    unfold prev; destruct (last_loc_in (LHdr 0) l1) as [->|(x & Hx & ->)]; try done;
    intros [= ?]; subst; set_solver.
Qed.

Lemma reused_rec : irecs m1 !! i = Some r.
Proof.
  destruct reused_prev as (_ & Hne & _). unfold m1.
  destruct prev as [j|x]; [done|]. simpl. rewrite list_lookup_alter_ne; [done|congruence].
Qed.

Lemma reused_ok1 : img_ok m1 ∧ ptr_ok ptr ∧ ptr_ok (ioff m i).
Proof.
  pose proof (inv_ok _ _ _ I) as Hok. split; [|split].
  - apply wptr_ok; [done|]. by apply (proj2 Hok i r Hr).
  - eapply ptr_at_ok; [done|]. apply (chain_ptr _ (LHdr (hslot k))), (inv_chain _ _ _ I). apply hslot_range.
  - eapply (inv_ioff_ok _ _ _ I 0%nat); [unfold NSLOT; lia|]. rewrite Hch. set_solver.
Qed.

Lemma reused_ioff1 x : ioff m1 x = ioff m x.
Proof.
  symmetry. apply img_shape_ioff; [apply wptr_shape|apply (inv_ok _ _ _ I)|apply reused_ok1].
Qed.

Lemma reused_ptr L : ptr_at m' L =
  if decide (L = LHdr (hslot k)) then Some (ioff m i) else
  if decide (L = LRec i) then Some ptr else
  if decide (L = prev) then Some (rptr r) else ptr_at m L.
Proof.
  destruct reused_prev as (Hp1 & Hp2 & Hp3). pose proof (lookup_lt_Some _ _ _ reused_rec) as Hlt.
  unfold m', reused. case_decide as H1; [subst L|].
  - rewrite ptr_at_wptr, reused_ioff1; [done|]. rewrite ptr_at_set_rec_ne by done.
    unfold m1. rewrite ptr_at_wptr_ne by done. eexists.
    apply chain_ptr, (inv_chain _ _ _ I), hslot_range.
  - rewrite ptr_at_wptr_ne by done. case_decide as H2; [subst L; by apply ptr_at_set_rec|].
    rewrite ptr_at_set_rec_ne by done. unfold m1.
    case_decide; [subst L; by apply ptr_at_wptr|by apply ptr_at_wptr_ne].
Qed.

Lemma reused_kd x : kd m' x = if decide (x = i) then Some (k, d) else kd m x.
Proof.
  pose proof (lookup_lt_Some _ _ _ reused_rec) as Hlt. unfold m', reused. rewrite kd_wptr.
  case_decide; [subst x; by rewrite kd_set_rec|rewrite kd_set_rec_ne by done; apply kd_wptr].
Qed.

Lemma reused_shape : img_shape m m'.
Proof.
  pose proof reused_rec as Hr1. transitivity m1; [apply wptr_shape|].
  etrans; [by eapply set_rec_shape|apply wptr_shape].
Qed.

Lemma reused_inv : inv (<[k:=d]> M) m' (move ch 0 (hslot k) i (l1 ++ l2)).
Proof.
  pose proof (hslot_range k) as Hj. destruct reused_ok1 as (O1 & Hpp & Hpi).
  destruct reused_prev as (Hp1 & Hp2 & _). pose proof reused_rec as Hr1.
  pose proof (inv_nodup _ _ _ I 0%nat ltac:(unfold NSLOT; lia)) as Hnd.
  assert (img_shape m1 m') as S1.
  { etrans; [by eapply set_rec_shape|apply wptr_shape]. }
  assert (img_ok m') as O'.
  { apply wptr_ok; [|by rewrite reused_ioff1]. eapply set_rec_ok; [done|done|done|].
    eapply reuse_rec_ok; try done. by apply (proj2 O1 i r). }
  assert (i ∈ ch 0%nat) as Hi0 by (rewrite Hch; set_solver).
  apply inv_intro; [done| | |].
  - rewrite <- (proj1 S1). unfold m1. rewrite <- (proj1 (wptr_shape m prev (rptr r))). apply (inv_hdr _ _ _ I).
  - apply (move_chains_ok m) with (p := rptr r); try done; try (unfold NSLOT in *; lia).
    + by eapply inv_chains.
    + simpl. by rewrite Hr.
    + intros x. rewrite <- reused_ioff1. symmetry. by apply img_shape_ioff.
    + rewrite <- (Forall2_length _ _ _ (proj2 S1)). apply irecs_length_wptr.
    + rewrite reused_ptr. by rewrite !decide_False, decide_True by done.
    + by rewrite reused_ptr, decide_True.
    + by rewrite reused_ptr, decide_False, decide_True by done.
    + intros L H1 H2 H3. by rewrite reused_ptr, !decide_False by done.
  - apply (content_insert M m m' ch) with (i := i); try done.
    + by eapply inv_content.
    + intros k' Hx. pose proof (hslot_range k').
      pose proof (inv_disj _ _ _ I 0%nat (hslot k') i ltac:(unfold NSLOT; lia) ltac:(lia) Hi0 Hx). lia.
    + by rewrite reused_kd, decide_True.
    + intros x Hx. by rewrite reused_kd, decide_False.
    + intros j x Hj'. rewrite (elem_of_move ch 0 (hslot k) i l1 l2 j x) by (done || lia).
      split; intros [?|[Hx Hx']]; auto. right. split; [done|]. intros ->.
      destruct Hx' as [|Hx']; [done|]. apply Hx', (inv_disj _ _ _ I j 0%nat i); try done. unfold NSLOT; lia.
Qed.
End reused.

(** New data of the same length, in place. *)
Section replaced.
Context (M : spec.map) (m : img) (ch : nat → list nat) (I : inv M m ch) (k d : list Z).
Context (i : nat) (r : rec).
Let m' := set_rec i (set_data d r) m.
Hypothesis (Hi : i ∈ ch (hslot k)) (Hr : irecs m !! i = Some r) (Hk : rkey r = k).
Hypothesis (Hd : data_ok d) (Hl : length d = length (rdata r)).

Lemma replaced_shape : same_shape r (set_data d r).
Proof. by split. Qed.

Lemma replaced_ok : img_ok m'.
Proof.
  pose proof (inv_ok _ _ _ I) as Hok. eapply set_rec_ok; [done|done|apply replaced_shape|].
  pose proof (proj2 Hok i r Hr) as Hrok.
  apply (reuse_rec_ok _ r); [done|apply Hrok|apply Hrok|done|apply replaced_shape].
Qed.

Lemma replaced_inv : inv (<[k:=d]> M) m' ch.
Proof.
  pose proof (lookup_lt_Some _ _ _ Hr) as Hlt. pose proof replaced_ok as Hok'.
  assert (img_shape m m') as S by by (eapply set_rec_shape; [|apply replaced_shape]).
  assert (∀ L, ptr_at m' L = ptr_at m L) as Hp.
  { intros L. destruct (decide (L = LRec i)) as [->|]; [|by apply ptr_at_set_rec_ne].
    unfold m'. rewrite ptr_at_set_rec by done. simpl. by rewrite Hr. }
  apply inv_intro; [done|apply (inv_hdr _ _ _ I)| |].
  - split; try apply I.
    + intros j Hj. apply (chain_frame m); [|auto|by apply (inv_chain _ _ _ I)].
      intros x _. symmetry. apply img_shape_ioff; [done|apply (inv_ok _ _ _ I)|done].
    + intros x. simpl. rewrite length_insert. apply (inv_all _ _ _ I).
  - apply (content_replace M m m' ch) with (d0 := rdata r) (i := i); try done.
    + by eapply inv_chains.
    + by eapply inv_content.
    + rewrite <- Hk. by apply kd_lookup.
    + unfold m'. rewrite kd_set_rec by done. simpl. by rewrite Hk.
    + intros x Hx. by apply kd_set_rec_ne.
Qed.

Lemma replace_spec w : wok m w → at_rec m i r w →
  ∃ w', _db_writedat d (datoff (cur (db w))) SEEK_SET w = Ok ((), w') ∧
    wok m' w' ∧ lks w' = lks w ∧ kept w w'.
Proof.
  intros (Hi' & Hd' & Hib & Hdb & Hnh & Hho) (_ & Hdoff & _). rewrite Hdoff.
  rewrite writedat_set by apply doff_nonneg. eexists. split; [reflexivity|]. split; [|done].
  split_and!; try done; simpl.
  - rewrite Hi'. symmetry. by apply idx_bytes_set_data.
  - rewrite Hd'. by apply (dat_overwrite m i r (set_data d r)).
Qed.
End replaced.

Lemma room_shape m m' k d w w' : wok m w → wok m' w' → img_shape m m' → img_ok m → img_ok m' →
  room k d w → room k d w'.
Proof.
  intros (Hi & Hd & _) (Hi' & Hd' & _) S H H'. destruct (img_shape_sizes m m' S H H') as [E1 E2].
  unfold room. by rewrite Hi, Hd, Hi', Hd', E1, E2.
Qed.

(** The counter [db_store] bumps; for a new key it depends on the free list. *)
Definition store_bumps (M : spec.map) (k d : list Z) (flag : Z) (b : world → world) : Prop :=
  match M !! k with
  | None => if flag =? DB_REPLACE then b = bump_storerr else b = bump_stor1 ∨ b = bump_stor2
  | Some d0 => if flag =? DB_INSERT then b = bump_storerr
               else if zlen d0 =? zlen d then b = bump_stor4 else b = bump_stor3
  end.
Definition store_errno (M : spec.map) (k : list Z) (flag e : Z) : Z :=
  match M !! k with None => if flag =? DB_REPLACE then ENOENT else e | Some _ => e end.

(** The lock and unlock of the free list, latest first. *)
Definition free_lks : list lkreq := [LkReq FIdx UnLock FREE_OFF 1; LkReq FIdx WrLock FREE_OFF 1].

(** What happens between the lock and the unlock of the chain. *)
Definition inside (bump : world → world) (w w' : world) : Prop :=
  (∃ evs, lks w' = evs ++ lks w ∧ balanced evs) ∧ cnt (db w') = cnt (db (bump w)) ∧
  chainoff (cur (db w')) = chainoff (cur (db w)) ∧ errno w' = errno w ∧ grown w w'.

(** A counter update depends on the counters only. *)
Ltac solve_bump := let Hx := fresh in intros ?? Hx; simpl; by rewrite Hx.

Lemma inside_intro bump w w' evs : (∀ w, bump w = upd_cnt (λ _, cnt (db (bump w))) w) →
  lks w' = evs ++ lks w → balanced evs → kept w w' →
  (∀ w w', cnt (db w) = cnt (db w') → cnt (db (bump w)) = cnt (db (bump w'))) →
  grown w w' → inside bump w (bump w').
Proof.
  intros Hb Hl He (Hc & Hco & Her) Hcnt Hg. split; [|split; [by apply Hcnt|]].
  - exists evs. rewrite Hb. done.
  - rewrite Hb. by destruct Hg.
Qed.

Section store.
Context (M : spec.map) (m : img) (ch : nat → list nat) (I : inv M m ch) (k d : list Z).
Hypothesis (Hk : key_ok k) (Hd : data_ok d).

(** A key that is not there, with a free record of its shape or at the end. *)
Lemma store_new w : wok m w → M !! k = None → chainoff (cur (db w)) = loc_off m (LHdr (hslot k)) →
  room k d w →
  ∃ w' bump, (c ← gets (λ w, cur (db w));
        ptr ← _db_readptr (chainoff c);
        free ← _db_findfree (zlen k) (zlen d + 1);
        if free <? 0 then
          _ ← _db_writedat d 0 SEEK_END;
          _ ← _db_writeidx k 0 SEEK_END ptr;
          c ← gets (λ w, cur (db w));
          _ ← _db_writeptr (chainoff c) (idxoff c);
          _ ← modify bump_stor1; mret 0
        else
          c ← gets (λ w, cur (db w));
          _ ← _db_writedat d (datoff c) SEEK_SET;
          c ← gets (λ w, cur (db w));
          _ ← _db_writeidx k (idxoff c) SEEK_SET ptr;
          c ← gets (λ w, cur (db w));
          _ ← _db_writeptr (chainoff c) (idxoff c);
          _ ← modify bump_stor2; mret 0) w = Ok (0, w') ∧
    rep (<[k:=d]> M) w' ∧ inside bump w w' ∧ (bump = bump_stor1 ∨ bump = bump_stor2).
Proof.
  intros Hw HM Hco Hroom. pose proof (inv_ok _ _ _ I) as Hok. pose proof (hslot_range k) as [_ Hj].
  pose proof (chain_ptr _ _ _ (inv_chain _ _ _ I _ Hj)) as Hp.
  pose proof (ptr_at_ok _ _ _ Hok Hp) as Hpok.
  rewrite bind_gets, Hco. erewrite bind_ok by (apply readptr_spec; [apply Hw|done|exact Hp]).
  set (w1 := set_file FIdx _ w).
  assert (wok m w1) as Hw1 by by (destruct Hw as (? & ? & ? & ? & ? & ?); split_and!).
  destruct (findfree_spec M m ch (zlen k) (zlen d + 1) w1 Hw1 I)
    as (rc & w2 & E & Hlk & (Hc2 & Hco2 & He2) & Hs). erewrite bind_ok by exact E.
  destruct Hs as [[-> Hw2]|(l1 & i & l2 & r & -> & Hl & Hr & HP1 & HP2 & Hat & Hw2)].
  - change (-1 <? 0) with true. cbv iota.
    assert (room k d w2) as Hroom2.
    { by apply (room_shape m m k d w w2). }
    destruct (append_spec m (hslot k) _ k d w2 (modify bump_stor1 ≫= λ _, mret 0) Hw2 Hok Hp)
      as (w3 & evs & -> & Hw3 & Hlk3 & He & (Hc3 & Hco3 & He3)); try done.
    { rewrite Hco2. done. }
    eexists _, bump_stor1. split; [reflexivity|]. split; [|split; [|by left]].
    + eexists _, _. split; [by eapply wok_ext; [..|exact Hw3]|].
      destruct (room_rec_ok m k d w2 _ Hw2 Hroom2 Hpok Hk Hd). by apply appended_inv.
    + apply (inside_intro bump_stor1) with (evs := evs ++ free_lks); try done.
      * rewrite Hlk3, Hlk, <- app_assoc. reflexivity.
      * apply balanced_app; [done|apply balanced_pair].
      * unfold kept. rewrite Hc3, Hco3, He3. done.
      * solve_bump.
      * apply (grown_appended m (hslot k) (head_off m (ch (hslot k))) k d w w3); try done;
          by apply (room_rec_ok m k d w2 _ Hw2 Hroom2 Hpok Hk Hd).
  - change (0 <? 0) with false. cbv iota.
    assert (same_shape r (Rec (head_off m (ch (hslot k))) k d)) as Hsh.
    { unfold rec_dlen, zlen in *. split; simpl; lia. }
    destruct (reused_ok1 M m ch I k d l1 l2 i r HM Hk Hd Hl Hr Hsh) as (O1 & _ & Hi1).
    pose proof (reused_rec M m ch I k d l1 l2 i r HM Hk Hd Hl Hr Hsh) as Hr1.
    pose proof (reused_ioff1 M m ch I k d l1 l2 i r HM Hk Hd Hl Hr Hsh i) as Hio.
    destruct (reused_prev M m ch I k d l1 l2 i r HM Hk Hd Hl Hr Hsh) as (Hpn & _).
    assert (at_rec (wptr (last_loc (LHdr 0) l1) (rptr r) m) i r w2) as Hat1.
    { destruct Hat as (? & ? & Hat). split; [by rewrite Hio|]. split; [|done].
      rewrite <- (img_shape_doff m); [done|apply wptr_shape]. }
    edestruct (reuse_spec _ (hslot k) i r (head_off m (ch (hslot k))) (head_off m (ch (hslot k))) k d w2
        (modify bump_stor2 ≫= λ _, mret 0) Hw2 O1 Hr1 Hat1)
      as (w3 & -> & Hw3 & Hlk3 & (Hc3 & Hco3 & He3)); try done.
    { by rewrite ptr_at_wptr_ne. }
    { by rewrite Hco2. }
    { by rewrite Hio. }
    eexists _, bump_stor2. split; [reflexivity|]. split; [|split; [|by right]].
    + eexists _, _. split; [by eapply wok_ext; [..|exact Hw3]|]. by eapply reused_inv.
    + apply (inside_intro bump_stor2) with (evs := free_lks); try done.
      * rewrite Hlk3, Hlk. reflexivity.
      * apply balanced_pair.
      * unfold kept. rewrite Hc3, Hco3, He3. done.
      * solve_bump.
      * pose proof (reused_inv M m ch I k d l1 l2 i r HM Hk Hd Hl Hr Hsh) as I3.
        apply (grown_shape m _ w _ (reused_shape M m ch I k d l1 l2 i r HM Hk Hd Hl Hr Hsh) Hok (inv_ok _ _ _ I3) Hw Hw3).
Qed.

(** A key that is there with data of another length: delete and append. *)
Lemma store_longer w l1 i l2 r : wok m w → at_rec m i r w →
  ch (hslot k) = l1 ++ i :: l2 → irecs m !! i = Some r → rkey r = k →
  ptroff (cur (db w)) = loc_off m (last_loc (LHdr (hslot k)) l1) →
  chainoff (cur (db w)) = loc_off m (LHdr (hslot k)) → room k d w →
  ∃ w', (_ ← _db_dodelete;
         ptr ← _db_readptr (chainoff (cur (db w)));
         _ ← _db_writedat d 0 SEEK_END;
         _ ← _db_writeidx k 0 SEEK_END ptr;
         c ← gets (λ w, cur (db w));
         _ ← _db_writeptr (chainoff c) (idxoff c);
         _ ← modify bump_stor3; mret 0) w = Ok (0, w') ∧
    rep (<[k:=d]> M) w' ∧ inside bump_stor3 w w'.
Proof.
  intros Hw Hat Hl Hr Hkey Hpo Hco Hroom. pose proof (hslot_range k) as [_ Hj].
  destruct (dodelete_spec M m ch I k l1 l2 i r Hl Hr Hkey w Hw Hat Hpo)
    as (w1 & E1 & Hw1 & Hlk1 & Hc1 & Hco1 & He1).
  pose proof (deleted_inv M m ch I k l1 l2 i r Hl Hr Hkey) as I1.
  destruct (del_shape m ch k l1 i r Hr) as (_ & _ & S4).
  set (m4 := deleted _ _ _ _ _) in *. set (ch4 := move _ _ _ _ _) in *.
  pose proof (inv_ok _ _ _ I1) as Hok. pose proof (inv_ok _ _ _ I) as Hok0.
  pose proof (chain_ptr _ _ _ (inv_chain _ _ _ I1 _ Hj)) as Hp.
  pose proof (ptr_at_ok _ _ _ Hok Hp) as Hpok.
  erewrite bind_ok by exact E1. rewrite Hco. change (loc_off m (LHdr (hslot k))) with (loc_off m4 (LHdr (hslot k))).
  erewrite bind_ok by (apply readptr_spec; [apply Hw1|done|exact Hp]).
  set (w2 := set_file FIdx _ w1).
  assert (wok m4 w2) as Hw2 by by (destruct Hw1 as (? & ? & ? & ? & ? & ?); split_and!).
  assert (room k d w2) as Hroom2.
  { by apply (room_shape m m4 k d w w2). }
  destruct (append_spec m4 (hslot k) _ k d w2 (modify bump_stor3 ≫= λ _, mret 0) Hw2 Hok Hp)
    as (w3 & evs & -> & Hw3 & Hlk3 & He & (Hc3 & Hco3 & He3)); try done.
  { simpl. by rewrite Hco1, Hco. }
  eexists. split; [reflexivity|]. split.
  - rewrite <- insert_delete_eq.
    eexists _, _. split; [by eapply wok_ext; [..|exact Hw3]|].
    destruct (room_rec_ok m4 k d w2 _ Hw2 Hroom2 Hpok Hk Hd).
    apply appended_inv; [done|apply lookup_delete_eq|done|done].
  - apply (inside_intro bump_stor3) with (evs := evs ++ free_lks); try done.
    + rewrite Hlk3. simpl. rewrite Hlk1, <- app_assoc. reflexivity.
    + apply balanced_app; [done|apply balanced_pair].
    + unfold kept. rewrite Hc3, Hco3, He3. done.
    + solve_bump.
    + apply (grown_from m m4 w w2 w3 S4); try done.
      apply (grown_appended m4 (hslot k) (head_off m4 (ch4 (hslot k))) k d w2 w3); try done;
        by apply (room_rec_ok m4 k d w2 _ Hw2 Hroom2 Hpok Hk Hd).
Qed.

(** A key that is there with data of the same length: overwrite. *)
Lemma store_same w i r : wok m w → at_rec m i r w → i ∈ ch (hslot k) → irecs m !! i = Some r →
  rkey r = k → length d = length (rdata r) →
  ∃ w', (_ ← _db_writedat d (datoff (cur (db w))) SEEK_SET; _ ← modify bump_stor4; mret 0) w
      = Ok (0, w') ∧ rep (<[k:=d]> M) w' ∧ inside bump_stor4 w w'.
Proof.
  intros Hw Hat Hi Hr Hkey Hl. destruct (replace_spec m d i r Hr Hl w Hw Hat) as (w1 & E & Hw1 & Hlk & Hkept).
  erewrite bind_ok by exact E. eexists. split; [reflexivity|]. split.
  - eexists _, _. split; [by eapply wok_ext; [..|exact Hw1]|]. by apply replaced_inv.
  - apply (inside_intro bump_stor4) with (evs := []); try done.
    + apply balanced_nil.
    + solve_bump.
    + apply (grown_shape m (set_rec i (set_data d r) m)); try done; [|apply I|].
      * by eapply set_rec_shape; [|apply replaced_shape].
      * by eapply replaced_ok.
Qed.
End store.

Lemma store_finish M' bump w w1 w2 k wl :
  rep M' w2 → inside bump w1 w2 →
  (∀ w w', cnt (db w) = cnt (db w') → cnt (db (bump w)) = cnt (db (bump w'))) →
  frame (set_chainoff (PTR_SZ * Z.of_nat (hslot k)) (add_lks [LkReq FIdx wl (PTR_SZ * Z.of_nat (hslot k)) 1] w)) w1 →
  op_post M' bump w (add_lks [LkReq FIdx UnLock (chainoff (cur (db w2))) 1] w2) ∧ errno w2 = errno w.
Proof.
  intros (m & ch & Hw2 & I) ((evs & Hl & He) & Hc & Hco & Her & Hg) Hb []. simpl in *.
  split; [split; [|split; [|split]]|congruence].
  - exists m, ch. split; [by eapply wok_ext; [..|exact Hw2]|done].
  - rewrite Hco, fr_chainoff. by apply (op_locks w w1 w2 _ _ evs fr_lks Hl).
  - simpl. rewrite Hc. by apply Hb.
  - destruct Hg as [G1 G2]. rewrite fr_idx, fr_dat in *. by split.
Qed.

Lemma op_post_errno M' bump w w' e : op_post M' bump w w' → op_post M' bump w (set_errno e w').
Proof.
  intros ((m & ch & Hw & I) & Hl & Hc & [G1 G2]). split; [|done]. exists m, ch.
  split; [by eapply wok_ext; [..|exact Hw]|done].
Qed.

(** An error return: only the error counter changes. *)
Lemma store_error M m ch w w1 k : wok m w1 → inv M m ch →
  frame (set_chainoff (PTR_SZ * Z.of_nat (hslot k)) (add_lks [LkReq FIdx WrLock (PTR_SZ * Z.of_nat (hslot k)) 1] w)) w1 →
  op_post M bump_storerr w (add_lks [LkReq FIdx UnLock (chainoff (cur (db w1))) 1] (bump_storerr w1)) ∧
  errno w1 = errno w.
Proof.
  intros Hw1 I Hfr. apply (store_finish M bump_storerr w w1 (bump_storerr w1) k WrLock); try done.
  - exists m, ch. split; [by eapply wok_ext; [..|exact Hw1]|done].
  - split; [by exists []; split; [|apply balanced_nil]|]. split_and!; try done. by apply grown_same.
  - solve_bump.
Qed.

Lemma db_store_ok M w k d flag :
  rep M w → key_ok k → data_ok d → room k d w → (flag = 1 ∨ flag = 2 ∨ flag = 3) →
  ∃ w' bump, db_store k d flag w = Ok (fst (spec.store M k d flag), w') ∧
    op_post (snd (spec.store M k d flag)) bump w w' ∧ store_bumps M k d flag bump ∧
    errno w' = store_errno M k flag (errno w).
Proof.
  intros (m & ch & Hw & I) Hk Hd Hroom Hflag.
  destruct (find_and_lock_spec M m ch k true w Hw I (proj1 Hk)) as (rc & w1 & E & Hfr & Hs).
  pose proof (frame_wok _ _ _ Hfr (set_chainoff_wok _ _ _ _ Hw)) as Hw1.
  assert (room k d w1) as Hroom1 by by apply (room_shape m m k d w w1); [..|apply I|apply I|].
  pose proof (fr_chainoff _ _ Hfr) as Hco.
  unfold db_store. replace (negb (flag =? DB_INSERT) && _ && _) with false
    by by destruct Hflag as [->|[->| ->]].
  replace ((_ <? DATLEN_MIN) || _) with false.
  2:{ destruct Hd as [_ Hd]. unfold DATLEN_MIN, DATLEN_MAX in *.
      destruct (Z.ltb_spec (zlen d + 1) 2), (Z.ltb_spec 1024 (zlen d + 1)); simpl; lia. }
  erewrite bind_ok by exact E. unfold spec.store, store_bumps, store_errno.
  destruct Hs as [(-> & HM & _)|(l1 & i & l2 & r & -> & Hl & Hr & Hkey & HM & Hat & Hpo)]; rewrite HM.
  - change (-1 <? 0) with true. cbv iota. destruct (flag =? DB_REPLACE) eqn:Hf.
    + mstep. rewrite bind_lock_req. eexists _, bump_storerr. split; [reflexivity|]. 
      destruct (store_error M m ch w w1 k Hw1 I Hfr) as [Hpost He].
      split; [|done]. by apply (op_post_errno _ _ _ _ ENOENT) in Hpost.
    + destruct (store_new M m ch I k d Hk Hd w1 Hw1 HM Hco Hroom1) as (w2 & bump & E2 & Hrep & Hin & Hb).
      erewrite bind_ok by exact E2. mstep. rewrite bind_lock_req. eexists _, bump.
      split; [reflexivity|]. destruct (store_finish _ bump w w1 w2 k WrLock Hrep Hin) as [Hpost He]; try done.
      by destruct Hb as [-> | ->]; solve_bump.
  - change (0 <? 0) with false. cbv iota.
    assert (i ∈ ch (hslot k)) as Hi by (rewrite Hl; set_solver).
    destruct (flag =? DB_INSERT) eqn:Hf.
    + mstep. rewrite bind_lock_req. eexists _, bump_storerr. split; [reflexivity|].
      by destruct (store_error M m ch w w1 k Hw1 I Hfr) as [Hpost He].
    + rewrite bind_assoc, bind_gets. pose proof Hat as (_ & _ & Hdl & _). rewrite Hdl.
      destruct (zlen (rdata r) =? zlen d) eqn:Hlen; btests.
      * replace (zlen d + 1 =? rec_dlen r) with true by (symmetry; apply Z.eqb_eq; unfold rec_dlen; lia).
        cbv beta iota delta [negb].
        destruct (store_same M m ch I k d Hd w1 i r Hw1 Hat Hi Hr Hkey) as (w2 & E2 & Hrep & Hin).
        { unfold zlen in *. lia. }
        erewrite bind_ok by exact E2. mstep. rewrite bind_lock_req. eexists _, bump_stor4.
        split; [reflexivity|].
        destruct (store_finish _ bump_stor4 w w1 w2 k WrLock Hrep Hin) as [Hpost He]; try done.
        solve_bump.
      * replace (zlen d + 1 =? rec_dlen r) with false by (symmetry; apply Z.eqb_neq; unfold rec_dlen; lia).
        cbv beta iota delta [negb].
        destruct (store_longer M m ch I k d Hk Hd w1 l1 i l2 r Hw1 Hat Hl Hr Hkey Hpo Hco Hroom1)
          as (w2 & E2 & Hrep & Hin).
        erewrite bind_ok by exact E2. mstep. rewrite bind_lock_req. eexists _, bump_stor3.
        split; [reflexivity|].
        destruct (store_finish _ bump_stor3 w w1 w2 k WrLock Hrep Hin) as [Hpost He]; try done.
        solve_bump.
Qed.
