(* ===== verification/DbApi.v ===== *)
(** What the callers of the database library rely on: the four operations refine a
    finite map from keys to data, a database that is closed and opened again shows the
    same map, a session returns the answers of the map, and the errors of the calls. *)
From S2P Require Import Prelude CLib Db DbRep DbChain DbSpec.

(** ** Opening *)

Definition empty_img : img := Img (replicate NSLOT 0) [].

Lemma empty_img_bytes : idx_bytes empty_img = empty_table.
Proof. vm_compute. reflexivity. Qed.

Lemma empty_inv : inv ∅ empty_img (λ _, []).
Proof.
  apply inv_intro; [| |split|split]; try set_solver.
  - split; [|done]. apply Forall_replicate. unfold ptr_ok, PTR_MAX. lia.
  - intros j Hj. unfold chain, empty_img, ptr_at, ihdr. by apply lookup_replicate_2.
  - intros j _. constructor.
  - simpl. lia.
Qed.

(** What [db_open] returns on files with these contents, after [db_rewind]. *)
Definition opened (pathname i d : list Z) (lk : list lkreq) : world :=
  set_idxoff ((NHASH_DEF + 1) * PTR_SZ + 1)
    (World (_db_alloc pathname) (OFile i ((NHASH_DEF + 1) * PTR_SZ + 1)) (OFile d 0) lk 0).

Lemma opened_wok m pathname i d lk : i = idx_bytes m → d = dat_bytes m → wok m (opened pathname i d lk).
Proof. intros -> ->. done. Qed.

Lemma suffix_ne pathname : pathname ++ idx_suffix ≠ pathname ++ dat_suffix.
Proof. intros [=]%app_inv_head. Qed.

Lemma db_open_ok fs pathname oflag :
  has_flag oflag O_CREAT = true → has_flag oflag O_TRUNC = true → has_flag oflag O_EXCL = false →
  ∃ fs', db_open fs pathname oflag =
    Ok (Some (opened pathname empty_table [] [LkReq FIdx UnLock 0 0; LkReq FIdx WrLock 0 0]), fs').
Proof.
  intros Hc Ht He.
  assert (∀ fs p, open_file fs p oflag = Some ([], <[p:=[]]> fs)) as Ho.
  { intros fs' p. unfold open_file. rewrite Hc, He, Ht. by destruct (fs' !! p). }
  eexists. unfold db_open. rewrite !Ho, Hc, Ht. reflexivity.
Qed.

Lemma db_reopen_ok fs pathname oflag i d :
  has_flag oflag O_CREAT = false → has_flag oflag O_TRUNC = false →
  fs !! (pathname ++ idx_suffix) = Some i → fs !! (pathname ++ dat_suffix) = Some d →
  db_open fs pathname oflag = Ok (Some (opened pathname i d []), fs).
Proof.
  intros Hc Ht Hi Hd. unfold db_open, open_file. rewrite Hi, Hc, Ht. simpl. rewrite Hd. reflexivity.
Qed.

(** ** Sessions *)

Inductive op :=
  | OpStore (k d : list Z) (flag : Z)
  | OpFetch (k : list Z)
  | OpDelete (k : list Z).

(** What a call returns: an [int], or the data pointer of [db_fetch]. *)
Inductive answer := ARc (rc : Z) | AData (d : option (list Z)).

Definition run_op (o : op) : M world answer :=
  match o with
  | OpStore k d flag => rc ← db_store k d flag; mret (ARc rc)
  | OpFetch k => d ← db_fetch k; mret (AData d)
  | OpDelete k => rc ← db_delete k; mret (ARc rc)
  end.
Fixpoint run_ops (l : list op) : M world (list answer) :=
  match l with
  | [] => mret []
  | o :: l' => a ← run_op o; r ← run_ops l'; mret (a :: r)
  end.

Definition spec_op (M : spec.map) (o : op) : answer * spec.map :=
  match o with
  | OpStore k d flag => let '(rc, M') := spec.store M k d flag in (ARc rc, M')
  | OpFetch k => (AData (M !! k), M)
  | OpDelete k => let '(rc, M') := spec.delete_key M k in (ARc rc, M')
  end.
Fixpoint spec_ops (M : spec.map) (l : list op) : list answer * spec.map :=
  match l with
  | [] => ([], M)
  | o :: l' => let '(a, M') := spec_op M o in let '(r, M'') := spec_ops M' l' in (a :: r, M'')
  end.

(** The longest key that fits an index record of a file of [PTR_MAX] bytes. *)
Definition KEY_MAX : Z := 1010.

Definition op_ok (o : op) : Prop :=
  match o with
  | OpStore k d flag => key_ok k ∧ 1 ≤ zlen k ≤ KEY_MAX ∧ data_ok d ∧ (flag = 1 ∨ flag = 2 ∨ flag = 3)
  | OpFetch k | OpDelete k => no_nul k
  end.

(** Room for [n] more records of maximal size. *)
Definition room_for (n : nat) (w : world) : Prop :=
  zlen (fdata (idx w)) + (PTR_SZ + IDXLEN_SZ + IDXLEN_MAX) * Z.of_nat n ≤ PTR_MAX ∧
  zlen (fdata (dat w)) + DATLEN_MAX * Z.of_nat n ≤ PTR_MAX.

Lemma room_for_room n k d w : room_for (S n) w → 1 ≤ zlen k ≤ KEY_MAX → data_ok d → room k d w.
Proof.
  intros [H1 H2] Hk [_ Hd]. unfold PTR_SZ, IDXLEN_SZ, IDXLEN_MAX, DATLEN_MAX, PTR_MAX, KEY_MAX in *.
  pose proof (zlen_nonneg (fdata (dat w))).
  pose proof (dec_length (zlen (fdata (dat w))) 7 ltac:(lia)) as L1.
  pose proof (dec_length (zlen d + 1) 4 ltac:(lia)) as L2.
  change (10 ^ Z.of_nat 7) with 10000000 in L1. change (10 ^ Z.of_nat 4) with 10000 in L2.
  pose proof (dec_pos_length (zlen (fdata (dat w)))). pose proof (dec_pos_length (zlen d + 1)).
  split; [unfold PTR_MAX; lia|]. split; [unfold LONG_MAX; lia|].
  unfold idx_fmt, IDXLEN_MIN, IDXLEN_MAX. rewrite !zlen_app. 
  change (zlen [SEP]) with 1. change (zlen [NEWLINE]) with 1.
  unfold zlen in *. lia.
Qed.

Lemma room_for_grown n w w' : room_for (S n) w → grown w w' → room_for n w'.
Proof.
  unfold room_for, PTR_SZ, IDXLEN_SZ, IDXLEN_MAX, DATLEN_MAX, PTR_MAX. intros [H1 H2] [G1 G2].
  unfold PTR_SZ, IDXLEN_SZ, IDXLEN_MAX, DATLEN_MAX in *. lia.
Qed.

Lemma run_op_ok M w o n : rep M w → op_ok o → room_for (S n) w →
  ∃ w', run_op o w = Ok ((spec_op M o).1, w') ∧ rep (spec_op M o).2 w' ∧
    (∃ evs, lks w' = evs ++ lks w ∧ balanced evs) ∧ room_for n w'.
Proof.
  intros Hrep Ho Hroom. destruct o as [k d flag|k|k]; simpl in *.
  - destruct Ho as (Hk & Hkl & Hd & Hf).
    destruct (db_store_ok M w k d flag) as (w' & b & E & (Hr & Hl & _ & Hg) & _); try done.
    { by eapply room_for_room. }
    exists w'. erewrite bind_ok by exact E. destruct (spec.store M k d flag). split_and!; try done.
    all: by eapply room_for_grown.
  - destruct (db_fetch_ok M w k Hrep Ho) as (w' & E & (Hr & Hl & _ & Hg) & _).
    exists w'. erewrite bind_ok by exact E. split_and!; try done. all: by eapply room_for_grown.
  - destruct (db_delete_ok M w k Hrep Ho) as (w' & E & (Hr & Hl & _ & Hg) & _).
    exists w'. erewrite bind_ok by exact E. destruct (spec.delete_key M k).
    split_and!; try done. all: by eapply room_for_grown.
Qed.

Lemma run_ops_ok l M w : rep M w → Forall op_ok l → room_for (length l) w →
  ∃ w', run_ops l w = Ok ((spec_ops M l).1, w') ∧ rep (spec_ops M l).2 w' ∧
    ∃ evs, lks w' = evs ++ lks w ∧ balanced evs.
Proof.
  intros Hrep Hl. revert M w Hrep. induction Hl as [|o l Ho _ IH]; intros M w Hrep Hroom.
  - exists w. split; [done|]. split; [done|]. by exists []; split; [|apply balanced_nil].
  - destruct (run_op_ok M w o (length l) Hrep Ho Hroom) as (w1 & E1 & Hr1 & (e1 & Hl1 & Hb1) & Hroom1).
    simpl. erewrite bind_ok by exact E1. destruct (spec_op M o) as [a M1]. simpl in *.
    destruct (IH M1 w1 Hr1 Hroom1) as (w2 & E2 & Hr2 & (e2 & Hl2 & Hb2)).
    erewrite bind_ok by exact E2. destruct (spec_ops M1 l) as [r M2]. exists w2.
    split; [done|]. split; [done|]. exists (e2 ++ e1). rewrite Hl2, Hl1, app_assoc.
    auto with cverif.
Qed.

(** ** The sequential scan *)

Lemma ioff_succ m i r : img_ok m → irecs m !! i = Some r →
  ioff m (S i) = ioff m i + (PTR_SZ + IDXLEN_SZ + zlen (rec_body (doff m i) r)).
Proof.
  intros Hok Hi. destruct (proj2 Hok i r Hi) as (Hp & _ & _ & Hb & _).
  unfold ioff. rewrite (take_S_r _ _ _ Hi), enc_recs_app, zlen_app. cbn [enc_recs].
  rewrite app_nil_r, Z.add_0_l. fold (doff m i).
  rewrite enc_rec_length; [lia|done|]. unfold IDXLEN_MIN in *. lia.
Qed.

Definition is_blank (k : list Z) : bool := bool_decide (k = blank k).

Lemma skip_blank_key k rest : no_nul k → (skip_blank (k ++ 0 :: rest) =? 0) = is_blank k.
Proof.
  induction 1 as [|c k Hc _ IH]; [done|]. simpl. unfold SPACE in *.
  destruct (Z.eqb_spec c 0); [done|]. simpl. destruct (Z.eqb_spec c 32) as [->|Hne].
  - rewrite IH. unfold is_blank. apply bool_decide_ext. unfold blank. simpl.
    split; [by intros <-|by intros [=]].
  - destruct (Z.eqb_spec c 0); [done|]. symmetry. apply bool_decide_eq_false. by intros [=].
Qed.

(** The first live record of a suffix of the file, and what follows it. *)
Fixpoint next_live (rs : list rec) : option (rec * list rec) :=
  match rs with
  | [] => None
  | r :: rs' => if is_blank (rkey r) then next_live rs' else Some (r, rs')
  end.

(** The pairs of the live records. *)
Fixpoint live (rs : list rec) : list (list Z * list Z) :=
  match rs with
  | [] => []
  | r :: rs' => if is_blank (rkey r) then live rs' else (rkey r, rdata r) :: live rs'
  end.

Lemma live_next rs : live rs =
  match next_live rs with None => [] | Some (r, rs') => (rkey r, rdata r) :: live rs' end.
Proof. induction rs as [|r rs IH]; [done|]. simpl. by destruct (is_blank (rkey r)). Qed.

Lemma next_live_length rs r rs' : next_live rs = Some (r, rs') → (length rs' < length rs)%nat.
Proof.
  induction rs as [|x rs IH]; [done|]. simpl. destruct (is_blank (rkey x)).
  - intros H. apply IH in H. lia.
  - intros [= -> ->]. lia.
Qed.

(** The scan is at the record [i], with the records [rs] from there on. *)
Definition scan_at (m : img) (i : nat) (rs : list rec) (w : world) : Prop :=
  wok m w ∧ fpos (idx w) = ioff m i ∧ drop i (irecs m) = rs ∧ (i ≤ length (irecs m))%nat.

Lemma scan_step m i r rs w : img_ok m → scan_at m i (r :: rs) w →
  let w' := after_readidx m i r w in
  irecs m !! i = Some r ∧ _db_readidx 0 w = Ok (rptr r, w') ∧ scan_at m (S i) rs w' ∧ at_rec m i r w'.
Proof.
  intros Hok (Hw & Hp & Hd & Hi). assert (irecs m !! i = Some r) as Hr.
  { rewrite <- (Nat.add_0_r i), <- lookup_drop, Hd. done. }
  split; [done|]. split; [apply readidx_spec; auto|]. split; [|apply at_rec_readidx].
  pose proof (lookup_lt_Some _ _ _ Hr). split; [|split; [|split]].
  - eapply frame_wok; [by apply frame_readidx|done].
  - simpl. rewrite (ioff_succ m i r) by done. lia.
  - replace (S i) with (i + 1)%nat by lia. rewrite <- drop_drop, Hd. done.
  - lia.
Qed.

Lemma scan_end m i w : img_ok m → scan_at m i [] w →
  ∃ w', _db_readidx 0 w = Ok (-1, w') ∧ scan_at m i [] w' ∧ lks w' = lks w.
Proof.
  intros Hok (Hw & Hp & Hd & Hi). pose proof (ioff_pos m i).
  assert (i = length (irecs m)) as ->.
  { apply (f_equal length) in Hd. rewrite length_drop in Hd. simpl in Hd. lia. }
  eexists. split; [|split].
  - apply readidx_eof; [lia|]. rewrite (proj1 Hw), Hp, ioff_end. lia.
  - split; [by eapply wok_ext; [..|exact Hw]|done].
  - done.
Qed.

Lemma nextrec_loop m rs : img_ok m → ∀ i w fuel, scan_at m i rs w → (length rs < fuel)%nat →
  ∃ b w', iter fuel nextrec_body () w = Ok (b, w') ∧ lks w' = lks w ∧
    match next_live rs with
    | None => b = false ∧ ∃ i', scan_at m i' [] w'
    | Some (r, rs') => b = true ∧ ∃ j, irecs m !! j = Some r ∧ at_rec m j r w' ∧ scan_at m (S j) rs' w'
    end.
Proof.
  intros Hok. induction rs as [|r rs IH]; intros i w fuel Hs Hf; destruct fuel as [|fuel]; simpl in Hf; try lia.
  - destruct (scan_end m i w Hok Hs) as (w' & E & Hs' & Hl). exists false, w'.
    cbn [iter]. erewrite (bind_ok (nextrec_body ())); [|unfold nextrec_body; erewrite bind_ok by exact E; reflexivity].
    simpl. by eauto.
  - destruct (scan_step m i r rs w Hok Hs) as (Hr & E & Hs' & Hat). cbn [iter next_live].
    set (w1 := after_readidx m i r w) in *.
    assert (nextrec_body () w = Ok (if is_blank (rkey r) then inl () else inr true, w1)) as Eb.
    { unfold nextrec_body. erewrite bind_ok by exact E.
      destruct (proj2 Hok i r Hr) as ([Hp _] & [Hk _] & _).
      destruct (Z.ltb_spec (rptr r) 0); [lia|]. mstep.
      pose proof Hat as (_ & _ & _ & _ & rest & Hb). rewrite Hb, skip_blank_key by done.
      by destruct (is_blank (rkey r)). }
    erewrite bind_ok by exact Eb. destruct (is_blank (rkey r)).
    + destruct (IH (S i) _ fuel Hs' ltac:(lia)) as (b & w' & E' & Hl & Hm). exists b, w'. by rewrite E', Hl.
    + eexists true, _. split; [reflexivity|]. split; [done|]. split; [done|]. by exists i.
Qed.

Lemma readdat_at m i r w : wok m w → img_ok m → irecs m !! i = Some r → at_rec m i r w →
  ∃ w', _db_readdat w = Ok (rdata r, w') ∧ wok m w' ∧ idx w' = idx w ∧ lks w' = lks w.
Proof.
  intros Hw Hok Hr (_ & Ho & Hd & _). eexists. split; [by apply (readdat_spec m i r)|].
  destruct (proj2 Hok i r Hr) as (_ & _ & [_ Hdat] & _). destruct Hw as (? & ? & ? & ? & ? & ?).
  split; [|done]. split_and!; simpl; try done.
  unfold datbuf_after. rewrite app_assoc, zlen_app. unfold zlen in *.
  rewrite length_drop, !length_app. simpl. unfold DATLEN_MAX in *. lia.
Qed.

Lemma db_nextrec_ok m i rs w : img_ok m → (length (irecs m) ≤ length (idx_bytes m))%nat → scan_at m i rs w →
  ∃ w', db_nextrec w = Ok ((λ '(r, _), (rkey r, rdata r)) <$> next_live rs, w') ∧
    lks w' = [LkReq FIdx UnLock FREE_OFF 1; LkReq FIdx RdLock FREE_OFF 1] ++ lks w ∧
    ∃ i', scan_at m i' (match next_live rs with None => [] | Some (_, rs') => rs' end) w'.
Proof.
  intros Hok Hlen Hs. unfold db_nextrec. rewrite bind_lock_req. mstep.
  set (w0 := add_lks _ w). assert (scan_at m i rs w0) as Hs0.
  { destruct Hs as (Hw & ?). split; [|done]. by eapply wok_ext; [..|exact Hw]. }
  destruct (nextrec_loop m rs Hok i w0 (chain_fuel w0) Hs0) as (b & w1 & E & Hl & Hm).
  { destruct Hs as (Hw & _ & <- & _). unfold chain_fuel. simpl. rewrite (proj1 Hw), length_drop. lia. }
  erewrite bind_ok by exact E. destruct (next_live rs) as [[r rs']|].
  - destruct Hm as (-> & j & Hr & Hat & Hs1). mstep.
    destruct (readdat_at m j r w1) as (w2 & E2 & Hw2 & Hi2 & Hl2); try done.
    { apply Hs1. }
    erewrite bind_ok by exact E2. mstep. rewrite bind_lock_req.
    destruct (proj2 Hok j r Hr) as (_ & [Hk _] & _).
    destruct Hat as (_ & _ & _ & _ & rest & Hb). rewrite Hb, cstr_app by done.
    eexists. split; [reflexivity|]. split; [simpl; by rewrite Hl2, Hl|]. exists (S j).
    destruct Hs1 as (_ & Hp & ?). split; [by eapply wok_ext; [..|exact Hw2]|]. simpl. by rewrite Hi2.
  - destruct Hm as (-> & i' & Hs1). mstep. rewrite bind_lock_req.
    eexists. split; [reflexivity|]. split; [simpl; by rewrite Hl|]. exists i'.
    destruct Hs1 as (Hw1 & ?). split; [|done]. by eapply wok_ext; [..|exact Hw1].
Qed.

(** A caller that reads records until the end: at most [fuel] of them. *)
Fixpoint scan (fuel : nat) : M world (list (list Z * list Z)) :=
  match fuel with
  | O => fail NoFuel
  | S n => r ← db_nextrec;
           match r with None => mret [] | Some kd => l ← scan n; mret (kd :: l) end
  end.

Lemma scan_ok m : img_ok m → (length (irecs m) ≤ length (idx_bytes m))%nat →
  ∀ fuel i rs w, scan_at m i rs w → (length rs < fuel)%nat →
  ∃ w' i', scan fuel w = Ok (live rs, w') ∧ scan_at m i' [] w' ∧ ∃ evs, lks w' = evs ++ lks w ∧ balanced evs.
Proof.
  intros Hok Hlen. induction fuel as [|fuel IH]; intros i rs w Hs Hf; [lia|].
  destruct (db_nextrec_ok m i rs w Hok Hlen Hs) as (w1 & E & Hl1 & i1 & Hs1). simpl.
  erewrite bind_ok by exact E. rewrite live_next. destruct (next_live rs) as [[r rs']|] eqn:En; simpl.
  - apply next_live_length in En. destruct (IH i1 rs' w1 Hs1 ltac:(lia)) as (w2 & i2 & E2 & Hs2 & evs & Hl2 & Hb2).
    erewrite bind_ok by exact E2. exists w2, i2. split; [done|]. split; [done|].
    exists (evs ++ [LkReq FIdx UnLock FREE_OFF 1; LkReq FIdx RdLock FREE_OFF 1]). rewrite Hl2, Hl1, app_assoc.
    auto with cverif.
  - exists w1, i1. split; [done|]. split; [done|]. rewrite Hl1. eauto with cverif.
Qed.

Lemma elem_of_live rs k d : (k, d) ∈ live rs ↔
  is_blank k = false ∧ ∃ i r, rs !! i = Some r ∧ rkey r = k ∧ rdata r = d.
Proof.
  induction rs as [|r rs IH].
  { split; [by intros ?%not_elem_of_nil|]. by intros (_ & i & r & H & _). }
  assert ((∃ i r', (r :: rs) !! i = Some r' ∧ rkey r' = k ∧ rdata r' = d) ↔
    (rkey r = k ∧ rdata r = d) ∨ ∃ i r', rs !! i = Some r' ∧ rkey r' = k ∧ rdata r' = d) as ->.
  { split.
    - intros ([|i] & r' & H & <- & <-); simpl in H; [simplify_eq; by left|right; eauto].
    - intros [[<- <-]|(i & r' & ? & ?)]; [by exists 0%nat, r|by exists (S i), r']. }
  simpl. destruct (is_blank (rkey r)) eqn:Hb; [rewrite IH|rewrite elem_of_cons, IH]; naive_solver congruence.
Qed.

Lemma NoDup_live rs : (∀ i i' r r', rs !! i = Some r → rs !! i' = Some r' →
    is_blank (rkey r) = false → rkey r = rkey r' → i = i') → NoDup (live rs).
Proof.
  induction rs as [|r rs IH]; intros H; [constructor|]. simpl.
  assert (NoDup (live rs)) as Hn.
  { apply IH. intros i i' x x' Hx Hx' Hb E. specialize (H (S i) (S i') x x' Hx Hx' Hb E). congruence. }
  destruct (is_blank (rkey r)) eqn:Hb; [done|]. apply NoDup_cons. split; [|done].
  intros (_ & i & x & Hx & E & _)%elem_of_live. specialize (H 0%nat (S i) r x eq_refl Hx Hb (eq_sym E)). done.
Qed.

Lemma live_map M m ch : inv M m ch → (∀ k, is_Some (M !! k) → is_blank k = false) →
  live (irecs m) ≡ₚ map_to_list M.
Proof.
  intros I HM. assert (∀ i r, irecs m !! i = Some r → is_blank (rkey r) = false → i ∈ ch (hslot (rkey r))) as Hin.
  { intros i r Hr Hb. destruct (inv_all _ _ _ I i) as (j & Hj & Hx); [by eapply lookup_lt_Some|].
    destruct (decide (j = 0%nat)) as [->|Hne].
    - pose proof (inv_free _ _ _ I i (rkey r) (rdata r) Hx (kd_lookup _ _ _ Hr)) as E.
      unfold is_blank in Hb. by apply bool_decide_eq_false in Hb.
    - by rewrite (inv_hash _ _ _ I j i (rkey r) (rdata r) ltac:(lia) Hx (kd_lookup _ _ _ Hr)). }
  apply NoDup_Permutation; [|apply NoDup_map_to_list|].
  - apply NoDup_live. intros i i' r r' Hr Hr' Hb E.
    apply (inv_key _ _ _ I i i' (rkey r) (rdata r) (rdata r')); auto.
    + rewrite E. apply Hin; [done|congruence].
    + by apply kd_lookup.
    + rewrite E. by apply kd_lookup.
  - intros [k d]. rewrite elem_of_live, elem_of_map_to_list, (inv_map _ _ _ I). split.
    + intros (Hb & i & r & Hr & <- & <-). exists i. split; [by apply Hin|by apply kd_lookup].
    + intros (i & Hi & Hkd). split.
      * apply HM. exists d. apply (inv_map _ _ _ I). eauto.
      * unfold kd in Hkd. destruct (irecs m !! i) as [r|] eqn:Hr; simplify_eq/=. eauto.
Qed.

Lemma db_rewind_ok M m ch w : wok m w → inv M m ch →
  ∃ w', db_rewind w = Ok ((), w') ∧ scan_at m 0 (irecs m) w' ∧ lks w' = lks w.
Proof.
  intros Hw I. pose proof Hw as (_ & _ & _ & _ & Hn & _). pose proof (inv_ok _ _ _ I) as Hok.
  assert (ioff m 0 = (nhash (db w) + 1) * PTR_SZ + 1) as Ho.
  { unfold ioff. rewrite Hn, enc_ptrs_length by apply Hok. unfold zlen at 1.
    rewrite (inv_hdr _ _ _ I). done. }
  unfold db_rewind. rewrite bind_gets, <- Ho. pose proof (ioff_pos m 0).
  erewrite bind_ok by (apply lseek_set_eq; lia). mstep.
  destruct (Z.eqb_spec (ioff m 0) (-1)); [lia|]. eexists. split; [reflexivity|].
  split; [|done]. split; [by eapply wok_ext; [..|exact Hw]|]. split_and!; [done|done|lia].
Qed.

Lemma scan_rep M w : rep M w → (∀ k, is_Some (M !! k) → is_blank k = false) →
  ∃ l w', (_ ← db_rewind; scan (chain_fuel w)) w = Ok (l, w') ∧ l ≡ₚ map_to_list M ∧ rep M w' ∧
    ∃ evs, lks w' = evs ++ lks w ∧ balanced evs.
Proof.
  intros (m & ch & Hw & I) HM. destruct (db_rewind_ok M m ch w Hw I) as (w1 & E1 & Hs1 & Hl1).
  pose proof (inv_records_fit _ _ _ I) as Hfit.
  destruct (scan_ok m (inv_ok _ _ _ I) Hfit (chain_fuel w) 0 (irecs m) w1 Hs1) as (w2 & i2 & E2 & Hs2 & evs & Hl2 & Hb2).
  { unfold chain_fuel. rewrite (proj1 Hw). lia. }
  exists (live (irecs m)), w2. erewrite bind_ok by exact E1. split; [done|].
  split; [by eapply live_map|]. split; [exists m, ch; split; [apply Hs2|done]|].
  exists evs. rewrite Hl2, Hl1. done.
Qed.

(** ** A concrete database for the witnesses *)

(** Keys "k", "kk" and data "ab", "c"; one record was deleted, so the free list is in use. *)
Definition demo_ops : list op :=
  [OpStore [107] [97; 98] DB_INSERT; OpStore [107; 107] [99] DB_STORE; OpDelete [107];
   OpStore [106] [100; 101] DB_INSERT].
Definition demo_start : world := opened [100; 98] empty_table [] [].
Definition demo : world :=
  match run_ops demo_ops demo_start with Ok (_, w) => w | Fault _ => demo_start end.
Definition demo_map : spec.map := <[[106]:=[100; 101]]> {[ [107; 107] := [99] ]}.

Lemma demo_start_rep : rep ∅ demo_start.
Proof.
  exists empty_img, (λ _, []). split; [|apply empty_inv]. by apply opened_wok.
Qed.

#[export] Instance no_nul_dec s : Decision (no_nul s).
Proof. unfold no_nul. apply _. Defined.
#[export] Instance key_ok_dec k : Decision (key_ok k).
Proof. unfold key_ok. apply _. Defined.
#[export] Instance data_ok_dec d : Decision (data_ok d).
Proof. unfold data_ok. apply _. Defined.
#[export] Instance op_ok_dec o : Decision (op_ok o).
Proof. destruct o; simpl; apply _. Defined.

(** Closes a decidable side condition on concrete data. *)
Ltac by_decide := apply (bool_decide_unpack _); vm_compute; exact I.

Lemma demo_ops_ok : Forall op_ok demo_ops.
Proof. by_decide. Qed.

Lemma demo_rep : rep demo_map demo.
Proof.
  destruct (run_ops_ok demo_ops ∅ demo_start demo_start_rep demo_ops_ok) as (w' & E & Hr & _).
  { by_decide. }
  assert ((spec_ops ∅ demo_ops).2 = demo_map) as Em by by_decide.
  rewrite Em in Hr. unfold demo. by rewrite E.
Qed.

(** ** Properties *)

(** C1: a database created by [db_open] with [O_CREAT] and [O_TRUNC] answers any session of
    at most 9000 calls of [db_store], [db_fetch] and [db_delete] exactly as a finite map from
    keys to data does, without aborting, and every byte it locked is unlocked at the end. *)
Theorem db_session_refines fs pathname oflag (l : list op) :
  has_flag oflag O_CREAT = true → has_flag oflag O_TRUNC = true → has_flag oflag O_EXCL = false →
  Forall op_ok l → zlen l ≤ 9000 →
  ∃ fs' w w', db_open fs pathname oflag = Ok (Some w, fs') ∧ rep ∅ w ∧
    run_ops l w = Ok ((spec_ops ∅ l).1, w') ∧ rep (spec_ops ∅ l).2 w' ∧
    ∀ f b, held (lks w') f b = None.
Proof.
  intros Hc Ht He Hl Hn. destruct (db_open_ok fs pathname oflag Hc Ht He) as [fs' E].
  set (w := opened _ _ _ _) in E.
  assert (rep ∅ w) as Hr by (exists empty_img, (λ _, []); split; [by apply opened_wok|apply empty_inv]).
  destruct (run_ops_ok l ∅ w Hr Hl) as (w' & E' & Hr' & evs & Hlk & Hb).
  { unfold room_for, PTR_MAX, PTR_SZ, IDXLEN_SZ, IDXLEN_MAX, DATLEN_MAX.
    change (zlen (fdata (idx w))) with 967. change (zlen (fdata (dat w))) with 0. unfold zlen in Hn. lia. }
  exists fs', w, w'. split; [done|]. split; [done|]. split; [done|]. split; [done|].
  intros f b. rewrite Hlk. apply Hb. by apply (balanced_pair _ _ _ _ []).
Qed.

Lemma db_session_refines_witness :
  (Forall op_ok demo_ops ∧ zlen demo_ops ≤ 9000) ∧
  ∃ fs' w w', db_open ∅ [100; 98] (O_CREAT + O_TRUNC) = Ok (Some w, fs') ∧ rep ∅ w ∧
    run_ops demo_ops w = Ok ((spec_ops ∅ demo_ops).1, w') ∧ rep (spec_ops ∅ demo_ops).2 w' ∧
    ∀ f b, held (lks w') f b = None.
Proof.
  split; [split; [by_decide|by_decide]|].
  apply (db_session_refines ∅ [100; 98] (O_CREAT + O_TRUNC) demo_ops);
    [reflexivity|reflexivity|reflexivity|by_decide|by_decide].
Defined.

(** C2: [db_store] on a database that represents [M] returns 0, 1 (the key is there and
    the flag is [DB_INSERT]) or -1 (the key is not there and the flag is [DB_REPLACE]) and
    leaves a database that represents [M] with the key bound to the data, or [M] itself on
    an error; the locks it took are released, one store counter goes up, [errno] is
    [ENOENT] after a failed replace, and the files grow by at most one record. *)
Theorem db_store_refines (M : spec.map) w key data flag :
  rep M w → key_ok key → data_ok data → room key data w →
  flag = DB_INSERT ∨ flag = DB_REPLACE ∨ flag = DB_STORE →
  ∃ w' bump, db_store key data flag w = Ok ((spec.store M key data flag).1, w') ∧
    rep (spec.store M key data flag).2 w' ∧ (∃ evs, lks w' = evs ++ lks w ∧ balanced evs) ∧
    cnt (db w') = cnt (db (bump w)) ∧ store_bumps M key data flag bump ∧
    errno w' = store_errno M key flag (errno w) ∧ grown w w'.
Proof.
  intros Hr Hk Hd Hroom Hf. destruct (db_store_ok M w key data flag Hr Hk Hd Hroom Hf)
    as (w' & b & E & (Hr' & Hl & Hc & Hg) & Hb & He). by exists w', b.
Qed.

Lemma db_store_refines_witness :
  (key_ok [106] ∧ data_ok [120] ∧ room [106] [120] demo) ∧
  ∃ w' bump, db_store [106] [120] DB_REPLACE demo = Ok (0, w') ∧
    rep (spec.store demo_map [106] [120] DB_REPLACE).2 w' ∧
    (∃ evs, lks w' = evs ++ lks demo ∧ balanced evs) ∧
    cnt (db w') = cnt (db (bump demo)) ∧ store_bumps demo_map [106] [120] DB_REPLACE bump ∧
    errno w' = store_errno demo_map [106] DB_REPLACE (errno demo) ∧ grown demo w'.
Proof.
  split; [split; [by_decide|split; [by_decide|by_decide]]|].
  apply (db_store_refines demo_map demo [106] [120] DB_REPLACE demo_rep); [by_decide|by_decide|by_decide|auto].
Defined.

(** C3: [db_fetch] returns the data bound to the key, or the null pointer when there is
    none, changes neither the files nor [errno], bumps the fetch counter that fits, and
    releases its lock. *)
Theorem db_fetch_refines (M : spec.map) w key : rep M w → no_nul key →
  ∃ w', db_fetch key w = Ok (M !! key, w') ∧ rep M w' ∧
    (∃ evs, lks w' = evs ++ lks w ∧ balanced evs) ∧
    cnt (db w') = cnt (db (match M !! key with Some _ => bump_fetchok w | None => bump_fetcherr w end)) ∧
    fdata (idx w') = fdata (idx w) ∧ fdata (dat w') = fdata (dat w) ∧ errno w' = errno w.
Proof.
  intros Hr Hk. destruct (db_fetch_ok M w key Hr Hk) as (w' & E & (Hr' & Hl & Hc & _) & Hi & Hd & He).
  exists w'. split_and!; try done. by destruct (M !! key).
Qed.

Lemma db_fetch_refines_witness :
  ∃ w', db_fetch [107; 107] demo = Ok (Some [99], w') ∧ rep demo_map w' ∧
    (∃ evs, lks w' = evs ++ lks demo ∧ balanced evs) ∧
    cnt (db w') = cnt (db (bump_fetchok demo)) ∧
    fdata (idx w') = fdata (idx demo) ∧ fdata (dat w') = fdata (dat demo) ∧ errno w' = errno demo.
Proof. apply (db_fetch_refines demo_map demo [107; 107] demo_rep). by_decide. Defined.

(** C4: [db_delete] removes the key and returns 0, or returns -1 when it is not there. *)
Theorem db_delete_refines (M : spec.map) w key : rep M w → no_nul key →
  ∃ w', db_delete key w = Ok ((spec.delete_key M key).1, w') ∧ rep (spec.delete_key M key).2 w' ∧
    (∃ evs, lks w' = evs ++ lks w ∧ balanced evs) ∧
    cnt (db w') = cnt (db (match M !! key with Some _ => bump_delok w | None => bump_delerr w end)) ∧
    errno w' = errno w.
Proof.
  intros Hr Hk. destruct (db_delete_ok M w key Hr Hk) as (w' & E & (Hr' & Hl & Hc & _) & He).
  exists w'. split_and!; try done. by destruct (M !! key).
Qed.

Lemma db_delete_refines_witness :
  ∃ w', db_delete [106] demo = Ok (0, w') ∧ rep (spec.delete_key demo_map [106]).2 w' ∧
    (∃ evs, lks w' = evs ++ lks demo ∧ balanced evs) ∧
    cnt (db w') = cnt (db (bump_delok demo)) ∧ errno w' = errno demo.
Proof. apply (db_delete_refines demo_map demo [106] demo_rep). by_decide. Defined.

(** C5: [db_rewind] and then [db_nextrec] until it returns the null pointer yields every
    key with its data exactly once, in some order, when no key consists of blanks only
    (those are indistinguishable from deleted records). *)
Theorem db_scan_enumerates (M : spec.map) w :
  rep M w → (∀ k, is_Some (M !! k) → is_blank k = false) →
  ∃ l w', (_ ← db_rewind; scan (chain_fuel w)) w = Ok (l, w') ∧ l ≡ₚ map_to_list M ∧ rep M w' ∧
    ∃ evs, lks w' = evs ++ lks w ∧ balanced evs.
Proof. apply scan_rep. Qed.

Lemma demo_not_blank : map_Forall (λ k _, is_blank k = false) demo_map.
Proof. by_decide. Qed.

Lemma db_scan_enumerates_witness :
  ∃ l w', (_ ← db_rewind; scan (chain_fuel demo)) demo = Ok (l, w') ∧ l ≡ₚ map_to_list demo_map ∧
    rep demo_map w' ∧ ∃ evs, lks w' = evs ++ lks demo ∧ balanced evs.
Proof.
  apply (db_scan_enumerates demo_map demo demo_rep). intros k [d Hd]. exact (demo_not_blank k d Hd).
Defined.

(** C6: a database that is closed and opened again, without [O_CREAT] and [O_TRUNC],
    represents the same map. *)
Theorem db_close_open_persists (M : spec.map) fs w oflag :
  rep M w → has_flag oflag O_CREAT = false → has_flag oflag O_TRUNC = false →
  ∃ w', db_open (db_close fs w) (name (db w)) oflag = Ok (Some w', db_close fs w) ∧ rep M w'.
Proof.
  intros (m & ch & Hw & I) Hc Ht. eexists. split.
  - apply db_reopen_ok; try done; unfold db_close.
    + rewrite lookup_insert_ne by apply not_eq_sym, suffix_ne. apply lookup_insert_eq.
    + apply lookup_insert_eq.
  - exists m, ch. split; [|done]. by apply opened_wok; apply Hw.
Qed.

Lemma db_close_open_persists_witness :
  ∃ w', db_open (db_close ∅ demo) [100; 98] 2 = Ok (Some w', db_close ∅ demo) ∧ rep demo_map w'.
Proof. apply (db_close_open_persists demo_map ∅ demo 2 demo_rep); reflexivity. Defined.

(** [db_store] checks its arguments before it touches the files or takes a lock: an
    unknown flag gives -1 with [errno] set to [EINVAL], data that is empty or longer than
    [DATLEN_MAX - 1] characters aborts. *)
Theorem db_store_bad_args key data flag w :
  (flag ≠ DB_INSERT ∧ flag ≠ DB_REPLACE ∧ flag ≠ DB_STORE →
    db_store key data flag w = Ok (-1, set_errno EINVAL w)) ∧
  (flag = DB_INSERT ∨ flag = DB_REPLACE ∨ flag = DB_STORE → zlen data = 0 ∨ DATLEN_MAX ≤ zlen data →
    db_store key data flag w = Fault (Abort "db_store: invalid data length")).
Proof.
  unfold db_store, DB_INSERT, DB_REPLACE, DB_STORE, DATLEN_MIN, DATLEN_MAX. split.
  - intros (H1 & H2 & H3). apply Z.eqb_neq in H1, H2, H3. by rewrite H1, H2, H3.
  - intros Hf Hd. replace (_ && negb (flag =? 3)) with false by by destruct Hf as [->|[->| ->]].
    destruct (Z.ltb_spec (zlen data + 1) 2), (Z.ltb_spec 1024 (zlen data + 1)); simpl; done || lia.
Qed.

Lemma db_store_bad_args_witness :
  db_store [107] [97] 4 demo = Ok (-1, set_errno EINVAL demo) ∧
  db_store [107] [] DB_STORE demo = Fault (Abort "db_store: invalid data length").
Proof.
  split; [apply (proj1 (db_store_bad_args [107] [97] 4 demo)); done|].
  apply (proj2 (db_store_bad_args [107] [] DB_STORE demo)); auto.
Defined.

(** A key with a separator is accepted by [db_store] but poisons its hash chain: the
    fetch of the same key aborts on the record. *)
Theorem db_separator_key_aborts :
  (_ ← db_store [97; SEP; 98] [120] DB_INSERT; db_fetch [97; SEP; 98]) demo_start =
    Fault (Abort "_db_readidx: too many separators") ∧
  match db_store [97; SEP; 98] [120] DB_INSERT demo_start with Ok (rc, _) => rc = 0 | _ => False end.
Proof. split; vm_compute; reflexivity. Qed.
