(* ===== verification/Monitor.v ===== *)
(** Threads that share a state under one mutex and wait on condition variables.  The
    code between two points where a thread gives up the mutex is one segment, a program
    of the fault monad; a configuration is the shared state and the threads, and its
    steps run one segment of one thread, with the wake-ups the segment asked for, or
    wake a waiting thread spuriously. *)
From S2P Require Import Prelude.

(** What [pthread_cond_signal] and [pthread_cond_broadcast] were called on. *)
Inductive wake (CV : Type) := Signal (c : CV) | Broadcast (c : CV).
Arguments Signal {_} _.
Arguments Broadcast {_} _.

(** How a segment ends: the function returned, or it is in [pthread_cond_wait] (or
    [pthread_cond_timedwait]) and goes on at [l], or it unlocked the mutex and will lock
    it again to go on at [l]. *)
Inductive outcome (CV L R : Type) :=
  | Done (r : R)
  | Block (c : CV) (l : L)
  | Next (l : L).
Arguments Done {_ _ _} _.
Arguments Block {_ _ _} _ _.
Arguments Next {_ _ _} _.

(** The shared state and the wake-ups of the running segment, latest last. *)
Record mon (CV S : Type) := Mon { sh : S; wk : list (wake CV) }.
Arguments Mon {_ _} _ _.
Arguments sh {_ _} _.
Arguments wk {_ _} _.

Section ops.
Context {CV S : Type}.
Definition sgets {A} (f : S → A) : M (mon CV S) A := gets (λ m, f (sh m)).
Definition smodify (f : S → S) : M (mon CV S) () := modify (λ m, Mon (f (sh m)) (wk m)).
Definition cond_signal (c : CV) : M (mon CV S) () := modify (λ m, Mon (sh m) (wk m ++ [Signal c])).
Definition cond_broadcast (c : CV) : M (mon CV S) () := modify (λ m, Mon (sh m) (wk m ++ [Broadcast c])).
End ops.

(** A thread: about to run the segment at [l] (it has the mutex or competes for it), in a
    condition wait, or returned. *)
Inductive thread (CV L R : Type) :=
  | Ready (l : L)
  | Waiting (c : CV) (l : L)
  | Finished (r : R).
Arguments Ready {_ _ _} _.
Arguments Waiting {_ _ _} _ _.
Arguments Finished {_ _ _} _.

Section system.
Context {CV L R S : Type} `{EqDecision CV}.
Context (seg : L → M (mon CV S) (outcome CV L R)).
Implicit Types (ts : list (thread CV L R)) (s : S).

Definition after (o : outcome CV L R) : thread CV L R :=
  match o with Done r => Finished r | Block c l => Waiting c l | Next l => Ready l end.

Definition waits_on (c : CV) (t : thread CV L R) : Prop :=
  match t with Waiting c' _ => c' = c | _ => False end.
#[export] Instance waits_on_dec c t : Decision (waits_on c t).
Proof. destruct t; simpl; apply _. Defined.

Definition resume (t : thread CV L R) : thread CV L R :=
  match t with Waiting _ l => Ready l | _ => t end.

(** One wake-up: a signal resumes one waiting thread if there is one, a broadcast all. *)
Inductive wakes_one : wake CV → list (thread CV L R) → list (thread CV L R) → Prop :=
  | wakes_none c ts : Forall (λ t, ¬ waits_on c t) ts → wakes_one (Signal c) ts ts
  | wakes_signal c ts i l : ts !! i = Some (Waiting c l) → wakes_one (Signal c) ts (<[i:=Ready l]> ts)
  | wakes_broadcast c ts :
      wakes_one (Broadcast c) ts ((λ t, if decide (waits_on c t) then resume t else t) <$> ts).

Inductive wakes : list (wake CV) → list (thread CV L R) → list (thread CV L R) → Prop :=
  | wakes_nil ts : wakes [] ts ts
  | wakes_cons k ks ts ts' ts'' : wakes_one k ts ts' → wakes ks ts' ts'' → wakes (k :: ks) ts ts''.

Inductive step : S * list (thread CV L R) → S * list (thread CV L R) → Prop :=
  | step_run s ts i l o s' ks ts' :
      ts !! i = Some (Ready l) → seg l (Mon s []) = Ok (o, Mon s' ks) → wakes ks ts ts' →
      step (s, ts) (s', <[i:=after o]> ts')
  | step_spurious s ts i c l :
      ts !! i = Some (Waiting c l) → step (s, ts) (s, <[i:=Ready l]> ts).

(** The next segment of some thread faults. *)
Definition faulty (cfg : S * list (thread CV L R)) : Prop :=
  ∃ i l f, cfg.2 !! i = Some (Ready l) ∧ seg l (Mon cfg.1 []) = Fault f.

(** No thread can run without a spurious wake-up, and some thread is waiting. *)
Definition stuck_waiting ts : Prop :=
  Forall (λ t, match t with Ready _ => False | _ => True end) ts ∧
  Exists (λ t, match t with Waiting _ _ => True | _ => False end) ts.

Definition reachable := rtc step.

(** ** Wake-ups keep the code position of the threads *)

Definition same_pc (t t' : thread CV L R) : Prop := t' = t ∨ t' = resume t.

Lemma wakes_one_pc k ts ts' : wakes_one k ts ts' → Forall2 same_pc ts ts'.
Proof.
  assert (∀ ts, Forall2 same_pc ts ts) as Hrefl by (intros ts0; induction ts0; constructor; [by left|done]).
  intros [| c ts0 i l Hi|c ts0]; [done| |].
  - rewrite <- (list_insert_id ts0 i _ Hi) at 1. apply Forall2_insert; [done|by right].
  - apply Forall2_fmap_r. induction ts0 as [|t ts0 IH]; constructor; [|done].
    simpl. destruct (decide (waits_on c t)); [by right|by left].
Qed.

(** A property of threads that resuming keeps is kept by wake-ups. *)
Lemma wakes_forall (P : thread CV L R → Prop) ks ts ts' :
  (∀ t, P t → P (resume t)) → wakes ks ts ts' → Forall P ts → Forall P ts'.
Proof.
  intros HP. induction 1 as [|k ks ts ts1 ts2 H1 _ IH]; [done|]. intros Hts. apply IH.
  apply wakes_one_pc in H1. revert Hts. clear IH.
  induction H1 as [|t t' ts ts' [->| ->] _ IH]; [done|..]; intros [??]%Forall_cons; constructor; auto.
Qed.

Lemma wakes_length ks ts ts' : wakes ks ts ts' → length ts' = length ts.
Proof.
  induction 1 as [|k ks ts ts1 ts2 H1 _ IH]; [done|]. rewrite IH. symmetry.
  eapply Forall2_length. by eapply wakes_one_pc.
Qed.

(** ** Invariants *)

(** An invariant of the shared state and a property of every thread, kept by every
    segment, hold in every reachable configuration. *)
Section invariant.
Context (I : S → Prop) (T : thread CV L R → Prop).
Context (Hresume : ∀ t, T t → T (resume t)).
Context (Hseg : ∀ l s, I s → T (Ready l) →
  wlp (seg l) (λ o m, I (sh m) ∧ T (after o)) (Mon s [])).

Lemma step_inv cfg cfg' : step cfg cfg' → I cfg.1 ∧ Forall T cfg.2 → I cfg'.1 ∧ Forall T cfg'.2.
Proof.
  destruct 1 as [s ts i l o s' ks ts' Hi E Hw|s ts i c l Hi]; simpl; intros [HI HT].
  - pose proof (Hseg l s HI (Forall_lookup_1 _ _ _ _ HT Hi)) as H. unfold wlp in H. rewrite E in H.
    destruct H as [HI' HT']. split; [done|]. apply Forall_insert; [|done].
    by eapply wakes_forall.
  - split; [done|]. apply Forall_insert; [done|]. apply (Hresume (Waiting c l)).
    by eapply Forall_lookup_1.
Qed.

Lemma reachable_inv cfg cfg' : reachable cfg cfg' → I cfg.1 ∧ Forall T cfg.2 → I cfg'.1 ∧ Forall T cfg'.2.
Proof. induction 1 as [|x y z Hxy _ IH]; [done|]. intros Hx. by eapply IH, step_inv. Qed.
End invariant.

(** An invariant of the shared state and properties of the threads that may speak of it: a
    segment keeps the properties of the other threads. *)
Lemma reachable_rely (I : S → Prop) (T : nat → S → thread CV L R → Prop) :
  (∀ i s t, T i s t → T i s (resume t)) →
  (∀ i l s o s' ks, I s → T i s (Ready l) → seg l (Mon s []) = Ok (o, Mon s' ks) →
     I s' ∧ T i s' (after o) ∧ ∀ j t, j ≠ i → T j s t → T j s' t) →
  ∀ cfg cfg', reachable cfg cfg' → I cfg.1 → (∀ i t, cfg.2 !! i = Some t → T i cfg.1 t) →
  I cfg'.1 ∧ ∀ i t, cfg'.2 !! i = Some t → T i cfg'.1 t.
Proof.
  intros Hr Hs cfg cfg' H. induction H as [|x y z Hxy _ IH]; [done|]. intros HI HT.
  enough (I y.1 ∧ ∀ i t, y.2 !! i = Some t → T i y.1 t) as [? ?] by by apply IH.
  destruct Hxy as [s ts i l o s' ks ts' Hi E Hw|s ts i c l Hi]; simpl in *.
  - destruct (Hs i l s o s' ks HI (HT i _ Hi) E) as (HI' & HT' & Hother). split; [done|]. intros j t Hj.
    apply list_lookup_insert_Some in Hj as [(<- & <- & _)|[Hne Hj]]; [done|]. apply Hother; [done|].
    assert (is_Some (ts !! j)) as [t0 Ht0].
    { apply lookup_lt_is_Some. rewrite <- (wakes_length _ _ _ Hw). by eapply lookup_lt_Some. }
    clear -Hr HT Hw Ht0 Hj. specialize (HT j t0 Ht0). revert t0 Ht0 HT.
    induction Hw as [|k ks ts ts1 ts2 H1 _ IH]; intros t0 Ht0 HT; [congruence|].
    apply wakes_one_pc in H1. destruct (Forall2_lookup_l _ _ _ _ _ H1 Ht0) as (t1 & Ht1 & [-> | ->]); [by eapply IH|].
    eapply IH; [done..|]. by apply Hr.
  - split; [done|]. intros j t Hj. apply list_lookup_insert_Some in Hj as [(<- & <- & _)|[Hne Hj]]; [|by apply HT].
    by apply (Hr i s (Waiting c l)), HT.
Qed.

(** The same with total correctness: no reachable configuration is faulty. *)
Lemma reachable_safe (I : S → Prop) (T : thread CV L R → Prop) cfg cfg' :
  (∀ t, T t → T (resume t)) →
  (∀ l s, I s → T (Ready l) → wp (seg l) (λ o m, I (sh m) ∧ T (after o)) (Mon s [])) →
  I cfg.1 → Forall T cfg.2 → reachable cfg cfg' →
  I cfg'.1 ∧ Forall T cfg'.2 ∧ ¬ faulty cfg'.
Proof.
  intros Hr Hs HI HT Hreach. destruct (reachable_inv I T Hr) with cfg cfg' as [HI' HT']; try done.
  { intros l s Hl HTl. specialize (Hs l s Hl HTl). unfold wp, wlp in *. by destruct (seg l _) as [[]|]. }
  split; [done|]. split; [done|]. intros (i & l & f & Hi & E).
  specialize (Hs l cfg'.1 HI' (Forall_lookup_1 _ _ _ _ HT' Hi)). unfold wp in Hs. by rewrite E in Hs.
Qed.

(** ** Running a schedule *)

(** A scheduling decision: run thread [i], where each signal goes to the given waiting
    thread (or to none when nobody waits). *)
Definition run_wake (k : wake CV) (pick : option nat) ts : option (list (thread CV L R)) :=
  match k, pick with
  | Signal c, None => if decide (Forall (λ t, ¬ waits_on c t) ts) then Some ts else None
  | Signal c, Some i =>
      match ts !! i with
      | Some (Waiting c' l) => if decide (c' = c) then Some (<[i:=Ready l]> ts) else None
      | _ => None
      end
  | Broadcast c, _ => Some ((λ t, if decide (waits_on c t) then resume t else t) <$> ts)
  end.
Fixpoint run_wakes (ks : list (wake CV)) (picks : list (option nat)) ts : option (list (thread CV L R)) :=
  match ks with
  | [] => Some ts
  | k :: ks' =>
      match run_wake k (match picks with p :: _ => p | [] => None end) ts with
      | Some ts' => run_wakes ks' (match picks with _ :: p => p | [] => [] end) ts'
      | None => None
      end
  end.
Fixpoint run_schedule (sched : list (nat * list (option nat))) (cfg : S * list (thread CV L R)) :
    option (S * list (thread CV L R)) :=
  match sched with
  | [] => Some cfg
  | (i, picks) :: sched' =>
      match cfg.2 !! i with
      | Some (Ready l) =>
          match seg l (Mon cfg.1 []) with
          | Ok (o, Mon s' ks) =>
              match run_wakes ks picks cfg.2 with
              | Some ts' => run_schedule sched' (s', <[i:=after o]> ts')
              | None => None
              end
          | Fault _ => None
          end
      | _ => None
      end
  end.

Lemma run_wake_sound k p ts ts' : run_wake k p ts = Some ts' → wakes_one k ts ts'.
Proof.
  unfold run_wake. destruct k as [c|c]; [destruct p as [i|]|].
  - destruct (ts !! i) as [[|c' l|]|] eqn:E; try done. case_decide; [|done]. intros [= <-].
    subst. by constructor.
  - case_decide; [|done]. intros [= <-]. by constructor.
  - intros [= <-]. constructor.
Qed.

Lemma run_wakes_sound ks ps ts ts' : run_wakes ks ps ts = Some ts' → wakes ks ts ts'.
Proof.
  revert ps ts. induction ks as [|k ks IH]; intros ps ts; simpl; [intros [= <-]; constructor|].
  destruct (run_wake _ _ _) eqn:E; [|done]. intros. econstructor; [by eapply run_wake_sound|by eapply IH].
Qed.

Lemma run_schedule_sound sched cfg cfg' : run_schedule sched cfg = Some cfg' → reachable cfg cfg'.
Proof.
  revert cfg. induction sched as [|[i ps] sched IH]; intros [s ts]; simpl.
  - intros [= <-]. constructor.
  - destruct (ts !! i) as [[l| |]|] eqn:Ei; try done.
    destruct (seg l _) as [[o [s' ks]]|] eqn:Es; [|done].
    destruct (run_wakes ks ps ts) as [ts'|] eqn:Ew; [|done]. intros H.
    eapply rtc_l; [by eapply step_run; [..|by eapply run_wakes_sound]|by apply IH].
Qed.
End system.

(** ** Counting threads *)

Section count.
Context {CV L R : Type} `{EqDecision CV}.
Context (f : thread CV L R → nat).
Implicit Types ts : list (thread CV L R).

Definition total ts : nat := sum_list (f <$> ts).

Lemma total_cons t ts : total (t :: ts) = (f t + total ts)%nat.
Proof. done. Qed.

Lemma total_insert ts i t t' : ts !! i = Some t → (total (<[i:=t']> ts) + f t = total ts + f t')%nat.
Proof.
  revert i. induction ts as [|x ts IH]; intros [|i] Hi; [done|done|injection Hi as ->|].
  - change (<[0%nat:=t']> (t :: ts)) with (t' :: ts). rewrite !total_cons. lia.
  - change (<[S i:=t']> (x :: ts)) with (x :: <[i:=t']> ts). rewrite !total_cons. specialize (IH i Hi). lia.
Qed.

Lemma total_lookup ts i t : ts !! i = Some t → (f t ≤ total ts)%nat.
Proof.
  revert i. induction ts as [|x ts IH]; intros [|i] Hi; [done|done|injection Hi as ->|]; rewrite total_cons; [lia|].
  apply IH in Hi. lia.
Qed.

Lemma total_pos ts : (0 < total ts)%nat → ∃ i t, ts !! i = Some t ∧ (0 < f t)%nat.
Proof.
  induction ts as [|x ts IH]; [unfold total; simpl; lia|]. rewrite total_cons. intros H.
  destruct (decide (0 < f x)%nat); [by exists 0%nat, x|]. destruct IH as (i & t & ? & ?); [lia|].
  by exists (S i), t.
Qed.

Lemma total_wakes ks ts ts' : (∀ t, f (resume t) = f t) → wakes ks ts ts' → total ts' = total ts.
Proof.
  intros Hf. induction 1 as [|k ks ts ts1 ts2 H1 _ IH]; [done|]. rewrite IH.
  apply wakes_one_pc in H1. clear IH.
  induction H1 as [|t t' ts ts' Ht _ IH]; [done|]. rewrite !total_cons, IH.
  by destruct Ht as [->| ->]; rewrite ?Hf.
Qed.
End count.

(** Wake-ups leave the other threads where they are. *)
Lemma wakes_lookup {CV L R} `{EqDecision CV} ks (ts ts' : list (thread CV L R)) i t :
  wakes ks ts ts' → ts !! i = Some t → ∃ t', ts' !! i = Some t' ∧ (t' = t ∨ t' = resume t).
Proof.
  intros H. revert t. induction H as [|k ks ts ts1 ts2 H1 _ IH]; intros t Hi; [eauto|].
  apply wakes_one_pc in H1. destruct (Forall2_lookup_l _ _ _ _ _ H1 Hi) as (t1 & Hi1 & [-> | ->]).
  - by apply IH.
  - destruct (IH _ Hi1) as (t2 & ? & [-> | ->]); eexists; (split; [done|]); right; [done|]. by destruct t.
Qed.

(** The threads a wake-up does not concern stay as they are, and the running thread too. *)
Lemma wakes_ready {CV L R} `{EqDecision CV} ks (ts ts' : list (thread CV L R)) i l :
  wakes ks ts ts' → ts !! i = Some (Ready l) → ts' !! i = Some (Ready l).
Proof. intros Hw Hi. by destruct (wakes_lookup _ _ _ _ _ Hw Hi) as (t' & ? & [-> | ->]). Qed.

(** A waiting thread after the wake-ups was waiting before. *)
Lemma wakes_waiting {CV L R} `{EqDecision CV} ks (ts ts' : list (thread CV L R)) i c l :
  wakes ks ts ts' → ts' !! i = Some (Waiting c l) → ts !! i = Some (Waiting c l).
Proof.
  intros Hw Hi. assert (is_Some (ts !! i)) as [t Ht].
  { apply lookup_lt_is_Some. rewrite <- (wakes_length _ _ _ Hw). by eapply lookup_lt_Some. }
  destruct (wakes_lookup _ _ _ _ _ Hw Ht) as (t' & Hi' & [-> | ->]); simplify_eq/=; [done|].
  by destruct t.
Qed.

(** Nobody waits on a condition variable that was broadcast. *)
Lemma wakes_broadcast_none {CV L R} `{EqDecision CV} c (ts ts' : list (thread CV L R)) i l :
  wakes [Broadcast c] ts ts' → ts' !! i ≠ Some (Waiting c l).
Proof.
  intros Hw Hi. inversion Hw as [|? ? ? ts1 ? H1 H2]; subst. inversion H2; subst. inversion H1; subst.
  rewrite list_lookup_fmap in Hi. destruct (ts !! i) as [t|]; [|done]. simpl in Hi.
  destruct (decide (waits_on c t)) as [Hd|Hd]; destruct t; simplify_eq/=.
Qed.

(** A signal resumes a waiting thread if there is one. *)
Lemma wakes_signal_some {CV L R} `{EqDecision CV} c (ts ts' : list (thread CV L R)) i l :
  wakes [Signal c] ts ts' → ts !! i = Some (Waiting c l) →
  ∃ j l', ts !! j = Some (Waiting c l') ∧ ts' !! j = Some (Ready l').
Proof.
  intros Hw Hi. inversion Hw as [|? ? ? ts1 ? H1 H2]; subst. inversion H2; subst.
  inversion H1 as [? ? Hno|? ? j l' Hj|]; subst.
  - exfalso. by apply (Forall_lookup_1 _ _ _ _ Hno Hi).
  - exists j, l'. split; [done|]. apply list_lookup_insert_eq. by eapply lookup_lt_Some.
Qed.

Lemma total_split {CV L R} (f : thread CV L R → nat) ts i t : ts !! i = Some t →
  ∃ rest, total f ts = (f t + rest)%nat ∧ ∀ t', total f (<[i:=t']> ts) = (f t' + rest)%nat.
Proof.
  intros Hi. exists (total f ts - f t)%nat. pose proof (total_lookup f ts i t Hi). split; [lia|].
  intros t'. pose proof (total_insert f ts i t t' Hi). lia.
Qed.

Lemma total_two {CV L R} (f : thread CV L R → nat) ts i j t u : i ≠ j →
  ts !! i = Some t → ts !! j = Some u → (f t + f u ≤ total f ts)%nat.
Proof.
  revert i j. induction ts as [|x ts IH]; intros [|i] [|j] Hne Hi Hj; try done; rewrite total_cons.
  - injection Hi as ->. pose proof (total_lookup f ts j u Hj). lia.
  - injection Hj as ->. pose proof (total_lookup f ts i t Hi). lia.
  - specialize (IH i j ltac:(congruence) Hi Hj). lia.
Qed.

Lemma total_ext {CV L R} (f g : thread CV L R → nat) ts : Forall (λ t, f t = g t) ts → total f ts = total g ts.
Proof. induction 1 as [|t ts Ht _ IH]; [done|]. by rewrite !total_cons, Ht, IH. Qed.

Lemma total_zero {CV L R} (f : thread CV L R → nat) ts : Forall (λ t, f t = 0%nat) ts → total f ts = 0%nat.
Proof. induction 1 as [|t ts Ht _ IH]; [done|]. by rewrite total_cons, Ht, IH. Qed.

Lemma total_full {CV L R} (f : thread CV L R → nat) ts : Forall (λ t, f t = 1%nat) ts → total f ts = length ts.
Proof. induction 1 as [|t ts Ht _ IH]; [done|]. by rewrite total_cons, Ht, IH. Qed.
