(* ===== verification/Mq.v ===== *)
(** The POSIX message queues of [unpv22e/my_pxmsg_mmap]: the queue header and the
    message slots in the shared mapping, and one definition per function, cut into
    segments where a thread waits on the queue's condition variable. *)
From S2P Require Import Prelude CLib Monitor.

(** ** Constants and data ([mqueue.h]) *)

Definition MQI_MAGIC : Z := 2557891634.
Definition SIGEV_SIGNAL : Z := 0.

(** Sizes of the two headers and of a long in the LP64 ABI. *)
Definition SIZEOF_LONG : Z := 8.
Definition SIZEOF_MYMQ_HDR : Z := 216.
Definition SIZEOF_MYMSG_HDR : Z := 24.

(** The macro computes in size_t. *)
Definition MSGSIZE (i : Z) : Z := wrap_u 64 (i + SIZEOF_LONG - 1) / SIZEOF_LONG * SIZEOF_LONG.

Record mymq_attr := Attr { mq_flags : Z; mq_maxmsg : Z; mq_msgsize : Z; mq_curmsgs : Z }.
Record sigevent := SigEvent { sigev_notify : Z; sigev_signo : Z; sigev_value : Z }.

(** A message slot: the [mymsg_hdr] and the [MSGSIZE (mq_msgsize)] bytes behind it. *)
Record slot := Slot { msg_next : Z; msg_len : Z; msg_prio : Z; msg_data : list Z }.

(** The mapping: the header's fields and the slots by their offset in the mapping. *)
Record mymq_hdr := MqHdr {
  mqh_attr : mymq_attr; mqh_head : Z; mqh_free : Z; mqh_nwait : Z; mqh_pid : Z;
  mqh_event : sigevent; slots : gmap Z slot
}.

(** The malloc'ed [mymq_info] of a descriptor; its [mqi_hdr] is the one mapping. *)
Record mymq_info := Info { mqi_magic : Z; mqi_flags : Z }.

(** What the threads share: the mapping, the descriptors, and the signals that were
    queued to processes (process, signal, value), latest last. *)
Record shared := Shared {
  hdr : mymq_hdr; infos : gmap nat mymq_info; queued : list (Z * Z * Z)
}.

(** Return value of a call: -1 with [errno], a value, or what [mymq_receive] (the caller's
    buffer after the copy) and [mymq_getattr] store through their pointers besides. *)
Inductive mqres :=
  | RErr (e : Z)
  | RRet (n : Z)
  | RMsg (len : Z) (ptr : list Z) (prio : option Z)
  | RAttr (old : option mymq_attr).

(** The arguments of a call and where a thread is in it.  [lockrc] is what
    [pthread_mutex_lock] returns; [pid] is the caller's process; [alive] is the answer of
    [kill(pid, 0)] about the registered process.  The [ptr] of a receive is the caller's
    buffer as it was before: its length is the memory that is really there. *)
Inductive pc :=
  | PSend (mqd : nat) (ptr : list Z) (prio lockrc : Z)
  | PSendWait (mqd : nat) (ptr : list Z) (prio : Z)
  | PReceive (mqd : nat) (ptr : list Z) (maxlen : Z) (priop : bool) (lockrc : Z)
  | PReceiveWait (mqd : nat) (ptr : list Z) (priop : bool)
  | PNotify (mqd : nat) (notification : option sigevent) (pid : Z) (alive : bool) (lockrc : Z)
  | PGetattr (mqd : nat) (lockrc : Z)
  | PSetattr (mqd : nat) (mqstat : mymq_attr) (omqstat : bool) (lockrc : Z)
  | PClose (mqd : nat) (pid lockrc : Z) (munmap_ok : bool).

(** ** Field updates *)

Definition upd_hdr (f : mymq_hdr → mymq_hdr) (s : shared) : shared := Shared (f (hdr s)) (infos s) (queued s).
Definition set_cur (v : Z) : mymq_hdr → mymq_hdr := λ h,
  let a := mqh_attr h in
  MqHdr (Attr (mq_flags a) (mq_maxmsg a) (mq_msgsize a) v) (mqh_head h) (mqh_free h) (mqh_nwait h) (mqh_pid h) (mqh_event h) (slots h).
Definition set_head (v : Z) : mymq_hdr → mymq_hdr := λ h,
  MqHdr (mqh_attr h) v (mqh_free h) (mqh_nwait h) (mqh_pid h) (mqh_event h) (slots h).
Definition set_free (v : Z) : mymq_hdr → mymq_hdr := λ h,
  MqHdr (mqh_attr h) (mqh_head h) v (mqh_nwait h) (mqh_pid h) (mqh_event h) (slots h).
Definition set_nwait (v : Z) : mymq_hdr → mymq_hdr := λ h,
  MqHdr (mqh_attr h) (mqh_head h) (mqh_free h) v (mqh_pid h) (mqh_event h) (slots h).
Definition set_pid (v : Z) : mymq_hdr → mymq_hdr := λ h,
  MqHdr (mqh_attr h) (mqh_head h) (mqh_free h) (mqh_nwait h) v (mqh_event h) (slots h).
Definition set_event (v : sigevent) : mymq_hdr → mymq_hdr := λ h,
  MqHdr (mqh_attr h) (mqh_head h) (mqh_free h) (mqh_nwait h) (mqh_pid h) v (slots h).
Definition set_slot (o : Z) (v : slot) : mymq_hdr → mymq_hdr := λ h,
  MqHdr (mqh_attr h) (mqh_head h) (mqh_free h) (mqh_nwait h) (mqh_pid h) (mqh_event h) (<[o:=v]> (slots h)).

Abbreviation mqM := (M (mon () shared)).
Abbreviation mqout := (outcome () pc mqres).

Definition hmodify (f : mymq_hdr → mymq_hdr) : mqM () := smodify (upd_hdr f).
Definition hget : mqM mymq_hdr := sgets hdr.

(** [&mptr[index]]: outside the slots the mapping is not valid memory. *)
Definition msg_at (index : Z) : mqM slot :=
  h ← hget;
  match slots h !! index with Some m => mret m | None => fail (UB "message offset outside the mapping") end.

(** [pmsghdr->msg_next = v], where [None] is the pointer to [mqh_head]. *)
Definition set_next (pmsghdr : option Z) (v : Z) : mqM () :=
  match pmsghdr with
  | None => hmodify (set_head v)
  | Some o => m ← msg_at o; hmodify (set_slot o (Slot v (msg_len m) (msg_prio m) (msg_data m)))
  end.

(** [mqinfo = mqd; mqinfo->mqi_magic]: a freed descriptor is not valid memory. *)
Definition info_of (mqd : nat) : mqM mymq_info :=
  i ← sgets infos;
  match i !! mqd with Some x => mret x | None => fail (UB "descriptor was freed") end.

Definition err (e : Z) : mqM mqout := mret (Done (RErr e)).

(** The prologue of every call: the magic number and the lock. *)
Definition with_lock (mqd : nat) (lockrc : Z) (k : mymq_info → mqM mqout) : mqM mqout :=
  mqinfo ← info_of mqd;
  if negb (mqi_magic mqinfo =? MQI_MAGIC) then err EBADF else
  if negb (lockrc =? 0) then err lockrc else
  k mqinfo.

(** ** [mymq_send] *)

(** One round of the search for the place in the list; the result is the final [pmsghdr]
    and whether the loop broke off with the message linked. *)
Definition place_body (prio freeindex : Z) (x : Z * option Z) : mqM ((Z * option Z) + (Z * option Z)) :=
  let '(index, pmsghdr) := x in
  if index =? 0 then mret (inr (index, pmsghdr)) else
  m ← msg_at index;
  if msg_prio m <? prio then
    _ ← set_next (Some freeindex) index;
    _ ← set_next pmsghdr freeindex;
    mret (inr (index, pmsghdr))
  else mret (inl (msg_next m, Some index)).

(** From the allocation of the slot to the unlock. *)
Definition send_tail (ptr : list Z) (prio : Z) : mqM mqout :=
  h ← hget;
  let freeindex := mqh_free h in
  if freeindex =? 0 then fail (Abort "mymq_send: free = 0") else
  m ← msg_at freeindex;
  _ ← (if zlen (msg_data m) <? zlen ptr then fail (UB "memcpy past the message slot")
       else hmodify (set_slot freeindex (Slot (msg_next m) (zlen ptr) prio (bwrite (msg_data m) 0 ptr))));
  _ ← hmodify (set_free (msg_next m));
  h ← hget;
  '(index, pmsghdr) ← iter (S (size (slots h))) (place_body prio freeindex) (mqh_head h, None);
  _ ← when (index =? 0) (_ ← set_next pmsghdr freeindex; set_next (Some freeindex) 0);
  h ← hget;
  _ ← when (mq_curmsgs (mqh_attr h) =? 0) (cond_signal ());
  _ ← hmodify (set_cur (mq_curmsgs (mqh_attr h) + 1));
  mret (Done (RRet 0)).

(** The [while] around [pthread_cond_wait]. *)
Definition send_wait (mqd : nat) (ptr : list Z) (prio : Z) : mqM mqout :=
  h ← hget;
  if mq_maxmsg (mqh_attr h) <=? mq_curmsgs (mqh_attr h) then mret (Block () (PSendWait mqd ptr prio))
  else send_tail ptr prio.

(** The notification of a registered process: the queue goes from empty to non-empty
    and no thread is blocked in [mymq_receive]. *)
Definition notify_send : mqM () :=
  h ← hget;
  if negb (mqh_pid h =? 0) && (mqh_nwait h =? 0) then
    let sigev := mqh_event h in
    _ ← when (sigev_notify sigev =? SIGEV_SIGNAL)
          (smodify (λ s, Shared (hdr s) (infos s) (queued s ++ [(mqh_pid h, sigev_signo sigev, sigev_value sigev)])));
    hmodify (set_pid 0)
  else mret ().

Definition mymq_send (mqd : nat) (ptr : list Z) (prio lockrc : Z) : mqM mqout :=
  with_lock mqd lockrc (λ mqinfo,
    h ← hget;
    let attr := mqh_attr h in
    if wrap_u 64 (mq_msgsize attr) <? zlen ptr then err EMSGSIZE else
    if mq_curmsgs attr =? 0 then _ ← notify_send; send_tail ptr prio
    else if mq_maxmsg attr <=? mq_curmsgs attr then
      if has_flag (mqi_flags mqinfo) O_NONBLOCK then err EAGAIN
      else send_wait mqd ptr prio
    else send_tail ptr prio).

(** ** [mymq_receive] *)

Definition receive_tail (ptr : list Z) (priop : bool) : mqM mqout :=
  h ← hget;
  let index := mqh_head h in
  if index =? 0 then fail (Abort "mymq_receive: head = 0") else
  m ← msg_at index;
  _ ← hmodify (set_head (msg_next m));
  if (msg_len m <? 0) || (zlen (msg_data m) <? msg_len m) then fail (UB "memcpy from past the message slot") else
  if zlen ptr <? msg_len m then fail (UB "memcpy past the caller's buffer") else
  let ptr' := bwrite ptr 0 (take (Z.to_nat (msg_len m)) (msg_data m)) in
  h ← hget;
  _ ← set_next (Some index) (mqh_free h);
  _ ← hmodify (set_free index);
  h ← hget;
  _ ← when (mq_curmsgs (mqh_attr h) =? mq_maxmsg (mqh_attr h)) (cond_signal ());
  _ ← hmodify (set_cur (mq_curmsgs (mqh_attr h) - 1));
  mret (Done (RMsg (msg_len m) ptr' (if priop then Some (msg_prio m) else None))).

(** The [while] around [pthread_cond_wait] and the decrement behind it. *)
Definition receive_wait (mqd : nat) (ptr : list Z) (priop : bool) : mqM mqout :=
  h ← hget;
  if mq_curmsgs (mqh_attr h) =? 0 then mret (Block () (PReceiveWait mqd ptr priop))
  else _ ← hmodify (set_nwait (mqh_nwait h - 1)); receive_tail ptr priop.

Definition mymq_receive (mqd : nat) (ptr : list Z) (maxlen : Z) (priop : bool) (lockrc : Z) : mqM mqout :=
  with_lock mqd lockrc (λ mqinfo,
    h ← hget;
    let attr := mqh_attr h in
    if maxlen <? wrap_u 64 (mq_msgsize attr) then err EMSGSIZE else
    if mq_curmsgs attr =? 0 then
      if has_flag (mqi_flags mqinfo) O_NONBLOCK then err EAGAIN
      else _ ← hmodify (set_nwait (mqh_nwait h + 1)); receive_wait mqd ptr priop
    else receive_tail ptr priop).

(** ** The other calls *)

Definition mymq_notify (mqd : nat) (notification : option sigevent) (pid : Z) (alive : bool) (lockrc : Z) : mqM mqout :=
  with_lock mqd lockrc (λ _,
    h ← hget;
    match notification with
    | None => _ ← when (mqh_pid h =? pid) (hmodify (set_pid 0)); mret (Done (RRet 0))
    | Some ev =>
        if negb (mqh_pid h =? 0) && alive then err EBUSY
        else _ ← hmodify (set_pid pid); _ ← hmodify (set_event ev); mret (Done (RRet 0))
    end).

(** The attributes as [mymq_getattr] and [mymq_setattr] report them. *)
Definition report (mqinfo : mymq_info) (h : mymq_hdr) : mymq_attr :=
  let a := mqh_attr h in Attr (mqi_flags mqinfo) (mq_maxmsg a) (mq_msgsize a) (mq_curmsgs a).

Definition mymq_getattr (mqd : nat) (lockrc : Z) : mqM mqout :=
  with_lock mqd lockrc (λ mqinfo, h ← hget; mret (Done (RAttr (Some (report mqinfo h))))).

Definition mymq_setattr (mqd : nat) (mqstat : mymq_attr) (omqstat : bool) (lockrc : Z) : mqM mqout :=
  with_lock mqd lockrc (λ mqinfo,
    h ← hget;
    let old := if omqstat then Some (report mqinfo h) else None in
    let flags := if has_flag (mq_flags mqstat) O_NONBLOCK
                 then Z.lor (mqi_flags mqinfo) O_NONBLOCK
                 else Z.land (mqi_flags mqinfo) (Z.lnot O_NONBLOCK) in
    _ ← smodify (λ s, Shared (hdr s) (<[mqd := Info (mqi_magic mqinfo) flags]> (infos s)) (queued s));
    mret (Done (RAttr old))).

Definition mymq_close (mqd : nat) (pid lockrc : Z) (munmap_ok : bool) : mqM mqout :=
  mqinfo ← info_of mqd;
  if negb (mqi_magic mqinfo =? MQI_MAGIC) then err EBADF else
  o ← mymq_notify mqd None pid false lockrc;
  match o with
  | Done (RRet 0) =>
      if negb munmap_ok then mret (Done (RRet (-1))) else
      _ ← smodify (λ s, Shared (hdr s) (delete mqd (infos s)) (queued s));
      mret (Done (RRet 0))
  | Done (RErr e) => mret (Done (RErr e))
  | _ => mret o
  end.

(** ** The segments of the threads *)

Definition seg (l : pc) : mqM mqout :=
  match l with
  | PSend mqd ptr prio lockrc => mymq_send mqd ptr prio lockrc
  | PSendWait mqd ptr prio => send_wait mqd ptr prio
  | PReceive mqd ptr maxlen priop lockrc => mymq_receive mqd ptr maxlen priop lockrc
  | PReceiveWait mqd ptr priop => receive_wait mqd ptr priop
  | PNotify mqd n pid alive lockrc => mymq_notify mqd n pid alive lockrc
  | PGetattr mqd lockrc => mymq_getattr mqd lockrc
  | PSetattr mqd a o lockrc => mymq_setattr mqd a o lockrc
  | PClose mqd pid lockrc ok => mymq_close mqd pid lockrc ok
  end.
