(* ===== verification/MqSpec.v ===== *)
(** The message queue as a priority queue: the well-formedness of the lists in the
    mapping, kept by every segment of every call, and the effect of each segment on the
    abstract queue. *)
From Stdlib Require Import Sorted.
From S2P Require Import Prelude CLib Monitor Mq.

(** ** The abstract queue: (priority, data), highest priority first, FIFO within one *)

Module aq.
Abbreviation queue := (list (Z * list Z)).
Fixpoint insert (x : Z * list Z) (q : queue) : queue :=
  match q with
  | [] => [x]
  | y :: q' => if y.1 <? x.1 then x :: y :: q' else y :: insert x q'
  end.
Definition sorted (q : queue) : Prop := StronglySorted (λ x y, y.1 ≤ x.1) q.
End aq.

Lemma aq_insert_elem x y q : y ∈ aq.insert x q ↔ y = x ∨ y ∈ q.
Proof.
  induction q as [|z q IH]; simpl; [set_solver|].
  destruct (z.1 <? x.1); rewrite !elem_of_cons; [tauto|]. rewrite IH. tauto.
Qed.

Lemma aq_insert_sorted x q : aq.sorted q → aq.sorted (aq.insert x q).
Proof.
  induction 1 as [|y q Hq IH Hy]; simpl; [repeat constructor|].
  destruct (Z.ltb_spec y.1 x.1).
  - constructor; [by constructor|]. constructor; [lia|].
    eapply Forall_impl; [exact Hy|]. simpl. lia.
  - constructor; [exact IH|]. apply Forall_forall. intros z [->|Hz]%aq_insert_elem; [lia|].
    by apply (Forall_forall (λ z, z.1 ≤ y.1) q).
Qed.

(** ** Linked lists in the slots *)

(** The offsets [l] are linked from [p] to [q]. *)
Fixpoint mseg (mem : gmap Z slot) (p : Z) (l : list Z) (q : Z) : Prop :=
  match l with
  | [] => p = q
  | o :: l' => p = o ∧ o ≠ 0 ∧ ∃ m, mem !! o = Some m ∧ mseg mem (msg_next m) l' q
  end.

Lemma mseg_app mem p l1 l2 q : mseg mem p (l1 ++ l2) q ↔ ∃ r, mseg mem p l1 r ∧ mseg mem r l2 q.
Proof.
  revert p. induction l1 as [|o l1 IH]; intros p; simpl.
  - split; [by intros; exists p|by intros (r & -> & ?)].
  - setoid_rewrite IH. naive_solver.
Qed.

(** A list only depends on the slots it goes through. *)
Lemma mseg_ext mem mem' p l q : (∀ o, o ∈ l → msg_next <$> mem' !! o = msg_next <$> mem !! o) →
  mseg mem p l q → mseg mem' p l q.
Proof.
  revert p. induction l as [|o l IH]; intros p H; simpl; [done|].
  intros (-> & Ho & m & Hm & Hl). split; [done|]. split; [done|].
  specialize (H o ltac:(set_solver)) as Ho'. rewrite Hm in Ho'.
  destruct (mem' !! o) as [m'|]; [|done]. injection Ho' as Ho'. exists m'. split; [done|].
  rewrite Ho'. apply IH; [set_solver|done].
Qed.

Lemma mseg_insert mem p l q o m : o ∉ l → mseg mem p l q → mseg (<[o:=m]> mem) p l q.
Proof.
  intros Ho. apply mseg_ext. intros x Hx. rewrite lookup_insert_ne; [done|]. by intros ->.
Qed.

Lemma mseg_lookup mem p l q o : mseg mem p l q → o ∈ l → ∃ m, mem !! o = Some m ∧ o ≠ 0.
Proof.
  revert p. induction l as [|x l IH]; intros p; simpl; [by intros _ ?%not_elem_of_nil|].
  intros (-> & Hx & m & Hm & Hl) [->|Ho]%elem_of_cons; [eauto|by eapply IH].
Qed.

(** ** Well-formed queues *)

Definition msg_of (m : slot) : Z * list Z := (msg_prio m, take (Z.to_nat (msg_len m)) (msg_data m)).

(** The messages at the given offsets. *)
Fixpoint msgs (mem : gmap Z slot) (l : list Z) : aq.queue :=
  match l with
  | [] => []
  | o :: l' => match mem !! o with Some m => msg_of m :: msgs mem l' | None => msgs mem l' end
  end.

Lemma msgs_app mem l1 l2 : msgs mem (l1 ++ l2) = msgs mem l1 ++ msgs mem l2.
Proof. induction l1 as [|o l1 IH]; simpl; [done|]. rewrite IH. by destruct (mem !! o). Qed.

Lemma msgs_ext mem mem' l : (∀ o, o ∈ l → msg_of <$> mem' !! o = msg_of <$> mem !! o) →
  msgs mem' l = msgs mem l.
Proof.
  induction l as [|o l IH]; intros H; [done|]. simpl. rewrite IH by set_solver.
  specialize (H o ltac:(set_solver)). revert H.
  destruct (mem' !! o), (mem !! o); cbn [fmap option_fmap option_map]; congruence.
Qed.

Record wfq (h : mymq_hdr) (hl fl : list Z) : Prop := {
  wq_head : mseg (slots h) (mqh_head h) hl 0;
  wq_free : mseg (slots h) (mqh_free h) fl 0;
  wq_nodup : NoDup (hl ++ fl);
  wq_count : zlen hl = mq_curmsgs (mqh_attr h);
  wq_total : zlen hl + zlen fl = mq_maxmsg (mqh_attr h);
  wq_max : 0 < mq_maxmsg (mqh_attr h) ∧ 0 < mq_msgsize (mqh_attr h) < 2 ^ 63;
  wq_size : ∀ o m, slots h !! o = Some m → zlen (msg_data m) = MSGSIZE (mq_msgsize (mqh_attr h));
  wq_len : ∀ o m, o ∈ hl → slots h !! o = Some m → 0 ≤ msg_len m ≤ mq_msgsize (mqh_attr h);
  wq_sorted : aq.sorted (msgs (slots h) hl)
}.

(** The header represents the abstract queue [q]. *)
Definition mq_rep (h : mymq_hdr) (q : aq.queue) : Prop :=
  ∃ hl fl, wfq h hl fl ∧ q = msgs (slots h) hl.

Lemma MSGSIZE_ge i : 0 ≤ i < 2 ^ 63 → i ≤ MSGSIZE i.
Proof.
  intros. unfold MSGSIZE, SIZEOF_LONG. rewrite wrap_u_id by lia. pose proof (Z.div_mod (i + 8 - 1) 8 ltac:(lia)).
  pose proof (Z.mod_pos_bound (i + 8 - 1) 8 ltac:(lia)). lia.
Qed.

(** ** Linking a slot into the list *)

Definition hset_next (p : option Z) (v : Z) (h : mymq_hdr) : mymq_hdr :=
  match p with
  | None => set_head v h
  | Some o => match slots h !! o with
              | Some m => set_slot o (Slot v (msg_len m) (msg_prio m) (msg_data m)) h
              | None => h
              end
  end.

Definition p_ok (p : option Z) (h : mymq_hdr) : Prop :=
  match p with None => True | Some o => is_Some (slots h !! o) end.

Lemma msg_at_eq o m s ks : slots (hdr s) !! o = Some m → msg_at o (Mon s ks) = Ok (m, Mon s ks).
Proof.
  intros H. unfold msg_at, hget, sgets. rewrite bind_gets. cbn [sh]. by rewrite H.
Qed.

Lemma set_next_eq p v s ks : p_ok p (hdr s) →
  set_next p v (Mon s ks) = Ok ((), Mon (upd_hdr (hset_next p v) s) ks).
Proof.
  destruct p as [o|]; [|done]. intros [m Hm]. unfold set_next.
  rewrite (bind_ok _ _ _ _ _ (msg_at_eq o m s ks Hm)).
  unfold hmodify, smodify, modify, upd_hdr, hset_next. cbn [sh wk]. by rewrite Hm.
Qed.

(** The last element of a prefix, as the pointer the loop keeps. *)
Definition prev_of (l : list Z) : option Z := last l.

Lemma hset_next_slots p v h o : slots (hset_next p v h) !! o =
  if decide (p = Some o) then (λ m, Slot v (msg_len m) (msg_prio m) (msg_data m)) <$> slots h !! o
  else slots h !! o.
Proof.
  destruct p as [x|]; simpl; [|done]. destruct (decide (Some x = Some o)) as [[= ->]|Hne].
  - destruct (slots h !! o) eqn:E; simpl; [by rewrite lookup_insert_eq|by rewrite E].
  - destruct (slots h !! x) eqn:E; simpl; [|done]. rewrite lookup_insert_ne; [done|congruence].
Qed.

Lemma p_ok_set p v p' h : p_ok p h → p_ok p (hset_next p' v h).
Proof.
  destruct p as [o|]; [|done]. unfold p_ok. rewrite hset_next_slots. intros [m Hm]. rewrite Hm. case_decide; simpl; eauto.
Qed.

Lemma p_ok_prev l h p v : Forall (λ o, is_Some (slots h !! o)) l → p_ok (prev_of l) (hset_next p v h).
Proof.
  intros Hl. apply p_ok_set. unfold prev_of. destruct (last l) as [x|] eqn:Hx; [|done].
  apply last_Some in Hx as [l' ->]. apply Forall_app in Hl as [_ Hl]. by apply (proj1 (Forall_singleton _ _)) in Hl.
Qed.

Lemma place_loop prio f l2 : ∀ l1 s ks fuel index,
  let h := hdr s in
  mseg (slots h) index l2 0 → Forall (λ o, is_Some (slots h !! o)) (f :: l1) →
  (length l2 < fuel)%nat →
  ∃ l1' l2' index', l2 = l1' ++ l2' ∧
    Forall (λ o, ∀ m, slots h !! o = Some m → prio ≤ msg_prio m) l1' ∧
    mseg (slots h) index l1' index' ∧ mseg (slots h) index' l2' 0 ∧
    match l2' with [] => index' = 0 | o :: _ => index' ≠ 0 ∧ ∀ m, slots h !! o = Some m → msg_prio m < prio end ∧
    iter fuel (place_body prio f) (index, prev_of l1) (Mon s ks) =
      Ok ((index', prev_of (l1 ++ l1')),
          if index' =? 0 then Mon s ks
          else Mon (upd_hdr (λ h, hset_next (prev_of (l1 ++ l1')) f (hset_next (Some f) index' h)) s) ks).
Proof.
  induction l2 as [|o l2 IH]; intros l1 s ks fuel index h Hl Hin Hf; destruct fuel as [|fuel]; simpl in Hf; try lia.
  - simpl in Hl. subst index. exists [], [], 0. split_and!; try constructor. by rewrite app_nil_r.
  - destruct Hl as (-> & Ho & m & Hm & Hl). cbn [iter].
    assert (Hidx : (o =? 0) = false) by (by apply Z.eqb_neq).
    destruct (Z.ltb_spec (msg_prio m) prio) as [Hp|Hp].
    + exists [], (o :: l2), o. split; [done|]. split; [constructor|]. split; [done|].
      split; [simpl; eauto|]. split; [split; [done|]; intros m' ?; by simplify_eq|].
      rewrite app_nil_r, Hidx.
      assert (place_body prio f (o, prev_of l1) (Mon s ks) = Ok (inr (o, prev_of l1),
        Mon (upd_hdr (λ h, hset_next (prev_of l1) f (hset_next (Some f) o h)) s) ks)) as E.
      { unfold place_body. rewrite Hidx. erewrite bind_ok by by apply msg_at_eq.
        rewrite (proj2 (Z.ltb_lt _ _) Hp). apply Forall_cons in Hin as [Hfi Hin].
        erewrite bind_ok by by apply set_next_eq. erewrite bind_ok; [reflexivity|].
        apply (set_next_eq (prev_of l1) f (upd_hdr (hset_next (Some f) o) s)).
        by apply p_ok_prev. }
      by erewrite bind_ok by exact E.
    + destruct (IH (l1 ++ [o]) s ks fuel (msg_next m)) as (l1' & l2' & i' & -> & Hall & Hs1 & Hs2 & Hm2 & E); try done.
      { apply Forall_cons in Hin as [? ?]. constructor; [done|]. apply Forall_app. split; [done|].
        apply Forall_singleton. by eexists. }
      { lia. }
      exists (o :: l1'), l2', i'. split; [done|].
      split; [constructor; [intros m' ?; by simplify_eq|done]|].
      split; [simpl; eauto|]. split; [done|]. split; [done|].
      erewrite bind_ok.
      2:{ unfold place_body. rewrite Hidx. erewrite bind_ok by by apply msg_at_eq.
          rewrite (proj2 (Z.ltb_ge _ _) Hp). reflexivity. }
      replace (prev_of (l1 ++ o :: l1')) with (prev_of ((l1 ++ [o]) ++ l1')) by by rewrite <- app_assoc.
      rewrite <- E. unfold prev_of. by rewrite last_snoc.
Qed.

Definition linked (l1 : list Z) (f index : Z) (h : mymq_hdr) : mymq_hdr :=
  hset_next (prev_of l1) f (hset_next (Some f) index h).

(** At the end of the list the two links are made in the other order. *)
Lemma linked_comm l1 f index h : f ∉ l1 → is_Some (slots h !! f) →
  hset_next (Some f) index (hset_next (prev_of l1) f h) = linked l1 f index h.
Proof.
  intros Hf [m Hm]. unfold linked, prev_of. destruct (last l1) as [x|] eqn:Hx; simpl; rewrite Hm; [|done].
  assert (x ≠ f). { intros ->. apply Hf, last_Some_elem_of. done. }
  simpl. rewrite lookup_insert_ne by done. destruct (slots h !! x) as [mx|] eqn:Ex; simpl.
  - rewrite lookup_insert_ne, Hm by done. unfold set_slot. simpl. f_equal. by apply insert_insert_ne.
  - by rewrite Hm.
Qed.

Lemma hset_next_head o v h : mqh_head (hset_next (Some o) v h) = mqh_head h.
Proof. simpl. by destruct (slots h !! o). Qed.

Lemma linked_slots l1 f index h o : msg_of <$> slots (linked l1 f index h) !! o = msg_of <$> slots h !! o.
Proof.
  unfold linked. rewrite !hset_next_slots. repeat case_decide; by destruct (slots h !! o).
Qed.

Lemma linked_mseg l1 l2 f index h :
  mseg (slots h) (mqh_head h) l1 index → mseg (slots h) index l2 0 → NoDup (l1 ++ l2) →
  f ∉ l1 ++ l2 → f ≠ 0 → is_Some (slots h !! f) →
  mseg (slots (linked l1 f index h)) (mqh_head (linked l1 f index h)) (l1 ++ f :: l2) 0.
Proof.
  intros H1 H2 Hnd Hf Hf0 Hfs. assert (f ∉ l1 ∧ f ∉ l2) as [Hf1 Hf2] by set_solver.
  assert (mseg (slots (linked l1 f index h)) f (f :: l2) 0) as Htail.
  { simpl. split; [done|]. split; [done|]. destruct Hfs as [m Hm].
    exists (Slot index (msg_len m) (msg_prio m) (msg_data m)). split.
    - unfold linked. rewrite hset_next_slots, decide_False, hset_next_slots, decide_True by
        (done || (unfold prev_of; intros ?%last_Some_elem_of; done)). by rewrite Hm.
    - eapply mseg_ext; [|exact H2]. intros o Ho. unfold linked.
      rewrite hset_next_slots, decide_False, hset_next_slots, decide_False; [done| |].
      + intros [= ->]. done.
      + unfold prev_of. intros ?%last_Some_elem_of. apply NoDup_app in Hnd as (_ & Hd & _). by eapply Hd. }
  apply mseg_app. exists f. split; [|exact Htail].
  destruct (decide (l1 = [])) as [->|Hne]; [done|].
  destruct (exists_last Hne) as (l1' & x & ->).
  assert (prev_of (l1' ++ [x]) = Some x) as Hp by apply last_snoc.
  apply mseg_app in H1 as (r & Hr & -> & Hx0 & mx & Hmx & Hix). simpl in Hix. subst index.
  apply mseg_app. exists x.
  assert (mqh_head (linked (l1' ++ [x]) f (msg_next mx) h) = mqh_head h) as ->.
  { unfold linked. by rewrite Hp, !hset_next_head. }
  rewrite <- app_assoc in Hnd. apply NoDup_app in Hnd as (_ & Hd & [Hx _]%NoDup_cons).
  split.
  - eapply mseg_ext; [|exact Hr]. intros o Ho. unfold linked. rewrite Hp.
    rewrite hset_next_slots, decide_False, hset_next_slots, decide_False; [done| |]; intros [= ->]; set_solver.
  - simpl. split; [done|]. split; [done|]. 
    exists (Slot f (msg_len mx) (msg_prio mx) (msg_data mx)). split; [|done].
    unfold linked. rewrite Hp, hset_next_slots, decide_True, hset_next_slots, decide_False by
      (done || (intros [= ->]; set_solver)). by rewrite Hmx.
Qed.

Lemma aq_insert_split x q1 q2 : Forall (λ y, x.1 ≤ y.1) q1 →
  match q2 with [] => True | y :: _ => y.1 < x.1 end → aq.insert x (q1 ++ q2) = q1 ++ x :: q2.
Proof.
  intros H1 H2. induction H1 as [|y q1 Hy _ IH]; simpl.
  - destruct q2 as [|y q2]; simpl; [done|]. by rewrite (proj2 (Z.ltb_lt _ _) H2).
  - rewrite (proj2 (Z.ltb_ge _ _) Hy). by rewrite IH.
Qed.

Lemma msgs_Forall mem l (P : Z → Prop) : (∀ o, o ∈ l → is_Some (mem !! o)) →
  Forall (λ o, ∀ m, mem !! o = Some m → P (msg_prio m)) l → Forall (λ y, P y.1) (msgs mem l).
Proof.
  intros Hd. induction 1 as [|o l Ho _ IH]; simpl; [constructor|].
  destruct (Hd o) as [m Hm]; [set_solver|]. rewrite Hm. constructor; [by apply Ho|]. apply IH. set_solver.
Qed.

(** What stays the same in the header. *)
Definition same_hdr (h h' : mymq_hdr) : Prop :=
  mq_flags (mqh_attr h') = mq_flags (mqh_attr h) ∧ mq_maxmsg (mqh_attr h') = mq_maxmsg (mqh_attr h) ∧
  mq_msgsize (mqh_attr h') = mq_msgsize (mqh_attr h) ∧ mqh_nwait h' = mqh_nwait h ∧
  mqh_pid h' = mqh_pid h ∧ mqh_event h' = mqh_event h ∧ dom (slots h') = dom (slots h).

Lemma hset_next_same p v h : same_hdr h (hset_next p v h) ∧ mqh_attr (hset_next p v h) = mqh_attr h
  ∧ mqh_free (hset_next p v h) = mqh_free h.
Proof.
  destruct p as [o|]; simpl; [|done]. destruct (slots h !! o) eqn:E; simpl; [|done].
  split; [|done]. unfold same_hdr. split_and!; try done. simpl. apply dom_insert_lookup_L. by eexists.
Qed.

#[export] Instance same_hdr_preorder : PreOrder same_hdr.
Proof.
  split; [by intros h|]. intros h1 h2 h3 (?&?&?&?&?&?&?) (?&?&?&?&?&?&?). unfold same_hdr. split_and!; congruence.
Qed.

Lemma linked_same l1 f index h : same_hdr h (linked l1 f index h) ∧
  mqh_attr (linked l1 f index h) = mqh_attr h ∧ mqh_free (linked l1 f index h) = mqh_free h.
Proof.
  unfold linked. destruct (hset_next_same (Some f) index h) as (S1 & A1 & F1).
  destruct (hset_next_same (prev_of l1) f (hset_next (Some f) index h)) as (S2 & A2 & F2).
  split; [by etrans|]. split; congruence.
Qed.

Lemma mseg_length mem p l q : mseg mem p l q → NoDup l → (length l ≤ size mem)%nat.
Proof.
  intros Hs Hnd. rewrite <- size_dom, <- (size_list_to_set (C := gset Z) l Hnd).
  apply subseteq_size. intros o Ho%elem_of_list_to_set. apply elem_of_dom.
  destruct (mseg_lookup _ _ _ _ _ Hs Ho) as (m & ? & _). by eexists.
Qed.

(** The new slot after the copy, off the free list. *)
Definition alloc_slot (h : mymq_hdr) (f : Z) (m : slot) (ptr : list Z) (prio : Z) : mymq_hdr :=
  set_free (msg_next m) (set_slot f (Slot (msg_next m) (zlen ptr) prio (bwrite (msg_data m) 0 ptr)) h).

Lemma send_link h ptr prio f m s ks hl :
  let h1 := alloc_slot h f m ptr prio in
  hdr s = h1 → mseg (slots h1) (mqh_head h1) hl 0 → NoDup hl → f ∉ hl → f ≠ 0 →
  ∃ l1 l2 i, hl = l1 ++ l2 ∧
    Forall (λ o, ∀ x, slots h1 !! o = Some x → prio ≤ msg_prio x) l1 ∧
    match l2 with [] => True | o :: _ => ∀ x, slots h1 !! o = Some x → msg_prio x < prio end ∧
    mseg (slots (linked l1 f i h1)) (mqh_head (linked l1 f i h1)) (l1 ++ f :: l2) 0 ∧
    ∃ index pmsghdr mon1,
      iter (S (size (slots h1))) (place_body prio f) (mqh_head h1, None) (Mon s ks) =
        Ok ((index, pmsghdr), mon1) ∧
      when (index =? 0) (_ ← set_next pmsghdr f; set_next (Some f) 0) mon1 =
        Ok ((), Mon (upd_hdr (linked l1 f i) s) ks).
Proof.
  intros h1 Hs Hl Hnd Hf Hf0.
  assert (is_Some (slots h1 !! f)) as Hfs by (eexists; apply lookup_insert_eq).
  destruct (place_loop prio f hl [] s ks (S (size (slots h1))) (mqh_head h1))
    as (l1 & l2 & i & -> & Hall & H1 & H2 & Hm & E).
  { by rewrite Hs. }
  { constructor; [by rewrite Hs|constructor]. }
  { pose proof (mseg_length _ _ _ _ Hl Hnd). lia. }
  rewrite Hs in *. exists l1, l2, i. split; [done|]. split; [done|]. split; [by destruct l2; [|apply Hm]|].
  split; [by apply linked_mseg|]. simpl app in E.
  change (prev_of []) with (@None Z) in E. eexists _, _, _. split; [exact E|].
  destruct l2 as [|o l2].
  - subst i. change (0 =? 0) with true. cbn [when].
    assert (Forall (λ o, is_Some (slots h1 !! o)) l1) as Hd.
    { apply Forall_forall. intros o Ho. destruct (mseg_lookup _ _ _ _ _ H1 Ho) as (x & ? & _). by eexists. }
    erewrite bind_ok.
    2:{ apply set_next_eq. rewrite Hs. apply p_ok_prev with (p := None) (v := mqh_head h1) in Hd. by destruct h1. }
    rewrite set_next_eq; [|by apply (p_ok_set (Some f)); rewrite Hs].
    do 2 f_equal. unfold upd_hdr. simpl. rewrite Hs. f_equal. f_equal. apply linked_comm; [|done]. set_solver.
  - destruct Hm as [Hi _]. apply Z.eqb_neq in Hi. by rewrite Hi.
Qed.

Lemma linked_lookup l1 f i h o m' : slots (linked l1 f i h) !! o = Some m' →
  ∃ m, slots h !! o = Some m ∧ msg_len m' = msg_len m ∧ msg_prio m' = msg_prio m ∧ msg_data m' = msg_data m.
Proof.
  unfold linked. rewrite !hset_next_slots. destruct (slots h !! o) as [m|].
  - intros H. exists m. split; [done|]. by repeat case_decide; simplify_eq/=.
  - by repeat case_decide.
Qed.

(** The effect of the links on the well-formedness and on the messages. *)
Section linked.
Context (h : mymq_hdr) (l1 l2 : list Z) (f : Z) (fl : list Z) (i : Z) (m : slot) (ptr : list Z) (prio : Z).
Let h1 := alloc_slot h f m ptr prio.
Let h2 := linked l1 f i h1.
Hypothesis (W : wfq h (l1 ++ l2) (f :: fl)) (Hm : slots h !! f = Some m).
Hypothesis (Hlen : zlen ptr ≤ mq_msgsize (mqh_attr h)).
Hypothesis (Hall : Forall (λ o, ∀ x, slots h1 !! o = Some x → prio ≤ msg_prio x) l1).
Hypothesis (Hm2 : match l2 with [] => True | o :: _ => ∀ x, slots h1 !! o = Some x → msg_prio x < prio end).
Hypothesis (Hseg : mseg (slots h2) (mqh_head h2) (l1 ++ f :: l2) 0).

Lemma linked_fresh : f ∉ l1 ∧ f ∉ l2 ∧ f ∉ fl ∧ (∀ o, o ∈ l1 → o ∉ fl).
Proof.
  pose proof (wq_nodup _ _ _ W) as Hnd. apply NoDup_app in Hnd as (_ & Hd & [Hf _]%NoDup_cons).
  split_and!; [intros ?|intros ?|done|intros o ??].
  1,2: apply (Hd f); set_solver. apply (Hd o); set_solver.
Qed.

Lemma linked_room : zlen ptr ≤ zlen (msg_data m).
Proof.
  rewrite (wq_size _ _ _ W f m Hm). pose proof (wq_max _ _ _ W) as [_ Hms].
  pose proof (MSGSIZE_ge (mq_msgsize (mqh_attr h)) ltac:(lia)). lia.
Qed.

Lemma alloc_lookup o x : slots h1 !! o = Some x →
  (o = f ∧ x = Slot (msg_next m) (zlen ptr) prio (bwrite (msg_data m) 0 ptr)) ∨ (o ≠ f ∧ slots h !! o = Some x).
Proof. simpl. intros [[<- <-]|[? ?]]%lookup_insert_Some; auto. Qed.

Lemma alloc_msgs l : f ∉ l → msgs (slots h1) l = msgs (slots h) l.
Proof. intros Hf. apply msgs_ext. intros o Ho. simpl. rewrite lookup_insert_ne; [done|]. by intros ->. Qed.

Lemma linked_msgs : msgs (slots h2) (l1 ++ f :: l2) = aq.insert (prio, ptr) (msgs (slots h) (l1 ++ l2)).
Proof.
  destruct linked_fresh as (Hf1 & Hf2 & _). pose proof linked_room as Hr.
  assert (∀ o, o ∈ l1 ++ l2 → is_Some (slots h1 !! o)) as Hd.
  { intros o Ho. destruct (mseg_lookup _ _ _ _ _ (wq_head _ _ _ W) Ho) as (x & Hx & _).
    simpl. apply lookup_insert_is_Some'. right. by eexists. }
  rewrite (msgs_ext (slots h1)) by (intros; apply linked_slots).
  rewrite !msgs_app, <- (alloc_msgs l1), <- (alloc_msgs l2) by done. symmetry.
  assert (msgs (slots h1) (f :: l2) = (prio, ptr) :: msgs (slots h1) l2) as ->.
  { simpl. rewrite lookup_insert_eq. unfold msg_of. simpl. f_equal. f_equal.
    unfold bwrite. change (Z.to_nat 0) with O. rewrite take_0. simpl.
    unfold zlen. rewrite Nat2Z.id. apply take_app_length. }
  apply aq_insert_split.
  - apply msgs_Forall with (P := λ p, prio ≤ p); [|done]. intros o Ho. apply Hd. set_solver.
  - destruct l2 as [|o l2']; [done|]. simpl. destruct (Hd o) as [x Hx]; [set_solver|].
    change (<[f:=_]> (slots h)) with (slots h1). rewrite Hx. simpl. by apply Hm2.
Qed.

Lemma linked_wf : wfq (set_cur (mq_curmsgs (mqh_attr h) + 1) h2) (l1 ++ f :: l2) fl.
Proof.
  destruct linked_fresh as (Hf1 & Hf2 & Hf3 & Hdis). destruct (linked_same l1 f i h1) as (_ & Ha & Hfr).
  pose proof (wq_count _ _ _ W). pose proof (wq_total _ _ _ W). pose proof linked_room as Hr.
  fold h2 in Ha, Hfr. change (mqh_attr h1) with (mqh_attr h) in Ha. change (mqh_free h1) with (msg_next m) in Hfr.
  rewrite !zlen_app, !zlen_cons in *.
  split; simpl; rewrite ?Ha; try done.
  - rewrite Hfr. pose proof (wq_free _ _ _ W) as (_ & _ & m' & Hm' & Hfl). simplify_eq.
    eapply (mseg_ext (slots h1)); [|by apply mseg_insert].
    intros o Ho. unfold h2, linked. rewrite hset_next_slots, decide_False, hset_next_slots, decide_False; [done| |].
    + intros [= ->]. done.
    + unfold prev_of. intros Hx%last_Some_elem_of. by eapply Hdis.
  - eapply NoDup_Permutation_proper; [|apply (wq_nodup _ _ _ W)]. solve_Permutation.
  - rewrite zlen_app, zlen_cons. lia.
  - rewrite zlen_app, zlen_cons. lia.
  - apply (wq_max _ _ _ W).
  - intros o x' Hx'. apply linked_lookup in Hx' as (x & Hx & _ & _ & ->).
    apply alloc_lookup in Hx as [[-> ->]|[_ Hx]]; [|by apply (wq_size _ _ _ W o)]. simpl.
    unfold zlen at 1. rewrite bwrite_length_in by lia. by apply (wq_size _ _ _ W f).
  - intros o x' Ho Hx'. apply linked_lookup in Hx' as (x & Hx & -> & _ & _).
    apply alloc_lookup in Hx as [[-> ->]|[Hne Hx]]; simpl; [split; [apply zlen_nonneg|done]|].
    apply (wq_len _ _ _ W o); [set_solver|done].
  - change (slots (set_cur _ h2)) with (slots h2). rewrite linked_msgs.
    apply aq_insert_sorted, (wq_sorted _ _ _ W).
Qed.
End linked.

Lemma send_tail_spec s ks hl fl ptr prio :
  let h := hdr s in
  wfq h hl fl → mq_curmsgs (mqh_attr h) < mq_maxmsg (mqh_attr h) → zlen ptr ≤ mq_msgsize (mqh_attr h) →
  ∃ h' hl' fl', send_tail ptr prio (Mon s ks) =
      Ok (Done (RRet 0), Mon (Shared h' (infos s) (queued s))
                          (if mq_curmsgs (mqh_attr h) =? 0 then ks ++ [Signal ()] else ks)) ∧
    wfq h' hl' fl' ∧ msgs (slots h') hl' = aq.insert (prio, ptr) (msgs (slots h) hl) ∧ same_hdr h h'.
Proof.
  intros h W Hlt Hlen. destruct fl as [|f fl].
  { pose proof (wq_count _ _ _ W). pose proof (wq_total _ _ _ W). change (zlen (@nil Z)) with 0 in *. lia. }
  pose proof (wq_free _ _ _ W) as (Hff & Hf0 & m & Hm & Hfl).
  pose proof (wq_size _ _ _ W f m Hm) as Hsz. pose proof (wq_max _ _ _ W) as [_ Hms].
  pose proof (MSGSIZE_ge (mq_msgsize (mqh_attr h)) ltac:(lia)) as Hge.
  assert (f ∉ hl ∧ NoDup hl) as [Hfhl Hndl].
  { pose proof (wq_nodup _ _ _ W) as Hnd. apply NoDup_app in Hnd as (? & Hd & _). split; [|done].
    intros Hf. apply (Hd f Hf). set_solver. }
  set (h1 := alloc_slot h f m ptr prio).
  assert (mseg (slots h1) (mqh_head h1) hl 0) as Hl1.
  { apply mseg_insert; [done|]. apply (wq_head _ _ _ W). }
  set (s1 := Shared h1 (infos s) (queued s)).
  destruct (send_link h ptr prio f m s1 ks hl) as (l1 & l2 & i & -> & Hall & Hm2 & Hseg & ix & pm & mon1 & E1 & E2); try done.
  set (h2 := linked l1 f i h1) in *.
  exists (set_cur (mq_curmsgs (mqh_attr h) + 1) h2), (l1 ++ f :: l2), fl.
  split; [|split; [|split]].
  - unfold send_tail, hget, sgets, hmodify, smodify. rewrite bind_gets. cbn [sh]. fold h. rewrite Hff.
    rewrite (proj2 (Z.eqb_neq _ _) Hf0). erewrite bind_ok by by apply msg_at_eq.
    rewrite (proj2 (Z.ltb_ge _ _)) by lia. rewrite bind_modify, bind_modify, bind_gets. cbn [sh wk].
    change (upd_hdr _ (upd_hdr _ s)) with s1. change (hdr s1) with h1.
    erewrite bind_ok by exact E1. cbv iota beta. erewrite bind_ok by exact E2. rewrite bind_gets. cbn [sh].
    change (hdr (upd_hdr (linked l1 f i) s1)) with h2.
    destruct (linked_same l1 f i h1) as (_ & E3 & _). fold h2 in E3. rewrite E3. change (mqh_attr h1) with (mqh_attr h).
    by destruct (mq_curmsgs (mqh_attr h) =? 0).
  - by apply linked_wf.
  - change (slots (set_cur _ h2)) with (slots h2). by eapply linked_msgs.
  - destruct (linked_same l1 f i h1) as (S2 & _ & _). etrans; [|exact S2].
    unfold same_hdr. split_and!; try done. simpl. apply dom_insert_lookup_L. by eexists.
Qed.

(** The header after the message at the head was taken off and its slot freed. *)
Definition taken (h : mymq_hdr) (f : Z) (m : slot) : mymq_hdr :=
  set_cur (mq_curmsgs (mqh_attr h) - 1)
    (set_free f (set_slot f (Slot (mqh_free h) (msg_len m) (msg_prio m) (msg_data m)) (set_head (msg_next m) h))).

Lemma taken_wf h f hl fl m : wfq h (f :: hl) fl → slots h !! f = Some m →
  wfq (taken h f m) hl (f :: fl) ∧ msgs (slots h) (f :: hl) = msg_of m :: msgs (slots (taken h f m)) hl ∧
  same_hdr h (taken h f m).
Proof.
  intros W Hm. pose proof (wq_head _ _ _ W) as (_ & Hf0 & m' & Hm' & Hl). simplify_eq.
  pose proof (wq_nodup _ _ _ W) as Hnd. simpl in Hnd. apply NoDup_cons in Hnd as Hnd'.
  destruct Hnd' as [Hf Hnd'].
  assert (f ∉ hl ∧ f ∉ fl) as [Hf1 Hf2] by set_solver.
  assert (msgs (slots (taken h f m)) hl = msgs (slots h) hl) as Hmsgs.
  { apply msgs_ext. intros o Ho. simpl. rewrite lookup_insert_ne; [done|]. by intros ->. }
  pose proof (wq_count _ _ _ W). pose proof (wq_total _ _ _ W). rewrite !zlen_cons in *.
  split; [|split].
  - split; simpl; try done.
    + by apply mseg_insert.
    + split; [done|]. split; [done|]. eexists. split; [apply lookup_insert_eq|].
      simpl. apply mseg_insert; [done|]. apply (wq_free _ _ _ W).
    + eapply NoDup_Permutation_proper; [|exact Hnd]. solve_Permutation.
    + lia.
    + rewrite zlen_cons. lia.
    + apply (wq_max _ _ _ W).
    + intros o x [[<- <-]|[_ Hx]]%lookup_insert_Some; [by apply (wq_size _ _ _ W f m)|by apply (wq_size _ _ _ W o x)].
    + intros o x Ho [[<- <-]|[_ Hx]]%lookup_insert_Some; [by apply (wq_len _ _ _ W f m); [left|]|].
      apply (wq_len _ _ _ W o); [by right|done].
    + change (aq.sorted (msgs (slots (taken h f m)) hl)). rewrite Hmsgs.
      pose proof (wq_sorted _ _ _ W) as Hs. simpl in Hs. rewrite Hm in Hs. by inversion Hs.
  - rewrite Hmsgs. simpl. by rewrite Hm.
  - unfold same_hdr. split_and!; try done. simpl. apply dom_insert_lookup_L. by eexists.
Qed.

Lemma receive_tail_spec s ks hl fl ptr priop :
  let h := hdr s in
  wfq h hl fl → mq_curmsgs (mqh_attr h) ≠ 0 → mq_msgsize (mqh_attr h) ≤ zlen ptr →
  ∃ h' hl' m, receive_tail ptr priop (Mon s ks) =
      Ok (Done (RMsg (msg_len m) (bwrite ptr 0 (msg_of m).2) (if priop then Some (msg_of m).1 else None)),
          Mon (Shared h' (infos s) (queued s))
            (if mq_curmsgs (mqh_attr h) =? mq_maxmsg (mqh_attr h) then ks ++ [Signal ()] else ks)) ∧
    (∃ f, wfq h' hl' (f :: fl)) ∧ msgs (slots h) hl = msg_of m :: msgs (slots h') hl' ∧ same_hdr h h' ∧
    msg_len m = zlen (msg_of m).2.
Proof.
  intros h W Hne Hptr. destruct hl as [|f hl]; [by rewrite <- (wq_count _ _ _ W) in Hne|].
  pose proof (wq_head _ _ _ W) as (Hh & Hf0 & m & Hm & _).
  destruct (wq_len _ _ _ W f m ltac:(set_solver) Hm) as [Hl0 Hl1].
  pose proof (wq_size _ _ _ W f m Hm) as Hsz. pose proof (wq_max _ _ _ W) as [_ Hms].
  pose proof (MSGSIZE_ge (mq_msgsize (mqh_attr h)) ltac:(lia)) as Hge.
  destruct (taken_wf h f hl fl m W Hm) as (W' & Hmsgs & Hsame).
  exists (taken h f m), hl, m. split; [|split; [|split; [|split]]]; try done; [|by exists f|].
  - unfold receive_tail, hget, sgets, hmodify, smodify. rewrite bind_gets. cbn [sh]. fold h. rewrite Hh.
    rewrite (proj2 (Z.eqb_neq _ _) Hf0). erewrite bind_ok by by apply msg_at_eq.
    rewrite bind_modify. rewrite (proj2 (Z.ltb_ge (msg_len m) 0)), (proj2 (Z.ltb_ge (zlen (msg_data m)) _)) by lia.
    cbn [orb]. rewrite (proj2 (Z.ltb_ge (zlen ptr) _)) by lia. rewrite bind_gets. cbn [sh wk].
    erewrite bind_ok by (apply set_next_eq; exists m; exact Hm).
    rewrite bind_modify, bind_gets. cbn [sh wk].
    assert (upd_hdr (set_free f) (upd_hdr (hset_next (Some f) (mqh_free (hdr (upd_hdr (set_head (msg_next m)) s))))
        (upd_hdr (set_head (msg_next m)) s)) =
      Shared (set_free f (set_slot f (Slot (mqh_free h) (msg_len m) (msg_prio m) (msg_data m)) (set_head (msg_next m) h)))
        (infos s) (queued s)) as ->.
    { unfold upd_hdr. cbn [hdr hset_next set_head slots mqh_free]. fold h. by rewrite Hm. }
    cbn [hdr mqh_attr set_free set_slot set_head mq_curmsgs mq_maxmsg].
    by destruct (mq_curmsgs (mqh_attr h) =? mq_maxmsg (mqh_attr h)).
  - simpl. unfold zlen in *. rewrite length_take. lia.
Qed.

(** ** The calls on the abstract queue *)

Definition nonblocking (i : mymq_info) : bool := has_flag (mqi_flags i) O_NONBLOCK.

Definition mqd_of (l : pc) : nat :=
  match l with
  | PSend d _ _ _ | PReceive d _ _ _ _ | PNotify d _ _ _ _ | PGetattr d _ | PSetattr d _ _ _ | PReceiveWait d _ _
  | PSendWait d _ _ | PClose d _ _ _ => d
  end.

Definition open_info (s : shared) (mqd : nat) : mymq_info := default (Info 0 0) (infos s !! mqd).
Definition valid_info (i : mymq_info) : bool := mqi_magic i =? MQI_MAGIC.

(** The prologue: the descriptor is not one, or the lock fails; else the condition [k]. *)
Definition refuse_lock (s : shared) (mqd : nat) (lockrc : Z) (k : option Z) : option Z :=
  if negb (valid_info (open_info s mqd)) then Some EBADF else if negb (lockrc =? 0) then Some lockrc else k.

(** The situations in which a call is refused, and the error it then returns. *)
Definition refused (s : shared) (maxmsg msgsize : Z) (l : pc) (q : aq.queue) : option Z :=
  let would_block (b : bool) (mqd : nat) := if b && nonblocking (open_info s mqd) then Some EAGAIN else None in
  match l with
  | PSend mqd ptr _ lockrc =>
      refuse_lock s mqd lockrc (if msgsize <? zlen ptr then Some EMSGSIZE else would_block (zlen q =? maxmsg) mqd)
  | PReceive mqd _ maxlen _ lockrc =>
      refuse_lock s mqd lockrc (if maxlen <? msgsize then Some EMSGSIZE else would_block (zlen q =? 0) mqd)
  | PNotify mqd n _ alive lockrc =>
      refuse_lock s mqd lockrc
        (if bool_decide (is_Some n) && negb (mqh_pid (hdr s) =? 0) && alive then Some EBUSY else None)
  | PGetattr mqd lockrc | PSetattr mqd _ _ lockrc => refuse_lock s mqd lockrc None
  | PClose mqd _ lockrc _ => refuse_lock s mqd lockrc None
  | PSendWait _ _ _ | PReceiveWait _ _ _ => None
  end.

(** The registration for notification after a [mymq_notify] of process [pid]. *)
Definition registration (n : option sigevent) (pid old : Z) : Z :=
  match n with Some _ => pid | None => if old =? pid then 0 else old end.

(** What a segment that is not refused does: [o] is how it ends, [q'] the queue and [s']
    the state after it. *)
Definition served (maxmsg : Z) (l : pc) (o : mqout) (s s' : shared) (q q' : aq.queue) : Prop :=
  match l with
  | PSend mqd ptr prio _ | PSendWait mqd ptr prio =>
      if zlen q =? maxmsg then o = Block () (PSendWait mqd ptr prio) ∧ q' = q
      else o = Done (RRet 0) ∧ q' = aq.insert (prio, ptr) q
  | PReceive mqd ptr _ priop _ | PReceiveWait mqd ptr priop =>
      match q with
      | [] => o = Block () (PReceiveWait mqd ptr priop) ∧ q' = q
      | (prio, data) :: rest =>
          o = Done (RMsg (zlen data) (bwrite ptr 0 data) (if priop then Some prio else None)) ∧ q' = rest
      end
  | PNotify _ n pid _ _ =>
      o = Done (RRet 0) ∧ q' = q ∧ mqh_pid (hdr s') = registration n pid (mqh_pid (hdr s))
  | PGetattr mqd _ => q' = q ∧ o = Done (RAttr (Some (Attr (mqi_flags (open_info s mqd)) maxmsg (mq_msgsize (mqh_attr (hdr s))) (zlen q))))
  | PSetattr mqd a _ _ =>
      q' = q ∧ (∃ old, o = Done (RAttr old)) ∧ nonblocking (open_info s' mqd) = has_flag (mq_flags a) O_NONBLOCK
  | PClose _ _ _ _ => True
  end.

Definition effect (maxmsg msgsize : Z) (l : pc) (o : mqout) (s s' : shared) (q q' : aq.queue) : Prop :=
  match refused s maxmsg msgsize l q with
  | Some e => o = Done (RErr e) ∧ s' = s ∧ q' = q
  | None => served maxmsg l o s s' q q'
  end.

(** An error is returned exactly in its situation. *)
Lemma effect_errs maxmsg msgsize l o s s' q q' e : (∀ mqd pid lockrc ok, l ≠ PClose mqd pid lockrc ok) →
  effect maxmsg msgsize l o s s' q q' → o = Done (RErr e) ↔ refused s maxmsg msgsize l q = Some e.
Proof.
  intros Hl. unfold effect. destruct (refused s maxmsg msgsize l q) as [e'|].
  - intros (-> & _). split; [by intros [= ->]|by intros [= ->]].
  - intros H. split; [|done]. intros ->. exfalso.
    destruct l; simpl in H; try destruct (_ =? maxmsg); try destruct q as [|[? ?] ?]; naive_solver.
Qed.

Section safety.
(** A queue of [maxmsg] messages of at most [msgsize] bytes, and the open descriptors. *)
Context (maxmsg msgsize : Z) (D : gset nat).

Record shared_rep (s : shared) (q : aq.queue) : Prop := {
  sr_rep : mq_rep (hdr s) q;
  sr_max : mq_maxmsg (mqh_attr (hdr s)) = maxmsg;
  sr_size : mq_msgsize (mqh_attr (hdr s)) = msgsize;
  sr_open : ∀ d, d ∈ D → is_Some (infos s !! d)
}.

(** The threads use open descriptors and do not close them; the buffer of a receive has
    the length that is passed for it, as its caller must see to. *)
Definition pc_ok (l : pc) : Prop :=
  match l with
  | PSend d _ _ _ | PNotify d _ _ _ _ | PGetattr d _ | PSetattr d _ _ _ => d ∈ D
  | PReceive d ptr maxlen _ _ => d ∈ D ∧ maxlen ≤ zlen ptr
  | PReceiveWait d ptr _ => d ∈ D ∧ msgsize ≤ zlen ptr
  | PSendWait d ptr _ => d ∈ D ∧ zlen ptr ≤ msgsize
  | PClose _ _ _ _ => False
  end.
Definition thread_ok (t : thread () pc mqres) : Prop :=
  match t with Ready l | Waiting _ l => pc_ok l | Finished _ => True end.

Lemma rep_length h q : mq_rep h q → zlen q = mq_curmsgs (mqh_attr h) ∧
  0 ≤ mq_curmsgs (mqh_attr h) ≤ mq_maxmsg (mqh_attr h) ∧ aq.sorted q.
Proof.
  intros (hl & fl & W & ->).
  assert (zlen (msgs (slots h) hl) = zlen hl) as ->.
  { pose proof (wq_head _ _ _ W) as Hs. assert (∀ o, o ∈ hl → is_Some (slots h !! o)) as Hd.
    { intros o Ho. destruct (mseg_lookup _ _ _ _ _ Hs Ho) as (m & ? & _). by eexists. }
    clear Hs W. induction hl as [|o hl IH]; [done|]. simpl. destruct (Hd o) as [m ->]; [set_solver|].
    rewrite !zlen_cons, IH; [done|set_solver]. }
  pose proof (wq_count _ _ _ W). pose proof (wq_total _ _ _ W). pose proof (zlen_nonneg hl).
  pose proof (zlen_nonneg fl). split; [done|]. split; [lia|]. apply (wq_sorted _ _ _ W).
Qed.

Lemma same_hdr_rep s h q q' : shared_rep s q → same_hdr (hdr s) h → mq_rep h q' →
  shared_rep (Shared h (infos s) (queued s)) q'.
Proof. intros [] (? & ? & ? & ?) ?. split; simpl; congruence || done. Qed.

(** The conclusion shared by the segments: of those that are not refused, and of all. *)
Definition serves (l : pc) (s : shared) (q : aq.queue) (r : result (mqout * mon () shared)) : Prop :=
  ∃ o s' ks q', r = Ok (o, Mon s' ks) ∧ shared_rep s' q' ∧ thread_ok (after o) ∧ served maxmsg l o s s' q q'.
Definition refines (l : pc) (s : shared) (q : aq.queue) (r : result (mqout * mon () shared)) : Prop :=
  ∃ o s' ks q', r = Ok (o, Mon s' ks) ∧ shared_rep s' q' ∧ thread_ok (after o) ∧
    effect maxmsg msgsize l o s s' q q'.

Lemma serves_refines l s q r : refused s maxmsg msgsize l q = None → serves l s q r → refines l s q r.
Proof. intros E (o & s' & ks & q' & ?). exists o, s', ks, q'. unfold effect. by rewrite E. Qed.

Lemma refines_err l s ks q e : shared_rep s q → refused s maxmsg msgsize l q = Some e →
  refines l s q (err e (Mon s ks)).
Proof. intros Hr He. exists (Done (RErr e)), s, ks, q. unfold effect. by rewrite He. Qed.

Lemma send_tail_ok s ks q ptr prio l : shared_rep s q → zlen q < maxmsg → zlen ptr ≤ msgsize →
  (match l with PSend _ p r _ | PSendWait _ p r => p = ptr ∧ r = prio | _ => False end) →
  serves l s q (send_tail ptr prio (Mon s ks)).
Proof.
  intros [Hr Hm Hs Ho] Hlt Hlen Hl. pose proof Hr as (hl & fl & W & Hq).
  destruct (rep_length _ _ Hr) as (Hc & _).
  destruct (send_tail_spec s ks hl fl ptr prio W ltac:(lia) ltac:(lia)) as (h' & hl' & fl' & E & W' & Hmsgs & Hsame).
  eexists _, _, _, (aq.insert (prio, ptr) q). split; [exact E|]. split; [|split; [done|]].
  - apply same_hdr_rep with (q := q); [by split|done|]. exists hl', fl'. split; [done|]. by rewrite Hmsgs, Hq.
  - destruct l; try done; destruct Hl as [-> ->]; unfold served; by rewrite (proj2 (Z.eqb_neq _ _)) by lia.
Qed.

Lemma send_wait_ok s ks q mqd ptr prio l : shared_rep s q → pc_ok (PSendWait mqd ptr prio) →
  (match l with PSend d p r _ | PSendWait d p r => d = mqd ∧ p = ptr ∧ r = prio | _ => False end) →
  serves l s q (send_wait mqd ptr prio (Mon s ks)).
Proof.
  intros Hr Hpc Hl. unfold send_wait, hget, sgets. rewrite bind_gets. cbn [sh].
  destruct (rep_length _ _ (sr_rep _ _ Hr)) as (Hc & ? & _). pose proof (sr_max _ _ Hr) as Hm.
  destruct (Z.leb_spec (mq_maxmsg (mqh_attr (hdr s))) (mq_curmsgs (mqh_attr (hdr s)))).
  - exists (Block () (PSendWait mqd ptr prio)), s, ks, q. split; [done|]. split; [done|]. split; [done|].
    destruct l; try done; destruct Hl as (-> & -> & ->); unfold served; by rewrite (proj2 (Z.eqb_eq _ _)) by lia.
  - apply send_tail_ok; [done|lia|apply Hpc|]. by destruct l; try done; destruct Hl as (-> & -> & ->).
Qed.

Lemma receive_tail_ok s ks q ptr priop l : shared_rep s q → q ≠ [] → msgsize ≤ zlen ptr →
  (match l with PReceive _ b _ p _ | PReceiveWait _ b p => b = ptr ∧ p = priop | _ => False end) →
  serves l s q (receive_tail ptr priop (Mon s ks)).
Proof.
  intros [Hr Hm Hs Ho] Hne Hptr Hl. pose proof Hr as (hl & fl & W & Hq).
  destruct (rep_length _ _ Hr) as (Hc & _).
  assert (mq_curmsgs (mqh_attr (hdr s)) ≠ 0) as Hc0.
  { rewrite <- Hc. destruct q; [done|]. rewrite zlen_cons. pose proof (zlen_nonneg q). lia. }
  destruct (receive_tail_spec s ks hl fl ptr priop W Hc0 ltac:(lia)) as (h' & hl' & m & E & (f & W') & Hmsgs & Hsame & Hml).
  rewrite Hml in E. eexists _, _, _, (msgs (slots h') hl'). split; [exact E|]. split; [|split; [done|]].
  - apply same_hdr_rep with (q := q); [by split|done|]. by exists hl', (f :: fl).
  - unfold served. rewrite Hq, Hmsgs. destruct (msg_of m). by destruct l; try done; destruct Hl as [-> ->].
Qed.

Lemma shared_rep_upd s q f : shared_rep s q → (∀ h, slots (f h) = slots h ∧ mqh_head (f h) = mqh_head h ∧
    mqh_free (f h) = mqh_free h ∧ mqh_attr (f h) = mqh_attr h) → shared_rep (upd_hdr f s) q.
Proof.
  intros [Hr Hm Hs Ho] Hf. destruct (Hf (hdr s)) as (E1 & E2 & E3 & E4).
  split; simpl; rewrite ?E4; try done. destruct Hr as (hl & fl & [] & ->). exists hl, fl.
  rewrite E1. split; [|done]. split; rewrite ?E1, ?E2, ?E3, ?E4; done.
Qed.

Lemma receive_wait_ok s ks q mqd ptr priop l : shared_rep s q → pc_ok (PReceiveWait mqd ptr priop) →
  (match l with PReceive d b _ p _ | PReceiveWait d b p => d = mqd ∧ b = ptr ∧ p = priop | _ => False end) →
  serves l s q (receive_wait mqd ptr priop (Mon s ks)).
Proof.
  intros Hr [Hd Hptr] Hl. unfold receive_wait, hget, sgets, hmodify, smodify. rewrite bind_gets. cbn [sh].
  destruct (rep_length _ _ (sr_rep _ _ Hr)) as (Hc & ? & _).
  destruct (Z.eqb_spec (mq_curmsgs (mqh_attr (hdr s))) 0) as [Hz|Hz].
  - exists (Block () (PReceiveWait mqd ptr priop)), s, ks, q. split; [done|]. split; [done|]. split; [done|].
    assert (q = []) as -> by (apply length_zero_iff_nil; unfold zlen in *; lia).
    by destruct l; try done; destruct Hl as (-> & -> & ->).
  - rewrite bind_modify. cbn [sh wk].
    destruct (receive_tail_ok (upd_hdr (set_nwait (mqh_nwait (hdr s) - 1)) s) ks q ptr priop l) as (o & s' & ks' & q' & ?);
      [by apply shared_rep_upd|intros ->; by rewrite <- Hc in Hz|done|by destruct l; try done; destruct Hl as (-> & -> & ->)|].
    exists o, s', ks', q'. by destruct l.
Qed.

(** The prologue either refuses the call or runs the rest with the open descriptor. *)
Lemma with_lock_ok l s ks q lockrc c (k : mymq_info → mqM mqout) : shared_rep s q → mqd_of l ∈ D →
  refused s maxmsg msgsize l q = refuse_lock s (mqd_of l) lockrc c →
  (refused s maxmsg msgsize l q = c → refines l s q (k (open_info s (mqd_of l)) (Mon s ks))) →
  refines l s q (with_lock (mqd_of l) lockrc k (Mon s ks)).
Proof.
  intros Hr Hd He Hk. destruct (sr_open _ _ Hr _ Hd) as [i Hi]. unfold with_lock, info_of, sgets.
  rewrite bind_assoc, bind_gets. cbn [sh]. rewrite Hi, bind_ret.
  assert (open_info s (mqd_of l) = i) as Ei by (unfold open_info; by rewrite Hi).
  rewrite Ei in Hk. revert He. unfold refuse_lock, valid_info. rewrite Ei. intros He.
  destruct (negb (mqi_magic i =? MQI_MAGIC)); [by apply refines_err|].
  destruct (negb (lockrc =? 0)); [by apply refines_err|]. by apply Hk.
Qed.

Lemma msgsize_wrap s q : shared_rep s q → wrap_u 64 (mq_msgsize (mqh_attr (hdr s))) = msgsize.
Proof.
  intros [(hl & fl & W & _) _ Hs _]. pose proof (wq_max _ _ _ W) as [_ ?]. rewrite Hs in *.
  apply wrap_u_id. lia.
Qed.

Lemma notify_send_ok s ks q : shared_rep s q →
  ∃ s', notify_send (Mon s ks) = Ok ((), Mon s' ks) ∧ shared_rep s' q ∧ infos s' = infos s.
Proof.
  intros Hr. unfold notify_send, hget, sgets, hmodify, smodify. rewrite bind_gets. cbn [sh].
  destruct (negb (mqh_pid (hdr s) =? 0) && (mqh_nwait (hdr s) =? 0)); [|by exists s].
  destruct (_ =? SIGEV_SIGNAL); cbn [when]; rewrite ?bind_modify, ?bind_ret; (eexists; split; [reflexivity|]);
    (split; [|done]).
  - destruct (shared_rep_upd s q (set_pid 0) Hr ltac:(done)) as [H1 H2 H3 H4]. by split.
  - by apply (shared_rep_upd s q (set_pid 0)).
Qed.

Lemma mymq_send_ok s q mqd ptr prio lockrc : shared_rep s q → mqd ∈ D →
  refines (PSend mqd ptr prio lockrc) s q (mymq_send mqd ptr prio lockrc (Mon s [])).
Proof.
  intros Hr Hd. eapply (with_lock_ok (PSend mqd ptr prio lockrc)); [done|done|reflexivity|].
  intros Hc0. simpl mqd_of. destruct (rep_length _ _ (sr_rep _ _ Hr)) as (Hc & ? & _).
  pose proof (sr_max _ _ Hr) as Hm.
  unfold hget, sgets. rewrite bind_gets. cbn [sh]. rewrite (msgsize_wrap s q Hr).
  destruct (Z.ltb_spec msgsize (zlen ptr)); [by apply refines_err|].
  destruct (Z.eqb_spec (mq_curmsgs (mqh_attr (hdr s))) 0) as [Hz|Hz].
  - pose proof (sr_rep _ _ Hr) as (hl & fl & W & _). pose proof (wq_max _ _ _ W).
    rewrite (proj2 (Z.eqb_neq _ _)) in Hc0 by lia. apply serves_refines; [exact Hc0|].
    destruct (notify_send_ok s [] q Hr) as (s' & E & Hr' & _). erewrite bind_ok by exact E.
    destruct (send_tail_ok s' [] q ptr prio (PSend mqd ptr prio lockrc) Hr' ltac:(lia) ltac:(lia) ltac:(done)) as (o & s2 & ks & q' & ?).
    by exists o, s2, ks, q'.
  - destruct (Z.leb_spec (mq_maxmsg (mqh_attr (hdr s))) (mq_curmsgs (mqh_attr (hdr s)))).
    + rewrite (proj2 (Z.eqb_eq (zlen q) _)) in Hc0 by lia. fold (nonblocking (open_info s mqd)).
      destruct (nonblocking (open_info s mqd)); [by apply refines_err|].
      apply serves_refines; [exact Hc0|]. by apply send_wait_ok.
    + rewrite (proj2 (Z.eqb_neq _ _)) in Hc0 by lia. apply serves_refines; [exact Hc0|].
      by apply send_tail_ok; [done|lia|done|done].
Qed.

Lemma mymq_receive_ok s q mqd ptr maxlen priop lockrc : shared_rep s q → mqd ∈ D → maxlen ≤ zlen ptr →
  refines (PReceive mqd ptr maxlen priop lockrc) s q (mymq_receive mqd ptr maxlen priop lockrc (Mon s [])).
Proof.
  intros Hr Hd Hptr. eapply (with_lock_ok (PReceive mqd ptr maxlen priop lockrc)); [done|done|reflexivity|].
  intros Hc0. simpl mqd_of. destruct (rep_length _ _ (sr_rep _ _ Hr)) as (Hc & ? & _).
  unfold hget, sgets, hmodify, smodify. rewrite bind_gets. cbn [sh]. rewrite (msgsize_wrap s q Hr).
  destruct (Z.ltb_spec maxlen msgsize); [by apply refines_err|]. rewrite Hc in Hc0.
  destruct (Z.eqb_spec (mq_curmsgs (mqh_attr (hdr s))) 0) as [Hz|Hz].
  - fold (nonblocking (open_info s mqd)). destruct (nonblocking (open_info s mqd)); [by apply refines_err|].
    apply serves_refines; [exact Hc0|]. rewrite bind_modify. cbn [sh wk].
    destruct (receive_wait_ok (upd_hdr (set_nwait (mqh_nwait (hdr s) + 1)) s) [] q mqd ptr priop (PReceive mqd ptr maxlen priop lockrc))
      as (o & s' & ks & q' & ?); [by apply shared_rep_upd|by split; [|lia]|done|]. by exists o, s', ks, q'.
  - apply serves_refines; [exact Hc0|]. apply receive_tail_ok; [done| |lia|done]. intros ->. by rewrite <- Hc in Hz.
Qed.

Lemma mymq_notify_ok s q mqd n pid alive lockrc : shared_rep s q → mqd ∈ D →
  refines (PNotify mqd n pid alive lockrc) s q (mymq_notify mqd n pid alive lockrc (Mon s [])).
Proof.
  intros Hr Hd. eapply (with_lock_ok (PNotify mqd n pid alive lockrc)); [done|done|reflexivity|].
  intros Hc0. unfold hget, sgets, hmodify, smodify. rewrite bind_gets. cbn [sh]. 
  destruct n as [ev|]; cbn [bool_decide] in Hc0.
  - replace (bool_decide (is_Some (Some ev))) with true in Hc0 by (symmetry; by apply bool_decide_eq_true_2). cbn [andb] in Hc0.
    destruct (_ && alive); [by apply refines_err|]. apply serves_refines; [exact Hc0|].
    rewrite !bind_modify. eexists _, _, _, q. split; [reflexivity|]. split; [|done].
    by repeat apply shared_rep_upd.
  - apply serves_refines; [exact Hc0|]. unfold serves, served, registration.
    destruct (mqh_pid (hdr s) =? pid); [|by exists (Done (RRet 0)), s, [], q].
    eexists _, _, _, q. split; [reflexivity|]. split; [|done]. by apply shared_rep_upd.
Qed.

Lemma has_flag_set fl : has_flag (Z.lor fl O_NONBLOCK) O_NONBLOCK = true.
Proof.
  unfold has_flag. rewrite Z.land_lor_distr_l, (Z.land_diag O_NONBLOCK). apply negb_true_iff, Z.eqb_neq.
  intros [_ H]%Z.lor_eq_0_iff. done.
Qed.
Lemma has_flag_clear fl : has_flag (Z.land fl (Z.lnot O_NONBLOCK)) O_NONBLOCK = false.
Proof. unfold has_flag. by rewrite <- Z.land_assoc, (Z.land_comm (Z.lnot _)), Z.land_lnot_diag, Z.land_0_r. Qed.

Lemma mymq_setattr_ok s q mqd a o lockrc : shared_rep s q → mqd ∈ D →
  refines (PSetattr mqd a o lockrc) s q (mymq_setattr mqd a o lockrc (Mon s [])).
Proof.
  intros Hr Hd. eapply (with_lock_ok (PSetattr mqd a o lockrc)); [done|done|reflexivity|].
  intros Hc0. apply serves_refines; [exact Hc0|].
  unfold hget, sgets, smodify. rewrite bind_gets. cbn [sh]. rewrite bind_modify. cbn [sh wk].
  eexists _, _, _, q. split; [reflexivity|]. split; [|split; [done|]].
  - destruct Hr as [H1 H2 H3 H4]. split; simpl; try done.
    intros d Hd'. destruct (decide (d = mqd)) as [->|]; [rewrite lookup_insert_eq; by eexists|].
    rewrite lookup_insert_ne by done. by apply H4.
  - split; [done|]. split; [by eexists|]. unfold open_info. simpl. rewrite lookup_insert_eq. simpl. unfold nonblocking. simpl.
    destruct (has_flag (mq_flags a) O_NONBLOCK); [apply has_flag_set|apply has_flag_clear].
Qed.

Lemma mymq_getattr_ok s q mqd lockrc : shared_rep s q → mqd ∈ D →
  refines (PGetattr mqd lockrc) s q (mymq_getattr mqd lockrc (Mon s [])).
Proof.
  intros Hr Hd. eapply (with_lock_ok (PGetattr mqd lockrc)); [done|done|reflexivity|].
  intros Hc0. apply serves_refines; [exact Hc0|]. unfold hget, sgets. rewrite bind_gets.
  eexists _, _, _, q. split; [reflexivity|]. split; [done|]. split; [done|]. split; [done|].
  destruct (rep_length _ _ (sr_rep _ _ Hr)) as (Hc & _). unfold report. cbn [sh]. by rewrite Hc, (sr_max _ _ Hr).
Qed.

(** Every segment of every thread refines its effect on the abstract queue. *)
Lemma seg_ok l s q : shared_rep s q → pc_ok l → refines l s q (seg l (Mon s [])).
Proof.
  intros Hr Hpc. destruct l; simpl seg.
  - by apply mymq_send_ok.
  - apply serves_refines; [done|]. by apply send_wait_ok.
  - by apply mymq_receive_ok; destruct Hpc.
  - apply serves_refines; [done|]. by apply receive_wait_ok.
  - by apply mymq_notify_ok.
  - by apply mymq_getattr_ok.
  - by apply mymq_setattr_ok.
  - done.
Qed.
End safety.
