(* ===== verification/MqOpen.v ===== *)
(** [mymq_open] of [unpv22e/my_pxmsg_mmap/mq_open.c]: the creation and initialisation of a
    queue file, the wait for another process to initialise it, and the clean-up after
    errors; with [mymq_unlink]. *)
From S2P Require Import Prelude CLib Monitor Mq MqSpec.

Definition MAX_TRIES : nat := 10.

Definition defattr : mymq_attr := Attr 0 128 1024 0.

(** A queue file: its user-execute bit, which is on while the queue is not yet
    initialised, and the queue. *)
Record mqfile := MqFile { f_xusr : bool; f_map : option mymq_hdr }.
Abbreviation ftable := (gmap (list Z) mqfile).

(** How the system calls of one [mymq_open] come out ([None] or 0 for success), and what
    other processes do to the directory just before its [n]-th call that looks there;
    [e_exist n] is an error of that call, [open] or [stat], on a file that is there. *)
Record sysenv := SysEnv {
  e_open : option Z; e_lseek : option Z; e_write : option Z; e_mmap : option Z; e_malloc : option Z;
  e_mattr : Z; e_mutex : Z; e_cattr : Z; e_cond : Z; e_fchmod : option Z;
  e_exist : nat → option Z; e_other : nat → ftable → ftable
}.

(** The directory and the number of look-ups so far. *)
Record ostate := OState { o_tab : ftable; o_tick : nat }.

(** A descriptor with its per-open flags on the file, or [(mymqd_t) -1] with [errno]. *)
Inductive ores := Opened (pathname : list Z) (i : mymq_info) | Failed (e : Z).

(** ** The initialisation of the mapping *)

Definition INT_MAX : Z := 2 ^ 31 - 1.

(** The size of a slot, as the sum of a size_t and a long. *)
Definition slot_size (msgsize : Z) : Z := wrap_u 64 (SIZEOF_MYMSG_HDR + MSGSIZE msgsize).

(** The size of the file, computed in size_t and stored in a long. *)
Definition filesize (attr : mymq_attr) : Z :=
  wrap_s 64 (SIZEOF_MYMQ_HDR + wrap_u 64 (mq_maxmsg attr * slot_size (mq_msgsize attr))).

(** The slots that lie in a fresh mapping of that size, zero bytes; a slot that is not
    wholly inside it counts as outside. *)
Fixpoint raw_slots (n : nat) (off msgsize : Z) : gmap Z slot :=
  match n with
  | O => ∅
  | S n' => <[off := Slot 0 0 0 (replicate (Z.to_nat (MSGSIZE msgsize)) 0)]>
              (raw_slots n' (off + slot_size msgsize) msgsize)
  end.
Definition slots_in (attr : mymq_attr) : nat :=
  Z.to_nat ((filesize attr - SIZEOF_MYMQ_HDR) / slot_size (mq_msgsize attr)).

Definition set_msg_next (off v : Z) : M (gmap Z slot) () :=
  mem ← get;
  match mem !! off with
  | Some m => modify (λ mem, <[off := Slot v (msg_len m) (msg_prio m) (msg_data m)]> mem)
  | None => fail (UB "message offset outside the mapping")
  end.

(** One round of the [for] loop that links the free list: [i] is an int, the index a long. *)
Definition link_body (maxmsg size : Z) (x : Z * Z) : M (gmap Z slot) (Z * Z + Z) :=
  let '(i, index) := x in
  if i <? maxmsg - 1 then
    let index' := wrap_s 64 (index + size) in
    _ ← set_msg_next index index';
    if i =? INT_MAX then fail (UB "overflow of the loop counter") else mret (inl (i + 1, index'))
  else mret (inr index).

(** A round needs a slot of its own in the mapping, which bounds the rounds. *)
Definition link_free (attr : mymq_attr) : M (gmap Z slot) () :=
  index ← iter (S (slots_in attr)) (link_body (mq_maxmsg attr) (slot_size (mq_msgsize attr))) (0, SIZEOF_MYMQ_HDR);
  set_msg_next index 0.

Definition init_queue (attr : mymq_attr) : result mymq_hdr :=
  if filesize attr <? SIZEOF_MYMQ_HDR then Fault (UB "header outside the mapping") else
  match link_free attr (raw_slots (slots_in attr) SIZEOF_MYMQ_HDR (mq_msgsize attr)) with
  | Fault f => Fault f
  | Ok (_, mem) =>
      Ok (MqHdr (Attr 0 (mq_maxmsg attr) (mq_msgsize attr) 0) 0 SIZEOF_MYMQ_HDR 0 0 (SigEvent 0 0 0) mem)
  end.

(** ** The call *)

Section open.
Context (env : sysenv) (pathname : list Z) (oflag0 : Z) (attr : option mymq_attr).

Definition nonblock : Z := Z.land oflag0 O_NONBLOCK.
Definition oflag : Z := Z.land oflag0 (Z.lnot O_NONBLOCK).

(** A system call that looks at the directory: other processes may run first. *)
Definition look : M ostate ftable := λ s,
  let t := e_other env (o_tick s) (o_tab s) in Ok (t, OState t (S (o_tick s))).
(** [open] or [stat] of the path: the file or the error. *)
Definition existing : M ostate (Z + mqfile) :=
  n ← gets o_tick;
  t ← look;
  mret (match t !! pathname, e_exist env n with
        | None, _ => inl ENOENT | Some _, Some e => inl e | Some f, None => inr f
        end).
Definition set_entry (f : mqfile) : M ostate () :=
  modify (λ s, OState (<[pathname := f]> (o_tab s)) (o_tick s)).

(** The label [err] after a creation: the file is unlinked again. *)
Definition cleanup (e : Z) : M ostate ores :=
  _ ← modify (λ s, OState (delete pathname (o_tab s)) (o_tick s)); mret (Failed e).
Definition check (e : option Z) (k : M ostate ores) : M ostate ores :=
  match e with Some e => cleanup e | None => k end.
Definition pcheck (rc : Z) (k : M ostate ores) : M ostate ores :=
  if negb (rc =? 0) then cleanup rc else k.

(** [lseek] to the last byte of the file: a negative offset is refused. *)
Definition lseek_end (a : mymq_attr) : option Z :=
  if filesize a - 1 <? 0 then Some EINVAL else e_lseek env.

(** The process that created the file initializes it. *)
Definition create : M ostate ores :=
  _ ← set_entry (MqFile true None);
  let a := match attr with None => defattr | Some a => a end in
  if match attr with
     | None => false
     | Some a => (mq_maxmsg a <=? 0) || (mq_msgsize a <=? 0)
     end then cleanup EINVAL else
  check (lseek_end a) (check (e_write env) (check (e_mmap env) (check (e_malloc env) (
  match init_queue a with
  | Fault f => fail f
  | Ok h =>
      _ ← set_entry (MqFile true (Some h));
      pcheck (e_mattr env) (pcheck (e_mutex env) (pcheck (e_cattr env) (pcheck (e_cond env) (
      check (e_fchmod env) (
      _ ← set_entry (MqFile false (Some h));
      mret (Opened pathname (Info MQI_MAGIC nonblock)))))))
  end)))).

(** One round of the wait for the initialisation: [None] for [goto again], else the outcome
    so far ([errno] or success). *)
Fixpoint wait_init (tries : nat) : M ostate (option (option Z)) :=
  match tries with
  | O => mret (Some (Some ETIMEDOUT))
  | S n =>
      r ← existing;
      match r with
      | inl e => if (e =? ENOENT) && has_flag oflag O_CREAT then mret None else mret (Some (Some e))
      | inr f => if f_xusr f then wait_init n else mret (Some None)
      end
  end.

(** The label [exists]; [inl] is [goto again]. *)
Definition open_existing : M ostate (() + ores) :=
  r ← existing;
  match r with
  | inl e => if (e =? ENOENT) && has_flag oflag O_CREAT then mret (inl ()) else mret (inr (Failed e))
  | inr _ =>
      r ← wait_init MAX_TRIES;
      match r with
      | None => mret (inl ())
      | Some (Some e) => mret (inr (Failed e))
      | Some None =>
          match e_mmap env, e_malloc env with
          | Some e, _ | None, Some e => mret (inr (Failed e))
          | None, None => mret (inr (Opened pathname (Info MQI_MAGIC nonblock)))
          end
      end
  end.

(** From the label [again]: [open] with [O_CREAT] and [O_EXCL]. *)
Definition again (_ : ()) : M ostate (() + ores) :=
  if has_flag oflag O_CREAT then
    t ← look;
    match (match e_open env, t !! pathname with Some e, _ => Some e | None, Some _ => Some EEXIST | None, None => None end) with
    | Some e => if (e =? EEXIST) && negb (has_flag oflag O_EXCL) then open_existing else mret (inr (Failed e))
    | None => r ← create; mret (inr r)
    end
  else open_existing.

(** [fuel] bounds the rounds; each further round needs another process that unlinks the
    file at the wrong moment. *)
Definition mymq_open (fuel : nat) : M ostate ores := iter fuel again ().
End open.

Definition mymq_unlink (pathname : list Z) (tab : ftable) : option Z * ftable :=
  match tab !! pathname with
  | Some _ => (None, delete pathname tab)
  | None => (Some ENOENT, tab)
  end.

(** ** The free list of a fresh queue *)

Fixpoint offs (n : nat) (off size : Z) : list Z :=
  match n with O => [] | S n' => off :: offs n' (off + size) size end.

Lemma offs_ge n off size o : 0 < size → o ∈ offs n off size → off ≤ o.
Proof.
  intros Hs. revert off. induction n as [|n IH]; intros off; simpl; [by intros ?%not_elem_of_nil|].
  intros [->|Ho]%elem_of_cons; [lia|]. apply IH in Ho. lia.
Qed.

Lemma offs_lt n off size o : 0 < size → o ∈ offs n off size → o < off + size * Z.of_nat n.
Proof.
  intros Hs. revert off. induction n as [|n IH]; intros off; simpl offs; [by intros ?%not_elem_of_nil|].
  intros [->|Ho]%elem_of_cons; [|apply IH in Ho]; nia.
Qed.

Lemma offs_NoDup n off size : 0 < size → NoDup (offs n off size).
Proof.
  intros Hs. revert off. induction n as [|n IH]; intros off; simpl; constructor; [|done].
  intros H. apply offs_ge in H; lia.
Qed.

Lemma offs_length n off size : length (offs n off size) = n.
Proof. revert off. induction n; intros; simpl; auto. Qed.

Lemma offs_snoc n off size : offs (S n) off size = offs n off size ++ [off + size * Z.of_nat n].
Proof.
  revert off. induction n as [|n IH]; intros off; [simpl; f_equal; lia|].
  change (offs (S (S n)) off size) with (off :: offs (S n) (off + size) size). rewrite IH. simpl.
  do 3 f_equal. lia.
Qed.

Lemma raw_slots_lookup n off msgsize : (∀ o, o ∈ offs n off (slot_size msgsize) → is_Some (raw_slots n off msgsize !! o)) ∧
  (∀ o m, raw_slots n off msgsize !! o = Some m → msg_data m = replicate (Z.to_nat (MSGSIZE msgsize)) 0).
Proof.
  revert off. induction n as [|n IH]; intros off; simpl.
  - split; [by intros o ?%not_elem_of_nil|intros o m]. by rewrite lookup_empty.
  - destruct (IH (off + slot_size msgsize)) as [IH1 IH2]. split.
    + intros o [->|Ho]%elem_of_cons; apply lookup_insert_is_Some'; [by left|right; auto].
    + intros o m [[<- <-]|[_ Ho]]%lookup_insert_Some; [done|by eapply IH2].
Qed.

(** The data and the domain of the slots are kept. *)
Definition same_data (mem mem' : gmap Z slot) : Prop :=
  ∀ o, msg_data <$> mem' !! o = msg_data <$> mem !! o.

Lemma set_msg_next_ok off v mem : is_Some (mem !! off) →
  ∃ mem', set_msg_next off v mem = Ok ((), mem') ∧ same_data mem mem' ∧
    (∀ o, o ≠ off → mem' !! o = mem !! o) ∧ msg_next <$> mem' !! off = Some v.
Proof.
  intros [m Hm]. unfold set_msg_next. rewrite (bind_ok get _ mem mem mem eq_refl), Hm. eexists. split; [done|]. split; [|split].
  - intros o. destruct (decide (o = off)) as [->|]; [by rewrite lookup_insert_eq, Hm|by rewrite lookup_insert_ne].
  - intros o Ho. by rewrite lookup_insert_ne.
  - by rewrite lookup_insert_eq.
Qed.

(** The loop from its [i]-th round, when [n] slots are left and nothing overflows. *)
Lemma link_free_ok maxmsg size n : 0 < size → maxmsg - 1 ≤ INT_MAX → ∀ i index mem fuel, 0 < index →
  0 ≤ i → i + Z.of_nat n = maxmsg - 1 → index + size * Z.of_nat n < 2 ^ 63 → (n < fuel)%nat →
  (∀ o, o ∈ offs n index size → is_Some (mem !! o)) →
  ∃ mem', iter fuel (link_body maxmsg size) (i, index) mem = Ok (index + size * Z.of_nat n, mem') ∧
    mseg mem' index (offs n index size) (index + size * Z.of_nat n) ∧ same_data mem mem' ∧
    (∀ o, o ∉ offs n index size → mem' !! o = mem !! o).
Proof.
  intros Hs Hmax. induction n as [|n IH]; intros i index mem fuel Hi H0 Hn Hov Hf Hd; (destruct fuel as [|fuel]; [lia|]);
    cbn [offs iter].
  - exists mem. rewrite Z.mul_0_r, Z.add_0_r. unfold link_body. rewrite (proj2 (Z.ltb_ge _ _)) by lia. by split_and!.
  - destruct (set_msg_next_ok index (index + size) mem) as (mem1 & E1 & D1 & K1 & N1).
    { apply Hd. simpl. left. }
    destruct (IH (i + 1) (index + size) mem1 fuel) as (mem2 & E2 & S2 & D2 & K2); [lia..| |].
    { intros o Ho. pose proof (offs_ge _ _ _ _ Hs Ho). rewrite K1 by lia. apply Hd. simpl. by right. }
    assert (index ∉ offs n (index + size) size) as Hni.
    { intros Ho. apply offs_ge in Ho; lia. }
    replace (index + size * Z.of_nat (S n)) with (index + size + size * Z.of_nat n) by lia.
    exists mem2. split; [|split; [|split]].
    + assert (link_body maxmsg size (i, index) mem = Ok (inl (i + 1, index + size), mem1)) as Eb; [|by erewrite bind_ok by exact Eb].
      unfold link_body. rewrite (proj2 (Z.ltb_lt _ _)) by lia.
      assert (wrap_s 64 (index + size) = index + size) as -> by (apply wrap_s_id; [lia|]; change (64 - 1) with 63; nia).
      erewrite bind_ok by exact E1. by rewrite (proj2 (Z.eqb_neq _ _)) by lia.
    + split; [done|]. split; [lia|]. rewrite <- (K2 index Hni) in N1.
      destruct (mem2 !! index) as [m|]; [|done]. injection N1 as N1. exists m. by rewrite N1.
    + intros o. by rewrite D2, D1.
    + intros o Ho. rewrite K2, K1; [done| |]; set_solver.
Qed.

(** The sizes fit: the file's in a long and the loop counter in an int. *)
Definition fits (a : mymq_attr) : Prop :=
  mq_maxmsg a - 1 ≤ INT_MAX ∧ mq_msgsize a < 2 ^ 63 ∧
  SIZEOF_MYMQ_HDR + mq_maxmsg a * (SIZEOF_MYMSG_HDR + MSGSIZE (mq_msgsize a)) < 2 ^ 63.

Lemma fits_sizes a : 0 < mq_maxmsg a → 0 < mq_msgsize a → fits a →
  slot_size (mq_msgsize a) = SIZEOF_MYMSG_HDR + MSGSIZE (mq_msgsize a) ∧ 0 < slot_size (mq_msgsize a) ∧
  filesize a = SIZEOF_MYMQ_HDR + mq_maxmsg a * slot_size (mq_msgsize a) ∧ SIZEOF_MYMQ_HDR ≤ filesize a < 2 ^ 63 ∧
  slots_in a = Z.to_nat (mq_maxmsg a).
Proof.
  intros Hm Hs (_ & Hlt & Hf). pose proof (MSGSIZE_ge (mq_msgsize a) ltac:(lia)) as Hge.
  unfold slots_in, filesize, slot_size, SIZEOF_MYMSG_HDR, SIZEOF_MYMQ_HDR in *. set (z := 24 + MSGSIZE (mq_msgsize a)) in *.
  assert (0 < z) by lia. assert (z < 2 ^ 63) by nia. rewrite (wrap_u_id 64 z) by lia.
  assert (0 < mq_maxmsg a * z) by nia.
  rewrite (wrap_u_id 64 (mq_maxmsg a * z)), wrap_s_id by lia. repeat split; try lia.
  rewrite Z.add_simpl_l. by rewrite Z.div_mul by lia.
Qed.

Lemma init_queue_ok a : 0 < mq_maxmsg a → 0 < mq_msgsize a → fits a →
  ∃ h, init_queue a = Ok h ∧ mq_rep h [] ∧
    mqh_attr h = Attr 0 (mq_maxmsg a) (mq_msgsize a) 0 ∧ mqh_nwait h = 0 ∧ mqh_pid h = 0.
Proof.
  intros Hm Hsz0 Hfit. destruct (fits_sizes a Hm Hsz0 Hfit) as (_ & Hs & Hfs & Hfb & Hin). destruct Hfit as (Hint & Hlt & _).
  set (sz := slot_size (mq_msgsize a)) in *.
  pose proof (MSGSIZE_ge (mq_msgsize a) ltac:(lia)) as Hge.
  set (n := Z.to_nat (mq_maxmsg a - 1)).
  assert (Z.to_nat (mq_maxmsg a) = S n) as Hn by lia. rewrite Hn in Hin.
  destruct (raw_slots_lookup (S n) SIZEOF_MYMQ_HDR (mq_msgsize a)) as [R1 R2]. fold sz in R1.
  assert (0 < SIZEOF_MYMQ_HDR) as Hh by (unfold SIZEOF_MYMQ_HDR; lia).
  destruct (link_free_ok (mq_maxmsg a) sz n Hs Hint 0 SIZEOF_MYMQ_HDR (raw_slots (S n) SIZEOF_MYMQ_HDR (mq_msgsize a)) (S (S n)) Hh)
    as (mem1 & E1 & S1 & D1 & K1); [lia|lia|nia|lia| |].
  { intros o Ho. apply R1. rewrite offs_snoc. set_solver. }
  set (last := SIZEOF_MYMQ_HDR + sz * Z.of_nat n) in *.
  assert (last ∉ offs n SIZEOF_MYMQ_HDR sz) as Hl.
  { intros Ho. apply offs_lt in Ho; lia. }
  destruct (set_msg_next_ok last 0 mem1) as (mem2 & E2 & D2 & K2 & N2).
  { rewrite K1 by done. apply R1. rewrite offs_snoc. set_solver. }
  assert (same_data (raw_slots (S n) SIZEOF_MYMQ_HDR (mq_msgsize a)) mem2) as D by (intros o; by rewrite D2, D1).
  eexists. split.
  { unfold init_queue, link_free. fold sz. rewrite Hin, (proj2 (Z.ltb_ge _ _)) by lia.
    erewrite bind_ok by exact E1. by rewrite E2. }
  split; [|done].
  exists [], (offs (S n) SIZEOF_MYMQ_HDR sz). split; [|done]. split; cbn [slots mqh_head mqh_free mqh_attr mq_curmsgs mq_maxmsg mq_msgsize app msgs]; try done; try lia.
  - rewrite offs_snoc. apply mseg_app. exists last. split.
    + eapply mseg_ext; [|exact S1]. intros o Ho. rewrite K2; [done|]. by intros ->.
    + split; [done|]. split; [lia|]. destruct (mem2 !! last) as [m|] eqn:Em; [|done].
      injection N2 as N2. exists m. split; [exact Em|exact N2].
  - apply (offs_NoDup (S n)). done.
  - unfold zlen. rewrite offs_length. change (length (@nil Z)) with O. lia.
  - intros o m Ho. specialize (D o). rewrite Ho in D.
    destruct (raw_slots _ _ _ !! o) as [m'|] eqn:Em; [|done]. injection D as ->.
    apply R2 in Em as ->. rewrite zlen_replicate. lia.
  - by intros o m ?%not_elem_of_nil.
  - constructor.
Qed.
