(* ===== verification/MqApi.v ===== *)
(** What the callers of the message queues rely on: threads of any number that use a queue
    keep it a bounded priority queue and never fault, the opening protocol, and the one
    thing the code does not deliver, a wake-up for every waiting receiver. *)
From S2P Require Import Prelude CLib Monitor Mq MqSpec MqOpen.

(** ** A concrete queue *)

Definition demo_attr : mymq_attr := Attr 0 3 8 0.
Definition demo_hdr : mymq_hdr :=
  match init_queue demo_attr with Ok h => h | Fault _ => MqHdr demo_attr 0 0 0 0 (SigEvent 0 0 0) ∅ end.
Definition demo_shared : shared := Shared demo_hdr {[ 0%nat := Info MQI_MAGIC 0 ]} [].

(** Two receivers and two senders of one byte each. *)
Definition demo_pcs : list pc :=
  [PReceive 0 (replicate 8 0) 8 true 0; PReceive 0 (replicate 8 0) 8 true 0; PSend 0 [97] 1 0; PSend 0 [98] 5 0].
Definition demo_threads : list (thread () pc mqres) := Ready <$> demo_pcs.

Lemma demo_shared_rep : shared_rep 3 8 {[ 0%nat ]} demo_shared [].
Proof.
  destruct (init_queue_ok demo_attr) as (h & E & Hr & Ha & _); [by vm_compute..|].
  assert (demo_hdr = h) as Eh by (unfold demo_hdr; by rewrite E).
  split; simpl; rewrite ?Eh, ?Ha; try done.
  intros d ->%elem_of_singleton. by eexists.
Qed.

(** ** Properties *)

(** C7: any number of threads that send, receive, register for notification and change
    attributes on open descriptors of one queue, in any interleaving and with spurious
    wake-ups, never reach the [err_dump] of the two calls or an invalid access to the
    mapping or to a caller's buffer of the length that was passed; in every reachable configuration the slots are partitioned into a message
    list sorted by priority and a free list, and the message count is the length of the
    former, between 0 and [mq_maxmsg]. *)
Theorem mq_threads_safe maxmsg msgsize D s q ts cfg :
  shared_rep maxmsg msgsize D s q → Forall (thread_ok msgsize D) ts → reachable seg (s, ts) cfg →
  ¬ faulty seg cfg ∧ Forall (thread_ok msgsize D) cfg.2 ∧
  ∃ q', shared_rep maxmsg msgsize D cfg.1 q' ∧ aq.sorted q' ∧
    zlen q' = mq_curmsgs (mqh_attr (hdr cfg.1)) ∧ 0 ≤ zlen q' ≤ maxmsg.
Proof.
  intros Hr Ht Hreach.
  destruct (reachable_safe seg (λ s, ∃ q, shared_rep maxmsg msgsize D s q) (thread_ok msgsize D) (s, ts) cfg)
    as ((q' & Hq') & Ht' & Hnf); try done.
  - by intros [].
  - intros l s0 [q0 Hq0] Hl. destruct (seg_ok maxmsg msgsize D l s0 q0 Hq0 Hl) as (o & s' & ks & q' & E & Hs' & Ho & _).
    unfold wp. rewrite E. split; [by exists q'|done].
  - by exists q.
  - split; [done|]. split; [done|]. exists q'. split; [done|].
    destruct (rep_length _ _ (sr_rep _ _ _ _ _ Hq')) as (Hc & Hb & Hsort).
    rewrite (sr_max _ _ _ _ _ Hq') in Hb. split; [done|]. lia.
Qed.

Lemma mq_threads_safe_witness :
  ¬ faulty seg (demo_shared, demo_threads) ∧ Forall (thread_ok 8 {[ 0%nat ]}) demo_threads ∧
  ∃ q', shared_rep 3 8 {[ 0%nat ]} demo_shared q' ∧ aq.sorted q' ∧
    zlen q' = mq_curmsgs (mqh_attr (hdr demo_shared)) ∧ 0 ≤ zlen q' ≤ 3.
Proof.
  apply (mq_threads_safe 3 8 {[ 0%nat ]} demo_shared [] demo_threads (demo_shared, demo_threads) demo_shared_rep).
  - unfold demo_threads. repeat constructor; simpl; (set_solver || done).
  - constructor.
Defined.

(** C8: what each segment of a call does to the abstract queue: a send that returns 0
    inserted its message behind every message of at least its priority; a receive returns
    the first message, the oldest of the highest priority, with its length and priority, and
    copies it to the front of the caller's buffer and nowhere else; a thread waits exactly
    when the queue is full (send) or empty (receive) and its descriptor is blocking;
    [EBADF], the error of the lock, [EMSGSIZE], [EAGAIN] and [EBUSY] are returned exactly in
    their situations ([refused]) and leave everything as it was; a registration, the
    attributes and the flag of the descriptor are as documented. *)
Theorem mq_calls_refine maxmsg msgsize D s q l :
  shared_rep maxmsg msgsize D s q → pc_ok msgsize D l →
  ∃ o s' ks q', seg l (Mon s []) = Ok (o, Mon s' ks) ∧ shared_rep maxmsg msgsize D s' q' ∧
    thread_ok msgsize D (after o) ∧ effect maxmsg msgsize l o s s' q q' ∧
    (∀ e, o = Done (RErr e) ↔ refused s maxmsg msgsize l q = Some e).
Proof.
  intros Hr Hpc. destruct (seg_ok maxmsg msgsize D l s q Hr Hpc) as (o & s' & ks & q' & E & Hr' & Ht & He).
  exists o, s', ks, q'. split_and!; [done..|]. intros e. apply (effect_errs _ _ _ _ _ _ _ _ e) in He; [done|].
  by intros ? ? ? ? ->.
Qed.

Lemma mq_calls_refine_witness :
  ∃ o s' ks q', seg (PSend 0 [97] 1 0) (Mon demo_shared []) = Ok (o, Mon s' ks) ∧
    shared_rep 3 8 {[ 0%nat ]} s' q' ∧ thread_ok 8 {[ 0%nat ]} (after o) ∧
    effect 3 8 (PSend 0 [97] 1 0) o demo_shared s' [] q' ∧
    (∀ e, o = Done (RErr e) ↔ refused demo_shared 3 8 (PSend 0 [97] 1 0) [] = Some e).
Proof. apply (mq_calls_refine 3 8 {[ 0%nat ]} demo_shared [] (PSend 0 [97] 1 0) demo_shared_rep). simpl. set_solver. Defined.

(** The refusals of a concrete queue: a message or a buffer of the wrong size, a descriptor
    that is none, a lock that fails, and an empty queue. *)
Example mq_refusals :
  refused demo_shared 3 8 (PSend 0 (replicate 9 0) 1 0) [] = Some EMSGSIZE ∧
  refused demo_shared 3 8 (PReceive 0 (replicate 7 0) 7 true 0) [] = Some EMSGSIZE ∧
  refused demo_shared 3 8 (PSend 1 [97] 1 0) [] = Some EBADF ∧
  refused demo_shared 3 8 (PSend 0 [97] 1 EINVAL) [] = Some EINVAL ∧
  refused (Shared demo_hdr {[ 0%nat := Info MQI_MAGIC O_NONBLOCK ]} []) 3 8 (PReceive 0 (replicate 8 0) 8 true 0) [] = Some EAGAIN.
Proof. by vm_compute. Qed.

(** A wake-up is lost: [mymq_send] signals only when the queue was empty, so with two
    receivers waiting and two sends before the first receiver runs again, the second
    receiver stays in [pthread_cond_wait] although a message is queued and every other
    thread has returned. *)
Theorem mq_receiver_lost_wakeup :
  ∃ s, reachable seg (demo_shared, demo_threads)
      (s, [Finished (RMsg 1 [98; 0; 0; 0; 0; 0; 0; 0] (Some 5)); Waiting () (PReceiveWait 0 (replicate 8 0) true); Finished (RRet 0); Finished (RRet 0)]) ∧
    mq_curmsgs (mqh_attr (hdr s)) = 1.
Proof.
  destruct (run_schedule seg [(0%nat, []); (1%nat, []); (2%nat, [Some 0%nat]); (3%nat, []); (0%nat, [])]
    (demo_shared, demo_threads)) as [cfg|] eqn:E; [|by vm_compute in E].
  exists cfg.1. pose proof (run_schedule_sound _ _ _ _ E) as Hr.
  assert (cfg.2 = [Finished (RMsg 1 [98; 0; 0; 0; 0; 0; 0; 0] (Some 5)); Waiting () (PReceiveWait 0 (replicate 8 0) true); Finished (RRet 0); Finished (RRet 0)]
    ∧ mq_curmsgs (mqh_attr (hdr cfg.1)) = 1) as [E2 E1].
  { vm_compute in E. injection E as <-. by vm_compute. }
  split; [|done]. rewrite <- E2. by destruct cfg.
Qed.

(** ** Opening *)

Lemma oflag_creat o : has_flag (oflag o) O_CREAT = has_flag o O_CREAT.
Proof.
  unfold has_flag, oflag, O_CREAT, O_NONBLOCK. do 2 f_equal. rewrite <- Z.land_assoc. done.
Qed.

(** No other process interferes, and [open] does not report a file that is not there. *)
Definition quiet (env : sysenv) : Prop := (∀ n t, e_other env n t = t) ∧ e_open env ≠ Some EEXIST.

(** Every system call of the creation succeeds. *)
Definition no_error (env : sysenv) : Prop :=
  e_open env = None ∧ e_lseek env = None ∧ e_write env = None ∧ e_mmap env = None ∧ e_malloc env = None ∧
  e_mattr env = 0 ∧ e_mutex env = 0 ∧ e_cattr env = 0 ∧ e_cond env = 0 ∧ e_fchmod env = None.

(** The attributes that pass the test of [mymq_open]. *)
Definition valid_attr (attr : option mymq_attr) : Prop :=
  match attr with None => True | Some a => 0 < mq_maxmsg a ∧ 0 < mq_msgsize a end.

(** The attributes of the new queue. *)
Definition asked (attr : option mymq_attr) : mymq_attr :=
  match attr with None => defattr | Some a => a end.

(** The attributes that do overflow nothing; the code does not test this. *)
Definition attr_ok (attr : option mymq_attr) : Prop := valid_attr attr → fits (asked attr).

Lemma valid_attr_spec attr : valid_attr attr →
  0 < mq_maxmsg (asked attr) ∧ 0 < mq_msgsize (asked attr) ∧
  match attr with None => false | Some a => (mq_maxmsg a <=? 0) || (mq_msgsize a <=? 0) end = false.
Proof.
  destruct attr as [a|]; [|by vm_compute]. intros [? ?]. simpl. split_and!; [done..|].
  apply orb_false_iff. split; apply Z.leb_gt; lia.
Qed.

Lemma invalid_attr_spec attr : ¬ valid_attr attr →
  match attr with None => false | Some a => (mq_maxmsg a <=? 0) || (mq_msgsize a <=? 0) end = true.
Proof.
  destruct attr as [a|]; [|by destruct 1]. simpl. intros H. apply orb_true_iff. rewrite !Z.leb_le. lia.
Qed.

Lemma create_run env pathname o attr t n : valid_attr attr → fits (asked attr) →
  ∃ h, init_queue (asked attr) = Ok h ∧
  ∃ r t', create env pathname o attr (OState t n) = Ok (r, OState t' n) ∧
    ((∃ e, r = Failed e ∧ t' = delete pathname t) ∨
     (r = Opened pathname (Info MQI_MAGIC (nonblock o)) ∧ t' = <[pathname := MqFile false (Some h)]> t)) ∧
    (no_error env → r = Opened pathname (Info MQI_MAGIC (nonblock o))).
Proof.
  intros Hv Ha. destruct (valid_attr_spec attr Hv) as (Hm & Hs & Eb).
  destruct (init_queue_ok (asked attr) Hm Hs Ha) as (h & E & _). exists h. split; [done|].
  destruct (fits_sizes (asked attr) Hm Hs Ha) as (_ & _ & _ & Hfs & _).
  assert (lseek_end env (asked attr) = e_lseek env) as El.
  { unfold lseek_end. rewrite (proj2 (Z.ltb_ge _ _)); [done|]. unfold SIZEOF_MYMQ_HDR in Hfs. lia. }
  unfold create, set_entry. rewrite bind_modify. cbn [o_tab o_tick]. rewrite Eb.
  fold (asked attr). rewrite E, El. unfold check, pcheck, cleanup, no_error.
  repeat match goal with
  | |- context [match ?e with None => _ | Some _ => _ end] => destruct e as [?|] eqn:?
  | |- context [if negb (?e =? 0) then _ else _] => destruct (Z.eqb_spec e 0); cbn [negb]
  end; rewrite ?bind_modify; cbn [o_tab o_tick];
    (eexists _, _; split; [reflexivity|]);
    (split; [first [left; eexists; split; [reflexivity|]|right; split; [reflexivity|]];
              rewrite ?insert_insert_eq, ?delete_insert_eq; done|try done; intros; naive_solver]).
Qed.

Lemma create_invalid env pathname o attr t n : ¬ valid_attr attr → t !! pathname = None →
  create env pathname o attr (OState t n) = Ok (Failed EINVAL, OState t n).
Proof.
  intros Hv Ht. unfold create, set_entry. rewrite bind_modify. cbn [o_tab o_tick].
  rewrite (invalid_attr_spec attr Hv). unfold cleanup. rewrite bind_modify. cbn [o_tab o_tick].
  by rewrite delete_insert_eq, delete_id by done.
Qed.

Lemma open_first env pathname o attr fuel s r s' : again env pathname o attr () s = Ok (inr r, s') →
  mymq_open env pathname o attr (S fuel) s = Ok (r, s').
Proof. intros E. unfold mymq_open. cbn [iter]. by erewrite bind_ok by exact E. Qed.

Lemma bind_look {A} (env : sysenv) (k : ftable → M ostate A) (s : ostate) :
  (look env ≫= k) s = k (e_other env (o_tick s) (o_tab s)) (OState (e_other env (o_tick s) (o_tab s)) (S (o_tick s))).
Proof. done. Qed.

(** The first [open] of a file that is not there. *)
Lemma again_create env pathname o attr tab : quiet env → has_flag o O_CREAT = true → tab !! pathname = None →
  again env pathname o attr () (OState tab 0) =
    match e_open env with
    | Some e => Ok (inr (Failed e), OState tab 1)
    | None => (r ← create env pathname o attr; mret (inr r)) (OState tab 1)
    end.
Proof.
  intros [Hq He] Hc Ht. unfold again. rewrite oflag_creat, Hc, bind_look. cbn [o_tab o_tick]. rewrite Hq, Ht.
  destruct (e_open env) as [e|]; [|done]. rewrite (proj2 (Z.eqb_neq e _)); [done|]. by intros ->.
Qed.

(** C9: [mymq_open] with [O_CREAT] on a name that is not there creates the queue, when no
    other process interferes and the sizes asked for overflow neither the long of the file
    size nor the int of the loop, which the code does not test: unless a system call fails it
    returns a descriptor whose only flag is the [O_NONBLOCK] bit asked for, and leaves an
    initialised file (the user-execute bit is off) with an empty well-formed queue of the
    attributes asked for; when a call fails it returns an error and leaves no file behind,
    and attributes that are not positive are refused with [EINVAL]. *)
Theorem mymq_open_creates env pathname o attr tab fuel :
  quiet env → has_flag o O_CREAT = true → attr_ok attr → tab !! pathname = None →
  ∃ r tab' n, mymq_open env pathname o attr (S fuel) (OState tab 0) = Ok (r, OState tab' n) ∧
    ((∃ e, r = Failed e ∧ tab' = tab) ∨
     valid_attr attr ∧ r = Opened pathname (Info MQI_MAGIC (Z.land o O_NONBLOCK)) ∧
     ∃ h, tab' = <[pathname := MqFile false (Some h)]> tab ∧ mq_rep h [] ∧
       mqh_attr h = Attr 0 (mq_maxmsg (asked attr)) (mq_msgsize (asked attr)) 0) ∧
    (no_error env → valid_attr attr → r = Opened pathname (Info MQI_MAGIC (Z.land o O_NONBLOCK))) ∧
    (e_open env = None → ¬ valid_attr attr → r = Failed EINVAL).
Proof.
  intros Hq Hc Ha Ht. pose proof (again_create env pathname o attr tab Hq Hc Ht) as Eagain.
  assert (Decision (valid_attr attr)) as Hdec by (unfold valid_attr; destruct attr; apply _).
  destruct (e_open env) as [e|] eqn:Eo.
  { exists (Failed e), tab, 1%nat. split; [by apply open_first|].
    split; [left; by eexists|]. split; [|done]. intros (? & _). congruence. }
  destruct (decide (valid_attr attr)) as [Hv|Hv].
  - destruct (create_run env pathname o attr tab 1 Hv (Ha Hv)) as (h & Eh & r & t' & E & Hr & Hn).
    eexists r, t', _. split; [apply open_first; rewrite Eagain; by erewrite bind_ok by exact E|].
    split; [|by split; [intros ? _; apply Hn|]]. destruct Hr as [(e & -> & ->)|[-> ->]].
    + left. exists e. split; [done|]. by apply delete_id.
    + right. split; [done|]. split; [done|]. exists h. split; [done|].
      destruct (valid_attr_spec attr Hv) as (Hm & Hs & _).
      destruct (init_queue_ok _ Hm Hs (Ha Hv)) as (h' & E' & Hrep & Hat & _).
      rewrite Eh in E'. by injection E' as <-.
  - eexists (Failed EINVAL), tab, _. split; [apply open_first; rewrite Eagain; by erewrite bind_ok by by apply create_invalid|].
    split; [left; by eexists|]. split; [done|done].
Qed.

Definition demo_env : sysenv := SysEnv None None None None None 0 0 0 0 None (λ _, None) (λ _ t, t).

Lemma mymq_open_creates_witness :
  ∃ r tab' n, mymq_open demo_env [47; 113] (O_CREAT + O_NONBLOCK) None 1 (OState ∅ 0) = Ok (r, OState tab' n) ∧
    ((∃ e, r = Failed e ∧ tab' = ∅) ∨
     valid_attr None ∧ r = Opened [47; 113] (Info MQI_MAGIC (Z.land (O_CREAT + O_NONBLOCK) O_NONBLOCK)) ∧
     ∃ h, tab' = <[[47; 113] := MqFile false (Some h)]> ∅ ∧ mq_rep h [] ∧
       mqh_attr h = Attr 0 (mq_maxmsg (asked None)) (mq_msgsize (asked None)) 0) ∧
    (no_error demo_env → valid_attr None → r = Opened [47; 113] (Info MQI_MAGIC (Z.land (O_CREAT + O_NONBLOCK) O_NONBLOCK))) ∧
    (e_open demo_env = None → ¬ valid_attr None → r = Failed EINVAL).
Proof.
  apply (mymq_open_creates demo_env [47; 113] (O_CREAT + O_NONBLOCK) None ∅ 0); done.
Defined.

(** The sizes are not tested against overflow: with [2^61] messages of 8 bytes the size of
    the file is computed as 216 bytes, every system call succeeds, and the first slot is
    written outside the mapping. *)
Theorem mymq_open_overflows :
  filesize (Attr 0 (2 ^ 61) 8 0) = SIZEOF_MYMQ_HDR ∧
  mymq_open demo_env [113] O_CREAT (Some (Attr 0 (2 ^ 61) 8 0)) 1 (OState ∅ 0) =
    Fault (UB "message offset outside the mapping").
Proof. by vm_compute. Qed.

(** Other processes keep the file, [open] and [stat] work on it, and [x n] is its
    user-execute bit at the [n]-th look. *)
Definition file_seen (env : sysenv) (pathname : list Z) (x : nat → bool) : Prop :=
  ∀ n t, e_exist env n = None ∧ f_xusr <$> e_other env n t !! pathname = Some (x n).

Lemma existing_seen env pathname x s : file_seen env pathname x →
  ∃ f, existing env pathname s = Ok (inr f, OState (e_other env (o_tick s) (o_tab s)) (S (o_tick s))) ∧
    f_xusr f = x (o_tick s).
Proof.
  intros Hx. destruct (Hx (o_tick s) (o_tab s)) as [He Hf]. unfold existing.
  rewrite bind_gets, bind_look, He.
  destruct (e_other env (o_tick s) (o_tab s) !! pathname) as [f|]; [|done]. injection Hf as Hf. by exists f.
Qed.

Lemma wait_init_run env pathname o x tries s : file_seen env pathname x →
  ∃ s', wait_init env pathname o tries s =
    Ok (if existsb (λ n, negb (x n)) (seq (o_tick s) tries) then Some None else Some (Some ETIMEDOUT), s').
Proof.
  intros Hx. revert s. induction tries as [|tries IH]; intros s; cbn [wait_init seq existsb]; [by eexists|].
  destruct (existing_seen env pathname x s Hx) as (f & E & <-). erewrite bind_ok by exact E.
  cbv beta iota. destruct (f_xusr f); [|by eexists].
  destruct (IH (OState (e_other env (o_tick s) (o_tab s)) (S (o_tick s)))) as [s' E']. rewrite E'. by exists s'.
Qed.

(** C10: [mymq_open] of an existing queue returns a descriptor only after it saw the
    user-execute bit off, that is, after the creating process finished the initialisation;
    it looks at most ten times and then fails with [ETIMEDOUT]. *)
Theorem mymq_open_waits_for_init env pathname o attr x s fuel :
  has_flag o O_CREAT = false → file_seen env pathname x → e_mmap env = None → e_malloc env = None →
  ∃ s', mymq_open env pathname o attr (S fuel) s =
    Ok (if existsb (λ n, negb (x n)) (seq (S (o_tick s)) 10)
        then Opened pathname (Info MQI_MAGIC (Z.land o O_NONBLOCK)) else Failed ETIMEDOUT, s').
Proof.
  intros Hc Hx Hm Hl.
  destruct (wait_init_run env pathname o x MAX_TRIES (OState (e_other env (o_tick s) (o_tab s)) (S (o_tick s))) Hx)
    as [s' E]. exists s'. apply open_first. unfold again. rewrite oflag_creat, Hc. unfold open_existing.
  destruct (existing_seen env pathname x s Hx) as (f & Ef & _). erewrite bind_ok by exact Ef.
  cbv beta iota. erewrite bind_ok by exact E. cbn [o_tick]. unfold MAX_TRIES. rewrite Hm, Hl. by destruct (existsb _ _).
Qed.

(** The creator finishes between the fourth and the fifth look. *)
Definition slow_env : sysenv :=
  SysEnv None None None None None 0 0 0 0 None (λ _, None) (λ n _, {[ [113] := MqFile (Nat.ltb n 4) None ]}).

Lemma mymq_open_waits_for_init_witness :
  ∃ s', mymq_open slow_env [113] 0 None 1 (OState ∅ 0) = Ok (Opened [113] (Info MQI_MAGIC 0), s').
Proof.
  apply (mymq_open_waits_for_init slow_env [113] 0 None (λ n, Nat.ltb n 4) (OState ∅ 0) 0);
    [done| |done|done].
  intros n t. split; [done|]. unfold slow_env. simpl. by rewrite lookup_singleton_eq.
Defined.

(** C11: a message that arrives on the empty queue when a process is registered and no
    thread waits in [mymq_receive] queues that process its signal once and removes the
    registration; otherwise no signal is queued and the registration stays. *)
Theorem mymq_send_notifies maxmsg msgsize D s mqd ptr prio :
  let h := hdr s in
  let notified := negb (mqh_pid h =? 0) && (mqh_nwait h =? 0) in
  shared_rep maxmsg msgsize D s [] → mqd ∈ D → mqi_magic <$> infos s !! mqd = Some MQI_MAGIC → zlen ptr ≤ msgsize →
  ∃ s' ks, mymq_send mqd ptr prio 0 (Mon s []) = Ok (Done (RRet 0), Mon s' ks) ∧
    queued s' = queued s ++ (if notified && (sigev_notify (mqh_event h) =? SIGEV_SIGNAL)
      then [(mqh_pid h, sigev_signo (mqh_event h), sigev_value (mqh_event h))] else []) ∧
    mqh_pid (hdr s') = (if notified then 0 else mqh_pid h).
Proof.
  intros h notified Hr Hd Hi Hlen. destruct (infos s !! mqd) as [i|] eqn:Ei; [|done]. injection Hi as Hi.
  destruct (rep_length _ _ (sr_rep _ _ _ _ _ Hr)) as (Hc & _). change (zlen []) with 0 in Hc. symmetry in Hc.
  set (s1 := Shared (if notified then set_pid 0 h else h) (infos s)
    (queued s ++ (if notified && (sigev_notify (mqh_event h) =? SIGEV_SIGNAL)
      then [(mqh_pid h, sigev_signo (mqh_event h), sigev_value (mqh_event h))] else []))).
  assert (notify_send (Mon s []) = Ok ((), Mon s1 [])) as En.
  { unfold notify_send, hget, sgets, hmodify, smodify. rewrite bind_gets. cbn [sh]. fold h notified. unfold s1.
    destruct notified; [|by rewrite app_nil_r; destruct s].
    cbn [andb]. destruct (_ =? SIGEV_SIGNAL); [done|]. by rewrite app_nil_r. }
  assert (mq_rep (hdr s1) []) as Hr1.
  { pose proof (sr_rep _ _ _ _ _ Hr) as (hl & fl & [] & Hq). exists hl, fl. simpl.
    destruct notified; (split; [split; done|done]). }
  pose proof Hr1 as (hl & fl & W & _).
  assert (mqh_attr (hdr s1) = mqh_attr h) as Ha by (simpl; by destruct notified).
  destruct (send_tail_spec s1 [] hl fl ptr prio W) as (h' & hl' & fl' & E & _ & _ & (_ & _ & _ & _ & Hpid & _)).
  { pose proof (wq_max _ _ _ W) as [Hmx _]. rewrite Ha in Hmx |- *. unfold h in *. lia. }
  { rewrite Ha. unfold h. by rewrite (sr_size _ _ _ _ _ Hr). }
  eexists (Shared h' (infos s1) (queued s1)), _. split; [|split; [done|]].
  - unfold mymq_send, with_lock, info_of, sgets. rewrite bind_assoc, bind_gets. cbn [sh].
    rewrite Ei, bind_ret, Hi. rewrite Z.eqb_refl. change (0 =? 0) with true. cbv beta iota delta [negb]. unfold hget, sgets. rewrite bind_gets. cbn [sh].
    rewrite (msgsize_wrap _ _ _ _ _ Hr). rewrite (proj2 (Z.ltb_ge _ _)) by done. rewrite Hc.
    change (0 =? 0) with true. cbv iota. erewrite bind_ok by exact En. exact E.
  - simpl. rewrite Hpid. simpl. by destruct notified.
Qed.

(** Process 42 is registered for signal 10 with value 7. *)
Definition demo_registered : shared := upd_hdr (λ h, set_event (SigEvent 0 10 7) (set_pid 42 h)) demo_shared.

Lemma demo_registered_rep : shared_rep 3 8 {[ 0%nat ]} demo_registered [].
Proof. apply shared_rep_upd; [apply demo_shared_rep|done]. Qed.

Lemma mymq_send_notifies_witness :
  ∃ s' ks, mymq_send 0 [97] 1 0 (Mon demo_registered []) = Ok (Done (RRet 0), Mon s' ks) ∧
    queued s' = [(42, 10, 7)] ∧ mqh_pid (hdr s') = 0.
Proof.
  apply (mymq_send_notifies 3 8 {[ 0%nat ]} demo_registered 0 [97] 1 demo_registered_rep); [set_solver|done|by vm_compute].
Defined.
