(* ===== verification/Rwlock.v ===== *)
(** The read-write lock of [programs/rwlock.c]: the [rwlock_t] and its operations, with
    the status codes of the pthread calls as arguments, the threads that use it, and what
    the lock promises: exclusion, exact counts, and progress without cancellation, as long as
    the lock is not destroyed under its users. *)
From S2P Require Import Prelude CLib Monitor.

(** ** The lock *)

Definition RWLOCK_VALID : Z := 16435934.

(** [mutex] tells whether the mutex is initialised. *)
Record rwlock_t := Rwlock { valid : Z; r_active : Z; w_active : Z; r_wait : Z; w_wait : Z; mutex : bool }.

Definition set_valid v l := Rwlock v (r_active l) (w_active l) (r_wait l) (w_wait l) (mutex l).
Definition set_r_active v l := Rwlock (valid l) v (w_active l) (r_wait l) (w_wait l) (mutex l).
Definition set_w_active v l := Rwlock (valid l) (r_active l) v (r_wait l) (w_wait l) (mutex l).
Definition set_r_wait v l := Rwlock (valid l) (r_active l) (w_active l) v (w_wait l) (mutex l).
Definition set_w_wait v l := Rwlock (valid l) (r_active l) (w_active l) (r_wait l) v (mutex l).
Definition set_mutex v l := Rwlock (valid l) (r_active l) (w_active l) (r_wait l) (w_wait l) v.

(** The condition variables [read] and [write]. *)
Inductive cv := CVRead | CVWrite.
#[export] Instance cv_eq_dec : EqDecision cv.
Proof. solve_decision. Defined.

(** What the pthread calls in one operation return: the lock, the wait, the signal or
    broadcast, and the unlock; and whether the thread is cancelled while it waits. *)
Record codes := Codes { lockrc : Z; waitrc : Z; wakerc : Z; unlockrc : Z; cancelled : bool }.
Definition no_errors : codes := Codes 0 0 0 0 false.

(** The operations of a thread that takes the lock and gives it back: [cd] are the codes of
    the first operation, [cu] those of the unlock. *)
Inductive op :=
  | OReadLock (cd cu : codes)
  | OReadTrylock (cd cu : codes)
  | OReadUnlock (cu : codes)
  | OWriteLock (cd cu : codes)
  | OWriteTrylock (cd cu : codes)
  | OWriteUnlock (cu : codes)
  | ODestroy (cd : codes) (mutexrc readrc writerc : Z).

(** Where a thread is: before the test of [valid], which is made without the mutex; between
    this test and [pthread_mutex_lock]; in one of the two waits; or behind the unlock of
    [rwl_destroy].  A thread before or in [OReadUnlock] holds the lock for reading, a thread
    before or in [OWriteUnlock] for writing. *)
Inductive pc :=
  | PTest (o : op)
  | PLock (o : op)
  | PReadWait (cd cu : codes)
  | PWriteWait (cd cu : codes)
  | PDestroyEnd (mutexrc readrc writerc : Z).

(** A status, or the end of a cancelled thread. *)
Inductive res := RStatus (status : Z) | RCancelled.

Abbreviation rwM := (M (mon cv rwlock_t)).
Abbreviation rwout := (outcome cv pc res).

Definition ret (status : Z) : rwM rwout := mret (Done (RStatus status)).

(** The test of [valid] at the start of every operation. *)
Definition enter (o : op) : rwM rwout :=
  v ← sgets valid; if negb (v =? RWLOCK_VALID) then ret EINVAL else mret (Next (PLock o)).

(** A mutex that was destroyed must not be used. *)
Definition with_mutex (k : rwM rwout) : rwM rwout :=
  m ← sgets mutex; if (m : bool) then k else fail (UB "use of a destroyed mutex").

(** [pthread_mutex_lock] and the test of its status. *)
Definition lock (cd : codes) (k : rwM rwout) : rwM rwout :=
  with_mutex (if negb (lockrc cd =? 0) then ret (lockrc cd) else k).

(** [pthread_cond_signal] and [pthread_cond_broadcast] with their return value. *)
Definition signal (rc : Z) (c : cv) : rwM Z := _ ← when (rc =? 0) (cond_signal c); mret rc.
Definition broadcast (rc : Z) (c : cv) : rwM Z := _ ← when (rc =? 0) (cond_broadcast c); mret rc.

(** The holder goes on with its critical section, then with the unlock. *)
Definition hold (status : Z) (l : pc) : rwM rwout :=
  if status =? 0 then mret (Next l) else ret status.

(** ** Initialisation and destruction *)

(** The status and the lock; on an error the lock is not marked valid. *)
Definition rwl_init (mutexrc readrc writerc : Z) (rwl : rwlock_t) : Z * rwlock_t :=
  let l := set_w_active 0 (set_w_wait 0 (set_r_wait 0 (set_r_active 0 rwl))) in
  if negb (mutexrc =? 0) then (mutexrc, l) else
  if negb (readrc =? 0) then (readrc, set_mutex false l) else
  if negb (writerc =? 0) then (writerc, set_mutex false l) else
  (0, set_valid RWLOCK_VALID (set_mutex true l)).

Definition rwl_destroy (cd : codes) (mutexrc readrc writerc : Z) : rwM rwout :=
  lock cd (
    l ← sgets (λ l, l);
    if (0 <? r_active l) || negb (w_active l =? 0) then ret EBUSY else
    if negb (r_wait l =? 0) || negb (w_wait l =? 0) then ret EBUSY else
    _ ← smodify (set_valid 0);
    if negb (unlockrc cd =? 0) then ret (unlockrc cd) else mret (Next (PDestroyEnd mutexrc readrc writerc))).

(** Behind the unlock: the mutex and the condition variables are destroyed. *)
Definition destroy_end (mutexrc readrc writerc : Z) : rwM rwout :=
  _ ← when (mutexrc =? 0) (smodify (set_mutex false));
  ret (if mutexrc =? 0 then mutexrc else if readrc =? 0 then readrc else writerc).

(** ** Read locks *)

(** The end of the waiting loop, with the status of the last wait. *)
Definition read_done (status : Z) (cu : codes) : rwM rwout :=
  _ ← smodify (λ l, set_r_wait (r_wait l - 1) l);
  _ ← when (status =? 0) (smodify (λ l, set_r_active (r_active l + 1) l));
  hold status (PTest (OReadUnlock cu)).

(** The [while] loop of [rwl_readlock]. *)
Definition read_loop (cd cu : codes) : rwM rwout :=
  l ← sgets (λ l, l);
  if negb (w_active l =? 0) then mret (Block CVRead (PReadWait cd cu)) else read_done 0 cu.

Definition rwl_readlock (cd cu : codes) : rwM rwout :=
  lock cd (
    l ← sgets (λ l, l);
    if negb (w_active l =? 0) then
      _ ← smodify (λ l, set_r_wait (r_wait l + 1) l);
      read_loop cd cu
    else
      _ ← smodify (λ l, set_r_active (r_active l + 1) l);
      hold 0 (PTest (OReadUnlock cu))).

Definition rwl_readcleanup : rwM rwout :=
  _ ← smodify (λ l, set_r_wait (r_wait l - 1) l); mret (Done RCancelled).

(** A thread comes back from [pthread_cond_wait] in [rwl_readlock]. *)
Definition read_resume (cd cu : codes) : rwM rwout :=
  with_mutex (
    if cancelled cd then rwl_readcleanup else
    if negb (waitrc cd =? 0) then read_done (waitrc cd) cu else read_loop cd cu).

Definition rwl_readtrylock (cd cu : codes) : rwM rwout :=
  lock cd (
    l ← sgets (λ l, l);
    status ← (if negb (w_active l =? 0) then mret EBUSY
              else _ ← smodify (λ l, set_r_active (r_active l + 1) l); mret 0);
    if negb (unlockrc cd =? 0) then ret (unlockrc cd) else hold status (PTest (OReadUnlock cu))).

Definition rwl_readunlock (cu : codes) : rwM rwout :=
  lock cu (
    _ ← smodify (λ l, set_r_active (r_active l - 1) l);
    l ← sgets (λ l, l);
    status ← (if (r_active l =? 0) && (0 <? w_wait l) then signal (wakerc cu) CVWrite else mret 0);
    ret (if unlockrc cu =? 0 then status else unlockrc cu)).

(** ** Write locks *)

Definition write_done (status : Z) (cu : codes) : rwM rwout :=
  _ ← smodify (λ l, set_w_wait (w_wait l - 1) l);
  _ ← when (status =? 0) (smodify (set_w_active 1));
  hold status (PTest (OWriteUnlock cu)).

Definition write_loop (cd cu : codes) : rwM rwout :=
  l ← sgets (λ l, l);
  if negb (w_active l =? 0) || (0 <? r_active l) then mret (Block CVWrite (PWriteWait cd cu)) else write_done 0 cu.

Definition rwl_writelock (cd cu : codes) : rwM rwout :=
  lock cd (
    l ← sgets (λ l, l);
    if negb (w_active l =? 0) || (0 <? r_active l) then
      _ ← smodify (λ l, set_w_wait (w_wait l + 1) l);
      write_loop cd cu
    else
      _ ← smodify (set_w_active 1);
      hold 0 (PTest (OWriteUnlock cu))).

Definition rwl_writecleanup : rwM rwout :=
  _ ← smodify (λ l, set_w_wait (w_wait l - 1) l); mret (Done RCancelled).

Definition write_resume (cd cu : codes) : rwM rwout :=
  with_mutex (
    if cancelled cd then rwl_writecleanup else
    if negb (waitrc cd =? 0) then write_done (waitrc cd) cu else write_loop cd cu).

Definition rwl_writetrylock (cd cu : codes) : rwM rwout :=
  lock cd (
    l ← sgets (λ l, l);
    status ← (if negb (w_active l =? 0) || (0 <? r_active l) then mret EBUSY
              else _ ← smodify (set_w_active 1); mret 0);
    if negb (status =? 0) then ret status else
    if negb (unlockrc cd =? 0) then ret (unlockrc cd) else hold 0 (PTest (OWriteUnlock cu))).

Definition rwl_writeunlock (cu : codes) : rwM rwout :=
  lock cu (
    _ ← smodify (set_w_active 0);
    l ← sgets (λ l, l);
    status ← (if 0 <? r_wait l then broadcast (wakerc cu) CVRead
              else if 0 <? w_wait l then signal (wakerc cu) CVWrite else mret 0);
    if negb (status =? 0) then ret status else ret (unlockrc cu)).

(** The rest of an operation, from its [pthread_mutex_lock]. *)
Definition body (o : op) : rwM rwout :=
  match o with
  | OReadLock cd cu => rwl_readlock cd cu
  | OReadTrylock cd cu => rwl_readtrylock cd cu
  | OReadUnlock cu => rwl_readunlock cu
  | OWriteLock cd cu => rwl_writelock cd cu
  | OWriteTrylock cd cu => rwl_writetrylock cd cu
  | OWriteUnlock cu => rwl_writeunlock cu
  | ODestroy cd m r w => rwl_destroy cd m r w
  end.

Definition seg (p : pc) : rwM rwout :=
  match p with
  | PTest o => enter o
  | PLock o => body o
  | PReadWait cd cu => read_resume cd cu
  | PWriteWait cd cu => write_resume cd cu
  | PDestroyEnd m r w => destroy_end m r w
  end.

(** ** Counting the threads *)

Abbreviation rwthread := (thread cv pc res).
Definition at_pc (t : rwthread) : option pc :=
  match t with Ready l | Waiting _ l => Some l | Finished _ => None end.
Definition at_op (t : rwthread) : option op :=
  match at_pc t with Some (PTest o | PLock o) => Some o | _ => None end.

Definition rheld (t : rwthread) : nat := match at_op t with Some (OReadUnlock _) => 1 | _ => 0 end.
Definition wheld (t : rwthread) : nat := match at_op t with Some (OWriteUnlock _) => 1 | _ => 0 end.
Definition rwaits (t : rwthread) : nat := match at_pc t with Some (PReadWait _ _) => 1 | _ => 0 end.
Definition wwaits (t : rwthread) : nat := match at_pc t with Some (PWriteWait _ _) => 1 | _ => 0 end.

(** The unlocks get the mutex, and the try variants can give it back. *)
Definition op_ok (o : op) : Prop :=
  match o with
  | OReadLock _ cu | OWriteLock _ cu | OReadUnlock cu | OWriteUnlock cu => lockrc cu = 0
  | OReadTrylock cd cu | OWriteTrylock cd cu => unlockrc cd = 0 ∧ lockrc cu = 0
  | ODestroy _ _ _ _ => True
  end.
Definition pc_ok (l : pc) : Prop :=
  match l with
  | PTest o | PLock o => op_ok o
  | PReadWait _ cu | PWriteWait _ cu => lockrc cu = 0
  | PDestroyEnd _ _ _ => False
  end.
Definition thread_ok (t : rwthread) : Prop :=
  match t with
  | Ready l => pc_ok l
  | Waiting CVRead (PReadWait cd cu) => pc_ok (PReadWait cd cu)
  | Waiting CVWrite (PWriteWait cd cu) => pc_ok (PWriteWait cd cu)
  | Waiting _ _ => False
  | Finished _ => True
  end.

(** The fields of a lock that is not destroyed as counts, and exclusion. *)
Record counts (s : rwlock_t) (rh wh rw ww : nat) : Prop := {
  ct_r_active : r_active s = Z.of_nat rh;
  ct_w_active : w_active s = Z.of_nat wh;
  ct_r_wait : r_wait s = Z.of_nat rw;
  ct_w_wait : w_wait s = Z.of_nat ww;
  ct_excl : wh = 0%nat ∨ (wh = 1%nat ∧ rh = 0%nat);
  ct_valid : valid s = RWLOCK_VALID;
  ct_mutex : mutex s = true
}.

(** Runs a segment on symbolic state. *)
Ltac run_seg :=
  cbv [seg body destroy_end rwl_readlock rwl_readunlock rwl_readtrylock rwl_writelock rwl_writeunlock rwl_writetrylock rwl_destroy
       read_resume write_resume read_loop write_loop read_done write_done rwl_readcleanup rwl_writecleanup
       enter lock with_mutex hold ret signal broadcast cond_signal cond_broadcast when
       mbind M_bind mret M_ret sgets gets smodify modify sh wk app];
  repeat match goal with
  | |- context [if ?b then _ else _] => destruct b eqn:?
  | |- Ok _ = Ok _ → _ => intros [= <- <- <-]
  | |- Fault _ = Ok _ → _ => intros [=]
  | |- fail _ _ = Ok _ → _ => intros [=]
  end.

Ltac case_orb :=
  match goal with
  | H : _ || _ = true |- _ => apply orb_true_iff in H as [H|H]; btests
  | H : _ && _ = false |- _ => apply andb_false_iff in H as [H|H]; btests
  end.

(** No segment makes a destroyed lock valid again. *)
Lemma seg_valid l s o s' ks : seg l (Mon s []) = Ok (o, Mon s' ks) → valid s' = RWLOCK_VALID → valid s = RWLOCK_VALID.
Proof. destruct l as [?|[]| | |]; run_seg; simpl; (done || by intros ->). Qed.

Lemma reach_valid cfg cfg' : reachable seg cfg cfg' → valid cfg'.1 = RWLOCK_VALID → valid cfg.1 = RWLOCK_VALID.
Proof.
  induction 1 as [|x y z Hxy _ IH]; [done|]. intros Hv. specialize (IH Hv).
  destruct Hxy; simpl in *; [by eapply seg_valid|done].
Qed.

(** Every segment that leaves the lock valid keeps the counts in step with its thread. *)
Lemma seg_counts l s o s' ks rh wh rw ww :
  seg l (Mon s []) = Ok (o, Mon s' ks) → valid s' = RWLOCK_VALID → pc_ok l →
  counts s (rheld (Ready l) + rh) (wheld (Ready l) + wh) (rwaits (Ready l) + rw) (wwaits (Ready l) + ww) →
  thread_ok (after o) ∧
  counts s' (rheld (after o) + rh) (wheld (after o) + wh) (rwaits (after o) + rw) (wwaits (after o) + ww).
Proof.
  intros E Hv' Hl [H1 H2 H3 H4 H5 H6 H7]. revert E Hv'.
  destruct l as [?|[]| | |]; simpl in Hl, H1, H2, H3, H4, H5; run_seg; intros Hv'; btests; repeat case_orb;
    unfold EBUSY in *; try lia; try done;
    (split; [by repeat match goal with H : _ ∧ _ |- _ => destruct H end|split; simpl in *; try done; try lia]).
Qed.

Lemma seg_no_fault l s f : mutex s = true → seg l (Mon s []) ≠ Fault f.
Proof. intros Hm. destruct l as [?|[]| | |]; run_seg; congruence. Qed.

(** ** Exclusion in every reachable configuration *)

Definition rw_inv (cfg : rwlock_t * list rwthread) : Prop :=
  Forall thread_ok cfg.2 ∧
  counts cfg.1 (total rheld cfg.2) (total wheld cfg.2) (total rwaits cfg.2) (total wwaits cfg.2).

Lemma thread_ok_resume t : thread_ok t → thread_ok (resume t).
Proof. destruct t as [|[] []|]; simpl; tauto. Qed.

Lemma rw_inv_step cfg cfg' : step seg cfg cfg' → valid cfg'.1 = RWLOCK_VALID → rw_inv cfg → rw_inv cfg'.
Proof.
  destruct 1 as [s ts i l o s' ks ts' Hi E Hw|s ts i c l Hi]; intros Hv [Ht Hc]; simpl in *.
  - pose proof (wakes_ready _ _ _ _ _ Hw Hi) as Hi'.
    rewrite <- (total_wakes rheld ks ts ts'), <- (total_wakes wheld ks ts ts'),
      <- (total_wakes rwaits ks ts ts'), <- (total_wakes wwaits ks ts ts') in Hc by (done || by intros []).
    destruct (total_split rheld _ _ _ Hi') as (? & E1 & F1), (total_split wheld _ _ _ Hi') as (? & E2 & F2),
      (total_split rwaits _ _ _ Hi') as (? & E3 & F3), (total_split wwaits _ _ _ Hi') as (? & E4 & F4).
    rewrite E1, E2, E3, E4 in Hc.
    destruct (seg_counts _ _ _ _ _ _ _ _ _ E Hv (Forall_lookup_1 _ _ _ _ Ht Hi) Hc) as [Ho Hc'].
    split; simpl.
    + apply Forall_insert; [|done]. eapply wakes_forall; [apply thread_ok_resume|done|done].
    + by rewrite F1, F2, F3, F4.
  - destruct (total_split rheld _ _ _ Hi) as (? & E1 & F1), (total_split wheld _ _ _ Hi) as (? & E2 & F2),
      (total_split rwaits _ _ _ Hi) as (? & E3 & F3), (total_split wwaits _ _ _ Hi) as (? & E4 & F4).
    split; simpl.
    + apply Forall_insert; [done|]. apply (thread_ok_resume (Waiting c l)). by eapply Forall_lookup_1.
    + rewrite F1, F2, F3, F4. by rewrite E1, E2, E3, E4 in Hc.
Qed.

Lemma rw_inv_reach cfg cfg' : reachable seg cfg cfg' → valid cfg'.1 = RWLOCK_VALID → rw_inv cfg → rw_inv cfg'.
Proof.
  induction 1 as [|x y z Hxy Hyz IH]; [done|]. intros Hv Hx. apply IH; [done|].
  by eapply rw_inv_step; [|apply (reach_valid _ _ Hyz)|].
Qed.

(** ** Clients that do not destroy *)

Definition keeps (t : rwthread) : Prop :=
  match at_pc t with Some (PTest (ODestroy _ _ _ _) | PLock (ODestroy _ _ _ _) | PDestroyEnd _ _ _) => False | _ => True end.

Lemma rwl_seg_keeps l s o s' ks : seg l (Mon s []) = Ok (o, Mon s' ks) → keeps (Ready l) →
  keeps (after o) ∧ valid s' = valid s.
Proof. intros E Hl. revert E. destruct l as [[]|[]| | |]; try done; run_seg; done. Qed.

Lemma keeps_valid cfg cfg' : reachable seg cfg cfg' → Forall keeps cfg.2 → valid cfg'.1 = valid cfg.1.
Proof.
  induction 1 as [|x y z Hxy _ IH]; [done|]. intros Hk.
  destruct Hxy as [s ts i l o s' ks ts' Hi E Hw|s ts i c l Hi]; simpl in *.
  - destruct (rwl_seg_keeps _ _ _ _ _ E (Forall_lookup_1 _ _ _ _ Hk Hi)) as [Ho Hv]. rewrite <- Hv. apply IH.
    apply Forall_insert; [|done]. eapply wakes_forall; [|done|done]. by intros [].
  - apply IH. apply Forall_insert; [done|]. by apply (Forall_lookup_1 _ _ _ _ Hk Hi).
Qed.

(** ** Progress without errors and cancellation *)

Definition op_clean (o : op) : Prop :=
  match o with
  | OReadLock cd cu | OReadTrylock cd cu | OWriteLock cd cu | OWriteTrylock cd cu => cd = no_errors ∧ cu = no_errors
  | OReadUnlock cu | OWriteUnlock cu => cu = no_errors
  | ODestroy _ _ _ _ => True
  end.
Definition pc_clean (l : pc) : Prop :=
  match l with
  | PTest o | PLock o => op_clean o
  | PReadWait cd cu | PWriteWait cd cu => cd = no_errors ∧ cu = no_errors
  | PDestroyEnd _ _ _ => True
  end.
Definition clean (t : rwthread) : Prop := match at_pc t with Some l => pc_clean l | None => True end.

(** A reader that was not woken waits for an active writer; when a writer that was not
    woken waits, somebody holds the lock or a woken thread is about to take it. *)
Record progress (cfg : rwlock_t * list rwthread) : Prop := {
  pr_inv : rw_inv cfg;
  pr_clean : Forall clean cfg.2;
  pr_read : ∀ i l, cfg.2 !! i = Some (Waiting CVRead l) → w_active cfg.1 ≠ 0;
  pr_write : ∀ i l, cfg.2 !! i = Some (Waiting CVWrite l) →
    w_active cfg.1 ≠ 0 ∨ 0 < r_active cfg.1 ∨
    ∃ j l', cfg.2 !! j = Some (Ready l') ∧ (0 < rwaits (Ready l') + wwaits (Ready l'))%nat
}.

(** What a clean segment does to the lock and whom it wakes. *)
Lemma seg_clean l s o s' ks : seg l (Mon s []) = Ok (o, Mon s' ks) → pc_clean l → 0 ≤ r_active s →
  clean (after o) ∧
  (∀ l', after o = Waiting CVRead l' → w_active s' ≠ 0) ∧
  (∀ l', after o = Waiting CVWrite l' → w_active s' ≠ 0 ∨ 0 < r_active s') ∧
  (match l with
   | PReadWait _ _ | PWriteWait _ _ => w_active s' ≠ 0 ∨ 0 < r_active s'
   | PLock (OWriteUnlock _) =>
       (0 < r_wait s ∧ ks = [Broadcast CVRead]) ∨
       (r_wait s ≤ 0 ∧ 0 < w_wait s ∧ ks = [Signal CVWrite]) ∨ (r_wait s ≤ 0 ∧ w_wait s ≤ 0)
   | PLock (OReadUnlock _) => w_active s' = w_active s ∧
       (r_active s' = r_active s - 1) ∧ (r_active s' = 0 → 0 < w_wait s → ks = [Signal CVWrite])
   | _ => True
   end) ∧
  (match l with
   | PLock (OWriteUnlock _) | PLock (OReadUnlock _) => True
   | _ => (w_active s ≠ 0 → w_active s' ≠ 0) ∧ (0 < r_active s → 0 < r_active s')
   end).
Proof.
  intros E Hl Hr. revert E.
  destruct l as [?|[]| | |]; simpl in Hl; try (match type of Hl with _ ∧ _ => destruct Hl end); subst;
    cbv [no_errors lockrc waitrc wakerc unlockrc cancelled]; run_seg; btests; repeat case_orb; unfold EBUSY in *;
    try lia;
    (split; [try done; by split|]); (split_and!; intros; simpl in *; simplify_eq; try done; try lia; auto).
Qed.

Lemma clean_resume t : clean t → clean (resume t).
Proof. by destruct t. Qed.

Lemma held_active cfg i l : rw_inv cfg → cfg.2 !! i = Some (Ready l) → (0 < rheld (Ready l))%nat → 0 < r_active cfg.1.
Proof. intros [_ Hc] Hi Hp. pose proof (total_lookup rheld _ _ _ Hi). destruct Hc. lia. Qed.

(** A waiting thread counts as a waiter of its kind. *)
Lemma waiting_counts cfg i c l : rw_inv cfg → cfg.2 !! i = Some (Waiting c l) →
  (c = CVRead → 0 < r_wait cfg.1) ∧ (c = CVWrite → 0 < w_wait cfg.1).
Proof.
  intros [Ht Hc] Hi. pose proof (Forall_lookup_1 _ _ _ _ Ht Hi) as Hok.
  pose proof (total_lookup rwaits _ _ _ Hi) as Hr. pose proof (total_lookup wwaits _ _ _ Hi) as Hww.
  destruct Hc. destruct c, l; simpl in Hok; try done;
    [change (rwaits _) with 1%nat in Hr|change (wwaits _) with 1%nat in Hww]; split; intros; try done; lia.
Qed.

(** Some thread waits to read: it is woken or it is in the condition wait. *)
Lemma reader_exists cfg : rw_inv cfg → 0 < r_wait cfg.1 →
  ∃ i cd cu, cfg.2 !! i = Some (Ready (PReadWait cd cu)) ∨ cfg.2 !! i = Some (Waiting CVRead (PReadWait cd cu)).
Proof.
  intros [Ht Hc] Hr. destruct (total_pos rwaits cfg.2) as (i & t & Hi & Hp).
  { destruct Hc. lia. }
  exists i. pose proof (Forall_lookup_1 _ _ _ _ Ht Hi) as Hok.
  destruct t as [l|c l|]; [destruct l|destruct c, l|]; unfold rwaits in Hp; simpl in Hok, Hp; try lia; try done; eauto.
Qed.

(** The writer that was woken, or the reader, is about to run. *)
Definition woken (ts : list rwthread) : Prop :=
  ∃ j l', ts !! j = Some (Ready l') ∧ (0 < rwaits (Ready l') + wwaits (Ready l'))%nat.

Lemma woken_other ts i l t : woken ts → ts !! i = Some (Ready l) →
  (0 < rwaits (Ready l) + wwaits (Ready l))%nat ∨ woken (<[i:=t]> ts).
Proof.
  intros (j & l' & Hj & Hp) Hi. destruct (decide (j = i)) as [->|Hne]; [left; by simplify_eq|].
  right. exists j, l'. by rewrite list_lookup_insert_ne.
Qed.

Lemma wakes_woken ks ts ts' : wakes ks ts ts' → woken ts → woken ts'.
Proof. intros Hw (j & l & Hj & Hp). exists j, l. split; [by eapply wakes_ready|done]. Qed.

(** A signal on [write] while a writer waits wakes a writer. *)
Lemma signal_woken ts ts' i j l l' t : Forall thread_ok ts → wakes [Signal CVWrite] ts ts' →
  ts !! i = Some (Ready l) → ts !! j = Some (Waiting CVWrite l') → woken (<[i:=t]> ts').
Proof.
  intros Ht Hw Hi Hj. destruct (wakes_signal_some _ _ _ _ _ Hw Hj) as (k & lk & Hk0 & Hk).
  assert (k ≠ i) by (intros ->; simplify_eq).
  exists k, lk. rewrite list_lookup_insert_ne by done. split; [done|].
  pose proof (Forall_lookup_1 _ _ _ _ Ht Hk0) as Hok.
  destruct lk; simpl in Hok; try done; unfold rwaits, wwaits; simpl; lia.
Qed.

Lemma progress_run s ts i l o s' ks ts' :
  ts !! i = Some (Ready l) → seg l (Mon s []) = Ok (o, Mon s' ks) → wakes ks ts ts' →
  valid s' = RWLOCK_VALID → progress (s, ts) → progress (s', <[i:=after o]> ts').
Proof.
  intros Hi E Hw Hv P. pose proof P as [Hinv Hcl Hrd Hwr]. cbn [fst snd] in *.
  pose proof (wakes_ready _ _ _ _ _ Hw Hi) as Hi'. pose proof (lookup_lt_Some _ _ _ Hi') as Hlt.
  assert (0 <= r_active s) as Hra by (destruct Hinv as [_ []]; simpl in *; lia).
  destruct (seg_clean l s o s' ks E (Forall_lookup_1 _ _ _ _ Hcl Hi) Hra) as (Ho & HbR & HbW & Hspec & Hmono).
  assert (∀ j c l', j ≠ i → <[i:=after o]> ts' !! j = Some (Waiting c l') → ts !! j = Some (Waiting c l')) as Hback.
  { intros j c l' Hne Hj. rewrite list_lookup_insert_ne in Hj by done. by eapply wakes_waiting. }
  split; simpl.
  - by eapply (rw_inv_step (s, ts)); [eapply step_run|..].
  - apply Forall_insert; [|done]. eapply wakes_forall; [apply clean_resume|done|done].
  - intros j l' Hj. destruct (decide (j = i)) as [->|Hne].
    { rewrite list_lookup_insert_eq in Hj by done. injection Hj as Hj. by eapply HbR. }
    pose proof (Hback _ _ _ Hne Hj) as Hj0. pose proof (Hrd _ _ Hj0) as Hwa.
    destruct l as [?|[]| | |]; try (by apply Hmono).
    + by destruct Hspec as (-> & _).
    + destruct (waiting_counts _ _ _ _ Hinv Hj0) as [Hrw _]. specialize (Hrw eq_refl). simpl in Hrw.
      destruct Hspec as [[_ ->]|[[? _]|[? _]]]; [|lia|lia].
      rewrite list_lookup_insert_ne in Hj by done. by apply wakes_broadcast_none with (i := j) (l := l') in Hw.
  - intros j l' Hj. change (∃ _, _) with (woken (<[i:=after o]> ts')). destruct (decide (j = i)) as [->|Hne].
    { rewrite list_lookup_insert_eq in Hj by done. injection Hj as Hj. destruct (HbW _ Hj); auto. }
    pose proof (Hback _ _ _ Hne Hj) as Hj0. pose proof (Hwr _ _ Hj0) as Hold.
    destruct (waiting_counts _ _ _ _ Hinv Hj0) as [_ Hww]. specialize (Hww eq_refl). simpl in Hww.
    destruct l as [?|[]| | |];
      try (destruct Hold as [Hold|[Hold|Hold]];
        [left; by apply Hmono|right; left; by apply Hmono|];
        destruct (woken_other ts' i _ (after o) (wakes_woken _ _ _ Hw Hold) Hi') as [Hk|]; [|by auto];
        first [unfold rwaits, wwaits in Hk; simpl in Hk; lia|destruct Hspec; by auto]).
    + pose proof (held_active _ _ _ Hinv Hi ltac:(unfold rheld; simpl; lia)) as Hpos. simpl in Hpos.
      destruct Hspec as (Ew & Er & Hsig). rewrite Ew, Er.
      destruct (decide (r_active s = 1)) as [H1|]; [|right; left].
      * right. right. rewrite (Hsig ltac:(lia) Hww) in Hw. 
        exact (signal_woken ts ts' i j _ _ _ (proj1 Hinv) Hw Hi Hj0).
      * lia.
    + right. right. destruct Hspec as [[Hr ->]|[(_ & _ & ->)|[_ ?]]]; [|exact (signal_woken ts ts' i j _ _ _ (proj1 Hinv) Hw Hi Hj0)|lia].
      destruct (reader_exists _ Hinv Hr) as (k & cd & cu' & [Hk|Hk]); simpl in Hk.
      * assert (woken ts) as Hkw by (exists k, (PReadWait cd cu'); split; [done|unfold rwaits; simpl; lia]).
        destruct (woken_other ts' i _ (after o) (wakes_woken _ _ _ Hw Hkw) Hi')
          as [Hx|]; [unfold rwaits, wwaits in Hx; simpl in Hx; lia|done].
      * assert (k ≠ i) by (intros ->; simplify_eq). destruct (wakes_lookup _ _ _ _ _ Hw Hk) as (t & Hk' & [-> | ->]).
        { by eapply wakes_broadcast_none in Hk'. }
        exists k, (PReadWait cd cu'). rewrite list_lookup_insert_ne by done. split; [done|]. unfold rwaits; simpl; lia.
Qed.

Lemma progress_reach cfg cfg' : reachable seg cfg cfg' → valid cfg'.1 = RWLOCK_VALID → progress cfg → progress cfg'.
Proof.
  induction 1 as [|x y z Hxy Hyz IH]; [done|]. intros Hvz Hx. apply (IH Hvz). clear IH.
  pose proof (reach_valid _ _ Hyz Hvz) as Hv.
  destruct Hxy as [s ts i l o s' ks ts' Hi E Hw|s ts i c l Hi]; [by eapply progress_run|].
  destruct Hx as [Hinv Hcl Hrd Hwr]. simpl in *. pose proof (lookup_lt_Some _ _ _ Hi) as Hlt.
  assert (∀ j c' l', <[i:=Ready l]> ts !! j = Some (Waiting c' l') → ts !! j = Some (Waiting c' l')) as Hback.
  { intros j c' l' Hj. destruct (decide (j = i)) as [->|]; [by rewrite list_lookup_insert_eq in Hj|].
    by rewrite list_lookup_insert_ne in Hj. }
  split; simpl.
  - by eapply (rw_inv_step (s, ts)); [eapply step_spurious|..].
  - apply Forall_insert; [done|]. apply (clean_resume (Waiting c l)). by eapply Forall_lookup_1.
  - intros j l' Hj. by eapply Hrd, Hback.
  - intros j l' Hj. destruct (Hwr _ _ (Hback _ _ _ Hj)) as [|[|(k & lk & Hk & Hp)]]; auto.
    right. right. exists k, lk. rewrite list_lookup_insert_ne; [done|]. intros ->. simplify_eq.
Qed.

(** With progress, somebody can always run while anybody waits. *)
Lemma progress_not_stuck cfg : progress cfg → ¬ stuck_waiting cfg.2.
Proof.
  intros [[Ht Hc] _ Hrd Hwr] [Hno Hex]. apply Exists_exists in Hex as (t & Hin & Hwt).
  apply list_elem_of_lookup in Hin as [i Hi]. destruct t as [|c l|]; try done.
  assert (∀ f, (∀ t, thread_ok t → (match t with Ready _ => False | _ => True end) → f t = 0%nat) → total f cfg.2 = 0%nat) as Hz.
  { intros f Hf. destruct (decide (total f cfg.2 = 0)%nat) as [|Hne]; [done|].
    destruct (total_pos f cfg.2) as (j & t & Hj & Hp); [lia|]. rewrite Hf in Hp; [lia|exact (Forall_lookup_1 _ _ _ _ Ht Hj)|exact (Forall_lookup_1 _ _ _ _ Hno Hj)]. }
  pose proof (Hz rheld ltac:(by intros [|[] []|])) as Hrh. pose proof (Hz wheld ltac:(by intros [|[] []|])) as Hwh.
  destruct Hc as [H1 H2 _ _ _ _ _]. rewrite Hrh in H1. rewrite Hwh in H2.
  destruct c; [by eapply Hrd|]. destruct (Hwr _ _ Hi) as [?|[?|(j & l' & Hj & _)]]; [lia|lia|].
  by apply (Forall_lookup_1 _ _ _ _ Hno) in Hj.
Qed.

(** ** Properties *)

(** Only [rwl_destroy] invalidates the lock, and only one that nobody holds or waits for. *)
Lemma seg_destroys l s o s' ks : seg l (Mon s []) = Ok (o, Mon s' ks) → valid s = RWLOCK_VALID →
  valid s' ≠ RWLOCK_VALID → r_active s ≤ 0 ∧ w_active s = 0 ∧ r_wait s = 0 ∧ w_wait s = 0.
Proof.
  intros E Hv Hv'. revert E Hv'. destruct l as [?|[]| | |]; run_seg; simpl; intros Hv'; try done; btests; by split_and!.
Qed.

(** The lock after [rwl_init], and threads that are about to lock it. *)
Definition fresh : rwlock_t := Rwlock RWLOCK_VALID 0 0 0 0 true.
Definition starting (t : rwthread) : Prop :=
  match t with
  | Ready (PTest (OReadLock _ _ | OReadTrylock _ _ | OWriteLock _ _ | OWriteTrylock _ _ | ODestroy _ _ _ _)) => True
  | _ => False
  end.

Lemma starting_inv ts : Forall starting ts → Forall thread_ok ts → rw_inv (fresh, ts).
Proof.
  intros Hs Ht. split; [done|]. simpl.
  assert (∀ f, (∀ t, starting t → f t = 0%nat) → total f ts = 0%nat) as Hz.
  { intros f Hf. clear Ht. induction Hs as [|t ts Ht _ IH]; [done|]. by rewrite total_cons, IH, Hf. }
  rewrite !Hz by (by intros [[[]|[]| | |]| |]). split; auto.
Qed.

Lemma starting_progress ts : Forall starting ts → Forall thread_ok ts → Forall clean ts → progress (fresh, ts).
Proof.
  intros Hs Ht Hc. split; [by apply starting_inv|done| |]; simpl; intros i l Hi;
    by apply (Forall_lookup_1 _ _ _ _ Hs) in Hi.
Qed.

(** A mixed set of threads for the witnesses. *)
Definition demo_threads : list rwthread :=
  [Ready (PTest (OWriteLock no_errors no_errors)); Ready (PTest (OReadLock no_errors no_errors));
   Ready (PTest (OWriteLock no_errors no_errors)); Ready (PTest (OReadTrylock no_errors no_errors))].

Lemma demo_threads_ok : Forall starting demo_threads ∧ Forall thread_ok demo_threads ∧ Forall clean demo_threads.
Proof. by repeat split; repeat constructor. Qed.

(** C12: whatever the threads do and whatever errors the waits and signals return, in every
    reachable configuration in which the lock is not destroyed, and so in every one when no
    client destroys it, no thread uses the mutex wrongly, [r_active] and [w_active] count
    exactly the threads that hold the lock for reading and for writing, [r_wait] and [w_wait]
    those inside the two wait loops, at most one thread holds it for writing, and then none
    holds it for reading; and a thread destroys it only when nobody holds it or waits. *)
Theorem rwl_exclusion ts cfg :
  Forall starting ts → Forall thread_ok ts → reachable seg (fresh, ts) cfg →
  Forall keeps ts ∨ valid cfg.1 = RWLOCK_VALID →
  ¬ faulty seg cfg ∧
  r_active cfg.1 = Z.of_nat (total rheld cfg.2) ∧ w_active cfg.1 = Z.of_nat (total wheld cfg.2) ∧
  r_wait cfg.1 = Z.of_nat (total rwaits cfg.2) ∧ w_wait cfg.1 = Z.of_nat (total wwaits cfg.2) ∧
  (total wheld cfg.2 = 0%nat ∨ (total wheld cfg.2 = 1%nat ∧ total rheld cfg.2 = 0%nat)) ∧
  (∀ i l o s' ks, cfg.2 !! i = Some (Ready l) → seg l (Mon cfg.1 []) = Ok (o, Mon s' ks) → valid s' ≠ RWLOCK_VALID →
     (total rheld cfg.2 + total wheld cfg.2 + total rwaits cfg.2 + total wwaits cfg.2 = 0)%nat).
Proof.
  intros Hs Ht Hr Hk. assert (valid cfg.1 = RWLOCK_VALID) as Hv.
  { destruct Hk as [Hk|]; [by rewrite (keeps_valid _ _ Hr Hk)|done]. }
  destruct (rw_inv_reach _ _ Hr Hv (starting_inv _ Hs Ht)) as [Hok [H1 H2 H3 H4 H5 H6 H7]].
  split; [intros (i & l & f & Hi & E); by eapply seg_no_fault|]. split_and!; [done..|].
  intros i l o s' ks Hi E Hv'. destruct (seg_destroys _ _ _ _ _ E Hv Hv'). lia.
Qed.

(** After the first writer took the lock and a reader and a writer wait. *)
Definition demo_mid : rwlock_t * list rwthread :=
  (Rwlock RWLOCK_VALID 0 1 1 1 true,
   [Ready (PTest (OWriteUnlock no_errors)); Waiting CVRead (PReadWait no_errors no_errors);
    Waiting CVWrite (PWriteWait no_errors no_errors); Ready (PTest (OReadTrylock no_errors no_errors))]).

Lemma demo_mid_reachable : reachable seg (fresh, demo_threads) demo_mid.
Proof.
  apply (run_schedule_sound seg [(0%nat, []); (0%nat, []); (1%nat, []); (1%nat, []); (2%nat, []); (2%nat, [])]). by vm_compute.
Qed.

Lemma rwl_exclusion_witness :
  ¬ faulty seg demo_mid ∧
  0 = Z.of_nat (total rheld demo_mid.2) ∧ 1 = Z.of_nat (total wheld demo_mid.2) ∧
  1 = Z.of_nat (total rwaits demo_mid.2) ∧ 1 = Z.of_nat (total wwaits demo_mid.2) ∧
  (total wheld demo_mid.2 = 0%nat ∨ (total wheld demo_mid.2 = 1%nat ∧ total rheld demo_mid.2 = 0%nat)) ∧
  (∀ i l o s' ks, demo_mid.2 !! i = Some (Ready l) → seg l (Mon demo_mid.1 []) = Ok (o, Mon s' ks) → valid s' ≠ RWLOCK_VALID →
     (total rheld demo_mid.2 + total wheld demo_mid.2 + total rwaits demo_mid.2 + total wwaits demo_mid.2 = 0)%nat).
Proof.
  destruct demo_threads_ok as (H1 & H2 & _).
  exact (rwl_exclusion demo_threads demo_mid H1 H2 demo_mid_reachable (or_intror eq_refl)).
Defined.

(** C13: without errors and cancellation no wake-up is lost: in every reachable configuration
    in which a thread waits and the lock is not destroyed, some thread can run without a
    spurious wake-up; when no client destroys the lock this holds throughout. *)
Theorem rwl_no_lost_wakeup ts cfg :
  Forall starting ts → Forall thread_ok ts → Forall clean ts → reachable seg (fresh, ts) cfg →
  Forall keeps ts ∨ valid cfg.1 = RWLOCK_VALID →
  ¬ stuck_waiting cfg.2.
Proof.
  intros Hs Ht Hc Hr Hk. assert (valid cfg.1 = RWLOCK_VALID) as Hv.
  { destruct Hk as [Hk|]; [by rewrite (keeps_valid _ _ Hr Hk)|done]. }
  by eapply progress_not_stuck, progress_reach, starting_progress.
Qed.

Lemma rwl_no_lost_wakeup_witness : ¬ stuck_waiting demo_mid.2.
Proof.
  destruct demo_threads_ok as (H1 & H2 & H3).
  apply (rwl_no_lost_wakeup demo_threads demo_mid H1 H2 H3 demo_mid_reachable). left. repeat constructor.
Defined.

(** A reader, a client that destroys the lock, and a writer. *)
Definition racing_threads : list rwthread :=
  [Ready (PTest (OReadLock no_errors no_errors)); Ready (PTest (ODestroy no_errors 0 0 0));
   Ready (PTest (OWriteLock no_errors no_errors))].

(** [valid] is tested before the mutex is locked.  A reader that passed the test locks the
    mutex after another thread destroyed it; or it gets the lock just before, and then its
    unlock is refused with [EINVAL], so that the lock counts a reader that is gone and a
    writer that passed the test waits for ever. *)
Theorem rwl_destroy_races :
  (∃ cfg, reachable seg (fresh, racing_threads) cfg ∧ faulty seg cfg) ∧
  reachable seg (fresh, racing_threads)
    (Rwlock 0 1 0 0 1 false,
     [Finished (RStatus EINVAL); Finished (RStatus 0); Waiting CVWrite (PWriteWait no_errors no_errors)]).
Proof.
  split.
  - exists (Rwlock 0 0 0 0 0 false,
      [Ready (PLock (OReadLock no_errors no_errors)); Finished (RStatus 0); Ready (PTest (OWriteLock no_errors no_errors))]).
    split; [|by exists 0%nat, (PLock (OReadLock no_errors no_errors)), (UB "use of a destroyed mutex")].
    apply (run_schedule_sound seg [(0%nat, []); (1%nat, []); (1%nat, []); (1%nat, [])]). by vm_compute.
  - apply (run_schedule_sound seg
      [(0%nat, []); (2%nat, []); (1%nat, []); (1%nat, []); (0%nat, []); (2%nat, []); (0%nat, []); (1%nat, [])]).
    by vm_compute.
Qed.

(** A reader that is cancelled in its wait. *)
Definition cancelled_reader : pc := PTest (OReadLock (Codes 0 0 0 0 true) no_errors).

(** Cancellation loses a wake-up: when a cancelled reader has not run its cleanup yet,
    [r_wait] still counts it, so [rwl_writeunlock] broadcasts to the readers and does not
    signal the waiting writer; the writer then waits on a free lock and no thread is left
    that would wake it. *)
Theorem rwl_cancelled_reader_loses_wakeup :
  reachable seg
    (fresh, [Ready (PTest (OWriteLock no_errors no_errors)); Ready cancelled_reader; Ready (PTest (OWriteLock no_errors no_errors))])
    (Rwlock RWLOCK_VALID 0 0 0 1 true,
     [Finished (RStatus 0); Finished RCancelled; Waiting CVWrite (PWriteWait no_errors no_errors)]).
Proof.
  etrans; [apply (run_schedule_sound seg [(0%nat, []); (0%nat, []); (1%nat, []); (1%nat, []); (2%nat, []); (2%nat, [])]); by vm_compute|].
  (* the cancellation unblocks the reader *)
  eapply rtc_l; [by apply (step_spurious seg _ _ 1%nat CVRead (PReadWait (Codes 0 0 0 0 true) no_errors))|].
  apply (run_schedule_sound seg [(0%nat, []); (0%nat, []); (1%nat, [])]). by vm_compute.
Qed.

(** The try variants never wait: they return [EBUSY] exactly when the lock is taken in
    a conflicting mode, and take it otherwise. *)
Theorem rwl_trylock_spec l cd cu : mutex l = true → lockrc cd = 0 → unlockrc cd = 0 →
  rwl_readtrylock cd cu (Mon l []) =
    (if w_active l =? 0 then Ok (Next (PTest (OReadUnlock cu)), Mon (set_r_active (r_active l + 1) l) [])
     else Ok (Done (RStatus EBUSY), Mon l [])) ∧
  rwl_writetrylock cd cu (Mon l []) =
    (if (w_active l =? 0) && (r_active l <=? 0) then Ok (Next (PTest (OWriteUnlock cu)), Mon (set_w_active 1 l) [])
     else Ok (Done (RStatus EBUSY), Mon l [])).
Proof.
  intros Hm Hl Hu. cbv [rwl_readtrylock rwl_writetrylock lock with_mutex hold ret mbind M_bind mret M_ret sgets gets
    smodify modify sh wk]. rewrite Hm, Hl, Hu, Z.leb_antisym. simpl.
  destruct (w_active l =? 0), (0 <? r_active l); done.
Qed.

Lemma rwl_trylock_spec_witness :
  rwl_readtrylock no_errors no_errors (Mon fresh []) =
    Ok (Next (PTest (OReadUnlock no_errors)), Mon (Rwlock RWLOCK_VALID 1 0 0 0 true) []) ∧
  rwl_writetrylock no_errors no_errors (Mon fresh []) =
    Ok (Next (PTest (OWriteUnlock no_errors)), Mon (Rwlock RWLOCK_VALID 0 1 0 0 true) []).
Proof. apply (rwl_trylock_spec fresh no_errors no_errors); reflexivity. Defined.

(** [rwl_destroy] refuses with [EBUSY] while the lock is held or waited for and leaves
    it alone; otherwise it invalidates the lock, but then it returns 0 whenever the mutex or
    the [read] variable was destroyed, so an error of the other two calls is dropped. *)
Theorem rwl_destroy_spec l mutexrc readrc writerc : mutex l = true →
  0 ≤ r_active l → 0 ≤ w_active l → 0 ≤ r_wait l → 0 ≤ w_wait l →
  rwl_destroy no_errors mutexrc readrc writerc (Mon l []) =
    (if r_active l + w_active l + r_wait l + w_wait l =? 0
     then Ok (Next (PDestroyEnd mutexrc readrc writerc), Mon (set_valid 0 l) [])
     else Ok (Done (RStatus EBUSY), Mon l [])) ∧
  destroy_end mutexrc readrc writerc (Mon l []) =
    Ok (Done (RStatus (if (mutexrc =? 0) || (readrc =? 0) then 0 else writerc)),
        Mon (if mutexrc =? 0 then set_mutex false l else l) []).
Proof.
  intros Hm H1 H2 H3 H4. cbv [rwl_destroy destroy_end lock with_mutex when ret mbind M_bind mret M_ret sgets gets smodify modify sh wk].
  rewrite Hm. simpl. split.
  - destruct (Z.ltb_spec 0 (r_active l)), (Z.eqb_spec (w_active l) 0), (Z.eqb_spec (r_wait l) 0), (Z.eqb_spec (w_wait l) 0),
      (Z.eqb_spec (r_active l + w_active l + r_wait l + w_wait l) 0); simpl; try lia; done.
  - destruct (Z.eqb_spec mutexrc 0) as [->|]; [done|]. destruct (Z.eqb_spec readrc 0) as [->|]; done.
Qed.

Lemma rwl_destroy_spec_witness :
  rwl_destroy no_errors 0 EINVAL EINVAL (Mon fresh []) = Ok (Next (PDestroyEnd 0 EINVAL EINVAL), Mon (set_valid 0 fresh) []) ∧
  destroy_end 0 EINVAL EINVAL (Mon fresh []) = Ok (Done (RStatus 0), Mon (set_mutex false fresh) []).
Proof. apply (rwl_destroy_spec fresh 0 EINVAL EINVAL); reflexivity || (simpl; lia). Defined.
