(* ===== verification/Barrier.v ===== *)
(** The barrier of [programs/barrier.c]: the [barrier_t], its operations, and threads that
    pass it in rounds. *)
From S2P Require Import Prelude CLib Monitor.

(** ** The barrier *)

Definition BARRIER_VALID : Z := 14404350.

Record barrier_t := Barrier { valid : Z; threshold : Z; counter : Z; cycle : Z }.

(** What the pthread calls return: the lock, the wait, the broadcast. *)
Record codes := Codes { lockrc : Z; waitrc : Z; wakerc : Z }.
Definition no_errors : codes := Codes 0 0 0.

(** A thread that calls [barrier_wait] [rounds] more times; [acc] are the statuses its calls
    returned so far.  At [PInside] it is in the condition wait with the cycle it remembers. *)
Inductive pc :=
  | PEnter (cd : codes) (rounds : nat) (acc : list Z)
  | PInside (cd : codes) (mycycle : Z) (rounds : nat) (acc : list Z).

Abbreviation bM := (M (mon () barrier_t)).
Abbreviation bout := (outcome () pc (list Z)).
Abbreviation bthread := (thread () pc (list Z)).

(** The caller records the status and calls again, unless the call failed. *)
Definition returned (status : Z) (cd : codes) (rounds : nat) (acc : list Z) : bM bout :=
  let acc' := acc ++ [status] in
  if (status =? 0) || (status =? -1) then
    match rounds with
    | O | S O => mret (Done acc')
    | S r => mret (Next (PEnter cd r acc'))
    end
  else mret (Done acc').

Definition barrier_init (count mutexrc cvrc : Z) (b : barrier_t) : Z * barrier_t :=
  let b' := Barrier (valid b) count count 0 in
  if negb (mutexrc =? 0) then (mutexrc, b') else
  if negb (cvrc =? 0) then (cvrc, b') else
  (0, Barrier BARRIER_VALID count count 0).

(** The status and the barrier after [barrier_destroy]. *)
Definition barrier_destroy (lockrc unlockrc mutexrc cvrc : Z) (b : barrier_t) : Z * barrier_t :=
  if negb (valid b =? BARRIER_VALID) then (EINVAL, b) else
  if negb (lockrc =? 0) then (lockrc, b) else
  if negb (counter b =? threshold b) then (EBUSY, b) else
  let b' := Barrier 0 (threshold b) (counter b) (cycle b) in
  if negb (unlockrc =? 0) then (unlockrc, b') else
  (if mutexrc =? 0 then mutexrc else cvrc, b').

(** The [while] loop with the wait. *)
Definition wait_loop (cd : codes) (mycycle : Z) (rounds : nat) (acc : list Z) : bM bout :=
  c ← sgets cycle;
  if mycycle =? c then mret (Block () (PInside cd mycycle rounds acc)) else returned 0 cd rounds acc.

Definition barrier_wait (cd : codes) (rounds : nat) (acc : list Z) : bM bout :=
  b ← sgets (λ b, b);
  if negb (valid b =? BARRIER_VALID) then returned EINVAL cd rounds acc else
  if negb (lockrc cd =? 0) then returned (lockrc cd) cd rounds acc else
  let mycycle := cycle b in
  let n := counter b - 1 in
  if n =? 0 then
    _ ← smodify (λ b, Barrier (valid b) (threshold b) (threshold b) (if cycle b =? 0 then 1 else 0));
    _ ← when (wakerc cd =? 0) (cond_broadcast ());
    returned (if wakerc cd =? 0 then -1 else wakerc cd) cd rounds acc
  else
    _ ← smodify (λ b, Barrier (valid b) (threshold b) n (cycle b));
    wait_loop cd mycycle rounds acc.

(** A thread comes back from [pthread_cond_wait]. *)
Definition wait_resume (cd : codes) (mycycle : Z) (rounds : nat) (acc : list Z) : bM bout :=
  if negb (waitrc cd =? 0) then returned (waitrc cd) cd rounds acc else wait_loop cd mycycle rounds acc.

Definition seg (p : pc) : bM bout :=
  match p with
  | PEnter cd rounds acc => barrier_wait cd rounds acc
  | PInside cd c rounds acc => wait_resume cd c rounds acc
  end.

(** ** Generations *)

Definition acc_of (t : bthread) : list Z :=
  match t with
  | Ready (PEnter _ _ acc) | Waiting _ (PEnter _ _ acc) => acc
  | Ready (PInside _ _ _ acc) | Waiting _ (PInside _ _ _ acc) => acc
  | Finished acc => acc
  end.

(** How often a thread has come to the barrier. *)
Definition arrived (t : bthread) : nat :=
  match t with
  | Ready (PInside _ _ _ acc) | Waiting _ (PInside _ _ _ acc) => S (length acc)
  | _ => length (acc_of t)
  end.

Definition parity (g : nat) : Z := Z.of_nat g mod 2.

Lemma parity_S g : parity (S g) = if parity g =? 0 then 1 else 0.
Proof.
  unfold parity. pose proof (Z.mod_pos_bound (Z.of_nat g) 2 ltac:(lia)).
  rewrite Nat2Z.inj_succ, <- Z.add_1_r, Z.add_mod by lia. change (1 mod 2) with 1.
  destruct (Z.eqb_spec (Z.of_nat g mod 2) 0) as [->|]; [done|].
  replace (Z.of_nat g mod 2) with 1 by lia. done.
Qed.

Lemma parity_ne g : parity g ≠ parity (S g).
Proof. rewrite parity_S. destruct (Z.eqb_spec (parity g) 0); lia. Qed.

(** The place of a thread when [g] generations are complete, each thread passing [R] times. *)
Inductive place (R g : nat) : bthread → Prop :=
  | place_enter r acc : length acc = g → (r + g = R)%nat → (0 < r)%nat → place R g (Ready (PEnter no_errors r acc))
  | place_wait r acc : length acc = g → (r + g = R)%nat → (0 < r)%nat →
      place R g (Waiting () (PInside no_errors (parity g) r acc))
  | place_awake r acc : length acc = g → (r + g = R)%nat → (0 < r)%nat →
      place R g (Ready (PInside no_errors (parity g) r acc))
  | place_released r acc g' : g = S g' → length acc = g' → (r + g' = R)%nat → (0 < r)%nat →
      place R g (Ready (PInside no_errors (parity g') r acc))
  | place_finished acc : length acc = g → g = R → place R g (Finished acc).

(** The threads that came to generation [g] and are not released. *)
Definition inside (g : nat) (t : bthread) : nat :=
  match t with
  | Ready (PInside _ _ _ acc) | Waiting _ (PInside _ _ _ acc) => if decide (length acc = g) then 1 else 0
  | _ => 0
  end.
Definition outside (g : nat) (t : bthread) : nat := 1 - inside g t.
(** The thread got -1 in round [k]. *)
Definition serial (k : nat) (t : bthread) : nat :=
  if decide (acc_of t !! k = Some (-1)) then 1 else 0.

Record binv (R g : nat) (cfg : barrier_t * list bthread) : Prop := {
  bi_valid : valid cfg.1 = BARRIER_VALID;
  bi_threshold : threshold cfg.1 = zlen cfg.2;
  bi_cycle : cycle cfg.1 = parity g;
  bi_counter : counter cfg.1 = zlen cfg.2 - Z.of_nat (total (inside g) cfg.2);
  bi_inside : (total (inside g) cfg.2 < length cfg.2)%nat;
  bi_place : Forall (place R g) cfg.2;
  bi_status : Forall (λ t, Forall (λ st, st = 0 ∨ st = -1) (acc_of t)) cfg.2;
  bi_serial : ∀ k, total (serial k) cfg.2 = if decide (k < g)%nat then 1%nat else 0%nat
}.

(** ** The generations are kept *)

Lemma returned_ok st r acc m R : (st = 0 ∨ st = -1) → (0 < r)%nat → (r + length acc = R)%nat →
  ∃ o, returned st no_errors r acc m = Ok (o, m) ∧ place R (S (length acc)) (after o) ∧
    acc_of (after o) = acc ++ [st] ∧ (∀ g, inside g (after o) = 0%nat) ∧ ∀ c l, after o ≠ Waiting c l.
Proof.
  intros Hs Hr HR. unfold returned.
  replace ((st =? 0) || (st =? -1)) with true by by destruct Hs as [-> | ->].
  assert (length (acc ++ [st]) = S (length acc)) as Hl by (rewrite length_app; simpl; lia).
  destruct r as [|[|r]]; [lia| |]; (eexists; split; [reflexivity|]); split_and!; try done; constructor; simpl; lia.
Qed.

Lemma acc_of_resume t : acc_of (resume t) = acc_of t.
Proof. by destruct t as [|[]|]. Qed.
Lemma serial_resume k t : serial k (resume t) = serial k t.
Proof. unfold serial. by rewrite acc_of_resume. Qed.
Lemma inside_resume g t : inside g (resume t) = inside g t.
Proof. by destruct t as [|[] []|]. Qed.

(** When all but one thread are inside, the others are the ones inside. *)
Lemma total_outside g ts : (total (inside g) ts + total (outside g) ts = length ts)%nat.
Proof.
  induction ts as [|t ts IH]; [done|]. rewrite !total_cons. simpl. unfold outside at 1.
  assert (inside g t ≤ 1)%nat; [|lia]. destruct t as [[]|? []|]; simpl; try lia; by case_decide; lia.
Qed.

Lemma all_inside g ts i t : total (inside g) ts = (length ts - 1)%nat → ts !! i = Some t → inside g t = 0%nat →
  ∀ j u, j ≠ i → ts !! j = Some u → inside g u ≠ 0%nat.
Proof.
  intros Ht Hi H0 j u Hne Hj Hu. pose proof (total_outside g ts). pose proof (lookup_lt_Some _ _ _ Hi).
  pose proof (total_two (outside g) ts j i u t Hne Hj Hi) as H2.
  assert (outside g t = 1%nat ∧ outside g u = 1%nat) as [E1 E2] by (unfold outside; lia). lia.
Qed.

Section step.
Context (R g : nat) (s : barrier_t) (ts : list bthread) (i : nat).

(** The running thread gets status 0 and stays in generation [g], or blocks in it. *)
Lemma binv_insert s' t u : binv R g (s, ts) → ts !! i = Some t → place R g u →
  Forall (λ st, st = 0 ∨ st = -1) (acc_of u) →
  (∀ k, serial k u = serial k t) →
  valid s' = BARRIER_VALID → threshold s' = threshold s → cycle s' = cycle s →
  counter s' = counter s + Z.of_nat (inside g t) - Z.of_nat (inside g u) →
  (total (inside g) ts + inside g u < length ts + inside g t)%nat →
  binv R g (s', <[i:=u]> ts).
Proof.
  intros [H1 H2 H3 H4 H5 H6 H7 H8] Hi Hp Ha Hser Hv Ht Hc Hn Hlt. simpl in *.
  destruct (total_split (inside g) ts i t Hi) as (rest & E & F).
  split; simpl; try congruence.
  - unfold zlen in *. rewrite length_insert. congruence.
  - unfold zlen in *. rewrite length_insert, F. lia.
  - rewrite length_insert, F. lia.
  - by apply Forall_insert.
  - by apply Forall_insert.
  - intros k. rewrite <- H8. pose proof (total_insert (serial k) ts i t u Hi). rewrite Hser in *. lia.
Qed.
End step.

Lemma serial_app k acc st t u : acc_of t = acc → acc_of u = acc ++ [st] →
  serial k u = if decide (k = length acc) then (if decide (st = (-1)%Z) then 1 else 0)%nat else serial k t.
Proof.
  intros Ht Hu. unfold serial. rewrite Ht, Hu. destruct (decide (k = length acc)) as [->|Hne].
  - rewrite list_lookup_middle by done. repeat case_decide; simplify_eq; done.
  - destruct (decide (k < length acc)%nat); [by rewrite lookup_app_l|].
    rewrite !lookup_ge_None_2; [done| |rewrite length_app; simpl]; lia.
Qed.

(** The last thread of a generation arrives. *)
Lemma binv_complete R g s ts ts' i r acc u : binv R g (s, ts) →
  ts !! i = Some (Ready (PEnter no_errors r acc)) → length acc = g →
  total (inside g) ts = (length ts - 1)%nat → wakes [Broadcast ()] ts ts' →
  place R (S g) u → acc_of u = acc ++ [-1] → inside (S g) u = 0%nat →
  binv R (S g) (Barrier (valid s) (threshold s) (threshold s) (if cycle s =? 0 then 1 else 0), <[i:=u]> ts').
Proof.
  intros [H1 H2 H3 H4 H5 H6 H7 H8] Hi Hl Htot Hw Hp Ha Hu. simpl in *.
  pose proof (wakes_ready _ _ _ _ _ Hw Hi) as Hi'. pose proof (wakes_length _ _ _ Hw) as Hlen.
  pose proof (lookup_lt_Some _ _ _ Hi') as Hlt.
  assert (∀ j t, j ≠ i → ts' !! j = Some t → place R (S g) t ∧ inside (S g) t = 0%nat ∧ length (acc_of t) = g ∧
    Forall (λ st, st = 0 ∨ st = -1) (acc_of t)) as Hothers.
  { intros j t' Hne Hj. assert (is_Some (ts !! j)) as [t Ht].
    { apply lookup_lt_is_Some. rewrite <- Hlen. by eapply lookup_lt_Some. }
    pose proof (all_inside g ts i _ Htot Hi eq_refl j t Hne Ht) as Hin.
    pose proof (Forall_lookup_1 _ _ _ _ H6 Ht) as Hpl. pose proof (Forall_lookup_1 _ _ _ _ H7 Ht) as Hst.
    destruct (wakes_lookup _ _ _ _ _ Hw Ht) as (t2 & Hj2 & Ht2).
    rewrite Hj in Hj2. injection Hj2 as <-.
    destruct Hpl as [r0 a0 E0 E1 E2|r0 a0 E0 E1 E2|r0 a0 E0 E1 E2|r0 a0 g' Eg E0 E1 E2|a0 E0 E1]; simpl in Hin; try done.
    - destruct Ht2 as [->| ->]; [by apply wakes_broadcast_none with (i := j) (l := PInside no_errors (parity g) r0 a0) in Hw|].
      simpl. split_and!; try done; [by econstructor|]. rewrite decide_False; [done|lia].
    - assert (t' = Ready (PInside no_errors (parity g) r0 a0)) as -> by by destruct Ht2.
      simpl. split_and!; try done; [by econstructor|]. rewrite decide_False; [done|lia].
    - rewrite decide_False in Hin; [done|lia]. }
  assert (∀ P : bthread → Prop, P u → (∀ j t, j ≠ i → ts' !! j = Some t → P t) → Forall P (<[i:=u]> ts')) as HF.
  { intros P Pu Pt. apply Forall_lookup. intros j t Hj. destruct (decide (j = i)) as [->|Hne].
    - rewrite list_lookup_insert_eq in Hj by done. by injection Hj as <-.
    - rewrite list_lookup_insert_ne in Hj by done. by apply (Pt j t). }
  assert (total (inside (S g)) (<[i:=u]> ts') = 0%nat) as Hz.
  { apply total_zero, HF; [done|]. intros j t Hne Hj. by apply (Hothers j t). }
  assert (Forall (λ st, st = 0 ∨ st = -1) acc) as Hacc by apply (Forall_lookup_1 _ _ _ _ H7 Hi).
  split; cbn [fst snd valid threshold counter cycle]; try congruence.
  - unfold zlen in *. rewrite length_insert. congruence.
  - by rewrite H3, parity_S.
  - rewrite Hz. unfold zlen in *. rewrite length_insert. lia.
  - rewrite Hz, length_insert. lia.
  - apply HF; [done|]. intros j t Hne Hj. by apply (Hothers j t).
  - apply HF; [rewrite Ha; apply Forall_app; split; [done|by repeat constructor; right]|].
    intros j t Hne Hj. by apply (Hothers j t).
  - intros k. destruct (total_split (serial k) ts' i _ Hi') as (rest & E & F). rewrite F.
    rewrite (serial_app k acc (-1) (Ready (PEnter no_errors r acc)) u eq_refl Ha), Hl.
    rewrite (total_wakes (serial k) _ _ _ (serial_resume k) Hw), H8 in E.
    destruct (decide (k = g)) as [->|Hne]; [|repeat case_decide; lia].
    rewrite decide_False in E by lia. rewrite (decide_True _ _ (eq_refl (-1))), (decide_True (P := (g < S g)%nat)) by lia. lia.
Qed.

Lemma wakes_nil_inv {CV L R} `{EqDecision CV} (ts ts' : list (thread CV L R)) : wakes [] ts ts' → ts' = ts.
Proof. by inversion 1. Qed.

Lemma binv_step R g cfg cfg' : step seg cfg cfg' → binv R g cfg → ∃ g', (g ≤ g')%nat ∧ binv R g' cfg'.
Proof.
  destruct 1 as [s ts i l o s' ks ts' Hi E Hw|s ts i c l Hi]; intros B.
  2:{ exists g. split; [done|]. pose proof (Forall_lookup_1 _ _ _ _ (bi_place _ _ _ B) Hi) as Hp. simpl in Hp.
      pose proof (Forall_lookup_1 _ _ _ _ (bi_status _ _ _ B) Hi) as Hst.
      inversion Hp as [|r acc E0 E1 E2| | |]; subst c l.
      eapply binv_insert; [exact B|exact Hi|by constructor|done|done|apply B|done|done| |]; simpl; [lia|].
      pose proof (bi_inside _ _ _ B). simpl in *. lia. }
  pose proof B as [H1 H2 H3 H4 H5 H6 H7 H8]. simpl in *.
  pose proof (Forall_lookup_1 _ _ _ _ H6 Hi) as Hp. pose proof (Forall_lookup_1 _ _ _ _ H7 Hi) as Hst.
  inversion Hp as [r acc E0 E1 E2| |r acc E0 E1 E2|r acc g' Eg E0 E1 E2|]; subst l; simpl in E, Hst.
  - (* arrives *)
    revert E. unfold barrier_wait, sgets. rewrite bind_gets. cbn [sh]. rewrite H1, Z.eqb_refl.
    cbn [negb lockrc no_errors wakerc]. rewrite Z.eqb_refl. cbn [negb]. unfold smodify, cond_broadcast.
    destruct (Z.eqb_spec (counter s - 1) 0) as [Hn|Hn]; rewrite bind_modify; cbn [sh wk].
    + change (0 =? 0) with true. cbn [when]. rewrite bind_modify. cbn [sh wk app].
      destruct (returned_ok (-1) r acc (Mon (Barrier (valid s) (threshold s) (threshold s) (if cycle s =? 0 then 1 else 0)) [Broadcast ()]) R)
        as (o' & -> & Hpo & Hao & Hino & _); [by right|done|lia|].
      intros [= <- <- <-]. exists (S g). split; [lia|]. rewrite E0 in Hpo.
      eapply binv_complete; [exact B|exact Hi|done| |done|done|done|done]. simpl. unfold zlen in *. lia.
    + unfold wait_loop, sgets. rewrite bind_gets. cbn [sh cycle]. rewrite Z.eqb_refl.
      intros [= <- <- <-]. apply wakes_nil_inv in Hw as ->. exists g. split; [done|].
      eapply binv_insert; [exact B|exact Hi| |done|done|done|done|done| |]; simpl; rewrite ?H3; [by constructor|..];
        rewrite (decide_True _ _ E0); unfold zlen in *; lia.
  - (* woken too early *)
    revert E. unfold wait_resume, wait_loop, sgets. cbn [negb waitrc no_errors]. rewrite Z.eqb_refl. cbn [negb].
    rewrite bind_gets. cbn [sh]. rewrite H3, Z.eqb_refl. intros [= <- <- <-]. apply wakes_nil_inv in Hw as ->.
    exists g. split; [done|].
    eapply binv_insert; [exact B|exact Hi|by constructor|done|done|done|done|done| |]; simpl; lia.
  - (* released *)
    revert E. unfold wait_resume, wait_loop, sgets. cbn [negb waitrc no_errors]. rewrite Z.eqb_refl. cbn [negb].
    rewrite bind_gets. cbn [sh]. rewrite H3, Eg, (proj2 (Z.eqb_neq _ _) (parity_ne g')).
    destruct (returned_ok 0 r acc (Mon s []) R) as (o' & -> & Hpo & Hao & Hino & _); [by left|done|lia|].
    intros [= <- <- <-]. apply wakes_nil_inv in Hw as ->. exists g. split; [lia|]. rewrite E0, <- Eg in Hpo.
    eapply binv_insert; [exact B|exact Hi|done| | |done|done|done| |]; simpl.
    + rewrite Hao. apply Forall_app. split; [done|by repeat constructor].
    + intros k. rewrite (serial_app k acc 0 (Ready (PInside no_errors (parity g') r acc)) _ eq_refl Hao).
      case_decide as Hk; [|done]. unfold serial. simpl. rewrite lookup_ge_None_2 by lia. done.
    + rewrite Hino, decide_False by lia. lia.
    + rewrite Hino, decide_False by lia. lia.
Qed.

(** ** Properties *)

(** [N] threads that pass the new barrier [R] times each. *)
Definition crowd (N R : nat) (b : barrier_t) : barrier_t * list bthread :=
  ((barrier_init (Z.of_nat N) 0 0 b).2, replicate N (Ready (PEnter no_errors R []))).

Lemma total_const {CV L R'} (f : thread CV L R' → nat) n t : f t = 0%nat → total f (replicate n t) = 0%nat.
Proof. intros H. apply total_zero, Forall_replicate. done. Qed.

Lemma binv_crowd N R b : (0 < N)%nat → (0 < R)%nat → binv R 0 (crowd N R b).
Proof.
  intros HN HR. assert (zlen (replicate N (Ready (PEnter no_errors R [])) : list bthread) = Z.of_nat N) as Hz
    by (unfold zlen; by rewrite length_replicate).
  assert (∀ g, total (inside g) (replicate N (Ready (PEnter no_errors R []))) = 0%nat) as H0 by (intros; by apply total_const).
  split; cbn [crowd fst snd barrier_init valid threshold counter cycle negb]; rewrite ?Hz, ?H0, ?length_replicate; try done.
  - simpl. lia.
  - apply Forall_replicate. by constructor.
  - apply Forall_replicate. constructor.
  - intros k. rewrite total_const; [done|]. done.
Qed.

Lemma reachable_binv R cfg cfg' : reachable seg cfg cfg' → ∀ g, binv R g cfg → ∃ g', binv R g' cfg'.
Proof.
  induction 1 as [|x y z Hxy _ IH]; intros g B; [by exists g|].
  destruct (binv_step _ _ _ _ Hxy B) as (g' & _ & B'). by apply (IH g').
Qed.

(** C14: [threshold] threads that call [barrier_wait] in rounds meet at every round.  No call
    of round k returns before every thread has made its call of round k; when all threads
    are done each has R statuses, and of the calls of a round one returns -1 and the
    others 0. *)
Theorem barrier_rounds N R b s ts : (0 < N)%nat → (0 < R)%nat → reachable seg (crowd N R b) (s, ts) →
  (∀ i j t u, ts !! i = Some t → ts !! j = Some u → (length (acc_of t) ≤ arrived u)%nat) ∧
  ((∀ i t, ts !! i = Some t → ∃ acc, t = Finished acc) →
    Forall (λ t, length (acc_of t) = R ∧ Forall (λ st, st = 0 ∨ st = -1) (acc_of t)) ts ∧
    ∀ k, (k < R)%nat → total (serial k) ts = 1%nat).
Proof.
  intros HN HR Hr. destruct (reachable_binv R _ _ Hr 0 (binv_crowd N R b HN HR)) as [g B].
  split.
  - intros i j t u Hi Hj. pose proof (Forall_lookup_1 _ _ _ _ (bi_place _ _ _ B) Hi) as Ht.
    pose proof (Forall_lookup_1 _ _ _ _ (bi_place _ _ _ B) Hj) as Hu.
    destruct Ht, Hu; simpl; lia.
  - intros Hfin. assert (length ts ≠ 0%nat) as Hne by (pose proof (bi_inside _ _ _ B); simpl in *; lia).
    destruct ts as [|t0 ts0]; [done|]. destruct (Hfin 0%nat t0 eq_refl) as [acc0 ->].
    pose proof (Forall_lookup_1 _ _ 0%nat _ (bi_place _ _ _ B) eq_refl) as H0. inversion H0 as [| | | |? _ Hg]; subst.
    split.
    + apply Forall_lookup. intros i t Hi. destruct (Hfin i t Hi) as [acc ->].
      pose proof (Forall_lookup_1 _ _ _ _ (bi_place _ _ _ B) Hi) as Ht. inversion Ht; subst.
      split; [done|]. apply (Forall_lookup_1 _ _ _ _ (bi_status _ _ _ B) Hi).
    + intros k Hk. rewrite (bi_serial _ _ _ B). by rewrite decide_True.
Qed.

(** Two threads, two rounds. *)
Definition no_barrier : barrier_t := Barrier 0 0 0 0.
Definition demo_end : barrier_t * list bthread :=
  (Barrier BARRIER_VALID 2 2 0, [Finished [0; -1]; Finished [-1; 0]]).

Lemma demo_reachable : reachable seg (crowd 2 2 no_barrier) demo_end.
Proof.
  apply (run_schedule_sound seg
    [(0%nat, []); (1%nat, []); (0%nat, []); (1%nat, []); (0%nat, []); (1%nat, [])]). by vm_compute.
Qed.

Lemma barrier_rounds_witness : total (serial 1) demo_end.2 = 1%nat.
Proof.
  refine (proj2 (proj2 (barrier_rounds 2 2 no_barrier _ _ ltac:(lia) ltac:(lia) demo_reachable) _) 1%nat ltac:(lia)).
  intros [|[|i]] t Ht; [injection Ht as <-; by eexists..|done].
Defined.

(** C15: The threads that use the barrier as above never wait for one another for ever: in
    a reachable configuration some thread can run without a spurious wake-up, or none is
    waiting. *)
Theorem barrier_no_deadlock N R b cfg : (0 < N)%nat → (0 < R)%nat → reachable seg (crowd N R b) cfg →
  ¬ stuck_waiting cfg.2.
Proof.
  intros HN HR Hr [Hno Hw].
  destruct (reachable_binv R _ _ Hr 0 (binv_crowd N R b HN HR)) as [g B].
  apply Exists_exists in Hw as (t & [i Hi]%list_elem_of_lookup & Hw). destruct t as [|c l|]; try done.
  pose proof (Forall_lookup_1 _ _ _ _ (bi_place _ _ _ B) Hi) as Hp. inversion Hp as [|r acc E0 E1 E2| | |]; subst c l.
  assert (total (inside g) cfg.2 = length cfg.2); [|pose proof (bi_inside _ _ _ B); lia].
  apply total_full, Forall_lookup. intros j u Hj.
  pose proof (Forall_lookup_1 _ _ _ _ Hno Hj). pose proof (Forall_lookup_1 _ _ _ _ (bi_place _ _ _ B) Hj) as Hu.
  destruct Hu; simpl; try done; [by rewrite decide_True|lia].
Qed.

Lemma barrier_no_deadlock_witness : ¬ stuck_waiting demo_end.2.
Proof. exact (barrier_no_deadlock 2 2 no_barrier demo_end ltac:(lia) ltac:(lia) demo_reachable). Defined.

(** The barrier is only for as many threads as its threshold: with four threads on a
    barrier of two, a woken thread that has not run before two more threads complete a
    generation finds the old value of [cycle] again and waits for ever. *)
Theorem barrier_overtaken :
  reachable seg
    ((barrier_init 2 0 0 no_barrier).2, replicate 4 (Ready (PEnter no_errors 1 [])))
    (Barrier BARRIER_VALID 2 2 0,
     [Waiting () (PInside no_errors 0 1 []); Finished [-1]; Finished [0]; Finished [-1]]).
Proof.
  apply (run_schedule_sound seg
    [(0%nat, []); (1%nat, []); (2%nat, []); (3%nat, []); (0%nat, []); (2%nat, [])]). by vm_compute.
Qed.

(** [barrier_destroy] refuses a barrier at which threads wait, and leaves it as it was;
    otherwise [barrier_wait] refuses the barrier from then on, and the status is the one of
    [pthread_cond_destroy] only when [pthread_mutex_destroy] failed: alone, an error of the
    condition variable is not reported, and an error of the mutex is replaced. *)
Theorem barrier_destroy_spec mutexrc cvrc b : valid b = BARRIER_VALID →
  let '(status, b') := barrier_destroy 0 0 mutexrc cvrc b in
  (counter b ≠ threshold b → status = EBUSY ∧ b' = b) ∧
  (counter b = threshold b →
    (mutexrc = 0 → status = 0) ∧ (mutexrc ≠ 0 → status = cvrc) ∧
    ∀ rounds acc, barrier_wait no_errors rounds acc (Mon b' []) = Ok (Done (acc ++ [EINVAL]), Mon b' [])).
Proof.
  intros Hv. unfold barrier_destroy. rewrite Hv. simpl.
  destruct (Z.eqb_spec (counter b) (threshold b)) as [Hc|Hc]; simpl.
  - split; [done|]. intros _. destruct (Z.eqb_spec mutexrc 0) as [Hm|Hm]; split_and!; done.
  - done.
Qed.

Lemma barrier_destroy_spec_witness : (barrier_destroy 0 0 0 EBUSY (Barrier BARRIER_VALID 2 2 0)).1 = 0.
Proof. exact (proj1 (proj2 (barrier_destroy_spec 0 EBUSY (Barrier BARRIER_VALID 2 2 0) eq_refl) eq_refl) eq_refl). Defined.
