(* ===== verification/Workq.v ===== *)
(** The work queue of [programs/workq.c]: the [workq_t], the list of its elements in the
    heap, the operations, the server threads that [workq_add] creates, and what the queue
    promises: every element is handed to the engine exactly once, servers never exceed the
    asked parallelism, and the queue can be run down. *)
From S2P Require Import Prelude CLib Monitor.

(** ** The work queue *)

Definition WORKQ_VALID : Z := 233576850.
Definition ENOMEM : Z := 12.

(** A request, and the addresses of requests ([None] is [NULL]). *)
Record workq_ele_t := Ele { next : option nat; data : Z }.

Record workq_t := Workq {
  first : option nat; last : option nat; valid : Z; quit : Z; parallelism : Z; counter : Z; idle : Z;
  mutex_dead : bool
}.
Definition set_ends f l w := Workq f l (valid w) (quit w) (parallelism w) (counter w) (idle w) (mutex_dead w).
Definition set_valid v w := Workq (first w) (last w) v (quit w) (parallelism w) (counter w) (idle w) (mutex_dead w).
Definition set_quit v w := Workq (first w) (last w) (valid w) v (parallelism w) (counter w) (idle w) (mutex_dead w).
Definition set_counter v w := Workq (first w) (last w) (valid w) (quit w) (parallelism w) v (idle w) (mutex_dead w).
Definition set_dead v w := Workq (first w) (last w) (valid w) (quit w) (parallelism w) (counter w) (idle w) v.

(** What the pthread calls of a server return. *)
Record scodes := SCodes { s_lockrc : Z; s_waitrc : Z; s_unlockrc : Z; s_relockrc : Z }.
Definition s_no_errors : scodes := SCodes 0 0 0 0.

(** What happens to data: an element was linked into the queue, a server took it out, the
    engine was called on it. *)
Inductive event := EAdd (d : Z) | ETake (d : Z) | EEngine (d : Z).

(** The shared state: the queue, the allocated requests (new addresses start at [brk]), the
    servers that were created and have not run yet, and the history. *)
Record world := World {
  wq : workq_t; heap : gmap nat workq_ele_t; brk : nat; spawned : list scodes; log : list event
}.
Definition set_wq v w := World v (heap w) (brk w) (spawned w) (log w).
Definition set_heap v w := World (wq w) v (brk w) (spawned w) (log w).
Definition set_spawned v w := World (wq w) (heap w) (brk w) v (log w).
Definition add_event e w := World (wq w) (heap w) (brk w) (spawned w) (log w ++ [e]).

(** The outcomes of the calls inside one [workq_add], with the codes of the server it may
    create, and inside one [workq_destroy]. *)
Record acodes := ACodes { mallocok : bool; a_lockrc : Z; a_signalrc : Z; a_createrc : Z; a_server : scodes }.
Definition a_no_errors : acodes := ACodes true 0 0 0 s_no_errors.
Record dcodes := DCodes {
  d_lockrc : Z; d_broadcastrc : Z; d_waitrc : Z; d_unlockrc : Z; d_mutexrc : Z; d_cvrc : Z; d_attrrc : Z
}.
Definition d_no_errors : dcodes := DCodes 0 0 0 0 0 0 0.

(** The calls a client thread makes. *)
Inductive request := RAdd (cd : acodes) (d : Z) | RDestroy (cd : dcodes).

(** Where a thread is.  A client has the statuses of its calls so far in [acc] and the calls
    to come in [todo].  A server: before its first lock, in the timed wait, back from a wait
    that timed out, with a request it took, and before it locks the mutex again. *)
Inductive pc :=
  | PClient (todo : list request) (acc : list Z)
  | PAddLock (cd : acodes) (item : nat) (todo : list request) (acc : list Z)
  | PDestroyLock (cd : dcodes) (todo : list request) (acc : list Z)
  | PDestroyWait (cd : dcodes) (todo : list request) (acc : list Z)
  | PDestroyEnd (cd : dcodes) (todo : list request) (acc : list Z)
  | PServer (cd : scodes)
  | PServerWait (cd : scodes)
  | PServerTimeout (cd : scodes)
  | PServerEngine (cd : scodes) (we : nat) (timedout : bool)
  | PServerRelock (cd : scodes) (timedout : bool).

(** A client ends with its statuses; a server returns [NULL]. *)
Inductive res := RClient (acc : list Z) | RServer.

Abbreviation wM := (M (mon () world)).
Abbreviation wout := (outcome () pc res).
Abbreviation wthread := (thread () pc res).

Definition qgets {A} (f : workq_t → A) : wM A := sgets (λ w, f (wq w)).
Definition qmodify (f : workq_t → workq_t) : wM () := smodify (λ w, set_wq (f (wq w)) w).

(** A call of the client returned [status]. *)
Definition returned (status : Z) (todo : list request) (acc : list Z) : wM wout :=
  let acc' := acc ++ [status] in
  match todo with [] => mret (Done (RClient acc')) | _ => mret (Next (PClient todo acc')) end.

(** A successful [pthread_mutex_lock] on a mutex that may have been destroyed. *)
Definition lock_mutex : wM () :=
  dead ← qgets mutex_dead; if (dead : bool) then fail (UB "lock of a destroyed mutex") else mret ().

(** [malloc] and [free] of a request, and access through a pointer. *)
Definition malloc_ele (e : workq_ele_t) : wM nat :=
  p ← sgets brk; _ ← smodify (λ w, World (wq w) (<[p:=e]> (heap w)) (S p) (spawned w) (log w)); mret p.
Definition deref (p : option nat) : wM workq_ele_t :=
  h ← sgets heap;
  match (q ← p; h !! q) with Some e => mret e | None => fail (UB "no request at the pointer") end.
Definition free_ele (p : nat) : wM () := _ ← deref (Some p); smodify (λ w, set_heap (delete p (heap w)) w).
Definition set_next (p : option nat) (v : option nat) : wM () :=
  e ← deref p;
  match p with Some q => smodify (λ w, set_heap (<[q:=Ele v (data e)]> (heap w)) w) | None => mret () end.

(** ** The server *)

(** The points of the outer loop: at its top, with [first] tested, and at its end. *)
Inductive point := Top | Take (timedout : bool) | Bottom (timedout : bool).

(** The [while] loop with the timed wait: either the thread blocks or it goes on. *)
Definition wait_for_work (cd : scodes) : wM (point + wout) :=
  w ← qgets (λ w, w);
  if bool_decide (first w = None) && (quit w =? 0) then mret (inr (Block () (PServerWait cd)))
  else mret (inl (Take false)).

(** [we = wq->first] and what follows up to the engine call. *)
Definition take_work (cd : scodes) (timedout : bool) : wM (point + wout) :=
  w ← qgets (λ w, w);
  match first w with
  | None => mret (inl (Bottom timedout))
  | Some we =>
      e ← deref (Some we);
      _ ← qmodify (λ w, set_ends (next e) (last w) w);
      _ ← when (bool_decide (last w = Some we)) (qmodify (λ w, set_ends (first w) None w));
      _ ← smodify (add_event (ETake (data e)));
      if negb (s_unlockrc cd =? 0) then mret (inr (Done RServer))
      else mret (inr (Next (PServerEngine cd we timedout)))
  end.

(** The two tests at the end of the loop. *)
Definition loop_end (timedout : bool) : wM (point + wout) :=
  w ← qgets (λ w, w);
  if bool_decide (first w = None) && negb (quit w =? 0) then
    _ ← qmodify (λ w, set_counter (counter w - 1) w);
    c ← qgets counter;
    _ ← when (c =? 0) (cond_broadcast ());
    mret (inr (Done RServer))
  else if bool_decide (first w = None) && timedout then
    _ ← qmodify (λ w, set_counter (counter w - 1) w);
    mret (inr (Done RServer))
  else mret (inl Top).

Definition server_body (cd : scodes) (p : point) : wM (point + wout) :=
  match p with Top => wait_for_work cd | Take td => take_work cd td | Bottom td => loop_end td end.

(** Between two points where the server gives up the mutex the loop goes through at most
    four of its points. *)
Definition SERVER_FUEL : nat := 4.
Definition server_loop (cd : scodes) (p : point) : wM wout := iter SERVER_FUEL (server_body cd) p.

(** The start of the thread. *)
Definition workq_server (cd : scodes) : wM wout :=
  if negb (s_lockrc cd =? 0) then mret (Done RServer) else _ ← lock_mutex; server_loop cd Top.

(** Back from [pthread_cond_timedwait] with another status than [ETIMEDOUT]. *)
Definition server_resume (cd : scodes) : wM wout :=
  if s_waitrc cd =? ETIMEDOUT then server_loop cd (Take true)
  else if negb (s_waitrc cd =? 0) then
    _ ← qmodify (λ w, set_counter (counter w - 1) w); mret (Done RServer)
  else server_loop cd Top.

(** [wq->engine (we->data); free (we);], without the mutex. *)
Definition server_engine (cd : scodes) (we : nat) (timedout : bool) : wM wout :=
  e ← deref (Some we);
  _ ← smodify (add_event (EEngine (data e)));
  _ ← free_ele we;
  mret (Next (PServerRelock cd timedout)).

Definition server_relock (cd : scodes) (timedout : bool) : wM wout :=
  if negb (s_relockrc cd =? 0) then mret (Done RServer) else _ ← lock_mutex; server_loop cd (Bottom timedout).

(** ** The operations of the clients *)

(** The status, and the queue after [workq_init]. *)
Definition workq_init (attrrc detachrc mutexrc cvrc threads : Z) (w : workq_t) : Z * workq_t :=
  if negb (attrrc =? 0) then (attrrc, w) else
  if negb (detachrc =? 0) then (detachrc, w) else
  if negb (mutexrc =? 0) then (mutexrc, w) else
  let w1 := set_dead false w in
  if negb (cvrc =? 0) then (cvrc, set_dead true w1) else
  (0, Workq None None WORKQ_VALID 0 threads 0 0 false).

(** [workq_add] up to the lock of the mutex, and from there. *)
Definition workq_add (cd : acodes) (element : Z) (todo : list request) (acc : list Z) : wM wout :=
  v ← qgets valid;
  if negb (v =? WORKQ_VALID) then returned EINVAL todo acc else
  if negb (mallocok cd) then returned ENOMEM todo acc else
  item ← malloc_ele (Ele None element);
  mret (Next (PAddLock cd item todo acc)).

(** The request is linked at the end of the queue. *)
Definition append (item : nat) : wM () :=
  w ← qgets (λ w, w);
  _ ← (match first w with
       | None => qmodify (λ w, set_ends (Some item) (last w) w)
       | Some _ => set_next (last w) (Some item)
       end);
  _ ← qmodify (λ w, set_ends (first w) (Some item) w);
  e ← deref (Some item);
  smodify (add_event (EAdd (data e))).

(** [pthread_create] of a server. *)
Definition create_server (cd : acodes) : wM Z :=
  _ ← when (a_createrc cd =? 0) (smodify (λ w, set_spawned (spawned w ++ [a_server cd]) w));
  mret (a_createrc cd).

Definition add_lock (cd : acodes) (item : nat) (todo : list request) (acc : list Z) : wM wout :=
  if negb (a_lockrc cd =? 0) then _ ← free_ele item; returned (a_lockrc cd) todo acc else
  _ ← lock_mutex;
  _ ← append item;
  w ← qgets (λ w, w);
  if 0 <? idle w then
    _ ← when (a_signalrc cd =? 0) (cond_signal ());
    returned (a_signalrc cd) todo acc
  else if counter w <? parallelism w then
    status ← create_server cd;
    if negb (status =? 0) then returned status todo acc else
    _ ← qmodify (λ w, set_counter (counter w + 1) w);
    returned 0 todo acc
  else returned 0 todo acc.

(** [workq_destroy]: the test of [valid]; from the lock to the wait; the loop with the wait;
    and what follows the unlock. *)
Definition workq_destroy (cd : dcodes) (todo : list request) (acc : list Z) : wM wout :=
  v ← qgets valid;
  if negb (v =? WORKQ_VALID) then returned EINVAL todo acc else mret (Next (PDestroyLock cd todo acc)).

Definition destroy_unlock (cd : dcodes) (todo : list request) (acc : list Z) : wM wout :=
  if negb (d_unlockrc cd =? 0) then returned (d_unlockrc cd) todo acc else mret (Next (PDestroyEnd cd todo acc)).

Definition rundown_loop (cd : dcodes) (todo : list request) (acc : list Z) : wM wout :=
  c ← qgets counter;
  if 0 <? c then mret (Block () (PDestroyWait cd todo acc)) else destroy_unlock cd todo acc.

Definition destroy_lock (cd : dcodes) (todo : list request) (acc : list Z) : wM wout :=
  if negb (d_lockrc cd =? 0) then returned (d_lockrc cd) todo acc else
  _ ← lock_mutex;
  _ ← qmodify (set_valid 0);
  w ← qgets (λ w, w);
  if 0 <? counter w then
    _ ← qmodify (set_quit 1);
    if 0 <? idle w then
      if negb (d_broadcastrc cd =? 0) then returned (d_broadcastrc cd) todo acc
      else _ ← cond_broadcast (); rundown_loop cd todo acc
    else rundown_loop cd todo acc
  else destroy_unlock cd todo acc.

Definition rundown_resume (cd : dcodes) (todo : list request) (acc : list Z) : wM wout :=
  if negb (d_waitrc cd =? 0) then returned (d_waitrc cd) todo acc else rundown_loop cd todo acc.

Definition destroy_end (cd : dcodes) (todo : list request) (acc : list Z) : wM wout :=
  _ ← when (d_mutexrc cd =? 0) (qmodify (set_dead true));
  returned (if negb (d_mutexrc cd =? 0) then d_mutexrc cd
            else if negb (d_cvrc cd =? 0) then d_cvrc cd else d_attrrc cd) todo acc.

Definition seg (l : pc) : wM wout :=
  match l with
  | PClient [] acc => mret (Done (RClient acc))
  | PClient (RAdd cd d :: todo) acc => workq_add cd d todo acc
  | PClient (RDestroy cd :: todo) acc => workq_destroy cd todo acc
  | PAddLock cd item todo acc => add_lock cd item todo acc
  | PDestroyLock cd todo acc => destroy_lock cd todo acc
  | PDestroyWait cd todo acc => rundown_resume cd todo acc
  | PDestroyEnd cd todo acc => destroy_end cd todo acc
  | PServer cd => workq_server cd
  | PServerWait cd => server_resume cd
  | PServerTimeout cd => server_loop cd (Take true)
  | PServerEngine cd we td => server_engine cd we td
  | PServerRelock cd td => server_relock cd td
  end.

(** ** Steps *)

Abbreviation config := (world * list wthread)%type.

(** A step runs a segment or wakes a thread spuriously; or a created server comes into being;
    or a timed wait times out. *)
Inductive wstep : config → config → Prop :=
  | wstep_seg cfg cfg' : step seg cfg cfg' → wstep cfg cfg'
  | wstep_start w ts l1 cd l2 : spawned w = l1 ++ cd :: l2 →
      wstep (w, ts) (set_spawned (l1 ++ l2) w, ts ++ [Ready (PServer cd)])
  | wstep_timeout w ts i cd : ts !! i = Some (Waiting () (PServerWait cd)) →
      wstep (w, ts) (w, <[i:=Ready (PServerTimeout cd)]> ts).

(** The clients with their calls, and a queue made by [workq_init]. *)
Definition new_queue (threads : Z) (w : workq_t) : world := World (workq_init 0 0 0 0 threads w).2 ∅ 0 [] [].
Definition clients (scripts : list (list request)) : list wthread := (λ todo, Ready (PClient todo [])) <$> scripts.

(** ** The requests *)

Definition adds (es : list event) : list Z := omap (λ e, match e with EAdd d => Some d | _ => None end) es.
Definition takes (es : list event) : list Z := omap (λ e, match e with ETake d => Some d | _ => None end) es.
Definition engines (es : list event) : list Z := omap (λ e, match e with EEngine d => Some d | _ => None end) es.

(** The data of the requests at the addresses. *)
Definition datas (h : gmap nat workq_ele_t) (ids : list nat) : list Z := omap (λ p, data <$> h !! p) ids.

(** The request a client has allocated, and the one a server has taken. *)
Definition pending (t : wthread) : list nat :=
  match t with Ready (PAddLock _ p _ _) | Waiting _ (PAddLock _ p _ _) => [p] | _ => [] end.
Definition in_hand (t : wthread) : list nat :=
  match t with Ready (PServerEngine _ p _) | Waiting _ (PServerEngine _ p _) => [p] | _ => [] end.

(** The queue holds the requests [ids], clients the requests [ah], servers the requests [sh];
    there are no others. *)
Record dinv (w : world) (ids ah sh : list nat) : Prop := {
  di_first : first (wq w) = head ids;
  di_last : last (wq w) = list.last ids;
  di_chain : ∀ k p, ids !! k = Some p → ∃ d, heap w !! p = Some (Ele (ids !! S k) d);
  di_pending : ∀ p, p ∈ ah → ∃ d, heap w !! p = Some (Ele None d);
  di_nodup : NoDup (ids ++ ah ++ sh);
  di_dom : ∀ p, is_Some (heap w !! p) ↔ p ∈ ids ++ ah ++ sh;
  di_brk : ∀ p, is_Some (heap w !! p) → (p < brk w)%nat;
  di_adds : adds (log w) = takes (log w) ++ datas (heap w) ids;
  di_takes : takes (log w) ≡ₚ engines (log w) ++ datas (heap w) sh
}.

(** What the invariant looks at. *)
Lemma dinv_ext w w' ids ah sh ah' sh' : dinv w ids ah sh →
  first (wq w') = first (wq w) → last (wq w') = last (wq w) → heap w' = heap w → brk w' = brk w → log w' = log w →
  ah' ≡ₚ ah → sh' ≡ₚ sh → dinv w' ids ah' sh'.
Proof.
  intros [] E1 E2 E3 E4 E5 Ha Hs. split; rewrite ?E1, ?E2, ?E3, ?E4, ?E5; try done.
  - intros p Hp. apply di_pending0. by rewrite <- Ha.
  - by rewrite Ha, Hs.
  - intros p. rewrite di_dom0. by rewrite Ha, Hs.
  - rewrite di_takes0. unfold datas. by rewrite Hs.
Qed.

Lemma datas_cons h p ids :
  datas h (p :: ids) = match data <$> h !! p with Some d => d :: datas h ids | None => datas h ids end.
Proof. done. Qed.

Lemma datas_ext h h' ids : (∀ p, p ∈ ids → data <$> h' !! p = data <$> h !! p) → datas h' ids = datas h ids.
Proof.
  induction ids as [|p ids IH]; intros H; [done|]. rewrite !datas_cons, H by apply list_elem_of_here.
  rewrite IH; [done|]. intros q Hq. apply H. by apply list_elem_of_further.
Qed.

Lemma omap_snoc {A B} (f : A → option B) l x : omap f (l ++ [x]) = omap f l ++ (match f x with Some y => [y] | None => [] end).
Proof. induction l as [|y l IH]; simpl; [by destruct (f x)|]. destruct (f y); [|done]. simpl. by f_equal. Qed.

Lemma dinv_malloc w ids ah sh d : dinv w ids ah sh →
  dinv (World (wq w) (<[brk w:=Ele None d]> (heap w)) (S (brk w)) (spawned w) (log w)) ids (brk w :: ah) sh.
Proof.
  intros []. assert (brk w ∉ ids ++ ah ++ sh) as Hn by (intros H%di_dom0%di_brk0; lia).
  assert (∀ p, p ∈ ids ++ ah ++ sh → <[brk w:=Ele None d]> (heap w) !! p = heap w !! p) as Hf.
  { intros p Hp. apply lookup_insert_ne. by intros <-. }
  split; simpl; try done.
  - intros k p Hk. rewrite Hf; [by apply di_chain0|]. apply elem_of_app. left. by eapply list_elem_of_lookup_2.
  - intros p [-> |Hp]%elem_of_cons; [rewrite lookup_insert_eq; by eexists|].
    rewrite Hf; [by apply di_pending0|set_solver].
  - rewrite <- Permutation_middle. by constructor.
  - intros p. rewrite <- Permutation_middle, elem_of_cons, <- di_dom0.
    destruct (decide (p = brk w)) as [->|Hne]; [rewrite lookup_insert_eq; naive_solver|].
    rewrite lookup_insert_ne by done. naive_solver.
  - intros p. destruct (decide (p = brk w)) as [->|Hne]; [lia|]. rewrite lookup_insert_ne by done.
    intros H%di_brk0. lia.
  - rewrite (datas_ext (heap w)); [done|]. intros p Hp. rewrite Hf; [done|set_solver].
  - rewrite (datas_ext (heap w)); [done|]. intros p Hp. rewrite Hf; [done|set_solver].
Qed.

(** The head is taken. *)
Definition taken (we : nat) (e : workq_ele_t) (w : world) : world :=
  add_event (ETake (data e))
    (set_wq (set_ends (next e) (if bool_decide (last (wq w) = Some we) then None else last (wq w)) (wq w)) w).

Lemma dinv_take w we e ids ah sh : dinv w ids ah sh → first (wq w) = Some we → heap w !! we = Some e →
  ∃ ids', dinv (taken we e w) ids' ah (we :: sh).
Proof.
  intros [] Hf He. destruct ids as [|p ids]; [by rewrite Hf in di_first0|].
  assert (p = we) as -> by (rewrite Hf in di_first0; by injection di_first0).
  destruct (di_chain0 0%nat we eq_refl) as [d Hd]. rewrite He in Hd. injection Hd as ->. exists ids.
  assert (we ∉ ids) as Hni by (apply NoDup_cons in di_nodup0 as [Hn _]; set_solver).
  split; simpl; try done.
  - by destruct ids.
  - rewrite di_last0. destruct ids as [|q ids]; simpl; [by rewrite bool_decide_true|].
    rewrite bool_decide_false; [done|]. intros [= H].
    assert (list.last (q :: ids) = Some we) as H' by done. apply last_Some_elem_of in H'. done.
  - intros k p Hk. by apply (di_chain0 (S k)).
  - rewrite app_assoc, <- Permutation_middle, <- app_assoc. done.
  - intros p. rewrite di_dom0. rewrite (app_assoc ids), <- (Permutation_middle (ids ++ ah)), <- app_assoc. done.
  - unfold adds, takes in *. rewrite !omap_snoc, app_nil_r, di_adds0. simpl. unfold datas at 1. simpl. rewrite He. simpl.
    by rewrite <- app_assoc.
  - unfold takes, engines in *. rewrite !omap_snoc, app_nil_r, di_takes0. simpl. unfold datas. simpl. rewrite He. simpl.
    rewrite <- app_assoc. f_equiv. symmetry. apply Permutation_cons_append.
Qed.

(** The engine is called on a taken request, which is freed. *)
Lemma dinv_engine w we e ids ah sh : dinv w ids ah (we :: sh) → heap w !! we = Some e →
  dinv (set_heap (delete we (heap w)) (add_event (EEngine (data e)) w)) ids ah sh.
Proof.
  intros [] He. rewrite app_assoc, <- Permutation_middle, <- app_assoc in di_nodup0.
  apply NoDup_cons in di_nodup0 as [Hn Hnd].
  assert (∀ p, p ∈ ids ++ ah ++ sh → delete we (heap w) !! p = heap w !! p) as Hf.
  { intros p Hp. apply lookup_delete_ne. intros ->. done. }
  split; simpl; try done.
  - intros k p Hk. rewrite Hf; [by apply di_chain0|]. apply elem_of_app. left. by eapply list_elem_of_lookup_2.
  - intros p Hp. rewrite Hf; [by apply di_pending0|set_solver].
  - intros p. destruct (decide (p = we)) as [->|Hne].
    + rewrite lookup_delete_eq. split; [by intros [? ?]|done].
    + rewrite lookup_delete_ne, di_dom0 by done. set_solver.
  - intros p. destruct (decide (p = we)) as [->|Hne]; [rewrite lookup_delete_eq; by intros [? ?]|].
    rewrite lookup_delete_ne by done. apply di_brk0.
  - unfold adds, takes in *. rewrite !omap_snoc, !app_nil_r, di_adds0. f_equal. symmetry. apply datas_ext.
    intros p Hp. rewrite Hf; [done|set_solver].
  - unfold takes, engines in *. rewrite !omap_snoc, app_nil_r, di_takes0. simpl.
    rewrite (datas_ext (heap w) (delete we (heap w)) sh); [|intros p Hp; rewrite Hf; [done|set_solver]].
    unfold datas. simpl. rewrite He. simpl. by rewrite <- app_assoc.
Qed.

(** A request is linked at the end. *)
Definition linked (item : nat) (d : Z) (w : world) : world :=
  add_event (EAdd d)
    (World (set_ends (match first (wq w) with None => Some item | Some q => Some q end) (Some item) (wq w))
      (match last (wq w) with
       | Some l => match heap w !! l with Some e => <[l:=Ele (Some item) (data e)]> (heap w) | None => heap w end
       | None => heap w end)
      (brk w) (spawned w) (log w)).

Lemma linked_data item d w p : data <$> heap (linked item d w) !! p = data <$> heap w !! p.
Proof.
  unfold linked. simpl. destruct (last (wq w)) as [l|]; [|done]. destruct (heap w !! l) as [e|] eqn:E; [|done].
  destruct (decide (p = l)) as [->|]; [by rewrite lookup_insert_eq, E|by rewrite lookup_insert_ne].
Qed.

Lemma append_run w item e ks : heap w !! item = Some e →
  (first (wq w) = None ∧ last (wq w) = None ∨
   ∃ q l el, first (wq w) = Some q ∧ last (wq w) = Some l ∧ heap w !! l = Some el ∧ l ≠ item) →
  append item (Mon w ks) = Ok ((), Mon (linked item (data e) w) ks).
Proof.
  unfold append, qgets, qmodify, smodify, sgets. intros He [[E1 E2]|(q & l & el & E1 & E2 & El & Hne)]; mstep; cbn [sh].
  - rewrite E1. mstep. cbn [sh wk]. unfold deref, sgets. mstep. cbn [sh set_wq heap mbind option_bind].
    rewrite He. mstep. unfold modify, linked. by rewrite E1, E2.
  - rewrite E1, E2. unfold set_next, smodify. mstep. unfold deref, sgets. mstep. cbn [sh wq heap mbind option_bind].
    rewrite El. mstep. cbn [sh wk set_wq heap set_heap wq data]. rewrite lookup_insert_ne, He by done. mstep.
    unfold modify, linked. by rewrite E1, E2, El.
Qed.

Lemma datas_app h a b : datas h (a ++ b) = datas h a ++ datas h b.
Proof. apply omap_app. Qed.

Lemma linked_log item d w sd ids h : adds (log w) = takes (log w) ++ datas (heap w) ids →
  takes (log w) ≡ₚ engines (log w) ++ datas (heap w) sd →
  datas h ids = datas (heap w) ids → datas h sd = datas (heap w) sd → datas h [item] = [d] →
  adds (log w ++ [EAdd d]) = takes (log w ++ [EAdd d]) ++ datas h (ids ++ [item]) ∧
  takes (log w ++ [EAdd d]) ≡ₚ engines (log w ++ [EAdd d]) ++ datas h sd.
Proof.
  intros D8 D9 E1 E2 E3. rewrite datas_app, E1, E2, E3. unfold adds, takes, engines in *.
  rewrite !omap_snoc, D8, !app_nil_r, <- app_assoc. by split.
Qed.

(** The chain of the addresses after the new one is linked to the last. *)
Lemma chain_snoc (h : gmap nat workq_ele_t) ids l item dl d : l ∉ ids → l ≠ item → 
  (∀ k p, (ids ++ [l]) !! k = Some p → ∃ d, h !! p = Some (Ele ((ids ++ [l]) !! S k) d)) →
  h !! item = Some (Ele None d) →
  ∀ k p, (ids ++ [l; item]) !! k = Some p →
    ∃ d, <[l:=Ele (Some item) dl]> h !! p = Some (Ele ((ids ++ [l; item]) !! S k) d).
Proof.
  intros Hl Hli Hc Hd k p Hk. destruct (decide (k < length ids)%nat) as [Hlt|Hge].
  - rewrite lookup_app_l in Hk by done. assert (p ≠ l) by (intros ->; by apply list_elem_of_lookup_2 in Hk).
    rewrite lookup_insert_ne by done. destruct (Hc k p) as [dk Hdk]; [by rewrite lookup_app_l|].
    exists dk. rewrite Hdk. do 2 f_equal.
    change [l; item] with ([l] ++ [item]). rewrite (app_assoc ids), (lookup_app_l (ids ++ [l])); [done|].
    rewrite length_app. simpl. lia.
  - rewrite lookup_app_r in Hk by lia. rewrite lookup_app_r by lia.
    replace (S k - length ids)%nat with (S (k - length ids)) by lia.
    destruct (k - length ids)%nat as [|[|n]]; simplify_eq/=.
    + rewrite lookup_insert_eq. by eexists.
    + rewrite lookup_insert_ne, Hd by done. by eexists.
Qed.

Lemma dinv_append w item ids ah sd ks : dinv w ids (item :: ah) sd →
  ∃ d, heap w !! item = Some (Ele None d) ∧ append item (Mon w ks) = Ok ((), Mon (linked item d w) ks) ∧
    dinv (linked item d w) (ids ++ [item]) ah sd.
Proof.
  intros [D1 D2 D3 D4 D5 D6 D7 D8 D9].
  destruct (D4 item) as [d Hd]; [by apply list_elem_of_here|]. exists d. split; [done|].
  assert (item ∉ ids ++ ah ++ sd ∧ NoDup (ids ++ ah ++ sd)) as [Hn Hnd].
  { rewrite <- app_comm_cons, <- Permutation_middle in D5. by apply NoDup_cons in D5. }
  assert (∀ p, p ∈ ah → ∃ d, heap w !! p = Some (Ele None d)) as D4' by (intros; by apply D4, list_elem_of_further).
  destruct (list_snoc_case ids) as [->|(ids0 & l & ->)].
  { split; [apply (append_run _ _ _ _ Hd); by left|]. unfold linked. simpl in D1, D2. rewrite D1, D2.
    destruct (linked_log item d w sd [] (heap w)) as [L1 L2]; [done..|by unfold datas; simpl; rewrite Hd|].
    split; simpl; try done. intros [|k] p [= <-]. by exists d. }
  rewrite last_snoc in D2.
  destruct (D3 (length ids0) l) as [dl Hl]; [by rewrite list_lookup_middle|].
  assert (∃ q, first (wq w) = Some q) as [q Hq] by (rewrite D1; destruct ids0; by eexists).
  assert (l ∉ ids0 ∧ l ∉ ah ++ sd) as [Hl1 Hl2].
  { rewrite <- app_assoc in Hnd. apply NoDup_app in Hnd as (_ & H1 & H2).
    apply NoDup_cons in H2 as [H2 _]. split; [|done]. intros H. apply (H1 l H). by apply list_elem_of_here. }
  assert (l ≠ item) as Hli by (intros ->; set_solver).
  assert (∀ p, p ≠ l → <[l:=Ele (Some item) dl]> (heap w) !! p = heap w !! p) as Hf by (intros; by apply lookup_insert_ne).
  assert (∀ ps, datas (<[l:=Ele (Some item) dl]> (heap w)) ps = datas (heap w) ps) as Hds.
  { intros ps. apply datas_ext. intros p _. destruct (decide (p = l)) as [->|]; [by rewrite lookup_insert_eq, Hl|by rewrite Hf]. }
  split; [apply (append_run _ _ _ _ Hd); right; eauto 10|].
  destruct (linked_log item d w sd (ids0 ++ [l]) (<[l:=Ele (Some item) dl]> (heap w))) as [L1 L2]; [done..| |].
  { rewrite Hds. unfold datas. simpl. by rewrite Hd. }
  unfold linked. rewrite Hq, D2, Hl. split; simpl; try done.
  - rewrite D1 in Hq. rewrite <- Hq. by destruct ids0.
  - by rewrite last_snoc.
  - rewrite <- app_assoc. by apply (chain_snoc _ _ _ _ _ d).
  - intros p Hp. assert (p ≠ l) by (intros ->; set_solver). rewrite Hf by done. by apply D4'.
  - by rewrite <- (app_assoc _ [item]).
  - intros p. rewrite <- (app_assoc _ [item]). destruct (decide (p = l)) as [->|Hpl].
    + rewrite lookup_insert_eq. split; [set_solver|by eexists].
    + rewrite Hf by done. apply D6.
  - intros p. destruct (decide (p = l)) as [->|Hpl]; [intros _; apply D7; by eexists|]. rewrite Hf by done. apply D7.
Qed.

(** ** What a server does between two points where it gives up the mutex *)

Definition drop_server (w : world) : world := set_wq (set_counter (counter (wq w) - 1) (wq w)) w.

Definition timed_out (p : point) : bool := match p with Top => false | Take td | Bottom td => td end.

(** It takes the head if there is one, with [timedout] cleared when it went through the wait;
    else it exits on [quit], or on a time-out, or it waits. *)
Inductive served (p : point) (w : world) : wout → world → list (wake ()) → Prop :=
  | served_take we e td : first (wq w) = Some we → heap w !! we = Some e →
      served p w (Next (PServerEngine s_no_errors we td)) (taken we e w) []
  | served_quit : first (wq w) = None → quit (wq w) ≠ 0 →
      served p w (Done RServer) (drop_server w) (if counter (wq w) - 1 =? 0 then [Broadcast ()] else [])
  | served_timeout : first (wq w) = None → quit (wq w) = 0 → timed_out p = true →
      served p w (Done RServer) (drop_server w) []
  | served_wait : first (wq w) = None → quit (wq w) = 0 → timed_out p = false →
      served p w (Block () (PServerWait s_no_errors)) w [].

Lemma loop_end_empty td w : first (wq w) = None →
  (quit (wq w) ≠ 0 ∨ td = true) →
  loop_end td (Mon w []) = Ok (inr (Done RServer),
    Mon (drop_server w) (if negb (quit (wq w) =? 0) && (counter (wq w) - 1 =? 0) then [Broadcast ()] else [])).
Proof.
  intros E Hq. unfold loop_end, qgets, qmodify, smodify, sgets. mstep. cbn [sh]. rewrite E, bool_decide_true by done.
  destruct (Z.eqb_spec (quit (wq w)) 0) as [H0|H0]; cbn [negb andb].
  - assert (td = true) as -> by (by destruct Hq). mstep. done.
  - mstep. cbn [sh set_wq wq set_counter counter]. by destruct (counter (wq w) - 1 =? 0).
Qed.

Lemma take_work_some td w we e : first (wq w) = Some we → heap w !! we = Some e →
  take_work s_no_errors td (Mon w []) = Ok (inr (Next (PServerEngine s_no_errors we td)), Mon (taken we e w) []).
Proof.
  intros E He. unfold take_work, qgets, qmodify, smodify, sgets. mstep. cbn [sh]. rewrite E. unfold deref, sgets.
  mstep. cbn [sh mbind option_bind]. rewrite He. mstep. cbn [s_unlockrc s_no_errors]. unfold taken.
  by destruct (bool_decide (last (wq w) = Some we)).
Qed.

Lemma take_work_none cd td w : first (wq w) = None → take_work cd td (Mon w []) = Ok (inl (Bottom td), Mon w []).
Proof. intros E. unfold take_work, qgets, sgets. mstep. cbn [sh]. by rewrite E. Qed.

Lemma wait_for_work_run cd w : wait_for_work cd (Mon w []) =
  Ok (if bool_decide (first (wq w) = None) && (quit (wq w) =? 0) then inr (Block () (PServerWait cd)) else inl (Take false),
      Mon w []).
Proof. unfold wait_for_work, qgets, sgets. mstep. cbn [sh]. by destruct (bool_decide (first (wq w) = None)), (quit (wq w) =? 0). Qed.

Lemma iter_next {S X R} n (body : X → M S (X + R)) x s x' s' :
  body x s = Ok (inl x', s') → iter (Datatypes.S n) body x s = iter n body x' s'.
Proof. intros E. rewrite iter_S. by erewrite bind_ok by exact E. Qed.
Lemma iter_exit {S X R} n (body : X → M S (X + R)) x s r s' :
  body x s = Ok (inr r, s') → iter (Datatypes.S n) body x s = Ok (r, s').
Proof. intros E. rewrite iter_S. by erewrite bind_ok by exact E. Qed.

Section loop.
Context (w : world).
Definition loop_at n p : result (wout * mon () world) := iter n (server_body s_no_errors) p (Mon w []).

Lemma loop_some we e p : first (wq w) = Some we → heap w !! we = Some e →
  ∃ td, loop_at 4 p = Ok (Next (PServerEngine s_no_errors we td), Mon (taken we e w) []).
Proof.
  intros E He.
  assert (∀ n td, loop_at (S n) (Take td) = Ok (Next (PServerEngine s_no_errors we td), Mon (taken we e w) [])) as HT.
  { intros n td. apply iter_exit. by apply take_work_some. }
  assert (∀ n, loop_at (S (S n)) Top = Ok (Next (PServerEngine s_no_errors we false), Mon (taken we e w) [])) as HTop.
  { intros n. unfold loop_at. erewrite iter_next; [apply HT|]. simpl. by rewrite wait_for_work_run, E. }
  destruct p as [|td|td]; [rewrite HTop|rewrite HT|]; [by eexists..|].
  exists false. unfold loop_at. erewrite iter_next; [apply HTop|].
  simpl. unfold loop_end, qgets, sgets. mstep. cbn [sh]. by rewrite E.
Qed.

Lemma loop_none p : first (wq w) = None → quit (wq w) = 0 →
  loop_at 4 p = if timed_out p then Ok (Done RServer, Mon (drop_server w) [])
                else Ok (Block () (PServerWait s_no_errors), Mon w []).
Proof.
  intros E Hq.
  assert (∀ n, loop_at (S n) Top = Ok (Block () (PServerWait s_no_errors), Mon w [])) as HTop.
  { intros n. apply iter_exit. simpl. by rewrite wait_for_work_run, E, Hq. }
  assert (∀ n td, loop_at (S (S n)) (Bottom td) =
    if td then Ok (Done RServer, Mon (drop_server w) []) else Ok (Block () (PServerWait s_no_errors), Mon w [])) as HB.
  { intros n []; unfold loop_at.
    - apply iter_exit. simpl. rewrite loop_end_empty by auto. by rewrite Hq.
    - erewrite iter_next; [apply HTop|]. simpl. unfold loop_end, qgets, sgets. mstep. cbn [sh]. by rewrite E, Hq. }
  destruct p as [|td|td]; [apply HTop| |apply HB].
  unfold loop_at. erewrite iter_next; [apply HB|]. by apply take_work_none.
Qed.

Lemma loop_none_quit p : first (wq w) = None → quit (wq w) ≠ 0 →
  loop_at 4 p = Ok (Done RServer, Mon (drop_server w) (if counter (wq w) - 1 =? 0 then [Broadcast ()] else [])).
Proof.
  intros E Hq.
  assert (∀ n td, loop_at (S n) (Bottom td) =
    Ok (Done RServer, Mon (drop_server w) (if counter (wq w) - 1 =? 0 then [Broadcast ()] else []))) as HB.
  { intros n td. apply iter_exit. simpl. rewrite loop_end_empty by auto. by rewrite (proj2 (Z.eqb_neq _ _) Hq). }
  assert (∀ n td, loop_at (S (S n)) (Take td) = loop_at 1 (Bottom td)) as HT.
  { intros n td. rewrite HB. unfold loop_at. erewrite iter_next; [apply HB|]. by apply take_work_none. }
  destruct p as [|td|td]; [|rewrite HT; apply HB|apply HB].
  unfold loop_at. erewrite iter_next; [rewrite <- (HB 0%nat false); apply HT|].
  simpl. by rewrite wait_for_work_run, E, (proj2 (Z.eqb_neq _ _) Hq).
Qed.

Lemma server_loop_spec p : (∀ we, first (wq w) = Some we → is_Some (heap w !! we)) →
  ∃ o w' ks, server_loop s_no_errors p (Mon w []) = Ok (o, Mon w' ks) ∧ served p w o w' ks.
Proof.
  intros Hp. change (server_loop s_no_errors p (Mon w [])) with (loop_at 4 p).
  destruct (first (wq w)) as [we|] eqn:E.
  - destruct (Hp we eq_refl) as [e He]. destruct (loop_some we e p E He) as [td ->].
    do 3 eexists. split; [reflexivity|by constructor].
  - destruct (decide (quit (wq w) = 0)) as [Hq|Hq]; [rewrite loop_none by done|rewrite loop_none_quit by done].
    + destruct (timed_out p) eqn:Ht; do 3 eexists; (split; [reflexivity|by constructor]).
    + do 3 eexists. split; [reflexivity|by constructor].
Qed.
End loop.

(** ** The threads *)

Definition client_pc (l : pc) : bool :=
  match l with PClient _ _ | PAddLock _ _ _ _ | PDestroyLock _ _ _ | PDestroyWait _ _ _ | PDestroyEnd _ _ _ => true | _ => false end.
Definition is_client (t : wthread) : nat :=
  match t with
  | Ready l | Waiting _ l => if client_pc l then 1 else 0
  | Finished (RClient _) => 1
  | Finished RServer => 0
  end.
(** A server that has not returned. *)
Definition live (t : wthread) : nat :=
  match t with Ready l | Waiting _ l => if client_pc l then 0 else 1 | Finished _ => 0 end.

(** Calls without errors; a queue is destroyed only where there is one client. *)
Definition request_ok (N : nat) (r : request) : Prop :=
  match r with RAdd cd _ => cd = a_no_errors | RDestroy cd => cd = d_no_errors ∧ (N ≤ 1)%nat end.
Definition pc_ok (N : nat) (l : pc) : Prop :=
  match l with
  | PClient todo _ => Forall (request_ok N) todo
  | PAddLock cd _ todo _ => cd = a_no_errors ∧ Forall (request_ok N) todo
  | PDestroyLock cd todo _ | PDestroyWait cd todo _ | PDestroyEnd cd todo _ =>
      cd = d_no_errors ∧ (N ≤ 1)%nat ∧ Forall (request_ok N) todo
  | PServer cd | PServerWait cd | PServerTimeout cd | PServerEngine cd _ _ | PServerRelock cd _ => cd = s_no_errors
  end.
Definition thread_ok (N : nat) (t : wthread) : Prop :=
  match t with
  | Ready l => pc_ok N l
  | Waiting _ l => pc_ok N l ∧ match l with PDestroyWait _ _ _ | PServerWait _ => True | _ => False end
  | Finished _ => True
  end.

(** The queue is in use, or it was destroyed. *)
Definition open (q : workq_t) : Prop := valid q = WORKQ_VALID ∧ quit q = 0 ∧ mutex_dead q = false.
Definition closed (q : workq_t) : Prop := valid q = 0 ∧ mutex_dead q = true ∧ counter q = 0.
Definition closing (q : workq_t) : Prop := valid q = 0 ∧ mutex_dead q = false.

(** The state of the queue a client's place implies. *)
Definition mode_ok (q : workq_t) (t : wthread) : Prop :=
  match t with
  | Ready (PClient _ _) | Finished (RClient _) => open q ∨ closed q
  | Ready (PAddLock _ _ _ _) | Ready (PDestroyLock _ _ _) => open q
  | Ready (PDestroyWait _ _ _) => closing q ∧ quit q = 1
  | Waiting _ (PDestroyWait _ _ _) => closing q ∧ quit q = 1 ∧ 0 < counter q
  | Ready (PDestroyEnd _ _ _) => closing q ∧ counter q = 0
  | _ => True
  end.

Record cinv (T : Z) (N : nat) (w : world) (ts : list wthread) : Prop := {
  ci_idle : idle (wq w) = 0;
  ci_par : parallelism (wq w) = T;
  ci_counter : counter (wq w) = Z.of_nat (total live ts + length (spawned w));
  ci_bound : counter (wq w) ≤ T;
  ci_spawned : Forall (λ cd, cd = s_no_errors) (spawned w);
  ci_clients : total is_client ts = N;
  ci_ok : Forall (thread_ok N) ts;
  ci_mode : Forall (mode_ok (wq w)) ts;
  ci_dead : mutex_dead (wq w) = true → counter (wq w) = 0;
  ci_work : first (wq w) ≠ None → 0 < counter (wq w)
}.

Definition winv (T : Z) (N : nat) (cfg : config) : Prop :=
  (∃ ids, dinv cfg.1 ids (cfg.2 ≫= pending) (cfg.2 ≫= in_hand)) ∧ cinv T N cfg.1 cfg.2.

Lemma mode_ok_open q q' t : open q → open q' → mode_ok q t → mode_ok q' t.
Proof.
  intros (H1 & H2 & H3) Ho. unfold mode_ok, closing, closed. destruct t as [[]|? []|[]]; try tauto.
  all: intros; destruct_and?; rewrite H1 in *; try done.
Qed.

Lemma mode_ok_server q t : is_client t = 0%nat → mode_ok q t.
Proof. by destruct t as [[]|? []|[]]. Qed.

Lemma mode_ok_drop q t : 0 < counter q → mode_ok q t → (∀ l, t = Waiting () l → quit q ≠ 0 → 0 < counter q - 1) →
  mode_ok (set_counter (counter q - 1) q) t.
Proof.
  intros Hc. unfold mode_ok, open, closed, closing. destruct t as [[]|[] []|[]]; simpl; try tauto; intros H1 H2;
    [destruct H1 as [?|(? & ? & ?)]; [by left|lia]|destruct_and!; lia| |destruct H1 as [?|(? & ? & ?)]; [by left|lia]].
  destruct_and!. specialize (H2 _ eq_refl). split_and!; try done. lia.
Qed.

Lemma mode_ok_resume q N t : mode_ok q t → thread_ok N t → mode_ok q (resume t).
Proof. destruct t as [l|? l|[]]; simpl; try done. intros Hm [_ Hl]. destruct l; try done. tauto. Qed.

Lemma workq_thread_ok_resume N t : thread_ok N t → thread_ok N (resume t).
Proof. by destruct t; simpl; [|intros [? _]|]. Qed.

(** ** The requests of all threads *)

Lemma held_split {A} (f : wthread → list A) ts i t : ts !! i = Some t →
  ∃ rest, ts ≫= f ≡ₚ f t ++ rest ∧ ∀ u, <[i:=u]> ts ≫= f ≡ₚ f u ++ rest.
Proof.
  revert i. induction ts as [|x ts IH]; intros [|i] Hi; try done.
  - injection Hi as ->. by exists (ts ≫= f).
  - destruct (IH i Hi) as (rest & E & F). exists (f x ++ rest). simpl. split.
    + rewrite E. apply Permutation_app_swap_app.
    + intros u. rewrite F. apply Permutation_app_swap_app.
Qed.

Lemma held_wakes {A} (f : wthread → list A) ks ts ts' :
  (∀ t, f (resume t) = f t) → wakes ks ts ts' → ts' ≫= f = ts ≫= f.
Proof.
  intros Hf. induction 1 as [|k ks ts ts1 ts2 H1 _ IH]; [done|]. rewrite IH.
  apply wakes_one_pc in H1. clear IH. induction H1 as [|t t' ts ts' Ht _ IH]; [done|]. rewrite !bind_cons, IH.
  by destruct Ht as [->| ->]; rewrite ?Hf.
Qed.

Lemma winv_wakes T N w ks ts ts' : wakes ks ts ts' → winv T N (w, ts) → winv T N (w, ts').
Proof.
  intros Hw [[ids D] []]; simpl in *. split; simpl.
  - exists ids. rewrite (held_wakes pending _ _ _ ltac:(by intros []) Hw), (held_wakes in_hand _ _ _ ltac:(by intros []) Hw). done.
  - assert (Forall (λ t, thread_ok N t ∧ mode_ok (wq w) t) ts') as [H1 H2]%Forall_and.
    { eapply wakes_forall; [|exact Hw|by apply Forall_and].
      intros t [??]. split; [by apply workq_thread_ok_resume|by eapply mode_ok_resume]. }
    split; rewrite ?(total_wakes is_client _ _ _ ltac:(by intros []) Hw), ?(total_wakes live _ _ _ ltac:(by intros []) Hw); done.
Qed.

(** One thread moves, and the queue changes. *)
Section move.
Context (T : Z) (N : nat) (w w' : world) (ts : list wthread) (i : nat) (t u : wthread).

Lemma cinv_insert : cinv T N w ts → ts !! i = Some t → thread_ok N u → is_client u = is_client t →
  idle (wq w') = 0 → parallelism (wq w') = parallelism (wq w) →
  counter (wq w') + Z.of_nat (live t) + zlen (spawned w) = counter (wq w) + Z.of_nat (live u) + zlen (spawned w') →
  counter (wq w') ≤ T → Forall (λ cd, cd = s_no_errors) (spawned w') →
  (mutex_dead (wq w') = true → counter (wq w') = 0) → (first (wq w') ≠ None → 0 < counter (wq w')) →
  (∀ j v, j ≠ i → ts !! j = Some v → mode_ok (wq w') v) → mode_ok (wq w') u →
  cinv T N w' (<[i:=u]> ts).
Proof.
  intros [] Hi Hok Hcl Hid Hpar Hcnt Hb Hs Hd Hwk Hoth Hu.
  destruct (total_split live ts i t Hi) as (rest & E & F). unfold zlen in *.
  split; try done.
  - congruence.
  - rewrite F. lia.
  - pose proof (total_insert is_client ts i t u Hi). lia.
  - by apply Forall_insert.
  - apply Forall_lookup. intros j v Hj. destruct (decide (j = i)) as [->|Hne].
    + rewrite list_lookup_insert_eq in Hj by (by eapply lookup_lt_Some). by injection Hj as <-.
    + rewrite list_lookup_insert_ne in Hj by done. by eapply Hoth.
Qed.
End move.

(** ** Every segment keeps the invariant *)

(** What is left to do: the requests in the queue and the servers to start, and for a thread
    its calls and its way to the end, by way of a time-out. *)
Definition load (w : world) : Z := 6 * (zlen (adds (log w)) - zlen (takes (log w))) + 5 * zlen (spawned w).
Definition weight (t : wthread) : Z :=
  match t with
  | Ready (PClient todo _) => 1 + 20 * zlen todo
  | Ready (PAddLock _ _ todo _) | Ready (PDestroyLock _ todo _) => 15 + 20 * zlen todo
  | Waiting _ (PDestroyWait _ todo _) => 11 + 20 * zlen todo
  | Ready (PDestroyWait _ todo _) => 10 + 20 * zlen todo
  | Ready (PDestroyEnd _ todo _) => 5 + 20 * zlen todo
  | Ready (PServerTimeout _) => 1
  | Waiting _ (PServerWait _) => 2
  | Ready (PServerWait _) => 3
  | Ready (PServer _) | Ready (PServerRelock _ _) => 4
  | Ready (PServerEngine _ _ _) => 5
  | _ => 0
  end.

Definition rundown_pc (l : pc) : bool := match l with PDestroyWait _ _ _ => true | _ => false end.

(** The run of a segment of thread [i]: after its wake-ups, of which there is at most one
    broadcast by the last server, the invariant holds again, and there is less to do, unless
    the destroyer was woken too early. *)
Definition keeps (T : Z) (N : nat) (w : world) (ts : list wthread) (i : nat) (l : pc)
    (o : wout) (w' : world) (ks : list (wake ())) : Prop :=
  (ks = [] ∨ ks = [Broadcast ()] ∧ counter (wq w) = 1 ∧ client_pc l = false) ∧
  ((ks ≠ [] → ∀ j c l, ts !! j ≠ Some (Waiting c l)) → winv T N (w', <[i:=after o]> ts)) ∧
  (rundown_pc l = false ∨ counter (wq w) = 0 → load w' + weight (after o) < load w + weight (Ready l)).

Lemma load_ext w w' : adds (log w') = adds (log w) → takes (log w') = takes (log w) → spawned w' = spawned w → load w' = load w.
Proof. unfold load. by intros -> -> ->. Qed.

Lemma weight_nonneg t : 0 ≤ weight t.
Proof. destruct t as [[]|? []|[]]; simpl; try done; match goal with |- context [zlen ?x] => pose proof (zlen_nonneg x) end; lia. Qed.
Lemma server_weight l : client_pc l = false → 1 ≤ weight (Ready l).
Proof. by destruct l. Qed.

Section segments.
Context (T : Z) (N : nat) (w : world) (ts : list wthread) (i : nat) (l : pc).
Context (Hw : winv T N (w, ts)) (Hi : ts !! i = Some (Ready l)).

(** The requests when thread [i] goes from [t] to [u], both without requests. *)
Lemma dinv_move w' u : pending (Ready l) = [] → in_hand (Ready l) = [] → pending u = [] → in_hand u = [] →
  first (wq w') = first (wq w) → last (wq w') = last (wq w) → heap w' = heap w → brk w' = brk w → log w' = log w →
  ∃ ids, dinv w' ids (<[i:=u]> ts ≫= pending) (<[i:=u]> ts ≫= in_hand).
Proof.
  intros E1 E2 F1 F2. destruct Hw as [[ids D] _]. intros. exists ids. simpl in D.
  destruct (held_split pending ts i _ Hi) as (rp & Ep & Fp). destruct (held_split in_hand ts i _ Hi) as (rh & Eh & Fh).
  rewrite E1 in Ep. rewrite E2 in Eh. specialize (Fp u). specialize (Fh u). rewrite F1 in Fp. rewrite F2 in Fh.
  eapply dinv_ext; [exact D|done..|by rewrite Ep, Fp|by rewrite Eh, Fh].
Qed.

Lemma others_mode w' : open (wq w) → open (wq w') → ∀ j v, j ≠ i → ts !! j = Some v → mode_ok (wq w') v.
Proof.
  intros H1 H2 j v _ Hj. eapply mode_ok_open; [exact H1|exact H2|].
  destruct Hw as [_ []]. by eapply Forall_lookup_1.
Qed.

(** A destroyer is the only client. *)
Lemma others_servers q : (N ≤ 1)%nat → client_pc l = true → ∀ j v, j ≠ i → ts !! j = Some v → mode_ok q v.
Proof.
  intros HN Hl j v Hne Hj. apply mode_ok_server. destruct Hw as [_ []]. simpl in *.
  pose proof (total_two is_client ts i j _ v (not_eq_sym Hne) Hi Hj) as H. simpl in H. rewrite Hl in H. lia.
Qed.

Lemma others_same w' : valid (wq w') = valid (wq w) → quit (wq w') = quit (wq w) → mutex_dead (wq w') = mutex_dead (wq w) →
  counter (wq w') = counter (wq w) → ∀ j v, j ≠ i → ts !! j = Some v → mode_ok (wq w') v.
Proof.
  intros E1 E2 E3 E4 j v _ Hj. destruct Hw as [_ []]. simpl in *. pose proof (Forall_lookup_1 _ _ _ _ ci_mode0 Hj) as H.
  revert H. unfold mode_ok, open, closed, closing. by rewrite E1, E2, E3, E4.
Qed.

(** A live server is counted. *)
Lemma live_counted : client_pc l = false → 0 < counter (wq w).
Proof.
  intros Hl. destruct Hw as [_ []]. simpl in *. pose proof (total_lookup live ts i _ Hi) as H. simpl in H. rewrite Hl in H. lia.
Qed.

Lemma served_keeps p o w' ks : client_pc l = false → in_hand (Ready l) = [] → timed_out p = true ∨ 3 ≤ weight (Ready l) → served p w o w' ks → keeps T N w ts i l o w' ks.
Proof.
  intros Hl Hh Hpt Hs. pose proof (live_counted Hl) as Hpos. pose proof (server_weight l Hl) as Hwt. pose proof Hw as [[ids D] C]. simpl in D, C.
  assert (pending (Ready l) = []) as Hp by by destruct l.
  assert (is_client (Ready l) = 0%nat ∧ live (Ready l) = 1%nat) as [Hcl Hlv] by (simpl; by rewrite Hl).
  assert (∀ ks', quit (wq w) = 0 ∨ (quit (wq w) ≠ 0 ∧ ks' = if counter (wq w) - 1 =? 0 then [Broadcast ()] else []) →
    first (wq w) = None → (ks' ≠ [] → ∀ j c l, ts !! j ≠ Some (Waiting c l)) →
    winv T N (drop_server w, <[i:=Finished RServer]> ts)) as Hexit.
  { intros ks' Hq Hf Hnw. split; simpl; [by apply dinv_move|]. destruct C.
    eapply cinv_insert; [split; done|exact Hi|done|by rewrite Hcl|..]; simpl; rewrite ?Hl; try done; try lia.
    - intros Hd. specialize (ci_dead0 Hd). lia.
    - intros j v Hne Hj. apply mode_ok_drop; [done|by apply (Forall_lookup_1 _ _ _ _ ci_mode0 Hj)|].
      intros l' -> Hq0. destruct Hq as [|[_ ->]]; [done|].
      destruct (Z.eqb_spec (counter (wq w) - 1) 0); [|lia]. exfalso. by apply (Hnw ltac:(done) j () l'). }
  destruct Hs as [we e td Hf He|Hf Hq|Hf Hq Ht|Hf Hq Ht].
  - split; [by left|split; [intros _|]].
    2:{ intros _. unfold load, adds, takes. simpl. rewrite !omap_snoc, app_nil_r, zlen_app. unfold zlen at 3. simpl. simpl in Hwt. lia. }
    destruct (dinv_take _ _ _ _ _ _ D Hf He) as [ids' D']. split; simpl.
    + exists ids'. destruct (held_split pending ts i _ Hi) as (rp & Ep & Fp). destruct (held_split in_hand ts i _ Hi) as (rh & Eh & Fh).
      rewrite Hp in Ep. rewrite Hh in Eh.
      eapply dinv_ext; [exact D'|done..|by rewrite Fp, Ep|by rewrite Fh, Eh].
    + destruct C. eapply cinv_insert; [split; done|exact Hi|done|by rewrite Hcl|..]; simpl; rewrite ?Hl; try done.
      by apply others_same.
  - split; [destruct (Z.eqb_spec (counter (wq w) - 1) 0); [right; split_and!; [done|lia|done]|auto]|split].
    + intros Hnw. eapply Hexit; [right; split; [done|reflexivity]|done..].
    + intros _. rewrite (load_ext w) by done. simpl. simpl in Hwt. lia.
  - split; [by left|split].
    + intros Hnw. by apply (Hexit []); [left|..].
    + intros _. rewrite (load_ext w) by done. simpl. simpl in Hwt. lia.
  - split; [by left|split; [intros _|]].
    2:{ intros _. destruct Hpt as [Hpt|Hpt]; [congruence|]. simpl. simpl in Hpt. lia. }
    split; simpl; [by apply dinv_move|]. destruct C.
    eapply cinv_insert; [split; done|exact Hi|done|by rewrite Hcl|..]; simpl; rewrite ?Hl; try done.
    by apply others_same.
Qed.

Lemma pc_is_ok : pc_ok N l.
Proof. destruct Hw as [_ []]. apply (Forall_lookup_1 _ _ _ _ ci_ok0 Hi). Qed.

Lemma mode_is_ok : mode_ok (wq w) (Ready l).
Proof. destruct Hw as [_ []]. apply (Forall_lookup_1 _ _ _ _ ci_mode0 Hi). Qed.

Lemma first_allocated we : first (wq w) = Some we → is_Some (heap w !! we).
Proof.
  destruct Hw as [[ids []] _]. simpl in *. rewrite di_first0. destruct ids as [|p ids]; [done|]. intros [= ->].
  apply di_dom0. by apply list_elem_of_here.
Qed.

Definition good : Prop := ∃ o w' ks, seg l (Mon w []) = Ok (o, Mon w' ks) ∧ keeps T N w ts i l o w' ks.

Lemma loop_keeps p : client_pc l = false → in_hand (Ready l) = [] → timed_out p = true ∨ 3 ≤ weight (Ready l) → seg l (Mon w []) = server_loop s_no_errors p (Mon w []) → good.
Proof.
  intros Hl Hh Hpt E. destruct (server_loop_spec w p first_allocated) as (o & w' & ks & R & Hs).
  exists o, w', ks. split; [by rewrite E|]. by eapply served_keeps.
Qed.

Lemma locked_loop p : mutex_dead (wq w) = false →
  (lock_mutex ≫= λ _, server_loop s_no_errors p) (Mon w []) = server_loop s_no_errors p (Mon w []).
Proof. intros Hd. unfold lock_mutex, qgets, sgets. mstep. cbn [sh]. by rewrite Hd. Qed.

Lemma server_alive : client_pc l = false → mutex_dead (wq w) = false.
Proof.
  intros Hl. pose proof (live_counted Hl). destruct Hw as [_ []]. simpl in *.
  destruct (mutex_dead (wq w)); [specialize (ci_dead0 eq_refl); lia|done].
Qed.

Lemma engine_good we td : l = PServerEngine s_no_errors we td → good.
Proof.
  intros El. pose proof Hi as Hi'. rewrite El in Hi'. pose proof Hw as [[ids D] C]. simpl in D, C.
  destruct (held_split in_hand ts i _ Hi') as (rh & Eh & Fh). destruct (held_split pending ts i _ Hi') as (rp & Ep & Fp).
  simpl in Eh, Ep. assert (dinv w ids rp (we :: rh)) as D' by by eapply dinv_ext.
  destruct (proj2 (di_dom _ _ _ _ D' we)) as [e He]; [set_solver|].
  pose proof (dinv_engine _ _ _ _ _ _ D' He) as D2.
  exists (Next (PServerRelock s_no_errors td)), (set_heap (delete we (heap w)) (add_event (EEngine (data e)) w)), [].
  split; [|split; [by left|split; [intros _; split; simpl|]]].
  - rewrite El. simpl. unfold server_engine, free_ele, deref, smodify, sgets. mstep. cbn [sh mbind option_bind].
    rewrite He. mstep. cbn [sh add_event heap]. by rewrite He.
  - exists ids. eapply dinv_ext; [exact D2|done..|by rewrite Fp|by rewrite Fh].
  - destruct C. eapply cinv_insert; [split; done|exact Hi'|..]; simpl; try done. by apply others_same.
  - intros _. unfold load, adds, takes. rewrite El. simpl. rewrite !omap_snoc, !app_nil_r. lia.
Qed.

Lemma server_good : client_pc l = false → good.
Proof.
  intros Hl. pose proof (server_alive Hl) as Hd. pose proof pc_is_ok as Hok.
  assert (∃ l', l' = l) as [l' El] by eauto.
  destruct l' as [| | | | |cd|cd|cd|cd we td|cd td]; rewrite <- El in Hok, Hl; try done; simpl in Hok; subst cd.
  - apply (loop_keeps Top); rewrite <- El; [done|done|first [by left|right; simpl; lia]|]. by apply locked_loop.
  - apply (loop_keeps Top); rewrite <- El; [done|done|first [by left|right; simpl; lia]|done].
  - apply (loop_keeps (Take true)); rewrite <- El; [done|done|first [by left|right; simpl; lia]|done].
  - by eapply engine_good.
  - apply (loop_keeps (Bottom td)); rewrite <- El; [done|done|first [by left|right; simpl; lia]|]. by apply locked_loop.
Qed.

(** A client moves without touching the requests or the number of servers. *)
Lemma client_keeps w' o : client_pc l = true → pending (Ready l) = [] →
  pending (after o) = [] → in_hand (after o) = [] → thread_ok N (after o) → is_client (after o) = 1%nat → live (after o) = 0%nat →
  first (wq w') = first (wq w) → last (wq w') = last (wq w) → heap w' = heap w → brk w' = brk w → log w' = log w →
  spawned w' = spawned w → idle (wq w') = idle (wq w) → parallelism (wq w') = parallelism (wq w) →
  counter (wq w') = counter (wq w) → (mutex_dead (wq w') = true → counter (wq w) = 0) →
  (∀ j v, j ≠ i → ts !! j = Some v → mode_ok (wq w') v) → mode_ok (wq w') (after o) →
  (rundown_pc l = false ∨ counter (wq w) = 0 → weight (after o) < weight (Ready l)) →
  keeps T N w ts i l o w' [].
Proof.
  intros Hl Hp Hpu Hhu Hok Hcl Hlv E1 E2 E3 E4 E5 E6 E7 E8 E9 Hd Hoth Hu Hlt. split; [by left|split; [intros _|]].
  2:{ intros H. rewrite (load_ext w) by congruence. specialize (Hlt H). lia. }
  split; simpl; [apply dinv_move; try done; by destruct l|]. destruct Hw as [_ []]. simpl in *.
  eapply cinv_insert; [split; done|exact Hi|done|by rewrite Hcl; simpl; rewrite Hl|..]; rewrite ?E1, ?E6, ?E7, ?E8, ?E9; try done.
  rewrite Hlv. simpl. rewrite Hl. lia.
Qed.

Lemma returned_run st todo acc m : ∃ o, returned st todo acc m = Ok (o, m) ∧
  (after o = Finished (RClient (acc ++ [st])) ∨ after o = Ready (PClient todo (acc ++ [st]))).
Proof. unfold returned. destruct todo; eexists; (split; [reflexivity|]); auto. Qed.

(** A client's call returns. *)
Lemma returned_good st todo acc w' : client_pc l = true → pending (Ready l) = [] → Forall (request_ok N) todo → 1 + 20 * zlen todo < weight (Ready l) →
  seg l (Mon w []) = returned st todo acc (Mon w' []) →
  first (wq w') = first (wq w) → last (wq w') = last (wq w) → heap w' = heap w → brk w' = brk w → log w' = log w →
  spawned w' = spawned w → idle (wq w') = idle (wq w) → parallelism (wq w') = parallelism (wq w) →
  counter (wq w') = counter (wq w) → (mutex_dead (wq w') = true → counter (wq w) = 0) →
  (∀ j v, j ≠ i → ts !! j = Some v → mode_ok (wq w') v) → open (wq w') ∨ closed (wq w') → good.
Proof.
  intros Hl Hp Hok Hlt E. intros. destruct (returned_run st todo acc (Mon w' [])) as (o & R & Ho).
  exists o, w', []. split; [by rewrite E|]. pose proof (zlen_nonneg todo).
  apply client_keeps; try done; destruct Ho as [-> | ->]; try done; intros _; simpl in *; lia.
Qed.

Lemma add_good d todo acc : l = PClient (RAdd a_no_errors d :: todo) acc → good.
Proof.
  intros El. pose proof pc_is_ok as Hok. pose proof mode_is_ok as Hm. rewrite El in Hok, Hm. simpl in Hok, Hm.
  apply Forall_cons in Hok as [_ Hok]. destruct Hm as [Ho|Hc].
  - pose proof Hi as Hi'. rewrite El in Hi'. pose proof Hw as [[ids D] C]. simpl in D, C.
    pose proof (dinv_malloc _ _ _ _ d D) as D'.
    do 3 eexists. split; [|split; [by left|split; [intros _; split|]]].
    + rewrite El. simpl. unfold workq_add, malloc_ele, qgets, smodify, sgets. mstep. cbn [sh].
      rewrite (proj1 Ho). cbn [mallocok a_no_errors]. mstep. reflexivity.
    + simpl. exists ids. destruct (held_split pending ts i _ Hi') as (rp & Ep & Fp). destruct (held_split in_hand ts i _ Hi') as (rh & Eh & Fh).
      simpl in Ep, Eh. eapply dinv_ext; [exact D'|done..|by rewrite Fp, Ep|by rewrite Fh, Eh].
    + simpl. destruct C. eapply cinv_insert; [split; done|exact Hi'|..]; simpl; try done. by apply others_same.
    + intros _. rewrite (load_ext w) by done. rewrite El. simpl. rewrite zlen_cons. lia.
  - eapply returned_good with (w' := w); rewrite ?El; try done;
      [simpl; rewrite zlen_cons; lia| |by destruct Hw as [_ []]|by apply others_same|by right].
    simpl. unfold workq_add, qgets, sgets. mstep. cbn [sh]. by rewrite (proj1 Hc).
Qed.

Lemma destroy_good todo acc : l = PClient (RDestroy d_no_errors :: todo) acc → good.
Proof.
  intros El. pose proof pc_is_ok as Hok. pose proof mode_is_ok as Hm. rewrite El in Hok, Hm. simpl in Hok, Hm.
  apply Forall_cons in Hok as [[_ HN] Hok]. destruct Hm as [Ho|Hc].
  - exists (Next (PDestroyLock d_no_errors todo acc)), w, []. split.
    + rewrite El. simpl. unfold workq_destroy, qgets, sgets. mstep. cbn [sh]. by rewrite (proj1 Ho).
    + apply client_keeps; rewrite ?El; try done; [by destruct Hw as [_ []]|by apply others_same|].
      intros _. simpl. rewrite zlen_cons. lia.
  - eapply returned_good with (w' := w); rewrite ?El; try done;
      [simpl; rewrite zlen_cons; lia| |by destruct Hw as [_ []]|by apply others_same|by right].
    simpl. unfold workq_destroy, qgets, sgets. mstep. cbn [sh]. by rewrite (proj1 Hc).
Qed.

(** The queue after the lock in [workq_add]: a server is created if there may be one more. *)
Definition staffed (w : world) : world :=
  if counter (wq w) <? parallelism (wq w) then
    set_wq (set_counter (counter (wq w) + 1) (wq w)) (set_spawned (spawned w ++ [s_no_errors]) w)
  else w.

Lemma add_lock_run item d todo acc : l = PAddLock a_no_errors item todo acc →
  mutex_dead (wq w) = false → idle (wq w) = 0 → append item (Mon w []) = Ok ((), Mon (linked item d w) []) →
  seg l (Mon w []) = returned 0 todo acc (Mon (staffed (linked item d w)) []).
Proof.
  intros El Hd Hid Ha. rewrite El. simpl. unfold add_lock. cbn [a_no_errors a_lockrc].
  change (negb (0 =? 0)) with false. cbv iota. unfold lock_mutex, qgets, qmodify, create_server, smodify, sgets. mstep. cbn [sh].
  rewrite Hd. mstep. rewrite (bind_ok _ _ _ _ _ Ha). mstep. cbn [sh linked add_event wq set_ends idle].
  rewrite Hid. change (0 <? 0) with false. cbv iota. cbn [counter parallelism]. unfold staffed. cbn [wq linked add_event counter parallelism set_ends].
  destruct (counter (wq w) <? parallelism (wq w)); [|done].
  cbn [a_createrc a_server when]. change (0 =? 0) with true. cbv iota. cbn [when]. mstep. done.
Qed.

Lemma add_lock_good item todo acc : 0 < T → l = PAddLock a_no_errors item todo acc → good.
Proof.
  intros HT El. pose proof pc_is_ok as Hok. pose proof mode_is_ok as Ho. rewrite El in Hok, Ho. simpl in Hok, Ho.
  pose proof Hi as Hi'. rewrite El in Hi'. pose proof Hw as [[ids D] C]. simpl in D, C.
  destruct (held_split pending ts i _ Hi') as (rp & Ep & Fp). destruct (held_split in_hand ts i _ Hi') as (rh & Eh & Fh).
  simpl in Ep, Eh. assert (dinv w ids (item :: rp) rh) as D' by by eapply dinv_ext.
  destruct (dinv_append w item ids rp rh [] D') as (d & _ & Ha & D2).
  pose proof (add_lock_run item d todo acc El (proj2 (proj2 Ho)) (ci_idle _ _ _ _ C) Ha) as R.
  destruct (returned_run 0 todo acc (Mon (staffed (linked item d w)) [])) as (o & R' & Hu).
  do 3 eexists. split; [by rewrite R|]. split; [by left|split; [intros _; split; simpl|]].
  - exists (ids ++ [item]). assert (pending (after o) = [] ∧ in_hand (after o) = []) as [U1 U2] by (by destruct Hu as [-> | ->]).
    eapply dinv_ext; [exact D2|by unfold staffed; destruct (_ <? _)..|by rewrite Fp, U1|by rewrite Fh, U2].
  - destruct C. assert (thread_ok N (after o) ∧ is_client (after o) = 1%nat ∧ live (after o) = 0%nat) as (U1 & U2 & U3).
    { destruct Hu as [-> | ->]; simpl; split_and!; try done. by apply Hok. }
    assert (open (wq (staffed (linked item d w)))) as Ho' by (unfold staffed; by destruct (_ <? _)).
    eapply cinv_insert; [split; done|exact Hi'|done|done|..]; rewrite ?U3; try (unfold staffed; simpl; case_test; simpl; done);
      try (unfold staffed; simpl; case_test; simpl; unfold zlen; rewrite ?length_app; simpl; lia).
    + unfold staffed; simpl; case_test; simpl; [|done]. apply Forall_app. split; [done|by constructor].
    + intros Hd. exfalso. destruct Ho' as (_ & _ & H). congruence.
    + by apply others_mode.
    + destruct Hu as [-> | ->]; by left.
  - intros _. assert (weight (after o) ≤ 1 + 20 * zlen todo) by (pose proof (zlen_nonneg todo); destruct Hu as [-> | ->]; simpl; lia).
    assert (load (staffed (linked item d w)) ≤ load w + 11); [|rewrite El; simpl; lia].
    unfold load, staffed, adds, takes. case_test; simpl; rewrite !omap_snoc, app_nil_r, !zlen_app; unfold zlen; simpl; lia.
Qed.

Lemma rundown_good cd todo acc w' : cd = d_no_errors → (N ≤ 1)%nat → Forall (request_ok N) todo →
  client_pc l = true → pending (Ready l) = [] →
  11 + 20 * zlen todo < weight (Ready l) ∨ rundown_pc l = true ∧ weight (Ready l) = 10 + 20 * zlen todo →
  seg l (Mon w []) = (if 0 <? counter (wq w) then Ok (Block () (PDestroyWait cd todo acc), Mon w' [])
                      else Ok (Next (PDestroyEnd cd todo acc), Mon w' [])) →
  first (wq w') = first (wq w) → last (wq w') = last (wq w) → heap w' = heap w → brk w' = brk w → log w' = log w →
  spawned w' = spawned w → idle (wq w') = idle (wq w) → parallelism (wq w') = parallelism (wq w) →
  counter (wq w') = counter (wq w) → closing (wq w') → (0 < counter (wq w) → quit (wq w') = 1) → good.
Proof.
  intros -> HN Hok Hl Hp Hlt E E1 E2 E3 E4 E5 E6 E7 E8 E9 Hc Hq.
  assert (0 ≤ counter (wq w)) by (destruct Hw as [_ []]; simpl in *; lia).
  assert (mutex_dead (wq w') = true → counter (wq w) = 0) by (intros Hd; by destruct Hc as [_ Hc]; rewrite Hc in Hd).
  destruct (Z.ltb_spec 0 (counter (wq w))); do 3 eexists; (split; [exact E|]); apply client_keeps; try done;
    try (by apply others_servers).
  - simpl. rewrite E9. split_and!; [apply Hc..|by apply Hq|done].
  - intros [Hr|Hr]; [|lia]. destruct Hlt as [Hlt|[Hlt _]]; [done|congruence].
  - simpl. rewrite E9. split; [done|lia].
  - intros _. change (weight (after _)) with (5 + 20 * zlen todo). destruct Hlt as [Hlt|[_ Hlt]]; lia.
Qed.

Lemma destroy_lock_good todo acc : l = PDestroyLock d_no_errors todo acc → good.
Proof.
  intros El. pose proof pc_is_ok as Hok. pose proof mode_is_ok as Ho. rewrite El in Hok, Ho. simpl in Hok, Ho.
  destruct Hok as (_ & HN & Hok). destruct Ho as (Hv & Hq & Hd).
  assert (idle (wq w) = 0) as Hid by by destruct Hw as [_ []].
  eapply (rundown_good d_no_errors todo acc
    (set_wq (if 0 <? counter (wq w) then set_quit 1 (set_valid 0 (wq w)) else set_valid 0 (wq w)) w)); rewrite ?El; try done;
    try (simpl; destruct (0 <? counter (wq w)); done).
  - left. simpl. lia.
  - simpl. unfold destroy_lock, lock_mutex, qgets, qmodify, smodify, sgets. cbn [d_lockrc d_no_errors].
    change (negb (0 =? 0)) with false. cbv iota. mstep. cbn [sh]. rewrite Hd. mstep. cbn [sh set_wq wq set_valid counter idle].
    unfold rundown_loop, destroy_unlock, qgets, sgets.
    destruct (0 <? counter (wq w)) eqn:E; [|done]. mstep. cbn [sh]. rewrite Hid. change (0 <? 0) with false. cbv iota. mstep.
    cbn [sh set_wq wq set_valid set_quit counter]. by rewrite E.
  - simpl. case_test; [done|lia].
Qed.

Lemma rundown_resume_good todo acc : l = PDestroyWait d_no_errors todo acc → good.
Proof.
  intros El. pose proof pc_is_ok as Hok. pose proof mode_is_ok as Ho. rewrite El in Hok, Ho. simpl in Hok, Ho.
  destruct Hok as (_ & HN & Hok). destruct Ho as [Hc Hq].
  eapply (rundown_good d_no_errors todo acc w); rewrite ?El; try done; [by right|].
  simpl. unfold rundown_resume, rundown_loop, destroy_unlock, qgets, sgets. cbn [d_waitrc d_no_errors].
  change (negb (0 =? 0)) with false. cbv iota. mstep. cbn [sh]. by destruct (0 <? counter (wq w)).
Qed.

Lemma destroy_end_good todo acc : l = PDestroyEnd d_no_errors todo acc → good.
Proof.
  intros El. pose proof pc_is_ok as Hok. pose proof mode_is_ok as Ho. rewrite El in Hok, Ho. simpl in Hok, Ho.
  destruct Hok as (_ & HN & Hok). destruct Ho as [[Hv _] Hc].
  eapply (returned_good 0 todo acc (set_wq (set_dead true (wq w)) w)); rewrite ?El; try done.
  - simpl. lia.
  - apply others_servers; [done|by rewrite El].
  - right. done.
Qed.

Lemma seg_good : 0 < T → good.
Proof.
  intros HT. destruct (client_pc l) eqn:Hl; [|by apply server_good].
  pose proof pc_is_ok as Hok. assert (∃ l', l' = l) as [l' El] by eauto.
  destruct l' as [[|[cd d|cd] todo] acc|cd item todo acc|cd todo acc|cd todo acc|cd todo acc| | | | |]; rewrite <- El in Hok, Hl; try done; simpl in Hok.
  - exists (Done (RClient acc)), w, []. split; [by rewrite <- El|].
    pose proof mode_is_ok as Hm. rewrite <- El in Hm.
    apply client_keeps; rewrite <- ?El; try done; [by destruct Hw as [_ []]|by apply others_same].
  - apply Forall_cons in Hok as [-> _]. by eapply add_good.
  - apply Forall_cons in Hok as [[-> _] _]. by eapply destroy_good.
  - destruct Hok as [-> _]. by eapply add_lock_good.
  - destruct Hok as [-> _]. by eapply destroy_lock_good.
  - destruct Hok as [-> _]. by eapply rundown_resume_good.
  - destruct Hok as [-> _]. by eapply destroy_end_good.
Qed.
End segments.

(** ** Reachable configurations *)

Lemma total_snoc (f : wthread → nat) ts t : total f (ts ++ [t]) = (total f ts + f t)%nat.
Proof. induction ts as [|u ts IH]; [|rewrite <- app_comm_cons, !total_cons, IH; lia]. unfold total. simpl. lia. Qed.

Lemma winv_start T N w ts l1 cd l2 : spawned w = l1 ++ cd :: l2 → winv T N (w, ts) →
  winv T N (set_spawned (l1 ++ l2) w, ts ++ [Ready (PServer cd)]).
Proof.
  intros E [[ids D] []]; simpl in *. rewrite E in *.
  apply Forall_app in ci_spawned0 as [F1 [F2 F3]%Forall_cons].
  split; simpl.
  - exists ids. rewrite !bind_app. eapply dinv_ext; [exact D|done..|by rewrite app_nil_r|by rewrite app_nil_r].
  - split; simpl; try done.
    + rewrite total_snoc. simpl. rewrite length_app in *. simpl in *. lia.
    + by apply Forall_app.
    + rewrite total_snoc. simpl. lia.
    + apply Forall_app. split; [done|by repeat constructor].
    + apply Forall_app. split; [done|by repeat constructor].
Qed.

Lemma winv_timeout T N w ts i cd : ts !! i = Some (Waiting () (PServerWait cd)) → winv T N (w, ts) →
  winv T N (w, <[i:=Ready (PServerTimeout cd)]> ts).
Proof.
  intros Hi [[ids D] C]; simpl in *. split; simpl.
  - exists ids. destruct (held_split pending ts i _ Hi) as (rp & Ep & Fp). destruct (held_split in_hand ts i _ Hi) as (rh & Eh & Fh).
    eapply dinv_ext; [exact D|done..|by rewrite Fp, Ep|by rewrite Fh, Eh].
  - destruct C. pose proof (Forall_lookup_1 _ _ _ _ ci_ok0 Hi) as [Hok _].
    eapply cinv_insert; [split; done|exact Hi|..]; try done.
    intros j v _ Hj. by apply (Forall_lookup_1 _ _ _ _ ci_mode0 Hj).
Qed.

Lemma winv_not_faulty T N cfg : 0 < T → winv T N cfg → ¬ faulty seg cfg.
Proof.
  destruct cfg as [w ts]. intros HT Hw (i & l & f & Hi & E).
  destruct (seg_good T N w ts i l Hw Hi HT) as (o & w' & ks & R & _). simpl in *. congruence.
Qed.

Lemma winv_run T N w ts i l o w' ks ts' : 0 < T → winv T N (w, ts) → ts !! i = Some (Ready l) →
  seg l (Mon w []) = Ok (o, Mon w' ks) → wakes ks ts ts' → winv T N (w', <[i:=after o]> ts').
Proof.
  intros HT Hw Hi E Hwk.
  destruct (seg_good T N w ts' i l (winv_wakes _ _ _ _ _ _ Hwk Hw) (wakes_ready _ _ _ _ _ Hwk Hi) HT)
    as (o2 & w2 & ks2 & R & Hk & Hinv & _).
  rewrite E in R. injection R as <- <- <-. apply Hinv. intros Hne j [] l'.
  destruct Hk as [->|(-> & _)]; [done|]. by eapply wakes_broadcast_none.
Qed.

Lemma winv_step T N cfg cfg' : 0 < T → wstep cfg cfg' → winv T N cfg → winv T N cfg'.
Proof.
  intros HT [cfg0 cfg1 Hs|w ts l1 cd l2 E|w ts i cd Hi]; [|by apply winv_start|by apply winv_timeout].
  destruct Hs as [s ts i l o s' ks ts' Hi E Hw|s ts i c l Hi]; intros H.
  - by eapply winv_run.
  - eapply winv_wakes; [|exact H]. eapply wakes_cons; [by apply (wakes_signal c ts i l)|constructor].
Qed.

Lemma winv_reachable T N cfg cfg' : 0 < T → rtc wstep cfg cfg' → winv T N cfg → winv T N cfg'.
Proof. intros HT. induction 1 as [|x y z Hxy _ IH]; [done|]. intros Hx. by eapply IH, winv_step. Qed.

(** The calls of the clients are without errors, and a queue that is destroyed has one client. *)
Definition well_used (scripts : list (list request)) : Prop :=
  Forall (Forall (request_ok (length scripts))) scripts.

Lemma clients_held (f : wthread → list nat) scripts :
  (∀ todo, f (Ready (PClient todo [])) = []) → clients scripts ≫= f = [].
Proof. intros Hf. unfold clients. induction scripts as [|s ss IH]; [done|]. rewrite fmap_cons, bind_cons, Hf. apply IH. Qed.

Lemma clients_forall (P : wthread → Prop) scripts : 
  Forall (λ todo, P (Ready (PClient todo []))) scripts → Forall P (clients scripts).
Proof. intros H. by apply Forall_fmap. Qed.

Lemma winv_init T w0 scripts : 0 < T → well_used scripts → winv T (length scripts) (new_queue T w0, clients scripts).
Proof.
  intros HT Hs. split; cbn [fst snd].
  - exists []. rewrite !clients_held by done. split; simpl; try done; try set_solver; try (by constructor).
    + intros p. rewrite lookup_empty. split; [by intros [? ?]|by intros ?%elem_of_nil].
    + intros p. rewrite lookup_empty. by intros [? ?].
  - split; try done; try (simpl; lia).
    + rewrite total_zero; [done|]. by apply clients_forall, Forall_true.
    + rewrite total_full; [apply length_fmap|]. by apply clients_forall, Forall_true.
    + by apply clients_forall.
    + apply clients_forall, Forall_true. by left.
Qed.

(** The data of the requests from a pointer on, as a traversal finds them. *)
Fixpoint walk (fuel : nat) (h : gmap nat workq_ele_t) (p : option nat) : list Z :=
  match fuel, p with
  | S n, Some q => match h !! q with Some e => data e :: walk n h (next e) | None => [] end
  | _, _ => []
  end.
Definition queue_data (w : world) : list Z := walk (size (heap w)) (heap w) (first (wq w)).

Lemma walk_chain (h : gmap nat workq_ele_t) ids n : (length ids ≤ n)%nat →
  (∀ k p, ids !! k = Some p → ∃ d, h !! p = Some (Ele (ids !! S k) d)) → walk n h (head ids) = datas h ids.
Proof.
  revert n. induction ids as [|p ids IH]; intros n Hn Hc; [by destruct n|].
  destruct n as [|n]; simpl in Hn; [lia|]. destruct (Hc 0%nat p eq_refl) as [d Hd]. cbn [walk head].
  rewrite Hd, datas_cons, Hd. simpl. f_equal.
  replace (head ids) with (ids !! 0%nat) in IH by by destruct ids.
  apply IH; [lia|]. intros k q Hk. by apply (Hc (S k)).
Qed.

Lemma dinv_queue w ids ah sv : dinv w ids ah sv → queue_data w = datas (heap w) ids.
Proof.
  intros []. unfold queue_data. rewrite di_first0. apply walk_chain; [|done].
  apply NoDup_app in di_nodup0 as [Hnd _].
  rewrite <- (size_list_to_set (C := gset nat) ids Hnd), <- size_dom. apply subseteq_size.
  intros p Hp%elem_of_list_to_set. apply elem_of_dom, di_dom0, elem_of_app. by left.
Qed.

Lemma winv_nobody T N w ts : winv T N (w, ts) → counter (wq w) = 0 →
  first (wq w) = None ∧ total live ts = 0%nat ∧ spawned w = [] ∧ ts ≫= in_hand = [].
Proof.
  intros [[ids D] []] Hc; simpl in *. assert (total live ts = 0%nat ∧ length (spawned w) = 0%nat) as [Hl Hs] by lia.
  split_and!; [|done|by apply nil_length_inv|].
  - destruct (first (wq w)); [|done]. specialize (ci_work0 ltac:(done)). lia.
  - clear -Hl. induction ts as [|t ts IH]; [done|]. rewrite total_cons in Hl. rewrite bind_cons, IH by lia.
    destruct t as [[]|? []|[]]; simpl in Hl; try done; lia.
Qed.

(** C28: However the clients, the servers and the time-outs interleave, no thread uses a freed
    request or a destroyed mutex.  There are at most as many servers as asked for, [counter]
    counts them, and there is one whenever there is a request.  The requests are taken in the
    order in which they were queued, the ones not taken are the ones a traversal from [first]
    finds, and the engine was called exactly once for each taken request that is not in a
    server's hands.  When [workq_destroy] has destroyed the queue the engine was called for all
    requests, all are freed, and no server is left. *)
Theorem workq_serves scripts threads q0 w ts :
  0 < threads → well_used scripts → rtc wstep (new_queue threads q0, clients scripts) (w, ts) →
  ¬ faulty seg (w, ts) ∧
  (counter (wq w) = Z.of_nat (total live ts + length (spawned w)) ∧ counter (wq w) ≤ threads ∧
    (first (wq w) ≠ None → 0 < counter (wq w))) ∧
  adds (log w) = takes (log w) ++ queue_data w ∧
  takes (log w) ≡ₚ engines (log w) ++ datas (heap w) (ts ≫= in_hand) ∧
  (mutex_dead (wq w) = true →
    adds (log w) ≡ₚ engines (log w) ∧ heap w = ∅ ∧ total live ts = 0%nat ∧ spawned w = []).
Proof.
  intros HT Hs Hr. pose proof (winv_reachable _ _ _ _ HT Hr (winv_init _ q0 _ HT Hs)) as Hw.
  split; [by eapply winv_not_faulty|]. pose proof Hw as [[ids D] C]. simpl in D, C.
  rewrite (dinv_queue _ _ _ _ D). split; [destruct C; auto|]. split; [apply D|]. split; [apply D|].
  intros Hd. destruct (winv_nobody _ _ _ _ Hw (ci_dead _ _ _ _ C Hd)) as (Hf & Hl & Hsp & Hh).
  rewrite (di_first _ _ _ _ D) in Hf. destruct ids; [|done].
  assert (ts ≫= pending = []) as Hp.
  { pose proof (ci_mode _ _ _ _ C) as Hm. pose proof (ci_ok _ _ _ _ C) as Hok. clear -Hm Hok Hd.
    induction ts as [|t ts IH]; [done|]. apply Forall_cons in Hm as [Hm1 Hm2]. apply Forall_cons in Hok as [Hok1 Hok2].
    rewrite bind_cons, (IH Hm2 Hok2). destruct t as [[]|? []|[]]; simpl in *; try done; [|by destruct Hok1].
    destruct Hm1 as (_ & _ & H). congruence. }
  split_and!; try done.
  - rewrite (di_adds _ _ _ _ D), (di_takes _ _ _ _ D), Hh. unfold datas. simpl. by rewrite !app_nil_r.
  - apply map_empty. intros p. apply eq_None_not_Some. rewrite (di_dom _ _ _ _ D), Hh, Hp. simpl. apply not_elem_of_nil.
Qed.

(** ** Runs *)

(** A scheduling decision. *)
Inductive move := Run (i : nat) (picks : list (option nat)) | Start | TimeOut (i : nat).

Definition run_move (m : move) (cfg : config) : option config :=
  match m with
  | Run i picks => run_schedule seg [(i, picks)] cfg
  | Start =>
      match spawned cfg.1 with
      | cd :: rest => Some (set_spawned rest cfg.1, cfg.2 ++ [Ready (PServer cd)])
      | [] => None
      end
  | TimeOut i =>
      match cfg.2 !! i with
      | Some (Waiting () (PServerWait cd)) => Some (cfg.1, <[i:=Ready (PServerTimeout cd)]> cfg.2)
      | _ => None
      end
  end.
Fixpoint run_moves (ms : list move) (cfg : config) : option config :=
  match ms with
  | [] => Some cfg
  | m :: ms' => match run_move m cfg with Some cfg' => run_moves ms' cfg' | None => None end
  end.

Lemma run_move_sound m cfg cfg' : run_move m cfg = Some cfg' → rtc wstep cfg cfg'.
Proof.
  destruct cfg as [w ts]. destruct m as [i picks| |i]; cbn [run_move fst snd].
  - intros H%run_schedule_sound. eapply (rtc_congruence (λ x, x)); [|exact H]. apply wstep_seg.
  - destruct (spawned w) as [|cd rest] eqn:E; [done|]. intros [= <-]. apply rtc_once. by apply (wstep_start w ts [] cd rest).
  - destruct (ts !! i) as [[|[] []|]|] eqn:E; try done. intros [= <-]. by apply rtc_once, wstep_timeout.
Qed.

Lemma run_moves_sound ms cfg cfg' : run_moves ms cfg = Some cfg' → rtc wstep cfg cfg'.
Proof.
  revert cfg. induction ms as [|m ms IH]; intros cfg; simpl; [by intros [= <-]|].
  destruct (run_move m cfg) as [cfg1|] eqn:E; [|done]. intros H. etrans; [by eapply run_move_sound|by apply IH].
Qed.

(** One client, one server: two elements, then the queue is destroyed. *)
Definition no_queue : workq_t := Workq None None 0 0 0 0 0 true.
Definition demo_scripts : list (list request) := [[RAdd a_no_errors 7; RAdd a_no_errors 8; RDestroy d_no_errors]].
Definition demo_moves : list move :=
  [Run 0 []; Run 0 []; Start; Run 1 []; Run 0 []; Run 1 []; Run 0 []; Run 0 []; Run 0 []; Run 1 []; Run 1 []; Run 1 []; Run 0 []; Run 0 []].
Definition demo_end : config :=
  (World (Workq None None 0 1 1 0 0 true) ∅ 2 [] [EAdd 7; ETake 7; EEngine 7; EAdd 8; ETake 8; EEngine 8],
   [Finished (RClient [0; 0; 0]); Finished RServer]).

Lemma workq_demo_reachable : rtc wstep (new_queue 1 no_queue, clients demo_scripts) demo_end.
Proof. apply (run_moves_sound demo_moves). by vm_compute. Qed.

Lemma workq_serves_witness : heap demo_end.1 = ∅.
Proof.
  refine (proj1 (proj2 (proj2 (proj2 (proj2 (proj2 (workq_serves demo_scripts 1 no_queue demo_end.1 demo_end.2 _ _ workq_demo_reachable)))) _))).
  - lia.
  - repeat constructor.
  - reflexivity.
Defined.

(** ** Running to the end *)

Fixpoint weights (ts : list wthread) : Z := match ts with [] => 0 | t :: ts' => weight t + weights ts' end.

Lemma weights_insert ts i t u : ts !! i = Some t → weights (<[i:=u]> ts) = weights ts - weight t + weight u.
Proof.
  revert i. induction ts as [|x ts IH]; intros [|i] Hi; try done.
  - injection Hi as ->. simpl. lia.
  - simpl. change (list_insert i u ts) with (<[i:=u]> ts). rewrite (IH i Hi). lia.
Qed.
Lemma weights_app ts us : weights (ts ++ us) = weights ts + weights us.
Proof. induction ts as [|t ts IH]; simpl; lia. Qed.
Lemma weights_nonneg ts : 0 ≤ weights ts.
Proof. induction ts as [|t ts IH]; simpl; [lia|]. pose proof (weight_nonneg t). lia. Qed.
Lemma weights_resumed ts : (∀ j t, ts !! j = Some t → weight (resume t) ≤ weight t) →
  weights ((λ t, if decide (waits_on () t) then resume t else t) <$> ts) ≤ weights ts.
Proof.
  induction ts as [|t ts IH]; intros H; [done|]. rewrite fmap_cons. simpl. pose proof (H 0%nat t eq_refl).
  specialize (IH (λ j u Hj, H (S j) u Hj)). destruct (decide _); lia.
Qed.

Definition to_do (cfg : config) : Z := load cfg.1 + weights cfg.2.

Lemma to_do_nonneg T N cfg : winv T N cfg → 0 ≤ to_do cfg.
Proof.
  destruct cfg as [w ts]. intros [[ids D] _]. unfold to_do, load. simpl in *. rewrite (di_adds _ _ _ _ D), zlen_app.
  pose proof (weights_nonneg ts). pose proof (zlen_nonneg (datas (heap w) ids)). pose proof (zlen_nonneg (spawned w)). lia.
Qed.

(** The last server waits for nobody. *)
Lemma last_server T N w ts i l : winv T N (w, ts) → ts !! i = Some (Ready l) → client_pc l = false → counter (wq w) = 1 →
  ∀ j t, ts !! j = Some t → weight (resume t) ≤ weight t.
Proof.
  intros [_ C] Hi Hl Hc j t Hj. simpl in C. destruct (decide (j = i)) as [->|Hne]; [rewrite Hj in Hi; by injection Hi as ->|].
  pose proof (total_two live ts i j _ t (not_eq_sym Hne) Hi Hj) as H2. simpl in H2. rewrite Hl in H2.
  pose proof (ci_counter _ _ _ _ C) as Hn. pose proof (Forall_lookup_1 _ _ _ _ (ci_ok _ _ _ _ C) Hj) as Hok.
  assert (live t = 0%nat) as Hlt by lia. destruct t as [|? l'|]; [done| |done]. destruct Hok as [_ Hw].
  destruct l'; try done. simpl. lia.
Qed.

(** Running a thread leaves less to do. *)
Lemma run_less T N w ts i l : 0 < T → winv T N (w, ts) → ts !! i = Some (Ready l) →
  rundown_pc l = false ∨ counter (wq w) = 0 → ∃ cfg', wstep (w, ts) cfg' ∧ to_do cfg' < to_do (w, ts).
Proof.
  intros HT Hw Hi Hl. destruct (seg_good T N w ts i l Hw Hi HT) as (o & w' & ks & R & Hk & _ & Hlt).
  specialize (Hlt Hl). unfold to_do. destruct Hk as [->|(-> & Hc & Hcl)].
  - exists (w', <[i:=after o]> ts). split; [by eapply wstep_seg, step_run; [..|constructor]|].
    simpl. rewrite (weights_insert _ _ _ _ Hi). lia.
  - set (ts' := (λ t, if decide (waits_on () t) then resume t else t) <$> ts).
    exists (w', <[i:=after o]> ts'). split.
    + eapply wstep_seg, step_run; [exact Hi|exact R|]. eapply wakes_cons; [apply wakes_broadcast|constructor].
    + pose proof (weights_resumed ts (last_server _ _ _ _ _ _ Hw Hi Hcl Hc)). simpl.
      assert (ts' !! i = Some (Ready l)) as Hi' by (unfold ts'; by rewrite list_lookup_fmap, Hi).
      rewrite (weights_insert _ _ _ _ Hi'). fold ts' in H. lia.
Qed.

Definition finished (t : wthread) : Prop := match t with Finished _ => True | _ => False end.
#[export] Instance finished_dec t : Decision (finished t).
Proof. destruct t; simpl; apply _. Defined.

Lemma progress T N w ts : 0 < T → winv T N (w, ts) →
  (Forall finished ts ∧ spawned w = []) ∨ ∃ cfg', wstep (w, ts) cfg' ∧ to_do cfg' < to_do (w, ts).
Proof.
  intros HT Hw. pose proof Hw as [_ C]. simpl in C.
  destruct (spawned w) as [|cd rest] eqn:Es.
  2:{ right. exists (set_spawned rest w, ts ++ [Ready (PServer cd)]). split; [by apply (wstep_start w ts [] cd rest)|].
      unfold to_do, load. simpl. rewrite weights_app, Es, zlen_cons. simpl. lia. }
  destruct (decide (Forall finished ts)) as [|Hn]; [by left|right].
  set (runs (t : wthread) := match t with Ready l => negb (rundown_pc l) | Waiting _ (PServerWait _) => true | _ => false end).
  destruct (decide (Exists (λ t, runs t = true) ts)) as [He|He].
  - apply Exists_exists in He as (t & [i Hi]%list_elem_of_lookup & Ht). destruct t as [l|[] l|]; [| |done].
    + eapply run_less; [done|exact Hw|exact Hi|]. left. by apply negb_true_iff in Ht.
    + destruct l as [| | | | | |cd| | |]; try done. exists (w, <[i:=Ready (PServerTimeout cd)]> ts).
      split; [by apply wstep_timeout|]. unfold to_do. simpl. rewrite (weights_insert _ _ _ _ Hi). simpl. lia.
  - apply not_Forall_Exists in Hn; [|apply _]. apply Exists_exists in Hn as (t & [i Hi]%list_elem_of_lookup & Ht).
    assert (∀ j u, ts !! j = Some u → runs u = false) as Hr.
    { intros j u Hj. destruct (runs u) eqn:E; [|done]. exfalso. apply He, Exists_exists. exists u.
      split; [by eapply list_elem_of_lookup_2|done]. }
    assert (counter (wq w) = 0) as Hc.
    { rewrite (ci_counter _ _ _ _ C), Es. replace (total live ts) with 0%nat; [done|]. symmetry. apply total_zero, Forall_lookup.
      intros j u Hj. specialize (Hr j u Hj). pose proof (Forall_lookup_1 _ _ _ _ (ci_ok _ _ _ _ C) Hj) as Hok.
      destruct u as [[]|? []|[]]; simpl in *; try done; by destruct Hok. }
    specialize (Hr i t Hi). pose proof (Forall_lookup_1 _ _ _ _ (ci_mode _ _ _ _ C) Hi) as Hm.
    pose proof (Forall_lookup_1 _ _ _ _ (ci_ok _ _ _ _ C) Hi) as Hok.
    destruct t as [l|? l|]; [|exfalso|by destruct Ht].
    + eapply run_less; [done|exact Hw|exact Hi|by right].
    + destruct Hok as [_ Hok]. destruct l; try done. destruct Hm as (_ & _ & Hm). lia.
Qed.

Lemma runs_out T N cfg : 0 < T → winv T N cfg →
  ∃ cfg', rtc wstep cfg cfg' ∧ Forall finished cfg'.2 ∧ spawned cfg'.1 = [].
Proof.
  intros HT. remember (Z.to_nat (to_do cfg)) as n eqn:En. revert cfg En.
  induction n as [n IH] using lt_wf_ind. intros [w ts] -> Hw.
  destruct (progress T N w ts HT Hw) as [[H1 H2]|(cfg1 & Hs & Hlt)]; [by exists (w, ts)|].
  pose proof (winv_step _ _ _ _ HT Hs Hw) as Hw1. pose proof (to_do_nonneg _ _ _ Hw1).
  destruct (IH (Z.to_nat (to_do cfg1)) ltac:(lia) cfg1 eq_refl Hw1) as (cfg' & Hr & Hf).
  exists cfg'. split; [by eapply rtc_l|done].
Qed.

(** ** What the clients asked for *)

Definition requested (todo : list request) : list Z := omap (λ r, match r with RAdd _ d => Some d | RDestroy _ => None end) todo.
Definition is_add (r : request) : Prop := match r with RAdd _ _ => True | RDestroy _ => False end.

(** The data of the calls to come. *)
Definition to_come (t : wthread) : list Z :=
  match t with
  | Ready (PClient todo _) | Waiting _ (PClient todo _) | Ready (PAddLock _ _ todo _) | Waiting _ (PAddLock _ _ todo _) => requested todo
  | _ => []
  end.

(** A client that only adds, and whose calls returned 0. *)
Definition adder (t : wthread) : Prop :=
  match t with
  | Ready (PClient todo acc) | Waiting _ (PClient todo acc) | Ready (PAddLock _ _ todo acc) | Waiting _ (PAddLock _ _ todo acc) =>
      Forall is_add todo ∧ Forall (λ st, st = 0) acc
  | Finished (RClient acc) => Forall (λ st, st = 0) acc
  | Ready l | Waiting _ l => client_pc l = false
  | Finished RServer => True
  end.

Record oinv (req : list Z) (cfg : config) : Prop := {
  oi_open : open (wq cfg.1);
  oi_adders : Forall adder cfg.2;
  oi_req : adds (log cfg.1) ++ datas (heap cfg.1) (cfg.2 ≫= pending) ++ (cfg.2 ≫= to_come) ≡ₚ req
}.

Lemma oinv_move req w w' ts i t u : oinv req (w, ts) → ts !! i = Some t → open (wq w') → adder u →
  (∀ p, p ∈ ts ≫= pending → data <$> heap w' !! p = data <$> heap w !! p) →
  adds (log w') ++ datas (heap w') (pending u) ++ to_come u ≡ₚ adds (log w) ++ datas (heap w) (pending t) ++ to_come t →
  oinv req (w', <[i:=u]> ts).
Proof.
  intros [Ho Ha Hr] Hi Ho' Hu Hd Hb. simpl in *. split; simpl; [done|by apply Forall_insert|].
  destruct (held_split pending ts i t Hi) as (rp & Ep & Fp). destruct (held_split to_come ts i t Hi) as (rc & Ec & Fc).
  assert (∀ h, datas h (ts ≫= pending) ≡ₚ datas h (pending t) ++ datas h rp ∧
    datas h (<[i:=u]> ts ≫= pending) ≡ₚ datas h (pending u) ++ datas h rp) as Hds.
  { intros h. rewrite <- !datas_app. unfold datas. by rewrite Ep, Fp. }
  rewrite (proj2 (Hds _)), Fc. rewrite (proj1 (Hds _)), Ec in Hr.
  rewrite (datas_ext (heap w) (heap w') rp) by (intros p Hp; apply Hd; rewrite Ep; set_solver).
  rewrite <- Hr. transitivity ((adds (log w') ++ datas (heap w') (pending u) ++ to_come u) ++ datas (heap w) rp ++ rc);
    [|rewrite Hb]; solve_Permutation.
Qed.

Lemma oinv_wakes req w ks ts ts' : wakes ks ts ts' → oinv req (w, ts) → oinv req (w, ts').
Proof.
  intros Hw [Ho Ha Hr]. simpl in *. split; simpl; [done|eapply wakes_forall; [|exact Hw|done]; by intros []|].
  by rewrite (held_wakes pending _ _ _ ltac:(by intros []) Hw), (held_wakes to_come _ _ _ ltac:(by intros []) Hw).
Qed.

Lemma served_oinv req p w ts i l o w' ks : oinv req (w, ts) → ts !! i = Some (Ready l) → client_pc l = false →
  served p w o w' ks → oinv req (w', <[i:=after o]> ts).
Proof.
  intros H Hi Hl Hs. assert (pending (Ready l) = [] ∧ to_come (Ready l) = []) as [E1 E2] by by destruct l.
  pose proof (oi_open _ _ H) as (H1 & H2 & H3). simpl in H1, H2, H3.
  eapply oinv_move; [exact H|exact Hi|..]; rewrite ?E1, ?E2; destruct Hs; simpl; try done.
  unfold adds. by rewrite omap_snoc, app_nil_r.
Qed.

Section asked.
Context (T : Z) (N : nat) (req : list Z) (w : world) (ts : list wthread) (i : nat) (l : pc).
Context (Hw : winv T N (w, ts)) (Ho : oinv req (w, ts)) (Hi : ts !! i = Some (Ready l)).

Lemma loop_oinv p o w' ks : client_pc l = false → server_loop s_no_errors p (Mon w []) = Ok (o, Mon w' ks) →
  oinv req (w', <[i:=after o]> ts).
Proof.
  intros Hl E. destruct (server_loop_spec w p (first_allocated _ _ _ _ Hw)) as (o2 & w2 & ks2 & R & Hs).
  rewrite E in R. injection R as <- <- <-. by eapply served_oinv.
Qed.

Lemma server_oinv o w' ks : client_pc l = false → seg l (Mon w []) = Ok (o, Mon w' ks) → oinv req (w', <[i:=after o]> ts).
Proof.
  intros Hl E. pose proof (server_alive _ _ _ _ _ _ Hw Hi Hl) as Hd. pose proof (pc_is_ok _ _ _ _ _ _ Hw Hi) as Hok.
  assert (∃ l', l' = l) as [l' El] by eauto.
  destruct l' as [| | | | |cd|cd|cd|cd we td|cd td]; rewrite <- El in Hok, E, Hl; try done; simpl in Hok; subst cd.
  - eapply loop_oinv; [by rewrite <- El|]. rewrite <- (locked_loop w Top Hd). exact E.
  - eapply loop_oinv; [by rewrite <- El|exact E].
  - eapply loop_oinv; [by rewrite <- El|exact E].
  - pose proof Hi as Hi'. rewrite <- El in Hi'. pose proof Hw as [[ids D] _]. simpl in D.
    destruct (held_split in_hand ts i _ Hi') as (rh & Eh & _).
    assert (we ∉ ts ≫= pending) as Hn.
    { destruct D. rewrite Eh in di_nodup0. apply NoDup_app in di_nodup0 as (_ & _ & (_ & H & _)%NoDup_app).
      intros Hp. apply (H we Hp). by apply list_elem_of_here. }
    assert (∃ e, heap w !! we = Some e) as [e He].
    { apply (di_dom _ _ _ _ D we). rewrite Eh. set_solver. }
    revert E. simpl. unfold server_engine, free_ele, deref, smodify, sgets. mstep. cbn [sh mbind option_bind].
    rewrite He. mstep. cbn [sh add_event heap]. rewrite He. mstep. intros [= <- <- <-].
    eapply oinv_move; [exact Ho|exact Hi'|..]; simpl; try done; [apply (oi_open _ _ Ho)| |].
    + intros p Hp. rewrite lookup_delete_ne; [done|]. by intros ->.
    + unfold adds. by rewrite omap_snoc, !app_nil_r.
  - eapply loop_oinv; [by rewrite <- El|]. rewrite <- (locked_loop w (Bottom td) Hd). exact E.
Qed.

Lemma add_oinv d todo acc o w' ks : l = PClient (RAdd a_no_errors d :: todo) acc → seg l (Mon w []) = Ok (o, Mon w' ks) →
  oinv req (w', <[i:=after o]> ts).
Proof.
  intros El E. pose proof (Forall_lookup_1 _ _ _ _ (oi_adders _ _ Ho) Hi) as Ha. rewrite El in Ha.
  destruct Ha as [[_ Ha]%Forall_cons Hacc]. pose proof (oi_open _ _ Ho) as Hop. pose proof Hop as (Hv & _). simpl in Hv, Hop.
  pose proof Hi as Hi'. rewrite El in Hi', E. revert E. simpl.
  unfold workq_add, malloc_ele, qgets, smodify, sgets. mstep. cbn [sh]. rewrite Hv. cbn [mallocok a_no_errors]. mstep.
  intros [= <- <- <-]. eapply oinv_move; [exact Ho|exact Hi'|done|done|..]; simpl.
  - intros p Hp. rewrite lookup_insert_ne; [done|]. intros <-. destruct Hw as [[ids []] _]. simpl in *.
    assert (brk w < brk w)%nat; [|lia]. apply di_brk0, di_dom0. set_solver.
  - unfold datas. simpl. rewrite lookup_insert_eq. done.
Qed.

Lemma returned_next st todo acc m o m' : returned st todo acc m = Ok (o, m') →
  pending (after o) = [] ∧ to_come (after o) = requested todo.
Proof. unfold returned. destruct todo; intros [= <- _]; done. Qed.

Lemma add_lock_oinv item todo acc o w' ks : l = PAddLock a_no_errors item todo acc → seg l (Mon w []) = Ok (o, Mon w' ks) →
  oinv req (w', <[i:=after o]> ts).
Proof.
  intros El E. pose proof (Forall_lookup_1 _ _ _ _ (oi_adders _ _ Ho) Hi) as Ha. rewrite El in Ha. destruct Ha as [Ha Hacc].
  pose proof (oi_open _ _ Ho) as Hop. simpl in Hop. pose proof Hi as Hi'. rewrite El in Hi'.
  pose proof Hw as [[ids D] C]. simpl in D, C. destruct (held_split pending ts i _ Hi') as (rp & Ep & _). simpl in Ep.
  assert (dinv w ids (item :: rp) (ts ≫= in_hand)) as D' by by eapply dinv_ext.
  destruct (dinv_append w item ids rp _ [] D') as (d & Hd & Happ & _).
  rewrite (add_lock_run w l item d todo acc El (proj2 (proj2 Hop)) (ci_idle _ _ _ _ C) Happ) in E.
  destruct (returned_run 0 todo acc (Mon (staffed (linked item d w)) [])) as (o2 & R & Hu). rewrite E in R. injection R as -> -> ->.
  assert (log (staffed (linked item d w)) = log w ++ [EAdd d] ∧ heap (staffed (linked item d w)) = heap (linked item d w)) as [E1 E2]
    by (unfold staffed; by destruct (_ <? _)).
  eapply oinv_move; [exact Ho|exact Hi'|..].
  - unfold staffed; by destruct (_ <? _).
  - assert (Forall (λ st, st = 0) (acc ++ [0])) by (apply Forall_app; split; [done|by constructor]). by destruct Hu as [-> | ->].
  - intros p _. rewrite E2. apply linked_data.
  - destruct (returned_next _ _ _ _ _ _ E) as [U1 U2]. rewrite E1, U1, U2.
    unfold adds, datas. rewrite omap_snoc. simpl. rewrite Hd. simpl. by rewrite <- app_assoc.
Qed.

Lemma seg_oinv o w' ks : seg l (Mon w []) = Ok (o, Mon w' ks) → oinv req (w', <[i:=after o]> ts).
Proof.
  intros E. destruct (client_pc l) eqn:Hl; [|by eapply server_oinv].
  pose proof (pc_is_ok _ _ _ _ _ _ Hw Hi) as Hok. pose proof (Forall_lookup_1 _ _ _ _ (oi_adders _ _ Ho) Hi) as Ha.
  assert (∃ l', l' = l) as [l' El] by eauto.
  destruct l' as [[|[cd d|cd] todo] acc|cd item todo acc|cd todo acc|cd todo acc|cd todo acc| | | | |];
    rewrite <- El in Hok, Ha, Hl; try done; simpl in Hok.
  - pose proof Hi as Hi'. rewrite <- El in Hi', E. injection E as <- <- <-.
    eapply oinv_move; [exact Ho|exact Hi'|apply (oi_open _ _ Ho)|by apply Ha|done|done].
  - apply Forall_cons in Hok as [-> _]. by eapply add_oinv.
  - by destruct Ha as [[? _]%Forall_cons _].
  - destruct Hok as [-> _]. by eapply add_lock_oinv.
Qed.
End asked.

Lemma oinv_step T N req cfg cfg' : 0 < T → wstep cfg cfg' → winv T N cfg → oinv req cfg → oinv req cfg'.
Proof.
  intros HT [cfg0 cfg1 Hs|w ts l1 cd l2 E|w ts i cd Hi] Hw Ho.
  - destruct Hs as [s ts i l o s' ks ts' Hi E Hwk|s ts i c l Hi].
    + eapply seg_oinv; [by eapply winv_wakes|by eapply oinv_wakes|by eapply wakes_ready|exact E].
    + eapply oinv_wakes; [|exact Ho]. eapply wakes_cons; [by apply (wakes_signal c ts i l)|constructor].
  - destruct Ho as [H1 H2 H3]. split; simpl in *; [done|by apply Forall_app; repeat constructor|].
    by rewrite !bind_app, !app_nil_r.
  - eapply oinv_move; [exact Ho|exact Hi|apply (oi_open _ _ Ho)|done..].
Qed.

Lemma oinv_reachable T N req cfg cfg' : 0 < T → rtc wstep cfg cfg' → winv T N cfg → oinv req cfg → oinv req cfg'.
Proof.
  intros HT. induction 1 as [|x y z Hxy _ IH]; [done|]. intros Hw Ho.
  apply IH; [by eapply winv_step|by eapply oinv_step].
Qed.

Lemma oinv_init T q0 scripts : Forall (Forall is_add) scripts →
  oinv (scripts ≫= requested) (new_queue T q0, clients scripts).
Proof.
  intros Hs. split; cbn [fst snd]; [done| |].
  - apply clients_forall. eapply Forall_impl; [exact Hs|]. intros s H. by split.
  - rewrite clients_held by done. simpl. unfold clients. clear Hs. induction scripts as [|s ss IH]; [done|].
    rewrite fmap_cons, !bind_cons. simpl. by rewrite IH.
Qed.

(** C29: From every reachable configuration the threads can run to the end, and then every
    queued request was given to the engine and freed.  When the clients only add, all their
    calls return 0 and the engine was called exactly once for each element they asked for.
    But [workq_add] wakes no server, even if all of them wait, because [idle] is never counted:
    only the time-out of a server makes it look at the queue again. *)
Theorem workq_finishes scripts threads q0 w ts :
  0 < threads → well_used scripts → rtc wstep (new_queue threads q0, clients scripts) (w, ts) →
  (∃ w' ts', rtc wstep (w, ts) (w', ts') ∧ Forall finished ts' ∧ spawned w' = [] ∧
    adds (log w') ≡ₚ engines (log w') ∧ heap w' = ∅ ∧
    (Forall (Forall is_add) scripts →
      engines (log w') ≡ₚ scripts ≫= requested ∧
      ∀ acc, Finished (RClient acc) ∈ ts' → Forall (λ st, st = 0) acc)) ∧
  (∀ i item todo acc o m, ts !! i = Some (Ready (PAddLock a_no_errors item todo acc)) →
    seg (PAddLock a_no_errors item todo acc) (Mon w []) = Ok (o, m) → wk m = []).
Proof.
  intros HT Hs Hr. pose proof (winv_reachable _ _ _ _ HT Hr (winv_init _ q0 _ HT Hs)) as Hw. split.
  - destruct (runs_out _ _ _ HT Hw) as ([w' ts'] & Hr' & Hf & Hsp). simpl in Hf, Hsp. exists w', ts'.
    pose proof (winv_reachable _ _ _ _ HT Hr' Hw) as Hw'.
    assert (∀ A (f : wthread → list A), (∀ r, f (Finished r) = []) → ts' ≫= f = []) as Hnil.
    { intros A f H. clear -Hf H. induction Hf as [|t ts Ht _ IH]; [done|]. rewrite bind_cons, IH. by destruct t; rewrite ?H. }
    assert (counter (wq w') = 0) as Hc.
    { destruct Hw' as [_ C]. simpl in C. rewrite (ci_counter _ _ _ _ C), Hsp. simpl.
      rewrite total_zero; [done|]. eapply Forall_impl; [exact Hf|]. by intros []. }
    destruct (winv_nobody _ _ _ _ Hw' Hc) as (Hfi & _). destruct Hw' as [[ids D] C]. simpl in D.
    rewrite (di_first _ _ _ _ D) in Hfi. destruct ids; [|done].
    assert (adds (log w') ≡ₚ engines (log w')) as Hae.
    { rewrite (di_adds _ _ _ _ D), (di_takes _ _ _ _ D), (Hnil _ in_hand) by done. unfold datas. simpl. by rewrite !app_nil_r. }
    split_and!; try done.
    + apply map_empty. intros p. apply eq_None_not_Some. rewrite (di_dom _ _ _ _ D), !Hnil by done. apply not_elem_of_nil.
    + intros Ha. assert (oinv (scripts ≫= requested) (w', ts')) as [_ O2 O3].
      { eapply oinv_reachable; [exact HT|etrans; [exact Hr|exact Hr']|by apply winv_init|by apply oinv_init]. }
      simpl in O2, O3. rewrite !Hnil in O3 by done. unfold datas in O3. simpl in O3. rewrite app_nil_r in O3. split.
      * by rewrite <- Hae.
      * intros acc Hin. rewrite Forall_forall in O2. by apply (O2 _ Hin).
  - intros i item todo acc o m Hi E. destruct (seg_good _ _ _ _ _ _ Hw Hi HT) as (o2 & w2 & ks & R & Hk & _).
    rewrite E in R. injection R as -> ->. by destruct Hk as [->|(_ & _ & ?)].
Qed.

(** One client, one server: the second element is put into the queue while the server waits. *)
Definition idle_moves : list move := [Run 0 []; Run 0 []; Start; Run 1 []; Run 1 []; Run 1 []; Run 0 []; Run 0 []].
Definition idle_scripts : list (list request) := [[RAdd a_no_errors 7; RAdd a_no_errors 8]].
Definition idle_end : config :=
  match run_moves idle_moves (new_queue 1 no_queue, clients idle_scripts) with
  | Some cfg => cfg
  | None => (new_queue 1 no_queue, [])
  end.

Lemma idle_reachable : rtc wstep (new_queue 1 no_queue, clients idle_scripts) idle_end.
Proof. apply (run_moves_sound idle_moves). by vm_compute. Qed.

Lemma workq_finishes_witness :
  (queue_data idle_end.1 = [8] ∧ idle_end.2 = [Finished (RClient [0; 0]); Waiting () (PServerWait s_no_errors)]) ∧
  ∃ w' ts', rtc wstep (idle_end.1, idle_end.2) (w', ts') ∧ engines (log w') ≡ₚ [7; 8].
Proof.
  split; [split; by vm_compute|].
  destruct (workq_finishes idle_scripts 1 no_queue idle_end.1 idle_end.2 ltac:(lia) ltac:(repeat constructor) idle_reachable)
    as [(w' & ts' & Hr & _ & _ & _ & _ & H) _].
  exists w', ts'. split; [exact Hr|]. apply H. repeat constructor.
Defined.
