(* ===== verification/DtaQueue.v ===== *)
(** The message queues of the DTA transport ([boss/bude/syscomp/src/dta/src]): the queue
    file with its mapped table, the semaphores that lock it, and the queue functions of
    [dtalib.c]. *)
From S2P Require Import Prelude CLib.

(** ** Constants and data ([dta.h], [dtacommon.h]) *)

Definition DTAGMO_READBYORDER : Z := 0.
Definition DTAGMO_READBYPRIORITY : Z := 1.
Definition DTAGMO_SKIPWHILEREAD : Z := 2.
Definition DTAGMO_DELETEAFTERREAD : Z := 4.
Definition DTAGMO_RESETCURSOR : Z := 8.
Definition DTAGMO_JUSTINQUIRE : Z := 16.

Definition DTARC_QUEUE_EMPTY : Z := 1011.
Definition DTARC_QUEUE_FULL : Z := 1012.
Definition DTARC_QUEUE_END : Z := 1013.
Definition DTARC_MESSAGE_DIED : Z := 1014.
Definition DTARC_INTERNAL_ERROR : Z := 2002.
Definition DTARC_FILEOPEN_ERROR : Z := 2011.
Definition DTARC_FILECLOSE_ERROR : Z := 2012.
Definition DTARC_FILEREAD_ERROR : Z := 2013.
Definition DTARC_FILEWRITE_ERROR : Z := 2014.
Definition DTARC_FILESEEK_ERROR : Z := 2015.
Definition DTARC_FILEFLUSH_ERROR : Z := 2016.
Definition DTARC_FILETRUNCATE_ERROR : Z := 2017.

(** Sizes in the LP64 ABI: four and six longs. *)
Definition SIZEOF_QueueHead : Z := 32.
Definition SIZEOF_QueueTable : Z := 48.

Record QueueHead := MkHead { maxmsgs : Z; livmsgs : Z; firstmsgn : Z; lastmsgn : Z }.
Record QueueTable := Entry {
  flag : Z; offset : Z; msglen : Z; priority : Z; foreprioidx : Z; nextprioidx : Z
}.

(** A queue file and its semaphore set.  The head and the table are the mapping; [q_data] are
    the bytes of the file behind the table. *)
Record queue := Queue {
  q_head : QueueHead; q_table : list QueueTable; q_data : list Z;
  sem_r : Z; sem_w : Z; sem_m : Z
}.

(** The offset in the file at which the messages begin, and the size of the file. *)
Definition base (q : queue) : Z := SIZEOF_QueueHead + SIZEOF_QueueTable * zlen (q_table q).
Definition filesize (q : queue) : Z := base q + zlen (q_data q).

(** How the stdio calls of a [DTA_PUTMSG] come out: all well, [fseek] fails, [fwrite] stops
    after [n] bytes, [fflush] fails. *)
Inductive iores := IoOk | IoSeek | IoWrite (n : nat) | IoFlush.
#[export] Instance iores_eq_dec : EqDecision iores.
Proof. solve_decision. Defined.

(** ** Field updates *)

Definition set_head (f : QueueHead → QueueHead) (q : queue) : queue :=
  Queue (f (q_head q)) (q_table q) (q_data q) (sem_r q) (sem_w q) (sem_m q).
Definition set_table (t : list QueueTable) (q : queue) : queue :=
  Queue (q_head q) t (q_data q) (sem_r q) (sem_w q) (sem_m q).
Definition set_data (d : list Z) (q : queue) : queue :=
  Queue (q_head q) (q_table q) d (sem_r q) (sem_w q) (sem_m q).
Definition set_sems (r w m : Z) (q : queue) : queue :=
  Queue (q_head q) (q_table q) (q_data q) r w m.

Definition set_livmsgs v h := MkHead (maxmsgs h) v (firstmsgn h) (lastmsgn h).
Definition set_firstmsgn v h := MkHead (maxmsgs h) (livmsgs h) v (lastmsgn h).
Definition set_lastmsgn v h := MkHead (maxmsgs h) (livmsgs h) (firstmsgn h) v.

Definition set_flag v e := Entry v (offset e) (msglen e) (priority e) (foreprioidx e) (nextprioidx e).
Definition set_offset v e := Entry (flag e) v (msglen e) (priority e) (foreprioidx e) (nextprioidx e).
Definition set_msglen v e := Entry (flag e) (offset e) v (priority e) (foreprioidx e) (nextprioidx e).
Definition set_priority v e := Entry (flag e) (offset e) (msglen e) v (foreprioidx e) (nextprioidx e).
Definition set_fore v e := Entry (flag e) (offset e) (msglen e) (priority e) v (nextprioidx e).
Definition set_next v e := Entry (flag e) (offset e) (msglen e) (priority e) (foreprioidx e) v.

Abbreviation qM := (M queue).

Definition hget : qM QueueHead := gets q_head.
Definition hmodify (f : QueueHead → QueueHead) : qM () := modify (set_head f).

(** [queuetable[i]]: the mapping holds the entries 0 to [maxmsgs]. *)
Definition tab (i : Z) : qM QueueTable :=
  t ← gets q_table;
  if (0 <=? i) then
    match t !! Z.to_nat i with Some e => mret e | None => fail (UB "entry outside the mapped table") end
  else fail (UB "entry outside the mapped table").
Definition tmodify (i : Z) (f : QueueTable → QueueTable) : qM () :=
  e ← tab i;
  t ← gets q_table;
  modify (set_table (<[Z.to_nat i := f e]> t)).

(** ** The semaphores *)

(** Each [semop] waits until its tests hold; run on its own it then waits for ever. *)
Definition blocked {A} : qM A := fail (Abort "semop waits").

Definition setrlock : qM () :=
  q ← get;
  if sem_w q =? 0 then modify (set_sems (sem_r q + 1) (sem_w q) (sem_m q)) else blocked.
Definition freerlock : qM () :=
  q ← get;
  if 1 <=? sem_r q then modify (set_sems (sem_r q - 1) (sem_w q) (sem_m q)) else blocked.
Definition setwlock : qM () :=
  q ← get;
  if (sem_r q =? 0) && (sem_w q =? 0) then modify (set_sems (sem_r q) (sem_w q + 1) (sem_m q)) else blocked.
Definition freewlock : qM () :=
  q ← get;
  if 1 <=? sem_w q then modify (set_sems (sem_r q) (sem_w q - 1) (sem_m q)) else blocked.

(** [setmlock] does not wait: -1 when the semaphore is taken. *)
Definition setmlock : qM Z :=
  q ← get;
  if sem_m q =? 0 then _ ← modify (set_sems (sem_r q) (sem_w q) (sem_m q + 1)); mret 0 else mret (-1).
Definition freemlock : qM () :=
  q ← get;
  if 1 <=? sem_m q then modify (set_sems (sem_r q) (sem_w q) (sem_m q - 1)) else blocked.

(** A function that takes the lock on entry and frees it on every return. *)
Definition with_wlock {A} (m : qM A) : qM A := _ ← setwlock; a ← m; _ ← freewlock; mret a.
Definition with_rlock {A} (m : qM A) : qM A := _ ← setrlock; a ← m; _ ← freerlock; mret a.

(** ** [DTA_EMPTYQ], [DTA_CLEANQ], [DTA_ASKQ] *)

Definition blank_entry (off : Z) : QueueTable := Entry 0 off 0 0 0 0.

(** The loop over the entries 1 to [maxmsgs]. *)
Fixpoint clear_entries (n : nat) (i : Z) : qM () :=
  match n with
  | O => mret ()
  | S n' => _ ← tmodify i (λ _, blank_entry 0); clear_entries n' (i + 1)
  end.

Definition emptyq_body (truncate_ok : bool) : qM Z :=
  _ ← hmodify (set_livmsgs 0);
  _ ← hmodify (set_firstmsgn 1);
  _ ← hmodify (set_lastmsgn 0);
  h ← hget;
  _ ← tmodify 0 (λ _, blank_entry (SIZEOF_QueueHead + SIZEOF_QueueTable * (maxmsgs h + 1)));
  _ ← clear_entries (Z.to_nat (maxmsgs h)) 1;
  if negb truncate_ok then mret DTARC_FILETRUNCATE_ERROR else
  e ← tab 0;
  q ← get;
  _ ← modify (set_data (take (Z.to_nat (offset e - base q)) (q_data q)));
  mret 0.

Definition DTA_EMPTYQ (truncate_ok : bool) : qM Z := with_wlock (emptyq_body truncate_ok).

Definition DTA_CLEANQ (truncate_ok : bool) : qM Z :=
  liv ← with_wlock (h ← hget; mret (livmsgs h));
  if liv =? 0 then
    ret ← DTA_EMPTYQ truncate_ok;
    if negb (ret =? 0) then mret DTARC_INTERNAL_ERROR else mret 0
  else mret 0.

Definition DTA_ASKQ : qM (Z * Z) := h ← hget; mret (maxmsgs h, livmsgs h).

(** ** [DTA_PUTMSG] *)

(** The search for a free entry; [maxmsgs] when there is none before it. *)
Definition free_body (i : Z) : qM (Z + Z) :=
  h ← hget;
  if negb (i <? maxmsgs h) then mret (inr i) else
  e ← tab i;
  if flag e =? 0 then mret (inr i) else mret (inl (i + 1)).

Definition alloc_entry : qM Z :=
  h ← hget;
  if lastmsgn h =? maxmsgs h then iter (S (Z.to_nat (maxmsgs h))) free_body 1
  else mret (lastmsgn h + 1).

(** The place in the list: behind the whole list, except before a head of lower priority. *)
Definition find_place (currentmsgn : Z) : qM Z :=
  t0 ← tab 0;
  let i := nextprioidx t0 in
  c ← tab currentmsgn;
  e ← tab i;
  mret (if priority c <=? priority e then 0 else i).

Definition link_entry (currentmsgn i : Z) : qM () :=
  e ← tab i;
  _ ← tmodify currentmsgn (set_fore (foreprioidx e));
  _ ← tmodify currentmsgn (set_next i);
  e ← tab i;
  _ ← tmodify (foreprioidx e) (set_next currentmsgn);
  tmodify i (set_fore currentmsgn).

(** [fseek], [fwrite] and [fflush] of the message at [off]. *)
Definition write_msg (io : iores) (off : Z) (message : list Z) : qM Z :=
  q ← get;
  if (off <? 0) || bool_decide (io = IoSeek) then mret DTARC_FILESEEK_ERROR else
  if off <? base q then fail (UB "message written over the mapped table") else
  let put bs := modify (set_data (bwrite (q_data q) (off - base q) bs)) in
  match io with
  | IoWrite n => if (n <? length message)%nat then _ ← put (take n message); mret DTARC_FILEWRITE_ERROR
                 else _ ← put message; mret 0
  | IoFlush => mret DTARC_FILEFLUSH_ERROR
  | _ => _ ← put message; mret 0
  end.

Definition putmsg_body (io : iores) (message : list Z) (prio : Z) : qM Z :=
  h ← hget;
  if livmsgs h =? maxmsgs h then mret DTARC_QUEUE_FULL else
  _ ← hmodify (set_livmsgs (livmsgs h + 1));
  currentmsgn ← alloc_entry;
  _ ← tmodify currentmsgn (set_flag 1);
  q ← get;
  _ ← tmodify currentmsgn (set_offset (filesize q));
  _ ← tmodify currentmsgn (set_msglen (zlen message));
  _ ← tmodify currentmsgn (set_priority prio);
  h ← hget;
  _ ← when (currentmsgn <? firstmsgn h) (hmodify (set_firstmsgn currentmsgn));
  _ ← when (lastmsgn h <? currentmsgn) (hmodify (set_lastmsgn currentmsgn));
  i ← find_place currentmsgn;
  _ ← link_entry currentmsgn i;
  c ← tab currentmsgn;
  write_msg io (offset c) message.

Definition DTA_PUTMSG (io : iores) (message : list Z) (prio : Z) : qM Z := with_wlock (putmsg_body io message prio).

(** ** [DTA_DELMSG] *)

(** [while (queuetable[++firstmsgn].flag == 0);] and the same downwards. *)
Definition next_first (_ : ()) : qM (() + ()) :=
  h ← hget;
  _ ← hmodify (set_firstmsgn (firstmsgn h + 1));
  e ← tab (firstmsgn h + 1);
  mret (if flag e =? 0 then inl () else inr ()).
Definition next_last (_ : ()) : qM (() + ()) :=
  h ← hget;
  _ ← hmodify (set_lastmsgn (lastmsgn h - 1));
  e ← tab (lastmsgn h - 1);
  mret (if flag e =? 0 then inl () else inr ()).

Definition scan_fuel (q : queue) : nat := S (length (q_table q)).

Definition reset_ends : qM () := _ ← hmodify (set_firstmsgn 1); hmodify (set_lastmsgn 0).

(** The head once the message is unlinked; [h] is the head before its count went down. *)
Definition adjust_ends (msgn : Z) (h : QueueHead) : qM () :=
  q ← get;
  _ ← (if 0 <? livmsgs h - 1 then
         _ ← when (msgn =? firstmsgn h) (iter (scan_fuel q) next_first ());
         when (msgn =? lastmsgn h) (iter (scan_fuel q) next_last ())
       else reset_ends);
  h ← hget;
  when (lastmsgn h <? firstmsgn h) reset_ends.

Definition delmsg_body (msgn : Z) : qM Z :=
  e ← tab msgn;
  if flag e =? 0 then mret DTARC_MESSAGE_DIED else
  _ ← tmodify (foreprioidx e) (set_next (nextprioidx e));
  e ← tab msgn;
  _ ← tmodify (nextprioidx e) (set_fore (foreprioidx e));
  _ ← tmodify msgn (set_flag 0);
  h ← hget;
  _ ← hmodify (set_livmsgs (livmsgs h - 1));
  _ ← adjust_ends msgn h;
  mret 0.

Definition DTA_DELMSG (msgn : Z) : qM Z := with_wlock (delmsg_body msgn).

(** ** [DTA_GETMSG] *)

(** What the read section of a get gives: a return code, or the entry's number with what was
    stored through the pointers; and the handle's cursor. *)
Inductive got := GotErr (rc : Z) | Got (msgn : Z) (message : option (list Z)) (len prio : Z).

(** [while (curmsgn++)]: the test is on the value before the increment. *)
Definition order_body (lastm : Z) (curmsgn : Z) : qM (Z + option Z) :=
  let c := curmsgn + 1 in
  if curmsgn =? 0 then mret (inr (Some c)) else
  if lastm <? c then mret (inr None) else
  e ← tab c;
  mret (if flag e =? 1 then inr (Some c) else inl c).

(** The entry to read, by priority or by order, and the cursor. *)
Definition select (cursor mode : Z) : qM (option Z * Z) :=
  h ← hget;
  if has_flag mode DTAGMO_READBYPRIORITY then
    e ← tab cursor;
    let cursor := if flag e =? 0 then 0 else cursor in
    e ← tab cursor;
    mret (if nextprioidx e =? 0 then None else Some (nextprioidx e), cursor)
  else
    q ← get;
    r ← iter (scan_fuel q) (order_body (lastmsgn h)) (if cursor =? 0 then firstmsgn h - 1 else cursor);
    mret (r, cursor).

(** [fseek] and [fread] of an entry's message. *)
Definition read_msg (e : QueueTable) : qM (Z + list Z) :=
  q ← get;
  if offset e <? 0 then mret (inl DTARC_FILESEEK_ERROR) else
  if offset e <? base q then fail (UB "mapped table read as a message") else
  let bs := bread (q_data q) (offset e - base q) (msglen e) in
  mret (if zlen bs =? msglen e then inr bs else inl DTARC_FILEREAD_ERROR).

(** From [setrlock] to the decision to delete; the new cursor.  [rd] is the [fseek] and
    [fread] of an entry's message, with what the stream holds after them; [b] is what it
    holds now. *)
Definition getmsg_with {B} (rd : QueueTable → qM ((Z + list Z) * B)) (b : B) (cursor mode : Z) : qM (got * Z * B) :=
  h ← hget;
  if livmsgs h =? 0 then mret (GotErr DTARC_QUEUE_EMPTY, cursor, b) else
  let cursor := if has_flag mode DTAGMO_RESETCURSOR then 0 else cursor in
  '(r, cursor) ← select cursor mode;
  match r with
  | None => mret (GotErr DTARC_QUEUE_END, cursor, b)
  | Some curmsgn =>
      e ← tab curmsgn;
      '(m, b) ← (if has_flag mode DTAGMO_JUSTINQUIRE then mret (inr None, b)
                 else '(r, b) ← rd e; mret (match r with inl rc => inl rc | inr bs => inr (Some bs) end, b));
      match m with
      | inl rc => mret (GotErr rc, cursor, b)
      | inr message =>
          let cursor := if negb (has_flag mode DTAGMO_DELETEAFTERREAD) && has_flag mode DTAGMO_SKIPWHILEREAD
                        then curmsgn else cursor in
          mret (Got curmsgn message (msglen e) (priority e), cursor, b)
      end
  end.

(** With one process the stream reads what is in the file. *)
Definition getmsg_body (cursor mode : Z) : qM (got * Z) :=
  '(g, cursor, _) ← getmsg_with (λ e, r ← read_msg e; mret (r, ())) () cursor mode; mret (g, cursor).

(** The return code, what was stored, and the cursor. *)
Definition DTA_GETMSG (cursor mode : Z) : qM (Z * option (option (list Z) * Z * Z) * Z) :=
  '(g, cursor) ← with_rlock (getmsg_body cursor mode);
  match g with
  | GotErr rc => mret (rc, None, cursor)
  | Got curmsgn message len prio =>
      if has_flag mode DTAGMO_DELETEAFTERREAD then
        ret ← DTA_DELMSG curmsgn;
        mret (if negb (ret =? 0) then DTARC_INTERNAL_ERROR else 0, Some (message, len, prio), cursor)
      else mret (0, Some (message, len, prio), cursor)
  end.
