(* ===== verification/DtaQueueSpec.v ===== *)
(** What a DTA queue promises: the abstract queue, a list of numbered messages, the
    invariant that relates it to the mapped table and the data region, and one lemma per
    queue function. *)
From S2P Require Import Prelude CLib DtaQueue.

(** ** The abstract queue *)

Record amsg := AMsg { num : Z; prio : Z; text : list Z }.
#[export] Instance amsg_eq_dec : EqDecision amsg.
Proof. solve_decision. Defined.

Module dq.
(** The messages in list order. *)
Abbreviation aqueue := (list amsg).

Definition nums (a : aqueue) : list Z := num <$> a.
Definition last_num (a : aqueue) : Z := foldr Z.max 0 (nums a).

(** The least number from [i] on, at most [i + n], that is not used. *)
Fixpoint first_free (n : nat) (i : Z) (l : list Z) : Z :=
  match n with
  | O => i
  | S n' => if decide (i ∈ l) then first_free n' (i + 1) l else i
  end.
Definition alloc (max : Z) (a : aqueue) : Z :=
  if last_num a =? max then first_free (Z.to_nat (max - 1)) 1 (nums a) else last_num a + 1.

(** A message goes to the end, unless its priority is above the first one's. *)
Definition insert (m : amsg) (a : aqueue) : aqueue :=
  match a with
  | h :: _ => if prio h <? prio m then m :: a else a ++ [m]
  | [] => [m]
  end.
Definition put (max : Z) (message : list Z) (p : Z) (a : aqueue) : Z * aqueue :=
  if zlen a =? max then (DTARC_QUEUE_FULL, a) else (0, insert (AMsg (alloc max a) p message) a).

Definition remove (n : Z) (a : aqueue) : aqueue := filter (λ m, num m ≠ n) a.
Definition del (n : Z) (a : aqueue) : Z * aqueue :=
  if decide (n ∈ nums a) then (0, remove n a) else (DTARC_MESSAGE_DIED, a).

(** The message behind number [c] in the list; the first one when [c] is not in the list. *)
Fixpoint after (c : Z) (a : aqueue) : option amsg :=
  match a with
  | [] => None
  | m :: a' => if num m =? c then head a' else after c a'
  end.
Definition next_in_list (c : Z) (a : aqueue) : option amsg :=
  if decide (c ∈ nums a) then after c a else head a.

(** The message with the least number above [c]. *)
Fixpoint next_number (c : Z) (a : aqueue) : option amsg :=
  match a with
  | [] => None
  | m :: a' =>
      match next_number c a' with
      | Some m' => if (c <? num m) && (num m <? num m') then Some m else Some m'
      | None => if c <? num m then Some m else None
      end
  end.

(** The code, the stored message, length and priority, the cursor and the queue. *)
Definition get (cursor mode : Z) (a : aqueue) : (Z * option (option (list Z) * Z * Z) * Z) * aqueue :=
  match a with
  | [] => ((DTARC_QUEUE_EMPTY, None, cursor), a)
  | _ =>
      let c := if has_flag mode DTAGMO_RESETCURSOR then 0 else cursor in
      let bypri := has_flag mode DTAGMO_READBYPRIORITY in
      let c := if bypri && negb (bool_decide (c ∈ nums a)) then 0 else c in
      match (if bypri then next_in_list c a else next_number c a) with
      | None => ((DTARC_QUEUE_END, None, c), a)
      | Some m =>
          let out := Some (if has_flag mode DTAGMO_JUSTINQUIRE then None else Some (text m), zlen (text m), prio m) in
          if has_flag mode DTAGMO_DELETEAFTERREAD then ((0, out, c), remove (num m) a)
          else ((0, out, if has_flag mode DTAGMO_SKIPWHILEREAD then num m else c), a)
      end
  end.
End dq.

(** ** The table as a function of the entry number *)

Definition ent (t : list QueueTable) (i : Z) : QueueTable := default (blank_entry 0) (t !! Z.to_nat i).
Definition upd (i : Z) (f : QueueTable → QueueTable) (t : list QueueTable) : list QueueTable :=
  <[Z.to_nat i := f (ent t i)]> t.
Definition inside (t : list QueueTable) (i : Z) : Prop := 0 ≤ i < zlen t.
Definition next (t : list QueueTable) (i : Z) : Z := nextprioidx (ent t i).
Definition fore (t : list QueueTable) (i : Z) : Z := foreprioidx (ent t i).

Lemma ent_upd t i f j : inside t i → 0 ≤ j → ent (upd i f t) j = if decide (i = j) then f (ent t i) else ent t j.
Proof.
  intros [H1 H2] Hj. unfold zlen in H2. unfold upd. unfold ent at 1. destruct (decide (i = j)) as [<-|Hne].
  - rewrite list_lookup_insert_eq; [done|lia].
  - rewrite list_lookup_insert_ne; [done|lia].
Qed.

Lemma zlen_upd i f t : zlen (upd i f t) = zlen t.
Proof. unfold zlen, upd. by rewrite length_insert. Qed.
Lemma inside_upd i f t j : inside (upd i f t) j ↔ inside t j.
Proof. unfold inside. by rewrite zlen_upd. Qed.

Lemma tab_eq q i : inside (q_table q) i → tab i q = Ok (ent (q_table q) i, q).
Proof.
  intros [H1 H2]. unfold zlen in H2. unfold tab. rewrite bind_gets.
  rewrite (proj2 (Z.leb_le 0 i) H1). unfold ent.
  destruct (lookup_lt_is_Some_2 (q_table q) (Z.to_nat i)) as [e He]; [lia|]. by rewrite He.
Qed.

Lemma tmodify_eq q i f : inside (q_table q) i → tmodify i f q = Ok ((), set_table (upd i f (q_table q)) q).
Proof. intros H. unfold tmodify. erewrite bind_ok by by apply tab_eq. done. Qed.

Lemma tab_set q t i : inside t i → tab i (set_table t q) = Ok (ent t i, set_table t q).
Proof. apply (tab_eq (set_table t q)). Qed.
Lemma tmodify_set q t i f : inside t i → tmodify i f (set_table t q) = Ok ((), set_table (upd i f t) q).
Proof. apply (tmodify_eq (set_table t q)). Qed.

(** ** Doubly linked segments *)

Fixpoint dseg (t : list QueueTable) (p : Z) (l : list Z) (q : Z) : Prop :=
  match l with
  | [] => next t p = q ∧ fore t q = p
  | x :: l' => next t p = x ∧ fore t x = p ∧ dseg t x l' q
  end.

Lemma dseg_app t p l1 x l2 q : dseg t p (l1 ++ x :: l2) q ↔ dseg t p l1 x ∧ dseg t x l2 q.
Proof. revert p. induction l1 as [|y l1 IH]; intros p; simpl; [tauto|]. rewrite IH. tauto. Qed.

Lemma dseg_frame t t' p l q : (∀ x, x ∈ p :: l → next t' x = next t x) → (∀ x, x ∈ l ++ [q] → fore t' x = fore t x) →
  dseg t p l q → dseg t' p l q.
Proof.
  revert p. induction l as [|y l IH]; intros p Hn Hf; simpl.
  - intros [<- H]. split; [apply Hn; left|]. rewrite Hf; [done|left].
  - intros (<- & H1 & H2). split; [apply Hn; left|]. split; [by rewrite Hf by left|].
    apply IH; [|..|done]; intros x Hx; [apply Hn|apply Hf]; by right.
Qed.

(** The last edge leads elsewhere. *)
Lemma dseg_change_end t t' p l q q' y : last (p :: l) = Some y → NoDup (p :: l) →
  (∀ x, x ∈ p :: l → x ≠ y → next t' x = next t x) → (∀ x, x ∈ l → fore t' x = fore t x) →
  next t' y = q' → fore t' q' = y → dseg t p l q → dseg t' p l q'.
Proof.
  revert p. induction l as [|z l IH]; intros p Hy Hnd Hn Hf H1 H2.
  - injection Hy as ->. done.
  - intros (<- & H3 & H4). rewrite last_cons_cons in Hy. apply NoDup_cons in Hnd as [Hp Hnd].
    assert (y ∈ next t p :: l) by by apply last_Some_elem_of.
    split; [apply Hn; [left|set_solver]|]. split; [rewrite Hf; [done|left]|].
    apply IH; try done; intros x Hx; [apply Hn|apply Hf]; by right.
Qed.

Lemma dseg_last t p l q y : last (p :: l) = Some y → dseg t p l q → next t y = q ∧ fore t q = y.
Proof.
  revert p. induction l as [|z l IH]; intros p Hy; [by injection Hy as ->|].
  intros (_ & _ & H). rewrite last_cons_cons in Hy. by apply (IH z).
Qed.

Lemma dseg_head t p l q : dseg t p l q → next t p = default q (head l).
Proof. by destruct l; intros []. Qed.

(** ** The invariant *)

Definition ends (l : list Z) (first last : Z) : Prop :=
  match l with
  | [] => first = 1 ∧ last = 0
  | _ => first ∈ l ∧ last ∈ l ∧ Forall (λ i, first ≤ i ≤ last) l
  end.

(** The entry of a message and its bytes in the file. *)
Definition stored (q : queue) (m : amsg) : Prop :=
  let e := ent (q_table q) (num m) in
  priority e = prio m ∧ msglen e = zlen (text m) ∧ base q ≤ offset e ∧
  bread (q_data q) (offset e - base q) (msglen e) = text m.

Record qinv (q : queue) (a : dq.aqueue) : Prop := {
  qi_max : 0 ≤ maxmsgs (q_head q);
  qi_len : zlen (q_table q) = maxmsgs (q_head q) + 1;
  qi_links : dseg (q_table q) 0 (dq.nums a) 0;
  qi_nodup : NoDup (dq.nums a);
  qi_range : ∀ i, i ∈ dq.nums a → 1 ≤ i ≤ maxmsgs (q_head q);
  qi_flag : ∀ i, inside (q_table q) i → flag (ent (q_table q) i) = if decide (i ∈ dq.nums a) then 1 else 0;
  qi_live : livmsgs (q_head q) = zlen a;
  qi_ends : ends (dq.nums a) (firstmsgn (q_head q)) (lastmsgn (q_head q));
  qi_stored : Forall (stored q) a
}.

(** A queue nobody is using. *)
Definition idle (q : queue) : Prop := sem_r q = 0 ∧ sem_w q = 0.

(** What the functions leave alone. *)
Record keeps (q q' : queue) : Prop := {
  k_max : maxmsgs (q_head q') = maxmsgs (q_head q);
  k_r : sem_r q' = sem_r q; k_w : sem_w q' = sem_w q; k_m : sem_m q' = sem_m q
}.

(** Two tables with the same priorities, lengths and offsets. *)
Definition same_msg (e e' : QueueTable) : Prop :=
  priority e' = priority e ∧ msglen e' = msglen e ∧ offset e' = offset e.

Lemma zlen_nums a : zlen (dq.nums a) = zlen a.
Proof. unfold zlen, dq.nums. by rewrite length_fmap. Qed.

Lemma inside_inv q a i : qinv q a → 0 ≤ i ≤ maxmsgs (q_head q) → inside (q_table q) i.
Proof. intros Hq H. unfold inside. rewrite (qi_len _ _ Hq). lia. Qed.

Lemma inside_num q a i : qinv q a → i ∈ dq.nums a → inside (q_table q) i.
Proof. intros Hq H. eapply inside_inv; [done|]. pose proof (qi_range _ _ Hq i H). lia. Qed.

Lemma zero_not_num q a : qinv q a → 0 ∉ dq.nums a.
Proof. intros Hq H. pose proof (qi_range _ _ Hq 0 H). lia. Qed.

Lemma nodup_zero q a : qinv q a → NoDup (0 :: dq.nums a).
Proof. intros Hq. apply NoDup_cons. split; [by eapply zero_not_num|apply Hq]. Qed.

Lemma elem_of_nums m a : m ∈ a → num m ∈ dq.nums a.
Proof. intros H. apply list_elem_of_fmap. by exists m. Qed.

(** A message is stored still when its entry and the data at its place are the same. *)
Lemma stored_frame q q' m : zlen (q_table q') = zlen (q_table q) →
  same_msg (ent (q_table q) (num m)) (ent (q_table q') (num m)) →
  q_data q `prefix_of` q_data q' → stored q m → stored q' m.
Proof.
  intros Hl (E1 & E2 & E3) [bs Hd] (H1 & H2 & H3 & H4). unfold stored, base in *. rewrite Hl, E1, E2, E3, Hd.
  split; [done|]. split; [done|]. split; [done|]. rewrite <- H4. unfold bread in *.
  rewrite H2. rewrite H2 in H4. set (o := Z.to_nat (offset _ - _)) in *. clearbody o.
  unfold zlen in *. rewrite Nat2Z.id in H4 |- *.
  assert (o + length (text m) ≤ length (q_data q) ∨ length (text m) = 0)%nat as [Hle|H0].
  { apply (f_equal length) in H4. rewrite length_take, length_drop in H4. lia. }
  - rewrite drop_app_le by lia. rewrite take_app_le; [done|]. rewrite length_drop. lia.
  - by rewrite H0.
Qed.

(** ** Allocation *)

Lemma last_num_spec a f l : ends (dq.nums a) f l → (∀ i, i ∈ dq.nums a → 1 ≤ i) → dq.last_num a = l.
Proof.
  unfold dq.last_num. generalize (dq.nums a). intros ns. destruct ns as [|x ns]; [by intros [_ ->]|].
  intros (_ & Hin & Hle) Hpos. rewrite Forall_forall in Hle.
  assert (∀ ns', (∀ i, i ∈ ns' → 1 ≤ i ≤ l) → 0 ≤ foldr Z.max 0 ns' ≤ Z.max 0 l ∧ (l ∈ ns' → foldr Z.max 0 ns' = l)) as H.
  { induction ns' as [|y ns' IH]; intros H'; simpl; [split; [lia|by intros ?%elem_of_nil]|].
    destruct IH as [IH1 IH2]; [intros; apply H'; by right|]. pose proof (H' y ltac:(left)).
    split; [lia|]. intros [<-|Hl]%elem_of_cons; [lia|]. rewrite IH2 by done. lia. }
  apply H; [|done]. intros i Hi. split; [by apply Hpos|]. by apply Hle.
Qed.

Lemma first_free_spec n i l : let r := dq.first_free n i l in
  i ≤ r ≤ i + Z.of_nat n ∧ (∀ j, i ≤ j < r → j ∈ l) ∧ (r ∉ l ∨ r = i + Z.of_nat n).
Proof.
  revert i. induction n as [|n IH]; intros i; simpl; [split_and!; [lia|lia|intros; lia|right; lia]|].
  destruct (decide (i ∈ l)) as [Hi|Hi].
  - specialize (IH (i + 1)). destruct IH as (H1 & H2 & H3). split; [lia|]. split.
    + intros j Hj. destruct (decide (j = i)) as [->|]; [done|]. apply H2. lia.
    + destruct H3; [by left|right; lia].
  - split; [lia|]. split; [intros; lia|by left].
Qed.

(** [DTA_PUTMSG] has counted the new message when it looks for an entry. *)
Definition counted (v : Z) (q : queue) : queue := set_head (set_livmsgs v) q.

Lemma free_body_eq v q a i : qinv q a → 1 ≤ i → free_body i (counted v q) =
  Ok (if (i <? maxmsgs (q_head q)) && bool_decide (i ∈ dq.nums a) then inl (i + 1) else inr i, counted v q).
Proof.
  intros Hq H1. unfold free_body, hget. rewrite bind_gets. cbn [counted set_head q_head set_livmsgs maxmsgs].
  destruct (Z.ltb_spec i (maxmsgs (q_head q))); [|done].
  assert (inside (q_table q) i) as Hi by (eapply inside_inv; [done|lia]). cbn [negb andb].
  erewrite bind_ok by by apply tab_eq. cbn [counted set_head q_table]. rewrite (qi_flag _ _ Hq) by done.
  case_decide; [rewrite bool_decide_true by done|rewrite bool_decide_false by done]; reflexivity.
Qed.

Lemma free_loop v q a n i : qinv q a → 1 ≤ i → i + Z.of_nat n = Z.max i (maxmsgs (q_head q)) →
  iter (S n) free_body i (counted v q) = Ok (dq.first_free n i (dq.nums a), counted v q).
Proof.
  intros Hq. revert i. induction n as [|n IH]; intros i H1 H2; cbn [iter dq.first_free];
    (erewrite bind_ok by by eapply free_body_eq).
  - rewrite (proj2 (Z.ltb_ge i _)) by lia. done.
  - rewrite (proj2 (Z.ltb_lt i _)) by lia. cbn [andb]. case_decide.
    + rewrite bool_decide_true by done. apply IH; lia.
    + rewrite bool_decide_false by done. done.
Qed.

(** Fewer messages than entries: some number is free. *)
Lemma not_all_used (l : list Z) max : NoDup l → 0 ≤ max → zlen l < max → ¬ ∀ j, 1 ≤ j ≤ max → j ∈ l.
Proof.
  intros Hnd Hm Hl Hall. assert (submseteq (seqZ 1 max) l) as Hs.
  { apply NoDup_submseteq; [apply NoDup_seqZ|]. intros j Hj%elem_of_seqZ. apply Hall. lia. }
  apply submseteq_length in Hs. rewrite length_seqZ in Hs. unfold zlen in Hl. lia.
Qed.

Lemma alloc_ok v q a : qinv q a → zlen a < maxmsgs (q_head q) →
  let c := dq.alloc (maxmsgs (q_head q)) a in
  alloc_entry (counted v q) = Ok (c, counted v q) ∧ 1 ≤ c ≤ maxmsgs (q_head q) ∧ c ∉ dq.nums a.
Proof.
  intros Hq Hlt. set (mx := maxmsgs (q_head q)) in *. unfold dq.alloc, alloc_entry, hget. rewrite bind_gets.
  cbn [counted set_head q_head set_livmsgs maxmsgs lastmsgn].
  pose proof (qi_max _ _ Hq). pose proof (qi_nodup _ _ Hq) as Hnd. pose proof (qi_range _ _ Hq) as Hr.
  pose proof (qi_ends _ _ Hq) as He. rewrite (last_num_spec _ _ _ He) by (intros i Hi; pose proof (Hr i Hi); lia).
  pose proof (zlen_nonneg a). fold mx in Hr |- *. set (lm := lastmsgn (q_head q)) in *.
  assert (zlen (dq.nums a) < mx) by (rewrite zlen_nums; lia).
  destruct (Z.eqb_spec lm mx) as [Hm|Hm].
  - replace (S (Z.to_nat mx)) with (S (Z.to_nat (mx - 1)) + 1)%nat by lia.
    pose proof (first_free_spec (Z.to_nat (mx - 1)) 1 (dq.nums a)) as (F1 & F2 & F3).
    assert (dq.first_free (Z.to_nat (mx - 1)) 1 (dq.nums a) ∉ dq.nums a) as Hfree.
    { destruct F3 as [?|F3]; [done|]. exfalso. apply (not_all_used (dq.nums a) mx); [done|lia|done|].
      intros j Hj. destruct (decide (j = mx)) as [->|].
      - rewrite <- Hm. destruct (dq.nums a); [|by apply He]. destruct He as [_ He]. lia.
      - apply F2. lia. }
    split; [|split; [lia|done]].
    apply iter_more, (free_loop v q a (Z.to_nat (mx - 1)) 1 Hq); lia.
  - assert (lm ≤ mx ∧ 0 ≤ lm ∧ ∀ i, i ∈ dq.nums a → i ≤ lm) as (? & ? & Hmax).
    { destruct (dq.nums a) as [|x ns] eqn:E; [destruct He as [_ ->]; split; [lia|split; [lia|by intros ? ?%elem_of_nil]]|].
      destruct He as (_ & Hin & Hle). pose proof (Hr _ Hin). split; [lia|]. split; [lia|].
      intros i Hi. rewrite Forall_forall in Hle. by apply Hle. }
    split; [done|]. split; [lia|]. intros Hin. apply Hmax in Hin. lia.
Qed.

(** ** Linking *)

Lemma upd_upd i f g t : inside t i → upd i f (upd i g t) = upd i (λ e, f (g e)) t.
Proof.
  intros H. unfold upd. rewrite list_insert_insert_eq. f_equal. f_equal.
  change (<[Z.to_nat i:=g (ent t i)]> t) with (upd i g t). rewrite ent_upd; [|done|apply H]. by rewrite decide_True.
Qed.

Definition linked (c i : Z) (t : list QueueTable) : list QueueTable :=
  let p := fore t i in
  upd i (set_fore c) (upd p (set_next c) (upd c (λ e, set_next i (set_fore p e)) t)).

Section linked.
Context (t : list QueueTable) (c i : Z).
Context (Hc : inside t c) (Hi : inside t i) (Hp : inside t (fore t i)) (Hci : c ≠ i) (Hcp : c ≠ fore t i).

Lemma zlen_linked : zlen (linked c i t) = zlen t.
Proof. unfold linked. by rewrite !zlen_upd. Qed.

Lemma linked_ent x : 0 ≤ x → ent (linked c i t) x =
  (if decide (i = x) then set_fore c else id)
    ((if decide (fore t i = x) then set_next c else id)
      (if decide (c = x) then set_next i (set_fore (fore t i) (ent t c)) else ent t x)).
Proof.
  intros Hx. unfold linked. cbv zeta. generalize (fore t i), Hp. intros p Hp'.
  pose proof (proj1 Hi). pose proof (proj1 Hp'). pose proof (proj1 Hc).
  rewrite !ent_upd by (rewrite ?inside_upd; done). repeat case_decide; subst; done.
Qed.

Lemma linked_next x : 0 ≤ x → next (linked c i t) x =
  if decide (x = fore t i) then c else if decide (x = c) then i else next t x.
Proof.
  intros Hx. unfold next. rewrite linked_ent by done. repeat case_decide; subst; try done; congruence.
Qed.

Lemma linked_fore x : 0 ≤ x → fore (linked c i t) x =
  if decide (x = i) then c else if decide (x = c) then fore t i else fore t x.
Proof.
  intros Hx. unfold fore at 1. rewrite linked_ent by done. repeat case_decide; subst; try done; congruence.
Qed.

Lemma linked_keeps x : 0 ≤ x → same_msg (ent t x) (ent (linked c i t) x) ∧ flag (ent (linked c i t) x) = flag (ent t x).
Proof.
  intros Hx. rewrite linked_ent by done. repeat case_decide; subst; done.
Qed.
End linked.

Lemma link_entry_ok q c i : let t := q_table q in inside t c → inside t i → inside t (fore t i) → c ≠ i → c ≠ fore t i →
  link_entry c i q = Ok ((), set_table (linked c i t) q).
Proof.
  intros t Hc Hi Hp Hci Hcp. pose proof (proj1 Hi). unfold link_entry.
  erewrite bind_ok by by apply tab_eq. fold t. fold (fore t i).
  erewrite bind_ok by by apply tmodify_eq. erewrite bind_ok by (apply tmodify_eq; simpl; by rewrite inside_upd).
  simpl. rewrite upd_upd by done. erewrite bind_ok by (apply tab_eq; simpl; by rewrite inside_upd). cbn [set_table q_table].
  rewrite ent_upd, decide_False by done. fold (fore t i).
  erewrite bind_ok by (apply tmodify_eq; simpl; by rewrite inside_upd).
  erewrite tmodify_eq by (simpl; by rewrite !inside_upd). done.
Qed.

(** Insertion before the first message, and behind the last one. *)
Lemma linked_front t c h l : inside t c → inside t h → inside t 0 → c ∉ 0 :: h :: l → NoDup (0 :: h :: l) →
  (∀ x, x ∈ l → 0 ≤ x) → dseg t 0 (h :: l) 0 → dseg (linked c h t) 0 (c :: h :: l) 0.
Proof.
  intros Hc Hh H0 Hni Hnd Hpos (Hn & Hf & Hs). apply NoDup_cons in Hnd as [N0 [N1 _]%NoDup_cons].
  assert (c ≠ 0 ∧ c ≠ h ∧ 0 ≠ h) as (? & ? & ?) by set_solver.
  assert (inside t (fore t h)) as Hp by by rewrite Hf. assert (c ≠ fore t h) by by rewrite Hf.
  pose proof (proj1 Hc). pose proof (proj1 Hh). assert (∀ x, x ∈ 0 :: h :: l → 0 ≤ x) as Hpos' by set_solver by lia.
  cbn [dseg]. repeat split; rewrite ?linked_next, ?linked_fore, ?Hf by done; repeat (case_decide; try congruence).
  eapply dseg_frame; [| |exact Hs]; intros x Hx; rewrite ?linked_next, ?linked_fore by (done || set_solver); rewrite ?Hf;
    rewrite !decide_False by set_solver; done.
Qed.

Lemma linked_back t c l : inside t c → inside t 0 → (∀ x, x ∈ l → inside t x) → c ∉ 0 :: l → NoDup (0 :: l) →
  dseg t 0 l 0 → dseg (linked c 0 t) 0 (l ++ [c]) 0.
Proof.
  intros Hc H0 Hin Hni Hnd Hs. assert (∃ y, last (0 :: l) = Some y) as [y Hy].
  { destruct (last (0 :: l)) eqn:E; [eauto|]. by apply last_None in E. }
  destruct (dseg_last _ _ _ _ _ Hy Hs) as [Hn Hf]. assert (y ∈ 0 :: l) as Hyl by by apply last_Some_elem_of.
  assert (inside t y) by (apply elem_of_cons in Hyl as [->|]; [done|by apply Hin]).
  assert (inside t (fore t 0)) as Hp by by rewrite Hf. assert (c ≠ fore t 0) by (rewrite Hf; set_solver).
  assert (c ≠ 0) by set_solver. pose proof (proj1 Hc). pose proof (proj1 H0).
  assert (∀ x, x ∈ 0 :: l → 0 ≤ x) as Hpos by (intros x [->|Hx]%elem_of_cons; [done|apply (Hin x Hx)]).
  apply dseg_app. split.
  - eapply dseg_change_end; [exact Hy|exact Hnd| | | | |exact Hs].
    + intros x Hx Hne. rewrite linked_next by (done || by apply Hpos). rewrite Hf. rewrite !decide_False by set_solver. done.
    + intros x Hx. rewrite linked_fore by (done || (apply Hpos; set_solver)). apply NoDup_cons in Hnd as [? _].
      rewrite !decide_False by set_solver. done.
    + rewrite linked_next by (done || by apply Hpos). by rewrite Hf, decide_True.
    + rewrite linked_fore by done. rewrite decide_False by done. by rewrite decide_True.
  - split; [rewrite linked_next by done|rewrite linked_fore by done].
    + rewrite decide_False by done. by rewrite decide_True.
    + by rewrite decide_True.
Qed.

(** ** [DTA_PUTMSG] *)

Lemma nums_insert m a : dq.nums (dq.insert m a) = num m :: dq.nums a ∨ dq.nums (dq.insert m a) = dq.nums a ++ [num m].
Proof.
  destruct a as [|h a]; [by left|]. simpl. destruct (prio h <? prio m); [by left|right].
  apply (fmap_app num (h :: a) [m]).
Qed.

Lemma insert_perm m a : dq.insert m a ≡ₚ m :: a.
Proof. destruct a as [|h a]; [done|]. simpl. destruct (prio h <? prio m); [done|]. symmetry. apply (Permutation_cons_append (h :: a)). Qed.

Lemma nums_perm a b : a ≡ₚ b → dq.nums a ≡ₚ dq.nums b.
Proof. apply fmap_Permutation. Qed.

Lemma ends_perm l l' f la : l ≡ₚ l' → ends l f la → ends l' f la.
Proof.
  intros Hp. unfold ends. destruct l as [|x l], l' as [|y l']; [done|by apply Permutation_nil_cons in Hp|by symmetry in Hp; apply Permutation_nil_cons in Hp|].
  by rewrite Hp.
Qed.

Lemma ends_insert c l f la : (l = [] → c = 1) → ends l f la →
  ends (c :: l) (if c <? f then c else f) (if la <? c then c else la).
Proof.
  destruct l as [|x l].
  - intros Hc [-> ->]. rewrite Hc by done. simpl. split_and!; [by left|by left|]. by repeat constructor.
  - intros _ (H1 & H2 & H3). cbn [ends]. rewrite Forall_forall in H3.
    pose proof (H3 _ H1). split; [|split].
    + destruct (c <? f); [by left|by right].
    + destruct (la <? c); [by left|by right].
    + apply Forall_forall. intros i [->|Hi]%elem_of_cons; [|pose proof (H3 _ Hi)];
        destruct (Z.ltb_spec c f), (Z.ltb_spec la c); lia.
Qed.

(** The entry of a new message before it is linked. *)
Definition fill (off len p : Z) (e : QueueTable) : QueueTable :=
  set_priority p (set_msglen len (set_offset off (set_flag 1 e))).

Definition put_head (c : Z) (h : QueueHead) : QueueHead :=
  MkHead (maxmsgs h) (livmsgs h + 1) (if c <? firstmsgn h then c else firstmsgn h)
    (if lastmsgn h <? c then c else lastmsgn h).

(** Where the new message goes: 0 for the end, else before the first message. *)
Definition place (a : dq.aqueue) (p : Z) : Z :=
  match a with h :: _ => if prio h <? p then num h else 0 | [] => 0 end.

Definition put_state (a : dq.aqueue) (c : Z) (message : list Z) (p : Z) (q : queue) : queue :=
  Queue (put_head c (q_head q)) (linked c (place a p) (upd c (fill (filesize q) (zlen message) p) (q_table q)))
    (q_data q ++ message) (sem_r q) (sem_w q) (sem_m q).

Lemma head_inside q a : qinv q a →
  inside (q_table q) (default 0 (head (dq.nums a))) ∧ default 0 (head (dq.nums a)) ∈ 0 :: dq.nums a.
Proof.
  intros Hq. pose proof (qi_max _ _ Hq). destruct a as [|h a'] eqn:E; simpl.
  - split; [eapply inside_inv; [done|lia]|left].
  - split; [eapply inside_num; [done|left]|right; left].
Qed.

Lemma place_eq q a p : qinv q a →
  place a p = let i := default 0 (head (dq.nums a)) in if p <=? priority (ent (q_table q) i) then 0 else i.
Proof.
  intros Hq. destruct a as [|h a']; simpl; [by case_match|].
  pose proof (qi_stored _ _ Hq) as [(-> & _) _]%Forall_cons. rewrite Z.leb_antisym. by destruct (prio h <? p).
Qed.

Lemma linked_insert t c a p message : inside t c → inside t 0 → (∀ x, x ∈ dq.nums a → inside t x) → c ∉ 0 :: dq.nums a →
  NoDup (0 :: dq.nums a) → dseg t 0 (dq.nums a) 0 →
  dseg (linked c (place a p) t) 0 (dq.nums (dq.insert (AMsg c p message) a)) 0.
Proof.
  intros Hc H0 Hin Hni Hnd Hs. destruct a as [|h a']; [by apply (linked_back t c [])|].
  simpl. destruct (prio h <? p).
  - apply linked_front; try done; [apply Hin; left|]. intros x Hx. apply (Hin x). by right.
  - change (h :: a' ++ [AMsg c p message]) with ((h :: a') ++ [AMsg c p message]).
    unfold dq.nums. rewrite fmap_app. by apply linked_back.
Qed.

Lemma alloc_nil max : max ≠ 0 → dq.alloc max [] = 1.
Proof. intros H. unfold dq.alloc. cbn [dq.last_num dq.nums fmap list_fmap foldr]. destruct (Z.eqb_spec 0 max); [by subst|done]. Qed.

Lemma base_pos q : 0 ≤ base q.
Proof. unfold base, SIZEOF_QueueHead, SIZEOF_QueueTable. pose proof (zlen_nonneg (q_table q)). lia. Qed.

Section put.
Context (q : queue) (a : dq.aqueue) (Hq : qinv q a) (Hlt : zlen a < maxmsgs (q_head q)).
Context (message : list Z) (p : Z).
Let c := dq.alloc (maxmsgs (q_head q)) a.
Let t := upd c (fill (filesize q) (zlen message) p) (q_table q).
Let i := place a p.

Lemma put_c : 1 ≤ c ≤ maxmsgs (q_head q) ∧ c ∉ dq.nums a.
Proof. by destruct (alloc_ok 0 q a Hq Hlt) as (_ & ? & ?). Qed.

Lemma put_inside_c : inside (q_table q) c.
Proof. eapply inside_inv; [done|]. pose proof put_c. lia. Qed.

Lemma put_inside x : inside t x ↔ inside (q_table q) x.
Proof. apply inside_upd. Qed.

Lemma put_next x : 0 ≤ x → next t x = next (q_table q) x ∧ fore t x = fore (q_table q) x.
Proof. intros Hx. unfold next, fore, t. rewrite ent_upd by (done || apply put_inside_c). by case_decide; subst. Qed.

Lemma put_links : dseg t 0 (dq.nums a) 0.
Proof.
  pose proof (qi_range _ _ Hq) as Hr.
  eapply dseg_frame; [| |apply (qi_links _ _ Hq)]; intros x Hx; apply put_next;
    [apply elem_of_cons in Hx as [->|Hx%Hr]; lia|apply elem_of_app in Hx as [Hx%Hr|Hx]; [|apply list_elem_of_singleton in Hx as ->]; lia].
Qed.

Lemma put_inside_fore : inside t i ∧ inside t (fore t i) ∧ c ≠ i ∧ c ≠ fore t i.
Proof.
  destruct put_c as [Hc Hn]. pose proof put_links as Hl. pose proof (zero_not_num _ _ Hq) as Hz.
  assert (inside t 0) by (rewrite put_inside; eapply inside_inv; [done|lia]).
  assert (∀ x, x ∈ 0 :: dq.nums a → inside t x) as Hin.
  { intros x [->|Hx]%elem_of_cons; [done|]. rewrite put_inside. by eapply inside_num. }
  assert (c ∉ 0 :: dq.nums a) as Hc0 by (intros [->|?]%elem_of_cons; [lia|done]).
  assert (i ∈ 0 :: dq.nums a ∧ fore t i ∈ 0 :: dq.nums a) as [Hi Hf].
  { unfold i, place. destruct a as [|h a']; simpl in Hl; [destruct Hl as [_ ->]; set_solver|].
    destruct (prio h <? p).
    - destruct Hl as (_ & -> & _). set_solver.
    - split; [set_solver|]. destruct (last (0 :: dq.nums (h :: a'))) as [y|] eqn:Hy; [|by apply last_None in Hy].
      destruct (dseg_last _ _ _ _ _ Hy Hl) as [_ ->]. by apply last_Some_elem_of. }
  split; [by apply Hin|]. split; [by apply Hin|]. split; intros E; apply Hc0; by rewrite E.
Qed.

Lemma put_ent x : 0 ≤ x → ent t x = if decide (c = x) then fill (filesize q) (zlen message) p (ent (q_table q) c) else ent (q_table q) x.
Proof. intros Hx. unfold t. by rewrite ent_upd by (done || apply put_inside_c). Qed.

Lemma place_ok q' : q_table q' = t → find_place c q' = Ok (i, q').
Proof.
  intros Et. destruct put_c as [Hc Hn]. assert (inside t 0) by (rewrite put_inside; eapply inside_inv; [done|lia]).
  unfold find_place. erewrite bind_ok by (apply tab_eq; by rewrite Et). rewrite Et. fold (next t 0).
  rewrite (dseg_head _ _ _ _ put_links). erewrite bind_ok by (apply tab_eq; rewrite Et; apply put_inside, put_inside_c).
  rewrite Et, (put_ent c), decide_True by (done || lia).
  destruct (head_inside _ _ Hq) as [Hi Hin]. erewrite bind_ok by (apply tab_eq; rewrite Et; apply put_inside, Hi).
  rewrite Et, put_ent by apply Hi.
  rewrite decide_False by (intros E; rewrite <- E in Hin; apply elem_of_cons in Hin as [?|?]; [lia|done]).
  unfold i. by rewrite (place_eq _ _ _ Hq).
Qed.

(** The run of the body on a queue that is not full. *)
Lemma putmsg_run : putmsg_body IoOk message p q = Ok (0, put_state a c message p q).
Proof.
  destruct put_c as [Hc Hn]. pose proof put_inside_c as Hic. destruct put_inside_fore as (Hi & Hf & Hci & Hcf).
  unfold putmsg_body, hget, hmodify. rewrite bind_gets, (qi_live _ _ Hq), (proj2 (Z.eqb_neq _ _)) by lia.
  rewrite bind_modify. change (set_head _ q) with (counted (zlen a + 1) q).
  erewrite bind_ok by apply (alloc_ok (zlen a + 1) q a Hq Hlt). fold c. set (q1 := counted _ q).
  erewrite bind_ok by by apply (tmodify_eq q1). unfold get. erewrite bind_ok by done. cbn beta.
  replace (filesize (set_table _ q1)) with (filesize q) by (unfold filesize, base; cbn [set_table q_table q_data]; by rewrite zlen_upd).
  erewrite bind_ok by (apply tmodify_set; by apply inside_upd). rewrite upd_upd by done.
  erewrite bind_ok by (apply tmodify_set; by apply inside_upd). rewrite upd_upd by done.
  erewrite bind_ok by (apply tmodify_set; by apply inside_upd). rewrite upd_upd by done.
  change (upd c _ _) with t. rewrite bind_gets. 
  assert (∀ B (k : () → qM B), (when (c <? firstmsgn (q_head (set_table t q1))) (modify (set_head (set_firstmsgn c)))
    ≫= λ _, when (lastmsgn (q_head (set_table t q1)) <? c) (modify (set_head (set_lastmsgn c))) ≫= k) (set_table t q1) =
    k () (Queue (put_head c (q_head q)) t (q_data q) (sem_r q) (sem_w q) (sem_m q))) as Hheads.
  { intros B k. unfold put_head. rewrite (qi_live _ _ Hq). cbn.
    by destruct (c <? firstmsgn (q_head q)), (lastmsgn (q_head q) <? c). }
  rewrite Hheads. erewrite bind_ok by by apply place_ok. erewrite bind_ok by (apply link_entry_ok; [by apply put_inside|exact Hi|exact Hf|exact Hci|exact Hcf]).
  assert (inside (linked c i t) c) by (unfold inside in *; rewrite zlen_linked; unfold t; by rewrite zlen_upd).
  erewrite bind_ok by by apply tab_set. cbn [q_table].
  destruct (linked_keeps t c i) with c as [(_ & _ & Eo) _]; try done; [by apply put_inside|lia|]. rewrite Eo, put_ent, decide_True by (done || lia).
  cbn [fill set_priority set_msglen set_offset offset]. unfold write_msg, get. erewrite bind_ok by done. cbn beta.
  assert (base (set_table (linked c i t) (Queue (put_head c (q_head q)) t (q_data q) (sem_r q) (sem_w q) (sem_m q))) = base q) as Hb.
  { unfold base. cbn [set_table q_table]. rewrite zlen_linked. unfold t. by rewrite zlen_upd. }
  rewrite Hb. unfold filesize at 1 2. pose proof (base_pos q). pose proof (zlen_nonneg (q_data q)).
  rewrite (proj2 (Z.ltb_ge _ 0)), bool_decide_false by (done || lia). cbn [orb].
  rewrite (proj2 (Z.ltb_ge _ _)) by lia. rewrite bind_modify. cbn [set_table q_data].
  rewrite bwrite_end by (unfold filesize; lia). done.
Qed.

Let q' := put_state a c message p q.
Let m := AMsg c p message.

Lemma put_ent' x : 0 ≤ x → same_msg (ent t x) (ent (q_table q') x) ∧ flag (ent (q_table q') x) = flag (ent t x).
Proof.
  destruct put_inside_fore as (Hi & Hf & Hci & Hcf). intros Hx.
  apply linked_keeps; try done. apply put_inside, put_inside_c.
Qed.

Lemma put_zlen : zlen (q_table q') = zlen (q_table q).
Proof. cbn [q' put_state q_table]. rewrite zlen_linked. apply zlen_upd. Qed.

Lemma put_base : base q' = base q.
Proof. unfold base. by rewrite put_zlen. Qed.

Lemma put_stored : Forall (stored q') (m :: a).
Proof.
  destruct put_c as [Hc Hn]. apply Forall_cons. split.
  - unfold stored. cbn [m num prio text]. destruct (put_ent' c) as [(-> & -> & ->) _]; [lia|].
    rewrite put_ent, decide_True by (done || lia). cbn [fill set_priority set_msglen set_offset priority msglen offset].
    rewrite put_base. pose proof (zlen_nonneg (q_data q)). split; [done|]. split; [done|].
    unfold filesize. split; [lia|]. cbn [q' put_state q_data]. rewrite <- (app_nil_r message) at 1.
    apply bread_mid; [lia|done].
  - pose proof (qi_stored _ _ Hq) as Hs. rewrite Forall_forall in Hs |- *. intros x Hx.
    apply (stored_frame q); [apply put_zlen| |by eexists|by apply Hs].
    apply elem_of_nums in Hx. pose proof (qi_range _ _ Hq _ Hx). destruct (put_ent' (num x)) as [Hs' _]; [lia|].
    rewrite put_ent, decide_False in Hs' by (lia || by intros E; rewrite <- E in Hx). done.
Qed.

Lemma put_dseg : dseg (q_table q') 0 (dq.nums (dq.insert m a)) 0.
Proof.
  destruct put_c as [Hc Hn]. pose proof put_links as Hl. pose proof (nodup_zero _ _ Hq) as Hnd.
  assert (c ∉ 0 :: dq.nums a) as Hc0 by (intros [?|?]%elem_of_cons; [lia|done]).
  assert (inside t c) by (apply put_inside, put_inside_c).
  assert (inside t 0) by (rewrite put_inside; eapply inside_inv; [done|lia]).
  assert (∀ x, x ∈ dq.nums a → inside t x) as Hin by (intros x Hx; rewrite put_inside; by eapply inside_num).
  by apply linked_insert.
Qed.

Lemma put_flag x : inside (q_table q') x →
  flag (ent (q_table q') x) = if decide (x ∈ dq.nums (dq.insert m a)) then 1 else 0.
Proof.
  intros Hx. assert (inside (q_table q) x) as Hx' by (unfold inside in *; by rewrite put_zlen in Hx).
  destruct (put_ent' x) as [_ ->]; [apply Hx|]. rewrite put_ent by apply Hx.
  assert (x ∈ dq.nums (dq.insert m a) ↔ x = c ∨ x ∈ dq.nums a) as Hiff.
  { rewrite (nums_perm _ _ (insert_perm m a)). apply elem_of_cons. }
  case_decide as Hcx; [rewrite decide_True by (apply Hiff; by left); done|].
  rewrite (qi_flag _ _ Hq) by done. repeat case_decide; naive_solver.
Qed.

Lemma put_inv : qinv q' (dq.insert m a).
Proof.
  destruct put_c as [Hc Hn]. pose proof (insert_perm m a) as Hp. pose proof (nums_perm _ _ Hp) as Hpn.
  split.
  - apply (qi_max _ _ Hq).
  - rewrite put_zlen. apply (qi_len _ _ Hq).
  - apply put_dseg.
  - rewrite Hpn. apply NoDup_cons. split; [done|apply Hq].
  - intros x Hx. rewrite Hpn in Hx. apply elem_of_cons in Hx as [->|Hx]; [done|by apply Hq].
  - apply put_flag.
  - cbn. rewrite (qi_live _ _ Hq). unfold zlen. rewrite Hp. simpl. lia.
  - eapply ends_perm; [symmetry; exact Hpn|]. apply ends_insert; [|apply Hq].
    intros E%fmap_nil_inv. cbn [m num]. unfold c. rewrite E. apply alloc_nil. rewrite E in Hlt. unfold zlen in Hlt. simpl in Hlt. lia.
  - rewrite Hp. apply put_stored.
Qed.
End put.

Lemma keeps_refl q : keeps q q.
Proof. done. Qed.

Lemma not_full q a : qinv q a → zlen a ≠ maxmsgs (q_head q) → zlen a < maxmsgs (q_head q).
Proof.
  intros Hq E. destruct (Z.lt_total (zlen a) (maxmsgs (q_head q))) as [?|[?|H]]; [done|done|]. exfalso.
  pose proof (submseteq_length (dq.nums a) (seqZ 1 (maxmsgs (q_head q)))) as Hl. rewrite length_seqZ in Hl.
  pose proof (zlen_nums a). unfold zlen in *. pose proof (qi_max _ _ Hq).
  assert (length (dq.nums a) ≤ Z.to_nat (maxmsgs (q_head q)))%nat; [|lia]. apply Hl.
  apply NoDup_submseteq; [apply Hq|]. intros x Hx%(qi_range _ _ Hq). apply elem_of_seqZ. lia.
Qed.

Lemma putmsg_ok q a message p : qinv q a → let r := dq.put (maxmsgs (q_head q)) message p a in
  ∃ q', putmsg_body IoOk message p q = Ok (r.1, q') ∧ qinv q' r.2 ∧ keeps q q'.
Proof.
  intros Hq. unfold dq.put. destruct (Z.eqb_spec (zlen a) (maxmsgs (q_head q))) as [E|E]; cbn [fst snd].
  - exists q. split; [|split; [done|apply keeps_refl]]. unfold putmsg_body, hget.
    rewrite bind_gets, (qi_live _ _ Hq), (proj2 (Z.eqb_eq _ _) E). done.
  - pose proof (not_full _ _ Hq E).
    eexists. split; [by apply putmsg_run|]. split; [by apply put_inv|done].
Qed.

(** ** [DTA_DELMSG] *)

Definition unlinked (n : Z) (t : list QueueTable) : list QueueTable :=
  upd n (set_flag 0) (upd (next t n) (set_fore (fore t n)) (upd (fore t n) (set_next (next t n)) t)).

Section unlinked.
Context (t : list QueueTable) (n : Z).
Context (Hn : inside t n) (Hnx : inside t (next t n)) (Hfo : inside t (fore t n)) (H1 : n ≠ next t n) (H2 : n ≠ fore t n).

Lemma zlen_unlinked : zlen (unlinked n t) = zlen t.
Proof. unfold unlinked. by rewrite !zlen_upd. Qed.

Lemma unlinked_ent x : 0 ≤ x → ent (unlinked n t) x =
  (if decide (n = x) then set_flag 0 else id)
    ((if decide (next t n = x) then set_fore (fore t n) else id)
      ((if decide (fore t n = x) then set_next (next t n) else id) (ent t x))).
Proof.
  intros Hx. unfold unlinked. generalize (next t n), (fore t n), Hnx, Hfo. intros p f Hp Hf.
  pose proof (proj1 Hn). pose proof (proj1 Hp). pose proof (proj1 Hf).
  rewrite !ent_upd by (rewrite ?inside_upd; done). repeat case_decide; subst; done.
Qed.

Lemma unlinked_next x : 0 ≤ x → next (unlinked n t) x = if decide (x = fore t n) then next t n else next t x.
Proof. intros Hx. unfold next at 1. rewrite unlinked_ent by done. repeat case_decide; subst; try done; congruence. Qed.

Lemma unlinked_fore x : 0 ≤ x → fore (unlinked n t) x = if decide (x = next t n) then fore t n else fore t x.
Proof. intros Hx. unfold fore at 1. rewrite unlinked_ent by done. repeat case_decide; subst; try done; congruence. Qed.

Lemma unlinked_same x : 0 ≤ x → same_msg (ent t x) (ent (unlinked n t) x) ∧
  flag (ent (unlinked n t) x) = if decide (x = n) then 0 else flag (ent t x).
Proof. intros Hx. rewrite unlinked_ent by done. repeat case_decide; subst; try done; congruence. Qed.

Lemma unlinked_dseg l1 l2 : NoDup (0 :: l1 ++ n :: l2) → (∀ x, x ∈ l1 ++ n :: l2 → 0 ≤ x) →
  dseg t 0 (l1 ++ n :: l2) 0 → dseg (unlinked n t) 0 (l1 ++ l2) 0.
Proof.
  intros Hnd Hpos Hs. apply dseg_app in Hs as [Ha Hb]. pose proof (dseg_head _ _ _ _ Hb) as Hh.
  assert (∃ y, last (0 :: l1) = Some y) as [y Hy] by (destruct (last (0 :: l1)) eqn:E; [eauto|by apply last_None in E]).
  destruct (dseg_last _ _ _ _ _ Hy Ha) as [_ Hl]. assert (y ∈ 0 :: l1) as Hyl by by apply last_Some_elem_of.
  assert (∀ x, x ∈ 0 :: l1 ++ n :: l2 → 0 ≤ x) as Hpos' by (intros x [->|Hx]%elem_of_cons; [done|by apply Hpos]).
  assert (∀ x, x ∈ 0 :: l1 → x ∈ 0 :: l1 ++ n :: l2) as Hin1 by set_solver.
  rewrite app_comm_cons in Hnd. apply NoDup_app in Hnd as (Hnd1 & Hdisj & Hnd2). apply NoDup_cons in Hnd2 as [Hn2 Hnd2].
  assert (∀ q', (q' = 0 ∨ q' ∈ l2) → next t n = q' → dseg (unlinked n t) 0 l1 q') as Hfirst.
  { intros q' Hq' Enx. eapply dseg_change_end; [exact Hy|exact Hnd1| | | | |exact Ha].
    - intros x Hx Hne. rewrite unlinked_next by by apply Hpos', Hin1. rewrite Hl. by rewrite decide_False.
    - intros x Hx. rewrite unlinked_fore by (apply Hpos', Hin1; by right). rewrite Enx. apply NoDup_cons in Hnd1 as [? _].
      rewrite decide_False; [done|]. intros ->. destruct Hq' as [->|Hq']; [done|].
      apply (Hdisj q'); [by right|by right].
    - rewrite unlinked_next by (apply Hpos', Hin1, Hyl). rewrite Hl. by rewrite decide_True.
    - rewrite unlinked_fore, Enx, Hl by (destruct Hq' as [->|?]; [done|apply Hpos; set_solver]). by rewrite decide_True. }
  destruct l2 as [|z l2]; simpl in Hh.
  - rewrite app_nil_r. apply Hfirst; [by left|done].
  - apply dseg_app. destruct Hb as (_ & Hb1 & Hb2). split; [apply Hfirst; [right; left|done]|].
    apply NoDup_cons in Hnd2 as [Hz Hnd2].
    eapply dseg_frame; [| |exact Hb2]; intros x Hx.
    + rewrite unlinked_next by (apply Hpos; set_solver). rewrite Hl, decide_False; [done|].
      intros ->. apply (Hdisj y); set_solver.
    + assert (0 ≤ x) by (apply elem_of_app in Hx as [?|?%list_elem_of_singleton]; [apply Hpos; set_solver|lia]).
      rewrite unlinked_fore by done. rewrite Hh, decide_False; [done|].
      intros ->. apply elem_of_app in Hx as [?|Hx%list_elem_of_singleton]; [done|]. apply (Hdisj 0); [left|rewrite <- Hx; set_solver].
Qed.
End unlinked.

(** ** The ends after a deletion *)

Lemma least_above (l : list Z) f y : y ∈ l → f < y → ∃ k : nat, f + 1 + Z.of_nat k ∈ l ∧ ∀ z, f < z < f + 1 + Z.of_nat k → z ∉ l.
Proof.
  intros Hy Hlt. remember (Z.to_nat (y - f - 1)) as d eqn:Hd. revert y Hy Hlt Hd.
  induction d as [d IH] using lt_wf_ind. intros y Hy Hlt Hd.
  destruct (decide (Exists (λ z, f < z < y) l)) as [(z & Hz & Hz2)%Exists_exists|Hno].
  - apply (IH (Z.to_nat (z - f - 1))) with z; [lia|done|lia|done].
  - exists d. replace (f + 1 + Z.of_nat d) with y by lia. split; [done|]. intros z Hz Hzl. apply Hno, Exists_exists. eauto.
Qed.

Lemma greatest_below (l : list Z) f y : y ∈ l → y < f → ∃ k : nat, f - 1 - Z.of_nat k ∈ l ∧ ∀ z, f - 1 - Z.of_nat k < z < f → z ∉ l.
Proof.
  intros Hy Hlt. destruct (least_above (Z.opp <$> l) (- f) (- y)) as (k & Hk & Hz); [|lia|].
  { apply list_elem_of_fmap. eauto. }
  apply list_elem_of_fmap in Hk as (x & Hx & Hxl). exists k. replace (f - 1 - Z.of_nat k) with x by lia. split; [done|].
  intros z Hz1 Hz2. apply (Hz (- z)); [lia|]. apply list_elem_of_fmap. eauto.
Qed.

(** The two loops, on a state [q] whose flags are set exactly on [l]. *)
Definition flags_on (l : list Z) (q : queue) : Prop :=
  ∀ i, inside (q_table q) i → flag (ent (q_table q) i) = if decide (i ∈ l) then 1 else 0.

Lemma next_first_eq q : inside (q_table q) (firstmsgn (q_head q) + 1) → next_first () q =
  Ok (if flag (ent (q_table q) (firstmsgn (q_head q) + 1)) =? 0 then inl () else inr (),
      set_head (set_firstmsgn (firstmsgn (q_head q) + 1)) q).
Proof.
  intros Hi. unfold next_first, hget, hmodify. rewrite bind_gets, bind_modify. by erewrite bind_ok by by apply tab_eq.
Qed.

Lemma next_first_loop l q k : flags_on l q → 0 ≤ firstmsgn (q_head q) < zlen (q_table q) →
  firstmsgn (q_head q) + 1 + Z.of_nat k ∈ l → inside (q_table q) (firstmsgn (q_head q) + 1 + Z.of_nat k) →
  (∀ z, firstmsgn (q_head q) < z < firstmsgn (q_head q) + 1 + Z.of_nat k → z ∉ l) →
  iter (S k) next_first () q = Ok ((), set_head (set_firstmsgn (firstmsgn (q_head q) + 1 + Z.of_nat k)) q).
Proof.
  revert q. induction k as [|k IH]; intros q Hf Hpos Hin Hins Hno; rewrite iter_S.
  - replace (firstmsgn (q_head q) + 1 + Z.of_nat 0) with (firstmsgn (q_head q) + 1) in * by lia.
    erewrite bind_ok by by apply next_first_eq. by rewrite Hf, decide_True.
  - assert (inside (q_table q) (firstmsgn (q_head q) + 1)) by (unfold inside in *; lia).
    erewrite bind_ok by by apply next_first_eq. rewrite Hf, decide_False by (done || apply Hno; lia).
    replace (firstmsgn (q_head q) + 1 + Z.of_nat (S k)) with (firstmsgn (q_head q) + 1 + 1 + Z.of_nat k) in * by lia.
    change (if 0 =? 0 then inl () else inr ()) with (inl () : () + ()). cbv iota.
    rewrite IH; [done|done|unfold inside in *; cbn; lia|done|done|]. intros z Hz. apply Hno. cbn in Hz. lia.
Qed.

Lemma next_last_eq q : inside (q_table q) (lastmsgn (q_head q) - 1) → next_last () q =
  Ok (if flag (ent (q_table q) (lastmsgn (q_head q) - 1)) =? 0 then inl () else inr (),
      set_head (set_lastmsgn (lastmsgn (q_head q) - 1)) q).
Proof.
  intros Hi. unfold next_last, hget, hmodify. rewrite bind_gets, bind_modify. by erewrite bind_ok by by apply tab_eq.
Qed.

Lemma next_last_loop l q k : flags_on l q → 0 ≤ lastmsgn (q_head q) < zlen (q_table q) →
  lastmsgn (q_head q) - 1 - Z.of_nat k ∈ l → inside (q_table q) (lastmsgn (q_head q) - 1 - Z.of_nat k) →
  (∀ z, lastmsgn (q_head q) - 1 - Z.of_nat k < z < lastmsgn (q_head q) → z ∉ l) →
  iter (S k) next_last () q = Ok ((), set_head (set_lastmsgn (lastmsgn (q_head q) - 1 - Z.of_nat k)) q).
Proof.
  revert q. induction k as [|k IH]; intros q Hf Hpos Hin Hins Hno; rewrite iter_S.
  - replace (lastmsgn (q_head q) - 1 - Z.of_nat 0) with (lastmsgn (q_head q) - 1) in * by lia.
    erewrite bind_ok by by apply next_last_eq. by rewrite Hf, decide_True.
  - assert (inside (q_table q) (lastmsgn (q_head q) - 1)) by (unfold inside in *; lia).
    erewrite bind_ok by by apply next_last_eq. rewrite Hf, decide_False by (done || apply Hno; lia).
    replace (lastmsgn (q_head q) - 1 - Z.of_nat (S k)) with (lastmsgn (q_head q) - 1 - 1 - Z.of_nat k) in * by lia.
    change (if 0 =? 0 then inl () else inr ()) with (inl () : () + ()). cbv iota.
    rewrite IH; [done|done|unfold inside in *; cbn; lia|done|done|]. intros z Hz. apply Hno. cbn in Hz. lia.
Qed.

Definition with_ends (f la : Z) (q : queue) : queue := set_head (λ h, set_lastmsgn la (set_firstmsgn f h)) q.

Lemma with_ends_id q : with_ends (firstmsgn (q_head q)) (lastmsgn (q_head q)) q = q.
Proof. by destruct q as [[] ? ? ? ? ?]. Qed.

Lemma reset_ends_eq q : reset_ends q = Ok ((), with_ends 1 0 q).
Proof. done. Qed.

Lemma enough_fuel {X} (body : X → qM (X + ())) (x : X) q r k : (k < length (q_table q))%nat →
  iter (S k) body x q = Ok r → iter (scan_fuel q) body x q = Ok r.
Proof.
  intros Hk H. unfold scan_fuel. replace (S (length (q_table q))) with (S k + (length (q_table q) - k))%nat by lia.
  by apply iter_more.
Qed.

Lemma first_step n h q l' : flags_on l' q → (∀ x, x ∈ n :: l' → 1 ≤ x ∧ inside (q_table q) x) →
  firstmsgn (q_head q) = firstmsgn h → lastmsgn (q_head q) = lastmsgn h → (∀ x, x ∈ l' → n ≠ x) →
  firstmsgn h ∈ n :: l' → (∀ x, x ∈ n :: l' → firstmsgn h ≤ x) → l' ≠ [] →
  ∃ f, when (n =? firstmsgn h) (iter (scan_fuel q) next_first ()) q = Ok ((), with_ends f (lastmsgn h) q) ∧
    f ∈ l' ∧ ∀ x, x ∈ l' → f ≤ x.
Proof.
  intros Hfl Hall Hf Hl Hne He1 He3 Hnil. destruct (Z.eqb_spec n (firstmsgn h)) as [->|Hn].
  - destruct l' as [|x0 l0]; [done|]. set (l' := x0 :: l0) in *.
    assert (∀ x, x ∈ l' → firstmsgn h < x) as Hgt.
    { intros x Hx. pose proof (He3 x ltac:(by right)). pose proof (Hne x Hx). lia. }
    destruct (least_above l' (firstmsgn h) x0) as (k & Hk & Hno); [left|apply Hgt; left|].
    destruct (Hall (firstmsgn h) ltac:(left)) as [Hp [_ Hi1]]. destruct (Hall _ ltac:(by right; exact Hk)) as [_ [_ Hi2]].
    exists (firstmsgn h + 1 + Z.of_nat k). split; [|split; [done|]].
    + cbn [when]. apply enough_fuel with (k := k); [unfold zlen in *; lia|].
      rewrite (next_first_loop l') by (rewrite ?Hf; first [done|unfold inside; lia]).
      rewrite Hf. unfold with_ends. rewrite <- Hl. by destruct q as [[] ? ? ? ? ?].
    + intros x Hx. pose proof (Hgt x Hx). destruct (decide (x < firstmsgn h + 1 + Z.of_nat k)); [|lia].
      exfalso. by apply (Hno x).
  - exists (firstmsgn h). split; [|split].
    + rewrite <- Hf, <- Hl. by rewrite with_ends_id.
    + by apply elem_of_cons in He1 as [?|?].
    + intros x Hx. apply He3. by right.
Qed.

Lemma last_step n h q l' : flags_on l' q → (∀ x, x ∈ n :: l' → 1 ≤ x ∧ inside (q_table q) x) →
  lastmsgn (q_head q) = lastmsgn h → (∀ x, x ∈ l' → n ≠ x) →
  lastmsgn h ∈ n :: l' → (∀ x, x ∈ n :: l' → x ≤ lastmsgn h) → l' ≠ [] →
  ∃ la, when (n =? lastmsgn h) (iter (scan_fuel q) next_last ()) q = Ok ((), with_ends (firstmsgn (q_head q)) la q) ∧
    la ∈ l' ∧ ∀ x, x ∈ l' → x ≤ la.
Proof.
  intros Hfl Hall Hl Hne He1 He3 Hnil. destruct (Z.eqb_spec n (lastmsgn h)) as [->|Hn].
  - destruct l' as [|x0 l0]; [done|]. set (l' := x0 :: l0) in *.
    assert (∀ x, x ∈ l' → x < lastmsgn h) as Hgt.
    { intros x Hx. pose proof (He3 x ltac:(by right)). pose proof (Hne x Hx). lia. }
    destruct (greatest_below l' (lastmsgn h) x0) as (k & Hk & Hno); [left|apply Hgt; left|].
    destruct (Hall (lastmsgn h) ltac:(left)) as [Hp [_ Hi1]]. destruct (Hall _ ltac:(by right; exact Hk)) as [Hp2 _].
    exists (lastmsgn h - 1 - Z.of_nat k). split; [|split; [done|]].
    + cbn [when]. apply enough_fuel with (k := k); [unfold zlen in *; lia|].
      rewrite (next_last_loop l') by (rewrite ?Hl; first [done|unfold inside; lia]).
      rewrite Hl. unfold with_ends. by destruct q as [[] ? ? ? ? ?].
    + intros x Hx. pose proof (Hgt x Hx). destruct (decide (lastmsgn h - 1 - Z.of_nat k < x)); [|lia].
      exfalso. by apply (Hno x).
  - exists (lastmsgn h). split; [|split].
    + rewrite <- Hl. by rewrite with_ends_id.
    + by apply elem_of_cons in He1 as [?|?].
    + intros x Hx. apply He3. by right.
Qed.

(** [l] are the numbers before the deletion of [n] and [l'] those after it. *)
Lemma adjust_ends_ok n h q l l' : l ≡ₚ n :: l' → NoDup l → flags_on l' q → (∀ x, x ∈ l → 1 ≤ x) → (∀ x, x ∈ l → inside (q_table q) x) →
  livmsgs h = zlen l → firstmsgn (q_head q) = firstmsgn h → lastmsgn (q_head q) = lastmsgn h →
  ends l (firstmsgn h) (lastmsgn h) →
  ∃ f la, adjust_ends n h q = Ok ((), with_ends f la q) ∧ ends l' f la.
Proof.
  intros Hp Hnd Hfl Hpos Hin Hliv Hf Hl He. apply (ends_perm _ _ _ _ Hp) in He. rewrite Hp in Hnd. apply NoDup_cons in Hnd as [Hn Hnd].
  assert (∀ x, x ∈ n :: l' → 1 ≤ x ∧ inside (q_table q) x) as Hall by (intros x; rewrite <- Hp; auto).
  destruct He as (He1 & He2 & He3). rewrite Forall_forall in He3.
  unfold adjust_ends, get, hget. erewrite bind_ok by done. cbn beta.
  assert (zlen l = 1 + zlen l') as Hz by (unfold zlen; rewrite Hp; simpl; lia).
  pose proof (He3 _ He1) as Hfl1.
  destruct l' as [|x0 l0].
  { rewrite (proj2 (Z.ltb_ge 0 _)) by (unfold zlen in *; simpl in *; lia). exists 1, 0. split; [|done].
    erewrite bind_ok by apply reset_ends_eq. rewrite bind_gets. by destruct q as [[] ? ? ? ? ?]. }
  set (l' := x0 :: l0) in *.
  rewrite (proj2 (Z.ltb_lt 0 _)) by (unfold zlen in *; simpl in *; lia).
  assert (∀ x, x ∈ l' → n ≠ x) as Hne by (intros x Hx ->; done).
  assert (∀ x, x ∈ l' → x ∈ n :: l') as Hsub by (intros; by right).
  destruct (first_step n h q l') as (f & E1 & F1 & F2); try done; [set_solver by lia..|].
  rewrite bind_assoc, (bind_ok _ _ _ _ _ E1).
  destruct (last_step n h (with_ends f (lastmsgn h) q) l') as (la & E2 & L1 & L2); try done; [set_solver by lia..|].
  rewrite (bind_ok _ _ _ _ _ E2), bind_gets. exists f, la. pose proof (F2 _ L1).
  split; [|split_and!; [done|done|]].
  - cbn. rewrite (proj2 (Z.ltb_ge la f)) by lia. done.
  - apply Forall_forall. intros x Hx. split; [by apply F2|by apply L2].
Qed.

Lemma nums_split q a n : qinv q a → n ∈ dq.nums a →
  ∃ l1 l2, dq.nums a = l1 ++ n :: l2 ∧ dq.nums (dq.remove n a) = l1 ++ l2.
Proof.
  intros Hq Hn. pose proof (qi_nodup _ _ Hq) as Hnd. clear Hq. unfold dq.remove, dq.nums in *.
  induction a as [|m a IH]; [by apply elem_of_nil in Hn|]. rewrite fmap_cons in *. apply NoDup_cons in Hnd as [Hm Hnd].
  rewrite filter_cons. case_decide as Hd.
  - rewrite fmap_cons. apply elem_of_cons in Hn as [?|Hn]; [done|]. destruct IH as (l1 & l2 & -> & ->); [done|done|].
    by exists (num m :: l1), l2.
  - subst n. exists [], (num <$> a). split; [done|]. rewrite filter_all; [done|].
    apply Forall_forall. intros x Hx E. apply Hm, list_elem_of_fmap. eauto.
Qed.

Section del.
Context (q : queue) (a : dq.aqueue) (Hq : qinv q a) (n : Z) (Hn : n ∈ dq.nums a).
Let t := q_table q.
Let t' := unlinked n t.
Let a' := dq.remove n a.

Lemma del_nums : dq.nums a ≡ₚ n :: dq.nums a'.
Proof. destruct (nums_split _ _ _ Hq Hn) as (l1 & l2 & -> & E). unfold a'. rewrite E. by rewrite Permutation_middle. Qed.

Lemma del_edges : inside t n ∧ inside t (next t n) ∧ inside t (fore t n) ∧ n ≠ next t n ∧ n ≠ fore t n.
Proof.
  assert (∀ x, x ∈ 0 :: dq.nums a → inside t x) as Hin.
  { intros x [->|Hx]%elem_of_cons; [|by eapply inside_num]. pose proof (qi_max _ _ Hq). eapply inside_inv; [done|lia]. }
  pose proof (qi_links _ _ Hq) as Hl. pose proof (nodup_zero _ _ Hq) as Hnd.
  destruct (nums_split _ _ _ Hq Hn) as (l1 & l2 & E & _). fold t in Hl. rewrite E in Hl, Hnd, Hin.
  apply dseg_app in Hl as [Ha Hb]. rewrite (dseg_head _ _ _ _ Hb).
  destruct (last (0 :: l1)) as [y|] eqn:Hy; [|by apply last_None in Hy].
  destruct (dseg_last _ _ _ _ _ Hy Ha) as [_ ->]. apply last_Some_elem_of in Hy.
  rewrite app_comm_cons in Hnd. apply NoDup_app in Hnd as (_ & Hdisj & Hnd2). apply NoDup_cons in Hnd2 as [Hn2 _].
  assert (n ∉ 0 :: l1) as Hn1 by (intros H; apply (Hdisj n H); left).
  split_and!.
  - apply Hin. set_solver.
  - apply Hin. destruct l2; simpl; set_solver.
  - apply Hin. set_solver.
  - destruct l2; simpl; [set_solver|]. intros ->. apply Hn2. left.
  - intros ->. done.
Qed.

Lemma del_flags : ∀ i, inside t' i → flag (ent t' i) = if decide (i ∈ dq.nums a') then 1 else 0.
Proof.
  intros i Hi. destruct del_edges as (H1 & H2 & H3 & H4 & H5).
  assert (inside t i) as Hi' by (unfold inside, t' in *; by rewrite zlen_unlinked in Hi).
  destruct (unlinked_same t n) with i as [_ Hf]; [done..|apply Hi'|]. unfold t'. rewrite Hf. unfold t. rewrite (qi_flag _ _ Hq) by done.
  pose proof (qi_nodup _ _ Hq) as Hnd. rewrite del_nums in Hnd. apply NoDup_cons in Hnd as [Hn' _].
  assert (i ∈ dq.nums a ↔ i = n ∨ i ∈ dq.nums a') as Hiff by (rewrite del_nums; apply elem_of_cons).
  repeat case_decide; naive_solver.
Qed.

Lemma unlink_run : ∀ B (k : QueueTable → qM B),
  (_ ← tmodify (fore t n) (set_next (next t n)); e ← tab n; _ ← tmodify (nextprioidx e) (set_fore (foreprioidx e));
   _ ← tmodify n (set_flag 0); k e) q = k (ent (upd (fore t n) (set_next (next t n)) t) n) (set_table t' q).
Proof.
  intros B k. destruct del_edges as (H1 & H2 & H3 & H4 & H5). pose proof (proj1 H1).
  erewrite bind_ok by by apply tmodify_eq. fold t. erewrite bind_ok by (apply tab_set; by apply inside_upd).
  rewrite ent_upd, decide_False by done. fold (next t n) (fore t n).
  erewrite bind_ok by (apply tmodify_set; by apply inside_upd).
  erewrite bind_ok by (apply tmodify_set; by rewrite !inside_upd). done.
Qed.

Lemma delmsg_live : ∃ q', delmsg_body n q = Ok (0, q') ∧ qinv q' a' ∧ keeps q q'.
Proof.
  destruct del_edges as (H1 & H2 & H3 & H4 & H5). pose proof del_nums as Hp.
  unfold delmsg_body, hget, hmodify. erewrite bind_ok by by apply tab_eq. rewrite (qi_flag _ _ Hq), decide_True by done.
  change (1 =? 0) with false. cbv iota. fold (fore t n) (next t n). rewrite unlink_run, bind_gets, bind_modify.
  set (q1 := set_head _ _). cbn [set_table q_head].
  assert (∀ x, x ∈ dq.nums a → inside (q_table q1) x) as Hin.
  { intros x Hx. cbn. unfold t'. unfold inside. rewrite zlen_unlinked. by eapply inside_num. }
  destruct (adjust_ends_ok n (q_head q) q1 (dq.nums a) (dq.nums a')) as (f & la & E & He); try done; [apply Hq|exact del_flags|..|apply Hq|].

  - intros x Hx. by apply (qi_range _ _ Hq).
  - rewrite zlen_nums. apply Hq.
  - rewrite (bind_ok _ _ _ _ _ E). eexists. split; [done|]. split; [|done].
    destruct (nums_split _ _ _ Hq Hn) as (l1 & l2 & El & El'). fold a' in El'.
    pose proof (qi_nodup _ _ Hq) as Hnd. rewrite Hp in Hnd. apply NoDup_cons in Hnd as [Hn' Hnd].
    assert (zlen t' = zlen t) as Hlen by apply zlen_unlinked.
    split; try done; cbn.
    + apply Hq.
    + rewrite Hlen. apply Hq.
    + rewrite El'. apply unlinked_dseg; try done; rewrite <- El; [by eapply nodup_zero| |apply Hq].
      intros x Hx. pose proof (qi_range _ _ Hq x Hx). lia.
    + intros x Hx. apply (qi_range _ _ Hq). rewrite Hp. by right.
    + exact del_flags.
    + pose proof (zlen_nums a). pose proof (zlen_nums a'). rewrite (qi_live _ _ Hq). unfold zlen in *. rewrite Hp in H. simpl in H. lia.
    + pose proof (qi_stored _ _ Hq) as Hs. rewrite Forall_forall in Hs |- *. intros m Hm.
      apply list_elem_of_filter in Hm as [_ Hm]. apply (stored_frame q); [done| |done|by apply Hs].
      cbn. apply unlinked_same; try done. pose proof (qi_range _ _ Hq (num m) (elem_of_nums _ _ Hm)). lia.
Qed.
End del.

Lemma delmsg_ok q a n : qinv q a → inside (q_table q) n → let r := dq.del n a in
  ∃ q', delmsg_body n q = Ok (r.1, q') ∧ qinv q' r.2 ∧ keeps q q'.
Proof.
  intros Hq Hi. unfold dq.del. case_decide as Hn; cbn [fst snd]; [by apply delmsg_live|].
  exists q. split; [|done]. unfold delmsg_body. erewrite bind_ok by by apply tab_eq.
  by rewrite (qi_flag _ _ Hq), decide_False by done.
Qed.

(** ** [DTA_EMPTYQ] *)

Lemma clear_entries_ok n i q : 0 ≤ i → i + Z.of_nat n ≤ zlen (q_table q) → ∃ t, clear_entries n i q = Ok ((), set_table t q) ∧
  zlen t = zlen (q_table q) ∧ ∀ j, 0 ≤ j → ent t j = if decide (i ≤ j < i + Z.of_nat n) then blank_entry 0 else ent (q_table q) j.
Proof.
  revert i q. induction n as [|n IH]; intros i q Hi Hle; simpl.
  - exists (q_table q). split; [by destruct q|]. split; [done|]. intros j Hj. rewrite decide_False by lia. done.
  - assert (inside (q_table q) i) as Hin by (unfold inside; lia). erewrite bind_ok by by apply tmodify_eq.
    destruct (IH (i + 1) (set_table (upd i (λ _, blank_entry 0) (q_table q)) q)) as (t & E & Hl & Ht);
      [lia|cbn; rewrite zlen_upd; lia|].
    exists t. rewrite E. split; [done|]. cbn in Hl. rewrite zlen_upd in Hl. split; [done|].
    intros j Hj. rewrite Ht by done. cbn [set_table q_table]. rewrite ent_upd by done. repeat case_decide; try done; lia.
Qed.

Lemma emptyq_ok q a ok : qinv q a → ∃ q', emptyq_body ok q = Ok (if ok then 0 else DTARC_FILETRUNCATE_ERROR, q') ∧
  qinv q' [] ∧ keeps q q' ∧ (ok = true → q_data q' = []).
Proof.
  intros Hq. pose proof (qi_max _ _ Hq) as Hm. pose proof (qi_len _ _ Hq) as Hl.
  unfold emptyq_body, hmodify, hget. rewrite !bind_modify, bind_gets. cbn [set_head q_head maxmsgs set_lastmsgn set_firstmsgn set_livmsgs].
  set (q1 := set_head _ _). set (b := SIZEOF_QueueHead + _).
  assert (inside (q_table q1) 0) as H0 by (apply (inside_inv q a); [done|lia]).
  erewrite bind_ok by by apply tmodify_eq. set (q2 := set_table _ _).
  destruct (clear_entries_ok (Z.to_nat (maxmsgs (q_head q))) 1 q2) as (t & E & Hlt & Ht); [lia|cbn; rewrite zlen_upd; lia|].
  rewrite (bind_ok _ _ _ _ _ E). cbn [q2 set_table q_table] in Hlt. rewrite zlen_upd in Hlt.
  assert (ent t 0 = blank_entry b) as Et0.
  { rewrite Ht, decide_False by lia. cbn [q2 set_table q_table]. rewrite ent_upd by done. by rewrite decide_True. }
  assert (∀ d, qinv (Queue (MkHead (maxmsgs (q_head q)) 0 1 0) t d (sem_r q) (sem_w q) (sem_m q)) []) as Hinv.
  { intros d. split; try done; cbn; [by rewrite Hlt| |constructor|by intros ? ?%elem_of_nil|].
    - unfold next, fore. by rewrite Et0.
    - intros i [Hi1 Hi2]. destruct (decide (i = 0)) as [->|]; [by rewrite Et0|].
      rewrite Hlt in Hi2. cbn in Hi2. rewrite Ht, decide_True by lia. done. }
  destruct ok; cbn [negb].
  - erewrite bind_ok by (apply tab_set; unfold inside in *; lia). unfold get. erewrite bind_ok by done. cbn beta.
    rewrite bind_modify. eexists. split; [done|]. split; [apply Hinv|]. split; [done|]. intros _. rewrite Et0.
    cbn [set_data q_data blank_entry offset]. replace (b - _) with 0; [done|].
    unfold base, b. cbn [set_table q_table]. rewrite Hlt. cbn. rewrite Hl. lia.
  - eexists. split; [done|]. split; [apply Hinv|]. done.
Qed.

(** ** [DTA_GETMSG] *)

Lemma after_elem c a m : dq.after c a = Some m → m ∈ a.
Proof.
  induction a as [|x a IH]; [done|]. simpl. case_match; [|intros H'; right; by apply IH].
  destruct a; [done|]. intros [= ->]. right. left.
Qed.

Lemma dseg_after t p a c : NoDup (dq.nums a) → c ∈ dq.nums a → dseg t p (dq.nums a) 0 →
  next t c = default 0 (num <$> dq.after c a).
Proof.
  revert p. induction a as [|m a IH]; intros p Hnd Hc Hs; [by apply elem_of_nil in Hc|].
  change (dq.nums (m :: a)) with (num m :: dq.nums a) in *. destruct Hs as (_ & _ & Hs). apply NoDup_cons in Hnd as [Hm Hnd].
  simpl. destruct (Z.eqb_spec (num m) c) as [<-|Hne].
  - rewrite (dseg_head _ _ _ _ Hs). unfold dq.nums. by destruct a.
  - apply (IH (num m)); [done| |done]. by apply elem_of_cons in Hc as [->|?].
Qed.

Lemma next_number_spec c a : match dq.next_number c a with
  | Some m => m ∈ a ∧ c < num m ∧ ∀ x, x ∈ dq.nums a → c < x → num m ≤ x
  | None => ∀ x, x ∈ dq.nums a → x ≤ c end.
Proof.
  induction a as [|m a IH]; simpl; [by intros x Hx%elem_of_nil|]. change (dq.nums (m :: a)) with (num m :: dq.nums a).
  destruct (dq.next_number c a) as [m'|].
  - destruct IH as (H1 & H2 & H3). destruct (Z.ltb_spec c (num m)), (Z.ltb_spec (num m) (num m')); simpl;
      (split; [by (left || right)|split; [done|]]); intros x [->|Hx]%elem_of_cons Hlt; try lia; specialize (H3 x Hx); lia.
  - destruct (Z.ltb_spec c (num m)).
    + split; [left|]. split; [done|]. intros x [->|Hx]%elem_of_cons Hlt; [lia|]. specialize (IH x Hx). lia.
    + intros x [->|Hx]%elem_of_cons; [done|by apply IH].
Qed.

Section get.
Context (q : queue) (a : dq.aqueue) (Hq : qinv q a).
Let la := lastmsgn (q_head q).

Lemma last_bound x : x ∈ dq.nums a → firstmsgn (q_head q) ≤ x ≤ la.
Proof.
  intros Hx. pose proof (qi_ends _ _ Hq) as He. unfold ends in He. destruct (dq.nums a) eqn:E; [by apply elem_of_nil in Hx|].
  rewrite <- E in *. destruct He as (_ & _ & He). rewrite Forall_forall in He. by apply He.
Qed.

Lemma last_inside : a ≠ [] → firstmsgn (q_head q) ∈ dq.nums a ∧ la ∈ dq.nums a.
Proof. intros Hne. pose proof (qi_ends _ _ Hq) as He. unfold ends in He. destruct a; [done|]. simpl in He. tauto. Qed.

Lemma order_body_eq x : 1 ≤ x → order_body la x q =
  Ok (if la <? x + 1 then inr None else if bool_decide (x + 1 ∈ dq.nums a) then inr (Some (x + 1)) else inl (x + 1), q).
Proof.
  intros Hx. unfold order_body. rewrite (proj2 (Z.eqb_neq x 0)) by lia. destruct (Z.ltb_spec la (x + 1)); [done|].
  assert (inside (q_table q) (x + 1)) as Hi.
  { eapply inside_inv; [done|]. destruct (decide (a = [])) as [Ha|Ha].
    - pose proof (qi_ends _ _ Hq) as He. rewrite Ha in He. destruct He as [_ He]. fold la in He. lia.
    - pose proof (qi_range _ _ Hq la (proj2 (last_inside Ha))). lia. }
  erewrite bind_ok by by apply tab_eq. rewrite (qi_flag _ _ Hq) by done.
  case_decide; [rewrite bool_decide_true by done|rewrite bool_decide_false by done]; done.
Qed.

Lemma order_loop k x : 1 ≤ x → la - x < Z.of_nat k → iter (S k) (order_body la) x q = Ok (num <$> dq.next_number x a, q).
Proof.
  revert x. induction k as [|k IH]; intros x Hx Hk; rewrite iter_S; (erewrite bind_ok by by apply order_body_eq);
    pose proof (next_number_spec x a) as Hs.
  - rewrite (proj2 (Z.ltb_lt la (x + 1))) by lia. destruct (dq.next_number x a) as [m|]; [|done].
    destruct Hs as (Hm & Hlt & _). pose proof (last_bound _ (elem_of_nums _ _ Hm)). lia.
  - destruct (Z.ltb_spec la (x + 1)) as [Hl|Hl].
    { destruct (dq.next_number x a) as [m|]; [|done]. destruct Hs as (Hm & Hlt & _).
      pose proof (last_bound _ (elem_of_nums _ _ Hm)). lia. }
    case_bool_decide as Hin.
    + destruct (dq.next_number x a) as [m|]; [|specialize (Hs _ Hin); lia]. destruct Hs as (_ & Hlt & Hle).
      specialize (Hle _ Hin ltac:(lia)). simpl. by replace (num m) with (x + 1) by lia.
    + rewrite IH by lia. do 2 f_equal. pose proof (next_number_spec (x + 1) a) as Hs'.
      destruct (dq.next_number x a) as [m|], (dq.next_number (x + 1) a) as [m'|]; simpl; try done.
      * destruct Hs as (H1 & H2 & H3), Hs' as (H1' & H2' & H3'). f_equal.
        assert (num m ≠ x + 1) by (intros E; apply Hin; rewrite <- E; by apply elem_of_nums).
        pose proof (H3' _ (elem_of_nums _ _ H1)). pose proof (H3 _ (elem_of_nums _ _ H1')). lia.
      * destruct Hs as (H1 & H2 & _). pose proof (Hs' _ (elem_of_nums _ _ H1)).
        assert (num m = x + 1) as E by lia. destruct Hin. rewrite <- E. by apply elem_of_nums.
      * destruct Hs' as (H1 & H2 & _). pose proof (Hs _ (elem_of_nums _ _ H1)). lia.
Qed.

(** What a read selects. *)
Definition chosen (c mode : Z) : option amsg :=
  if has_flag mode DTAGMO_READBYPRIORITY then dq.next_in_list c a else dq.next_number c a.
Definition moved (c mode : Z) : Z :=
  if has_flag mode DTAGMO_READBYPRIORITY && negb (bool_decide (c ∈ dq.nums a)) then 0 else c.

Lemma next_in_list_dead c : c ∉ dq.nums a → dq.next_in_list c a = head a.
Proof. intros H. unfold dq.next_in_list. by rewrite decide_False. Qed.

Lemma select_ok c mode : a ≠ [] → inside (q_table q) c →
  select c mode q = Ok ((num <$> chosen (moved c mode) mode, moved c mode), q).
Proof.
  intros Hne Hc. unfold select, hget, moved, chosen. rewrite bind_gets. destruct (has_flag mode DTAGMO_READBYPRIORITY); cbn [andb].
  - erewrite bind_ok by by apply tab_eq. rewrite (qi_flag _ _ Hq) by done.
    pose proof (zero_not_num _ _ Hq) as Hz. case_decide as Hd.
    + rewrite bool_decide_true by done. cbn -[tab]. erewrite bind_ok by by apply tab_eq. fold (next (q_table q) c).
      rewrite (dseg_after _ _ _ _ (qi_nodup _ _ Hq) Hd (qi_links _ _ Hq)).
      unfold dq.next_in_list. rewrite decide_True by done. destruct (dq.after c a) as [m|] eqn:E; simpl; [|done].
      apply after_elem, elem_of_nums in E. rewrite (proj2 (Z.eqb_neq _ 0)); [done|]. intros E'. by rewrite E' in E.
    + rewrite bool_decide_false by done. cbn -[tab]. erewrite bind_ok by (apply tab_eq; eapply inside_inv; [done|]; pose proof (qi_max _ _ Hq); lia).
      fold (next (q_table q) 0). rewrite (dseg_head _ _ _ _ (qi_links _ _ Hq)). rewrite next_in_list_dead by done.
      destruct a as [|m a'] eqn:E; [done|]. simpl. rewrite (proj2 (Z.eqb_neq _ 0)); [done|]. intros E'. apply Hz. rewrite <- E'. left.
  - unfold get. erewrite bind_ok by done. cbn beta. destruct (last_inside Hne) as [Hf Hl].
    pose proof (qi_range _ _ Hq _ Hf). pose proof (qi_range _ _ Hq _ Hl). pose proof (qi_len _ _ Hq) as Hlen. unfold zlen in Hlen.
    assert (∀ x, 1 ≤ x → iter (scan_fuel q) (order_body la) x q = Ok (num <$> dq.next_number x a, q)) as Hloop.
    { intros x Hx. unfold scan_fuel. apply order_loop; lia. }
    destruct (Z.eqb_spec c 0) as [->|Hc0].
    + assert (iter (scan_fuel q) (order_body la) (firstmsgn (q_head q) - 1) q = Ok (Some (firstmsgn (q_head q)), q)) as Hit.
      { destruct (decide (firstmsgn (q_head q) = 1)) as [->|Hne1].
        - done.
        - unfold scan_fuel. rewrite iter_S. erewrite bind_ok by (apply order_body_eq; lia).
          pose proof (last_bound _ Hl). rewrite (proj2 (Z.ltb_ge la (firstmsgn (q_head q) - 1 + 1))) by lia.
          replace (firstmsgn (q_head q) - 1 + 1) with (firstmsgn (q_head q)) by lia. by rewrite bool_decide_true. }
      erewrite bind_ok by exact Hit.
      assert (num <$> dq.next_number 0 a = Some (firstmsgn (q_head q))) as ->; [|done]. pose proof (next_number_spec 0 a) as Hs.
      destruct (dq.next_number 0 a) as [m|]; simpl; [|specialize (Hs _ Hf); lia]. destruct Hs as (H1 & H2 & H3).
      specialize (H3 _ Hf ltac:(lia)). pose proof (last_bound _ (elem_of_nums _ _ H1)). f_equal. lia.
    + destruct Hc as [Hc _]. erewrite bind_ok by (apply Hloop; lia). done.
Qed.

Lemma chosen_elem c mode m : chosen c mode = Some m → m ∈ a.
Proof.
  unfold chosen, dq.next_in_list. destruct (has_flag mode _).
  - case_decide; [apply after_elem|]. destruct a; [done|]. intros [= ->]. left.
  - intros E. pose proof (next_number_spec c a) as Hs. rewrite E in Hs. apply Hs.
Qed.

Lemma read_msg_ok m : m ∈ a → read_msg (ent (q_table q) (num m)) q = Ok (inr (text m), q).
Proof.
  intros Hm. pose proof (qi_stored _ _ Hq) as Hs. rewrite Forall_forall in Hs. destruct (Hs _ Hm) as (_ & H2 & H3 & H4).
  unfold read_msg, get. erewrite bind_ok by done. cbn beta. pose proof (base_pos q).
  set (e := ent _ _) in *. rewrite (proj2 (Z.ltb_ge (offset e) 0)), (proj2 (Z.ltb_ge (offset e) (base q))) by lia.
  rewrite H4, H2, Z.eqb_refl. done.
Qed.
End get.

(** ** The read section and the whole functions *)

(** What a successful selection of [m] gives. *)
Definition got_of (f : amsg → list Z) (mode c : Z) (m : amsg) : got * Z :=
  (Got (num m) (if has_flag mode DTAGMO_JUSTINQUIRE then None else Some (f m)) (zlen (text m)) (prio m),
   if negb (has_flag mode DTAGMO_DELETEAFTERREAD) && has_flag mode DTAGMO_SKIPWHILEREAD then num m else c).

(** [f] are the bytes the stream delivers for a message. *)
Definition read_section (f : amsg → list Z) (cursor mode : Z) (a : dq.aqueue) : got * Z :=
  if decide (a = []) then (GotErr DTARC_QUEUE_EMPTY, cursor) else
  let c := moved a (if has_flag mode DTAGMO_RESETCURSOR then 0 else cursor) mode in
  match chosen a c mode with
  | None => (GotErr DTARC_QUEUE_END, c)
  | Some m => got_of f mode c m
  end.
Definition get_section : Z → Z → dq.aqueue → got * Z := read_section text.

Lemma getmsg_with_ok {B} rd (b : B) f g q a cursor mode : qinv q a → inside (q_table q) cursor →
  (∀ m, m ∈ a → rd (ent (q_table q) (num m)) q = Ok ((inr (f m), g m), q)) →
  ∃ b', getmsg_with rd b cursor mode q = Ok ((read_section f cursor mode a, b'), q) ∧ (b' = b ∨ ∃ m, m ∈ a ∧ b' = g m).
Proof.
  intros Hq Hc Hrd. unfold getmsg_with, read_section, hget. rewrite bind_gets, (qi_live _ _ Hq).
  destruct (decide (a = [])) as [->|Hne]; [by exists b; split; [|left]|].
  rewrite (proj2 (Z.eqb_neq (zlen a) 0)) by (destruct a; [done|unfold zlen; simpl; lia]).
  assert (inside (q_table q) (if has_flag mode DTAGMO_RESETCURSOR then 0 else cursor)) as Hc'.
  { destruct (has_flag mode DTAGMO_RESETCURSOR); [|done]. eapply inside_inv; [done|]. pose proof (qi_max _ _ Hq). lia. }
  erewrite bind_ok by by apply (select_ok q a Hq). cbv beta iota.
  destruct (chosen a _ mode) as [m|] eqn:E; simpl; [|by exists b; split; [|left]].
  assert (m ∈ a) as Hm by by eapply chosen_elem.
  erewrite bind_ok by (apply tab_eq; eapply inside_num; [done|by apply elem_of_nums]).
  pose proof (qi_stored _ _ Hq) as Hs. rewrite Forall_forall in Hs. destruct (Hs _ Hm) as (-> & -> & _ & _).
  unfold got_of. destruct (has_flag mode DTAGMO_JUSTINQUIRE); [by exists b; split; [|left]|].
  exists (g m). split; [|right; by exists m]. rewrite bind_assoc. by erewrite bind_ok by by apply Hrd.
Qed.

Lemma getmsg_body_ok q a cursor mode : qinv q a → inside (q_table q) cursor →
  getmsg_body cursor mode q = Ok (get_section cursor mode a, q).
Proof.
  intros Hq Hc. destruct (getmsg_with_ok (λ e, r ← read_msg e; mret (r, ())) () text (λ _, ()) q a cursor mode Hq Hc) as (b & E & _).
  { intros m Hm. by erewrite bind_ok by by eapply read_msg_ok. }
  unfold getmsg_body. rewrite (bind_ok _ _ _ _ _ E). unfold get_section. by destruct (read_section _ _ _ _).
Qed.

Lemma setwlock_ok q : idle q → setwlock q = Ok ((), set_sems 0 1 (sem_m q) q).
Proof. intros [H1 H2]. unfold setwlock, get. erewrite bind_ok by done. cbn beta. by rewrite H1, H2. Qed.
Lemma setrlock_ok q : idle q → setrlock q = Ok ((), set_sems 1 0 (sem_m q) q).
Proof. intros [H1 H2]. unfold setrlock, get. erewrite bind_ok by done. cbn beta. by rewrite H1, H2. Qed.

(** The invariant does not depend on the semaphores. *)
Lemma qinv_sems q a r w m : qinv q a → qinv (set_sems r w m q) a.
Proof. intros [H1 H2 H3 H4 H5 H6 H7 H8 H9]. by split. Qed.

(** A body run under the lock on an idle queue leaves it idle. *)
Definition same_m (q q' : queue) : Prop := maxmsgs (q_head q') = maxmsgs (q_head q) ∧ idle q' ∧ sem_m q' = sem_m q.

Lemma with_wlock_ok {A} (body : qM A) q a x a' : qinv q a → idle q →
  (∀ q1, qinv q1 a → maxmsgs (q_head q1) = maxmsgs (q_head q) → zlen (q_table q1) = zlen (q_table q) →
    ∃ q2, body q1 = Ok (x, q2) ∧ qinv q2 a' ∧ keeps q1 q2) →
  ∃ q', with_wlock body q = Ok (x, q') ∧ qinv q' a' ∧ same_m q q'.
Proof.
  intros Hq Hi Hb. unfold with_wlock. erewrite bind_ok by by apply setwlock_ok.
  destruct (Hb (set_sems 0 1 (sem_m q) q)) as (q2 & E & Hq2 & [K1 K2 K3 K4]); [by apply qinv_sems|done|done|].
  rewrite (bind_ok _ _ _ _ _ E). unfold freewlock, get. rewrite bind_assoc. erewrite bind_ok by done. cbn beta.
  rewrite K3. cbn. eexists. split; [done|]. split; [by apply qinv_sems|]. cbn in *. split; [done|]. unfold idle. cbn. rewrite K2, K4. done.
Qed.

Lemma with_rlock_ok {A} (body : qM A) q a x : qinv q a → idle q →
  (∀ q1, qinv q1 a → zlen (q_table q1) = zlen (q_table q) → body q1 = Ok (x, q1)) →
  ∃ q', with_rlock body q = Ok (x, q') ∧ qinv q' a ∧ same_m q q' ∧ zlen (q_table q') = zlen (q_table q).
Proof.
  intros Hq Hi Hb. unfold with_rlock. erewrite bind_ok by by apply setrlock_ok.
  rewrite (bind_ok _ _ _ _ _ (Hb _ (qinv_sems _ _ 1 0 (sem_m q) Hq) eq_refl)).
  unfold freerlock, get. rewrite bind_assoc. erewrite bind_ok by done. cbn beta. cbn.
  eexists. split; [done|]. split; [by do 2 apply qinv_sems|]. done.
Qed.

Lemma DTA_PUTMSG_ok q a message p : qinv q a → idle q → let r := dq.put (maxmsgs (q_head q)) message p a in
  ∃ q', DTA_PUTMSG IoOk message p q = Ok (r.1, q') ∧ qinv q' r.2 ∧ same_m q q'.
Proof.
  intros Hq Hi r. apply with_wlock_ok with (a := a); try done. intros q1 Hq1 Hm _. unfold r. rewrite <- Hm. by apply putmsg_ok.
Qed.

Lemma DTA_DELMSG_ok q a n : qinv q a → idle q → inside (q_table q) n → let r := dq.del n a in
  ∃ q', DTA_DELMSG n q = Ok (r.1, q') ∧ qinv q' r.2 ∧ same_m q q'.
Proof.
  intros Hq Hi Hn r. apply with_wlock_ok with (a := a); try done. intros q1 Hq1 _ Hl. apply delmsg_ok; [done|].
  unfold inside. by rewrite Hl.
Qed.

Lemma DTA_EMPTYQ_ok q a ok : qinv q a → idle q →
  ∃ q', DTA_EMPTYQ ok q = Ok (if ok then 0 else DTARC_FILETRUNCATE_ERROR, q') ∧ qinv q' [] ∧ same_m q q'.
Proof.
  intros Hq Hi. apply with_wlock_ok with (a := a); try done. intros q1 Hq1 _ _.
  destruct (emptyq_ok q1 a ok Hq1) as (q2 & ? & ? & ? & _). eauto.
Qed.

Lemma DTA_CLEANQ_ok q a : qinv q a → idle q → ∃ q', DTA_CLEANQ true q = Ok (0, q') ∧ qinv q' a ∧ same_m q q'.
Proof.
  intros Hq Hi. unfold DTA_CLEANQ.
  destruct (with_wlock_ok (h ← hget; mret (livmsgs h)) q a (zlen a) a Hq Hi) as (q1 & E & Hq1 & Hs1).
  { intros q1 Hq1 _ _. exists q1. unfold hget. rewrite bind_gets, (qi_live _ _ Hq1). done. }
  rewrite (bind_ok _ _ _ _ _ E). destruct Hs1 as (M1 & I1 & S1). destruct a as [|m a]; [|by exists q1].
  destruct (DTA_EMPTYQ_ok q1 [] true Hq1 I1) as (q2 & E2 & Hq2 & (M2 & I2 & S2)).
  change (zlen [] =? 0) with true. cbv iota. rewrite (bind_ok _ _ _ _ _ E2). exists q2. split; [done|]. split; [done|].
  unfold same_m. rewrite M2, S2. done.
Qed.

Lemma DTA_GETMSG_ok q a cursor mode : qinv q a → idle q → inside (q_table q) cursor → let r := dq.get cursor mode a in
  ∃ q', DTA_GETMSG cursor mode q = Ok (r.1, q') ∧ qinv q' r.2 ∧ same_m q q'.
Proof.
  intros Hq Hi Hc. unfold DTA_GETMSG.
  destruct (with_rlock_ok (getmsg_body cursor mode) q a (get_section cursor mode a) Hq Hi) as (q1 & E & Hq1 & Hs1 & Hl1).
  { intros q1 Hq1 Hl. apply getmsg_body_ok; [done|]. unfold inside. by rewrite Hl. }
  rewrite (bind_ok _ _ _ _ _ E). unfold get_section, read_section, dq.get. destruct (decide (a = [])) as [->|Hne]; [by exists q1|].
  set (c0 := if has_flag mode DTAGMO_RESETCURSOR then 0 else cursor).
  destruct a as [|m0 a0]; [done|]. set (a := m0 :: a0) in *. cbv zeta.
  fold (moved a c0 mode). fold (chosen a (moved a c0 mode) mode).
  destruct (chosen a (moved a c0 mode) mode) as [m|] eqn:Em; [|by exists q1].
  assert (m ∈ a) as Hm by by eapply chosen_elem. unfold got_of.
  destruct (has_flag mode DTAGMO_DELETEAFTERREAD) eqn:Ed; cbn [negb andb]; [|by exists q1].
  destruct Hs1 as (M1 & I1 & S1).
  destruct (DTA_DELMSG_ok q1 a (num m) Hq1 I1) as (q2 & E2 & Hq2 & (M2 & I2 & S2)); [eapply inside_num; [done|by apply elem_of_nums]|].
  rewrite (bind_ok _ _ _ _ _ E2). unfold dq.del in *. rewrite decide_True in * by by apply elem_of_nums.
  exists q2. split; [done|]. split; [done|]. unfold same_m. rewrite M2, S2. done.
Qed.

(** ** The bytes of the file *)

(** A program that does not write to the file. *)
Definition leaves {A} (m : qM A) : Prop := ∀ q, wlp m (λ _ q', q_data q' = q_data q) q.

Lemma leaves_bind {A B} (m : qM A) (k : A → qM B) : leaves m → (∀ x, leaves (k x)) → leaves (m ≫= k).
Proof.
  intros Hm Hk q. apply wlp_bind. eapply wlp_conseq; [apply Hm|]. intros x q' E. eapply wlp_conseq; [apply Hk|].
  cbn. by intros _ q'' ->.
Qed.
Lemma leaves_ret {A} (x : A) : leaves (mret x).
Proof. done. Qed.
Lemma leaves_fail {A} f : leaves (A := A) (fail f).
Proof. done. Qed.
Lemma leaves_gets {A} (f : queue → A) : leaves (gets f).
Proof. done. Qed.
Lemma leaves_modify f : (∀ q, q_data (f q) = q_data q) → leaves (modify f).
Proof. intros H q. apply H. Qed.
Lemma leaves_iter {X R} fuel (body : X → qM (X + R)) x : (∀ x, leaves (body x)) → leaves (iter fuel body x).
Proof.
  intros Hb. revert x. induction fuel as [|fuel IH]; intros x; [done|]. cbn [iter].
  apply leaves_bind; [done|]. intros [x'|r]; [apply IH|apply leaves_ret].
Qed.
Lemma leaves_tab i : leaves (tab i).
Proof. unfold tab. apply leaves_bind; [apply leaves_gets|]. intros t. destruct (0 <=? i); [destruct (t !! _)|]; done. Qed.
Lemma leaves_tmodify i f : leaves (tmodify i f).
Proof.
  unfold tmodify. apply leaves_bind; [apply leaves_tab|]. intros e. apply leaves_bind; [apply leaves_gets|]. intros t. done.
Qed.
Lemma leaves_when b m : leaves m → leaves (when b m).
Proof. by destruct b. Qed.
Ltac solve_leaves :=
  repeat first [apply leaves_bind; [|intros ?] | apply leaves_ret | apply leaves_gets | apply leaves_tab | apply leaves_tmodify
               | apply leaves_when | apply leaves_fail | apply leaves_iter; intros [] | apply leaves_modify; done | case_match].

Lemma leaves_delmsg n : leaves (delmsg_body n).
Proof. unfold delmsg_body, adjust_ends, reset_ends, next_first, next_last, hmodify, hget, get. solve_leaves. Qed.

(** A put only appends to it. *)
Lemma putmsg_data q a message p r q' : qinv q a → putmsg_body IoOk message p q = Ok (r, q') → q_data q `prefix_of` q_data q'.
Proof.
  intros Hq E. destruct (Z.eqb_spec (zlen a) (maxmsgs (q_head q))) as [El|El].
  - unfold putmsg_body, hget in E. rewrite bind_gets, (qi_live _ _ Hq), (proj2 (Z.eqb_eq _ _) El) in E. by injection E as <- <-.
  - rewrite (putmsg_run q a Hq (not_full _ _ Hq El) message p) in E. injection E as <- <-. by eexists.
Qed.
