(* ===== verification/DtaQueueApi.v ===== *)
(** The DTA queue as its users see it: sessions of one handle refine the abstract queue, the
    order in which messages come out, and what a failed write leaves behind. *)
From Stdlib Require Import Sorted.
From S2P Require Import Prelude CLib DtaQueue DtaQueueSpec.

(** ** Sessions of one handle *)

Inductive qop :=
  | OPut (message : list Z) (prio : Z)
  | OGet (mode : Z)
  | ODel (msgn : Z)
  | OEmpty
  | OClean
  | OAsk.
Inductive qanswer :=
  | ACode (rc : Z)
  | AGot (rc : Z) (out : option (option (list Z) * Z * Z))
  | AAsked (maxmsgs livmsgs : Z).

(** The answer and the handle's cursor after the call. *)
Definition run_qop (o : qop) (cursor : Z) : qM (qanswer * Z) :=
  match o with
  | OPut message prio => rc ← DTA_PUTMSG IoOk message prio; mret (ACode rc, cursor)
  | OGet mode => '(rc, out, cursor) ← DTA_GETMSG cursor mode; mret (AGot rc out, cursor)
  | ODel msgn => rc ← DTA_DELMSG msgn; mret (ACode rc, cursor)
  | OEmpty => rc ← DTA_EMPTYQ true; mret (ACode rc, cursor)
  | OClean => rc ← DTA_CLEANQ true; mret (ACode rc, cursor)
  | OAsk => '(m, l) ← DTA_ASKQ; mret (AAsked m l, cursor)
  end.
Fixpoint run_qops (l : list qop) (cursor : Z) : qM (list qanswer) :=
  match l with
  | [] => mret []
  | o :: l' => '(x, cursor) ← run_qop o cursor; xs ← run_qops l' cursor; mret (x :: xs)
  end.

(** The same on the abstract queue. *)
Definition spec_qop (max : Z) (o : qop) (cursor : Z) (a : dq.aqueue) : qanswer * Z * dq.aqueue :=
  match o with
  | OPut message prio => let r := dq.put max message prio a in (ACode r.1, cursor, r.2)
  | OGet mode => let '(rc, out, c, a') := dq.get cursor mode a in (AGot rc out, c, a')
  | ODel msgn => let r := dq.del msgn a in (ACode r.1, cursor, r.2)
  | OEmpty => (ACode 0, cursor, [])
  | OClean => (ACode 0, cursor, a)
  | OAsk => (AAsked max (zlen a), cursor, a)
  end.
Fixpoint spec_qops (max : Z) (l : list qop) (cursor : Z) (a : dq.aqueue) : list qanswer * dq.aqueue :=
  match l with
  | [] => ([], a)
  | o :: l' =>
      let '(x, c, a') := spec_qop max o cursor a in
      let '(xs, a'') := spec_qops max l' c a' in (x :: xs, a'')
  end.

(** Deletions name an entry of the table. *)
Definition qop_ok (max : Z) (o : qop) : Prop := match o with ODel n => 0 ≤ n ≤ max | _ => True end.

(** The file that [createq] writes. *)
Definition new_queue (n : nat) : queue :=
  Queue (MkHead (Z.of_nat n) 0 1 0)
    (blank_entry (SIZEOF_QueueHead + SIZEOF_QueueTable * (Z.of_nat n + 1)) :: replicate n (blank_entry 0)) [] 0 0 0.

Lemma new_queue_inv n : qinv (new_queue n) [] ∧ idle (new_queue n).
Proof.
  split; [|done]. split; simpl; try done.
  - lia.
  - unfold zlen. simpl. rewrite length_replicate. lia.
  - constructor.
  - intros i Hi%elem_of_nil. done.
  - intros i [Hi1 Hi2]. unfold ent. destruct (Z.to_nat i) as [|j]; [done|]. simpl.
    destruct (replicate n (blank_entry 0) !! j) as [e|] eqn:E; [|done].
    apply lookup_replicate in E as [-> _]. done.
Qed.

(** The cursor a get leaves is 0 or the number of a message. *)
Lemma get_cursor q a cursor mode : qinv q a → inside (q_table q) cursor → inside (q_table q) (dq.get cursor mode a).1.2.
Proof.
  intros Hq Hc. assert (inside (q_table q) 0) as H0 by (eapply inside_inv; [done|]; pose proof (qi_max _ _ Hq); lia).
  unfold dq.get. destruct a as [|m0 a0]; [done|]. set (a := m0 :: a0) in *. cbv zeta.
  set (c0 := if has_flag mode DTAGMO_RESETCURSOR then 0 else cursor). fold (moved a c0 mode).
  assert (inside (q_table q) (moved a c0 mode)) as Hm by (unfold moved, c0; repeat case_match; done).
  fold (chosen a (moved a c0 mode) mode). destruct (chosen a _ mode) as [m|] eqn:E; [|done].
  assert (m ∈ a) by by eapply chosen_elem.
  destruct (has_flag mode DTAGMO_DELETEAFTERREAD); [done|]. simpl. destruct (has_flag mode DTAGMO_SKIPWHILEREAD); [|done].
  eapply inside_num; [done|by apply elem_of_nums].
Qed.

Lemma run_qop_ok q a o cursor : qinv q a → idle q → inside (q_table q) cursor → qop_ok (maxmsgs (q_head q)) o →
  let r := spec_qop (maxmsgs (q_head q)) o cursor a in
  ∃ q', run_qop o cursor q = Ok (r.1, q') ∧ qinv q' r.2 ∧ same_m q q' ∧ inside (q_table q') r.1.2.
Proof.
  intros Hq Hi Hc Ho.
  assert (∀ q' a' c, qinv q' a' → same_m q q' → inside (q_table q) c → inside (q_table q') c) as Hin.
  { intros q' a' c Hq' (Hm & _) [Hc1 Hc2]. eapply inside_inv; [done|]. rewrite Hm. rewrite (qi_len _ _ Hq) in Hc2. lia. }
  destruct o as [message p|mode|n| | |]; cbn [run_qop spec_qop].
  - destruct (DTA_PUTMSG_ok q a message p Hq Hi) as (q' & E & Hq' & Hs). rewrite (bind_ok _ _ _ _ _ E).
    exists q'. split; [done|]. split; [done|]. split; [done|]. by eapply Hin.
  - destruct (DTA_GETMSG_ok q a cursor mode Hq Hi Hc) as (q' & E & Hq' & Hs). pose proof (get_cursor q a cursor mode Hq Hc) as Hc'.
    rewrite (bind_ok _ _ _ _ _ E). destruct (dq.get cursor mode a) as [[[rc out] c] a'].
    exists q'. split; [done|]. split; [done|]. split; [done|]. by eapply Hin.
  - destruct (DTA_DELMSG_ok q a n Hq Hi) as (q' & E & Hq' & Hs); [by eapply inside_inv|]. rewrite (bind_ok _ _ _ _ _ E).
    exists q'. split; [done|]. split; [done|]. split; [done|]. by eapply Hin.
  - destruct (DTA_EMPTYQ_ok q a true Hq Hi) as (q' & E & Hq' & Hs). rewrite (bind_ok _ _ _ _ _ E).
    exists q'. split; [done|]. split; [done|]. split; [done|]. by eapply Hin.
  - destruct (DTA_CLEANQ_ok q a Hq Hi) as (q' & E & Hq' & Hs). rewrite (bind_ok _ _ _ _ _ E).
    exists q'. split; [done|]. split; [done|]. split; [done|]. by eapply Hin.
  - exists q. split; [|done]. unfold DTA_ASKQ, hget. rewrite bind_assoc, bind_gets, (qi_live _ _ Hq). done.
Qed.

Lemma run_qops_ok l q a cursor : qinv q a → idle q → inside (q_table q) cursor → Forall (qop_ok (maxmsgs (q_head q))) l →
  let r := spec_qops (maxmsgs (q_head q)) l cursor a in ∃ q', run_qops l cursor q = Ok (r.1, q') ∧ qinv q' r.2 ∧ idle q'.
Proof.
  revert q a cursor. induction l as [|o l IH]; intros q a cursor Hq Hi Hc Hl; [by exists q|].
  apply Forall_cons in Hl as [Ho Hl]. simpl.
  destruct (run_qop_ok q a o cursor Hq Hi Hc Ho) as (q1 & E1 & Hq1 & (M1 & I1 & _) & Hc1).
  rewrite (bind_ok _ _ _ _ _ E1). destruct (spec_qop _ o cursor a) as [[x c] a1]. simpl in Hq1, Hc1.
  destruct (IH q1 a1 c Hq1 I1 Hc1) as (q2 & E2 & Hq2 & I2); [by rewrite M1|]. rewrite M1 in E2, Hq2. simpl.
  rewrite (bind_ok _ _ _ _ _ E2). destruct (spec_qops _ l c a1) as [xs a2]. by exists q2.
Qed.

(** ** Browsing *)

(** Reads with [DTAGMO_SKIPWHILEREAD] until the first error: the messages with their
    priorities, and the last code. *)
Fixpoint browse (fuel : nat) (cursor mode : Z) : qM (list (list Z * Z) * Z) :=
  match fuel with
  | O => fail NoFuel
  | S n =>
      '(rc, out, cursor) ← DTA_GETMSG cursor mode;
      match out with
      | Some (Some message, _, p) => '(ms, rc) ← browse n cursor mode; mret ((message, p) :: ms, rc)
      | _ => mret ([], rc)
      end
  end.

Definition contents (a : dq.aqueue) : list (list Z * Z) := (λ m, (text m, prio m)) <$> a.

Definition BROWSE_LIST : Z := Z.lor DTAGMO_READBYPRIORITY DTAGMO_SKIPWHILEREAD.
Definition BROWSE_NUMBER : Z := Z.lor DTAGMO_READBYORDER DTAGMO_SKIPWHILEREAD.

(** The messages sorted by number: those above [c], in order. *)
Fixpoint above (fuel : nat) (c : Z) (a : dq.aqueue) : list amsg :=
  match fuel with
  | O => []
  | S n => match dq.next_number c a with Some m => m :: above n (num m) a | None => [] end
  end.

Lemma get_list c a : a ≠ [] → dq.get c BROWSE_LIST a =
  let c' := if bool_decide (c ∈ dq.nums a) then c else 0 in
  match dq.next_in_list c' a with
  | Some m => ((0, Some (Some (text m), zlen (text m), prio m), num m), a)
  | None => ((DTARC_QUEUE_END, None, c'), a)
  end.
Proof. intros Hne. unfold dq.get. destruct a; [done|]. cbv zeta. simpl. by case_bool_decide. Qed.

Lemma get_number c a : a ≠ [] → dq.get c BROWSE_NUMBER a =
  match dq.next_number c a with
  | Some m => ((0, Some (Some (text m), zlen (text m), prio m), num m), a)
  | None => ((DTARC_QUEUE_END, None, c), a)
  end.
Proof. intros Hne. unfold dq.get. destruct a; [done|]. done. Qed.

Lemma after_mid l1 m l2 : NoDup (dq.nums (l1 ++ m :: l2)) → dq.after (num m) (l1 ++ m :: l2) = head l2.
Proof.
  induction l1 as [|x l1 IH]; simpl; [by rewrite Z.eqb_refl|]. intros [Hx Hnd]%NoDup_cons.
  rewrite (proj2 (Z.eqb_neq (num x) (num m))); [by apply IH|]. intros E. apply Hx. rewrite E. apply elem_of_nums.
  apply elem_of_app. right. left.
Qed.

Lemma browse_S n c mode : browse (S n) c mode =
  ('(rc, out, cursor) ← DTA_GETMSG c mode;
   match out with
   | Some (Some message, _, p) => '(ms, rc) ← browse n cursor mode; mret ((message, p) :: ms, rc)
   | _ => mret ([], rc)
   end).
Proof. done. Qed.
Lemma above_S n c a : above (S n) c a = match dq.next_number c a with Some m => m :: above n (num m) a | None => [] end.
Proof. done. Qed.

Section browse.
Context (a : dq.aqueue) (Ha : a ≠ []).

Lemma browse_list_from l2 l1 q c n : a = l1 ++ l2 → qinv q a → idle q → inside (q_table q) c →
  dq.next_in_list c a = head l2 → (c ∈ dq.nums a ∨ l1 = [] ∧ c = 0) → (length l2 < n)%nat →
  ∃ q', browse n c BROWSE_LIST q = Ok (contents l2, DTARC_QUEUE_END, q') ∧ qinv q' a ∧ idle q'.
Proof.
  revert l1 q c n. induction l2 as [|m l2 IH]; intros l1 q c n E Hq Hi Hc Hnext Hcur Hn; (destruct n as [|n]; [simpl in Hn; lia|]);
    rewrite browse_S; destruct (DTA_GETMSG_ok q a c BROWSE_LIST Hq Hi Hc) as (q1 & E1 & Hq1 & (M1 & I1 & _));
    pose proof (get_cursor q a c BROWSE_LIST Hq Hc) as Hc1;
    rewrite (get_list c a Ha) in E1, Hq1, Hc1; cbv zeta in *;
    (replace (if bool_decide (c ∈ dq.nums a) then c else 0) with c in * by (destruct Hcur as [?|[_ ->]]; case_bool_decide; done));
    rewrite Hnext in E1, Hq1, Hc1; simpl in E1, Hq1, Hc1; rewrite (bind_ok _ _ _ _ _ E1).
  - by exists q1.
  - assert (m ∈ a) as Hm by (rewrite E; apply elem_of_app; right; left).
    destruct (IH (l1 ++ [m]) q1 (num m) n) as (q2 & E2 & Hq2 & I2); [by rewrite E, <- app_assoc|done|done| | | |simpl in Hn; lia|].
    + eapply inside_num; [done|by apply elem_of_nums].
    + unfold dq.next_in_list. rewrite decide_True by by apply elem_of_nums. rewrite E. apply after_mid. rewrite <- E. apply Hq.
    + left. by apply elem_of_nums.
    + exists q2. rewrite (bind_ok _ _ _ _ _ E2). done.
Qed.

Lemma browse_number_from n q c : qinv q a → idle q → inside (q_table q) c → (length (above (S n) c a) ≤ n)%nat →
  ∃ q', browse (S n) c BROWSE_NUMBER q = Ok (contents (above (S n) c a), DTARC_QUEUE_END, q') ∧ qinv q' a ∧ idle q'.
Proof.
  revert q c. induction n as [|n IH]; intros q c Hq Hi Hc Hlen; rewrite browse_S; rewrite above_S in Hlen |- *;
    destruct (DTA_GETMSG_ok q a c BROWSE_NUMBER Hq Hi Hc) as (q1 & E1 & Hq1 & (M1 & I1 & _));
    rewrite (get_number c a Ha) in E1, Hq1; pose proof (next_number_spec c a) as Hs;
    destruct (dq.next_number c a) as [m|]; simpl in E1, Hq1; cbn [length] in Hlen; rewrite (bind_ok _ _ _ _ _ E1); try lia; try by exists q1.
  destruct (IH q1 (num m) Hq1 I1) as (q2 & E2 & Hq2 & I2).
  - eapply inside_num; [done|]. apply elem_of_nums, Hs.
  - lia.
  - exists q2. rewrite (bind_ok _ _ _ _ _ E2). done.
Qed.
End browse.

Lemma above_elem n c a m : m ∈ above n c a → m ∈ a ∧ c < num m.
Proof.
  revert c. induction n as [|n IH]; intros c; [by intros ?%elem_of_nil|]. rewrite above_S.
  pose proof (next_number_spec c a) as Hs. destruct (dq.next_number c a) as [m'|]; [|by intros ?%elem_of_nil].
  destruct Hs as (H1 & H2 & _). intros [->|Hm]%elem_of_cons; [done|]. destruct (IH _ Hm). split; [done|lia].
Qed.

Definition ascending (s : list amsg) : Prop := StronglySorted (λ m m', num m < num m') s.

Lemma above_sorted n c a : ascending (above n c a).
Proof.
  revert c. induction n as [|n IH]; intros c; [constructor|]. rewrite above_S.
  destruct (dq.next_number c a) as [m|]; constructor; [apply IH|]. apply Forall_forall. intros x Hx. by apply above_elem in Hx as [_ ?].
Qed.

Lemma ascending_nodup s : ascending s → NoDup (dq.nums s).
Proof.
  induction 1 as [|m s Hs IH Hm]; [constructor|]. apply NoDup_cons. split; [|done]. intros Hin.
  apply list_elem_of_fmap in Hin as (m' & E & Hm'). rewrite Forall_forall in Hm. specialize (Hm _ Hm'). lia.
Qed.

Lemma above_length n c a : (length (above n c a) ≤ length a)%nat.
Proof.
  pose proof (ascending_nodup _ (above_sorted n c a)) as Hnd.
  assert (dq.nums (above n c a) ⊆+ dq.nums a) as Hs.
  { apply NoDup_submseteq; [done|]. intros x Hx. apply list_elem_of_fmap in Hx as (m & -> & Hm). apply above_elem in Hm as [Hm _]. by apply elem_of_nums. }
  apply submseteq_length in Hs. unfold dq.nums in Hs. by rewrite !length_fmap in Hs.
Qed.

Lemma above_complete n c a m : NoDup (dq.nums a) → (length (above n c a) < n)%nat → m ∈ a → c < num m → m ∈ above n c a.
Proof.
  intros Hnd. revert c. induction n as [|n IH]; intros c Hl Hm Hc; [lia|]. rewrite above_S in Hl |- *.
  pose proof (next_number_spec c a) as Hs. destruct (dq.next_number c a) as [m'|].
  - destruct Hs as (H1 & H2 & H3). specialize (H3 _ (elem_of_nums _ _ Hm) Hc). cbn [length] in Hl.
    destruct (decide (num m' = num m)) as [E|E].
    + assert (m' = m) as ->; [|left]. apply list_elem_of_lookup in H1 as [i Hi]. apply list_elem_of_lookup in Hm as [j Hj].
      assert (i = j) as <-; [|congruence]. apply (NoDup_lookup (dq.nums a) i j (num m)); [exact Hnd| |];
        unfold dq.nums; rewrite list_lookup_fmap, ?Hi, ?Hj; simpl; congruence.
    + right. apply IH; [lia|done|lia].
  - specialize (Hs _ (elem_of_nums _ _ Hm)). lia.
Qed.

Lemma above_perm q a : qinv q a → above (S (length a)) 0 a ≡ₚ a.
Proof.
  intros Hq. apply NoDup_Permutation.
  - eapply NoDup_fmap_1. apply ascending_nodup, above_sorted.
  - eapply NoDup_fmap_1. apply (qi_nodup _ _ Hq).
  - intros m. split; [intros Hm; by apply above_elem in Hm as [? _]|]. intros Hm. apply above_complete; [apply Hq| |done|].
    + pose proof (above_length (S (length a)) 0 a). lia.
    + pose proof (qi_range _ _ Hq (num m) (elem_of_nums _ _ Hm)). lia.
Qed.

(** ** Properties *)

(** C16: a queue made by [createq] answers every session of puts, gets in any mode,
    deletions and the administrative calls as the abstract queue does: a list of at most
    [maxmsgs] numbered messages. *)
Theorem dta_session_refines n l : Forall (qop_ok (Z.of_nat n)) l →
  ∃ q', run_qops l 0 (new_queue n) = Ok ((spec_qops (Z.of_nat n) l 0 []).1, q') ∧
    qinv q' (spec_qops (Z.of_nat n) l 0 []).2.
Proof.
  intros Hl. destruct (new_queue_inv n) as [Hq Hi].
  destruct (run_qops_ok l (new_queue n) [] 0 Hq Hi) as (q' & E & Hq' & _); [|done|by exists q'].
  eapply inside_inv; [done|]. pose proof (qi_max _ _ Hq). lia.
Qed.

Definition demo_qops : list qop :=
  [OPut [65] 1; OPut [66; 67] 3; OGet 5; OPut [68] 0; OGet BROWSE_NUMBER; OGet BROWSE_NUMBER; ODel 2; OAsk; OClean].

Lemma dta_session_refines_witness :
  ∃ q', run_qops demo_qops 0 (new_queue 2) =
    Ok ([ACode 0; ACode 0; AGot 0 (Some (Some [66; 67], 2, 3)); ACode 0; AGot 0 (Some (Some [65], 1, 1));
         AGot 0 (Some (Some [68], 1, 0)); ACode 0; AAsked 2 1; ACode 0], q') ∧ qinv q' [AMsg 1 1 [65]].
Proof.
  apply (dta_session_refines 2 demo_qops). repeat constructor; simpl; lia.
Defined.

(** C17: reading with [DTAGMO_SKIPWHILEREAD] from a fresh cursor shows every message once and
    then [DTARC_QUEUE_END], and leaves the queue as it was: with [DTAGMO_READBYPRIORITY] in
    list order, with [DTAGMO_READBYORDER] by entry number. *)
Theorem dta_browse_enumerates q a : qinv q a → idle q → a ≠ [] →
  (∃ q', browse (S (length a)) 0 BROWSE_LIST q = Ok (contents a, DTARC_QUEUE_END, q') ∧ qinv q' a) ∧
  ∃ s q', s ≡ₚ a ∧ ascending s ∧
    browse (S (length a)) 0 BROWSE_NUMBER q = Ok (contents s, DTARC_QUEUE_END, q') ∧ qinv q' a.
Proof.
  intros Hq Hi Ha. assert (inside (q_table q) 0) as H0 by (eapply inside_inv; [done|]; pose proof (qi_max _ _ Hq); lia).
  split.
  - destruct (browse_list_from a Ha a [] q 0 (S (length a))) as (q' & E & Hq' & _); try done; [|by right|lia|by exists q'].
    apply next_in_list_dead, (zero_not_num _ _ Hq).
  - destruct (browse_number_from a Ha (length a) q 0) as (q' & E & Hq' & _); try done; [apply above_length|].
    exists (above (S (length a)) 0 a), q'. split; [by apply (above_perm q)|]. split; [apply above_sorted|done].
Qed.

Definition demo_queue : queue :=
  match run_qops [OPut [5] 5; OPut [7] 7; OPut [6] 6] 0 (new_queue 3) with Ok (_, q) => q | Fault _ => new_queue 0 end.
Definition demo_msgs : dq.aqueue := [AMsg 2 7 [7]; AMsg 1 5 [5]; AMsg 3 6 [6]].

Lemma demo_queue_inv : qinv demo_queue demo_msgs ∧ idle demo_queue.
Proof.
  destruct (new_queue_inv 3) as [Hq Hi].
  destruct (run_qops_ok [OPut [5] 5; OPut [7] 7; OPut [6] 6] (new_queue 3) [] 0 Hq Hi) as (q' & E & Hq' & Hi').
  - eapply inside_inv; [done|]. simpl. lia.
  - repeat constructor.
  - unfold demo_queue. rewrite E. split; [|exact Hi'].
    match type of Hq' with qinv _ ?a => assert (a = demo_msgs) as Ea by (vm_compute; reflexivity) end. by rewrite <- Ea.
Qed.

Lemma dta_browse_enumerates_witness :
  ∃ q', browse 4 0 BROWSE_LIST demo_queue = Ok ([([7], 7); ([5], 5); ([6], 6)], DTARC_QUEUE_END, q') ∧ qinv q' demo_msgs.
Proof.
  destruct demo_queue_inv as [Hq Hi]. exact (proj1 (dta_browse_enumerates demo_queue demo_msgs Hq Hi ltac:(done))).
Defined.

(** Neither order is the documented one.  Read by priority, a message of priority 6 comes
    after one of priority 5 once a message of priority 7 is at the front; read by order, a
    message that got the number of a deleted one comes before an older message. *)
Theorem dta_read_orders :
  (spec_qops 3 [OPut [5] 5; OPut [7] 7; OPut [6] 6] 0 []).2 = demo_msgs ∧
  (∃ q, run_qops [OPut [5] 5; OPut [7] 7; OPut [6] 6; OGet 5; OGet 5; OGet 5] 0 (new_queue 3) =
    Ok ([ACode 0; ACode 0; ACode 0; AGot 0 (Some (Some [7], 1, 7)); AGot 0 (Some (Some [5], 1, 5));
         AGot 0 (Some (Some [6], 1, 6))], q)) ∧
  ∃ q, run_qops [OPut [1] 0; OPut [2] 0; ODel 1; OPut [3] 0; OGet 4; OGet 4] 0 (new_queue 2) =
    Ok ([ACode 0; ACode 0; ACode 0; ACode 0; AGot 0 (Some (Some [3], 1, 0)); AGot 0 (Some (Some [2], 1, 0))], q).
Proof. split; [vm_compute; reflexivity|]. split; eexists; vm_compute; reflexivity. Qed.

(** A put whose [fwrite] fails reports [DTARC_FILEWRITE_ERROR] but leaves its entry in the
    queue: a reader by priority gets [DTARC_FILEREAD_ERROR] and never the messages behind
    it, and after the next put it gets the bytes of that message under the failed entry. *)
Theorem dta_failed_put_stays :
  let failed : qM (Z * list qanswer) :=
    rc ← DTA_PUTMSG (IoWrite 0) [1; 2] 0; xs ← run_qops [OAsk; OGet DTAGMO_READBYPRIORITY] 0; mret (rc, xs) in
  let next : qM (list qanswer) := run_qops [OPut [8; 9; 10] 0; OGet 5; OGet 5] 0 in
  ∃ q1 q2, failed (new_queue 3) = Ok ((DTARC_FILEWRITE_ERROR, [AAsked 3 1; AGot DTARC_FILEREAD_ERROR None]), q1) ∧
    next q1 = Ok ([ACode 0; AGot 0 (Some (Some [8; 9], 2, 0)); AGot 0 (Some (Some [8; 9; 10], 3, 0))], q2).
Proof. eexists _, _. split; vm_compute; reflexivity. Qed.
