(* ===== verification/DtaConc.v ===== *)
(** Processes that share a DTA queue: the calls cut at the semaphore operations, the system of
    processes that run them, each with a buffered stream of its own on the queue file, and the
    races between the sections of one call. *)
From S2P Require Import Prelude CLib DtaQueue DtaQueueSpec DtaQueueApi.

(** ** Calls as sequences of sections *)

(** What a call does between taking a lock and freeing it; [SLive] is the first section of
    [DTA_CLEANQ]; [SAsk] takes no lock. *)
Inductive sec :=
  | SPut (message : list Z) (prio : Z)
  | SDel (msgn : Z)
  | SEmpty
  | SLive
  | SAsk
  | SGet (mode : Z).
Inductive lockmode := LNone | LRead | LWrite.
#[export] Instance lockmode_eq_dec : EqDecision lockmode.
Proof. solve_decision. Defined.

(** What a section hands to the rest of its call. *)
Inductive sres :=
  | RCode (rc : Z)
  | RLive (n : Z)
  | RAsk (m l : Z)
  | RGot (g : got).

Definition lock_of (s : sec) : lockmode :=
  match s with SGet _ => LRead | SAsk => LNone | _ => LWrite end.
Definition lock (s : sec) : qM () :=
  match lock_of s with LRead => setrlock | LWrite => setwlock | LNone => mret () end.
Definition unlock (s : sec) : qM () :=
  match lock_of s with LRead => freerlock | LWrite => freewlock | LNone => mret () end.

(** ** The stream of a process *)

(** The [FILE] of a handle: what it holds of the file, at which place behind the table. *)
Record iobuf := IoBuf { b_pos : Z; b_bytes : list Z }.
Definition no_buf : iobuf := IoBuf 0 [].

(** [fseek] to [off] and [fread] of [len] bytes: [fseek] keeps the buffer, so the bytes that
    are in it are delivered from there; for the rest the library reads from the file, and
    [fill] tells at which place and how many bytes it then puts into the buffer. *)
Definition fread (fill : Z → Z → Z * Z) (b : iobuf) (file : list Z) (off len : Z) : list Z * iobuf :=
  let avail := if b_pos b <=? off then bread (b_bytes b) (off - b_pos b) len else [] in
  if zlen avail =? len then (avail, b) else
  let off' := off + zlen avail in
  let len' := len - zlen avail in
  let start := Z.max 0 (fill off' len').1 in
  (avail ++ bread file off' len', IoBuf start (bread file start (fill off' len').2)).

(** How a process reads the message of an entry, and its stream after that: directly from
    the file, or through the buffer. *)
Abbreviation reader := (iobuf → QueueTable → qM ((Z + list Z) * iobuf)).
Definition direct : reader := λ b e, r ← read_msg e; mret (r, b).
Definition stdio (fill : Z → Z → Z * Z) : reader := λ b e,
  q ← get;
  if offset e <? 0 then mret (inl DTARC_FILESEEK_ERROR, b) else
  if offset e <? base q then fail (UB "mapped table read as a message") else
  let '(bs, b) := fread fill b (q_data q) (offset e - base q) (msglen e) in
  mret (if zlen bs =? msglen e then inr bs else inl DTARC_FILEREAD_ERROR, b).

(** The body of a section, and the handle's cursor and stream after it; a put that wrote
    leaves nothing in the buffer. *)
Definition sec_body (rd : reader) (s : sec) (cursor : Z) (b : iobuf) : qM (sres * Z * iobuf) :=
  match s with
  | SPut message prio => rc ← putmsg_body IoOk message prio; mret (RCode rc, cursor, if rc =? 0 then no_buf else b)
  | SDel msgn => rc ← delmsg_body msgn; mret (RCode rc, cursor, b)
  | SEmpty => rc ← emptyq_body true; mret (RCode rc, cursor, b)
  | SLive => h ← hget; mret (RLive (livmsgs h), cursor, b)
  | SAsk => '(m, l) ← DTA_ASKQ; mret (RAsk m l, cursor, b)
  | SGet mode => '(g, cursor, b) ← getmsg_with (rd b) b cursor mode; mret (RGot g, cursor, b)
  end.

(** The rest of a call: its answer, or a section and what follows. *)
Inductive prog := Answer (x : qanswer) | Section_ (s : sec) (k : sres → prog).

Definition code_answer (r : sres) : prog :=
  match r with RCode rc => Answer (ACode rc) | _ => Answer (ACode DTARC_INTERNAL_ERROR) end.

Definition call (o : qop) : prog :=
  match o with
  | OPut message prio => Section_ (SPut message prio) code_answer
  | ODel msgn => Section_ (SDel msgn) code_answer
  | OEmpty => Section_ SEmpty code_answer
  | OClean => Section_ SLive (λ r,
      match r with
      | RLive n =>
          if n =? 0 then Section_ SEmpty (λ r,
            match r with RCode ret => Answer (ACode (if negb (ret =? 0) then DTARC_INTERNAL_ERROR else 0)) | _ => code_answer r end)
          else Answer (ACode 0)
      | _ => code_answer r
      end)
  | OAsk => Section_ SAsk (λ r, match r with RAsk m l => Answer (AAsked m l) | _ => code_answer r end)
  | OGet mode => Section_ (SGet mode) (λ r,
      match r with
      | RGot (GotErr rc) => Answer (AGot rc None)
      | RGot (Got n message len prio) =>
          let out := Some (message, len, prio) in
          if has_flag mode DTAGMO_DELETEAFTERREAD then Section_ (SDel n) (λ r,
            match r with RCode ret => Answer (AGot (if negb (ret =? 0) then DTARC_INTERNAL_ERROR else 0) out) | _ => code_answer r end)
          else Answer (AGot 0 out)
      | _ => code_answer r
      end)
  end.

(** A call that runs with nobody in between. *)
Fixpoint run_prog (rd : reader) (p : prog) (cursor : Z) (b : iobuf) : qM (qanswer * Z * iobuf) :=
  match p with
  | Answer x => mret (x, cursor, b)
  | Section_ s k =>
      _ ← lock s; '(r, cursor, b) ← sec_body rd s cursor b; _ ← unlock s; run_prog rd (k r) cursor b
  end.

(** ** Processes *)

Inductive pc :=
  | Idle
  | Want (s : sec) (k : sres → prog)    (* at the semaphore operation before the section *)
  | Inside (s : sec) (k : sres → prog)
  | Leaving (s : sec) (rest : prog).    (* at the one behind it *)
Record proc := Proc { cursor : Z; at_ : pc; todo : list qop; log : list qanswer; buf : iobuf }.

Definition settle (p : proc) (rest : prog) : proc :=
  match rest with
  | Answer x => Proc (cursor p) Idle (todo p) (log p ++ [x]) (buf p)
  | Section_ s k => Proc (cursor p) (Want s k) (todo p) (log p) (buf p)
  end.

Definition proc_step (rd : reader) (p : proc) : qM proc :=
  match at_ p with
  | Idle => match todo p with [] => blocked | o :: l => mret (settle (Proc (cursor p) Idle l (log p) (buf p)) (call o)) end
  | Want s k => _ ← lock s; mret (Proc (cursor p) (Inside s k) (todo p) (log p) (buf p))
  | Inside s k => '(r, c, b) ← sec_body rd s (cursor p) (buf p); mret (Proc c (Leaving s (k r)) (todo p) (log p) b)
  | Leaving s rest => _ ← unlock s; mret (settle p rest)
  end.

Definition config : Type := queue * list proc.
Inductive step (rd : reader) : config → config → Prop :=
  | step_proc i p q p' q' ps : ps !! i = Some p → proc_step rd p q = Ok (p', q') → step rd (q, ps) (q', <[i := p']> ps).

(** ** The system in which each section happens at once *)

Definition spec_sec (max : Z) (f : amsg → list Z) (s : sec) (cursor : Z) (a : dq.aqueue) : sres * Z * dq.aqueue :=
  match s with
  | SPut message prio => let r := dq.put max message prio a in (RCode r.1, cursor, r.2)
  | SDel msgn => let r := dq.del msgn a in (RCode r.1, cursor, r.2)
  | SEmpty => (RCode 0, cursor, [])
  | SLive => (RLive (zlen a), cursor, a)
  | SAsk => (RAsk max (zlen a), cursor, a)
  | SGet mode => let r := read_section f cursor mode a in (RGot r.1, r.2, a)
  end.

(** The steps that are not a body of a section do nothing to the abstract queue: there are
    no locks and no streams; [f] are the bytes that are delivered for a message. *)
Definition spec_step (max : Z) (f : amsg → list Z) (p : proc) (b : iobuf) (a : dq.aqueue) : option (proc * dq.aqueue) :=
  match at_ p with
  | Idle => match todo p with [] => None | o :: l => Some (settle (Proc (cursor p) Idle l (log p) b) (call o), a) end
  | Want s k => Some (Proc (cursor p) (Inside s k) (todo p) (log p) b, a)
  | Inside s k => let '(r, c, a') := spec_sec max f s (cursor p) a in Some (Proc c (Leaving s (k r)) (todo p) (log p) b, a')
  | Leaving s rest => Some (settle (Proc (cursor p) Idle (todo p) (log p) b) rest, a)
  end.

(** The bytes delivered for the messages of the queue are theirs; with [stale] only their
    number is right. *)
Definition delivers (stale : bool) (a : dq.aqueue) (f : amsg → list Z) : Prop :=
  ∀ m, m ∈ a → zlen (f m) = zlen (text m) ∧ (stale = false → f m = text m).

(** The streams have no effect here, so what they hold is left open. *)
Definition aconfig : Type := dq.aqueue * list proc.
Inductive astep (max : Z) (stale : bool) : aconfig → aconfig → Prop :=
  | astep_proc f b i p a p' a' ps : delivers stale a f → ps !! i = Some p → spec_step max f p b a = Some (p', a') →
      astep max stale (a, ps) (a', <[i := p']> ps).

(** ** One call, uninterrupted *)

Lemma bind_ext {S A B} (m : M S A) (k k' : A → M S B) s : (∀ a s', k a s' = k' a s') → (m ≫= k) s = (m ≫= k') s.
Proof. intros H. unfold mbind, M_bind. destruct (m s) as [[a s']|]; [apply H|done]. Qed.

Lemma bind_cong {S A B} (m m' : M S A) (k : A → M S B) s : m s = m' s → (m ≫= k) s = (m' ≫= k) s.
Proof. intros H. unfold mbind, M_bind. by rewrite H. Qed.

(** Walks through two programs that run the same steps. *)
Ltac same_steps :=
  repeat (cbn [run_prog code_answer lock_of sec_body];
          first [rewrite bind_assoc | rewrite bind_ret | apply bind_ext; intros; cbn beta | case_match
                | progress unfold DTA_DELMSG, DTA_EMPTYQ, with_wlock, with_rlock, lock, unlock]); try done.

Lemma getmsg_direct b c mode q :
  getmsg_with (direct b) b c mode q = ('(g, c) ← getmsg_body c mode; mret (g, c, b)) q.
Proof. unfold getmsg_body, getmsg_with, direct. same_steps. Qed.

(** The sections of a call are the call. *)
Lemma call_run o c b q : ('(x, c, _) ← run_prog direct (call o) c b; mret (x, c)) q = run_qop o c q.
Proof.
  destruct o; cbn [call run_prog run_qop]; unfold DTA_PUTMSG, DTA_CLEANQ, DTA_GETMSG; same_steps;
    erewrite bind_cong by apply getmsg_direct; same_steps.
Qed.

(** ** The processes refine the system of sections *)

(** Sections that name entries of the table and, unless messages may be [stale], do not empty
    it; and calls whose later sections are such. *)
Definition sec_ok (max : Z) (stale : bool) (s : sec) : Prop :=
  match s with SDel n => 0 ≤ n ≤ max | SEmpty => stale = true | _ => True end.
Definition res_ok (max : Z) (s : sec) (r : sres) : Prop :=
  match s, r with SGet _, RGot (Got n _ _ _) => 0 ≤ n ≤ max | _, _ => True end.
Inductive prog_ok (max : Z) (stale : bool) : prog → Prop :=
  | answer_ok x : prog_ok max stale (Answer x)
  | section_ok s k : sec_ok max stale s → (∀ r, res_ok max s r → prog_ok max stale (k r)) → prog_ok max stale (Section_ s k).
Definition empties (o : qop) : Prop := o = OEmpty ∨ o = OClean.
Definition op_ok (max : Z) (stale : bool) (o : qop) : Prop := qop_ok max o ∧ (empties o → stale = true).
#[local] Hint Constructors prog_ok : core.

Definition pc_ok (max : Z) (stale : bool) (s : pc) : Prop :=
  match s with
  | Idle => True
  | Want s k | Inside s k => prog_ok max stale (Section_ s k)
  | Leaving _ rest => prog_ok max stale rest
  end.
Definition proc_ok (max : Z) (stale : bool) (p : proc) : Prop :=
  0 ≤ cursor p ≤ max ∧ pc_ok max stale (at_ p) ∧ Forall (op_ok max stale) (todo p).

(** What a stream holds is in the file. *)
Definition coherent (file : list Z) (b : iobuf) : Prop := 0 ≤ b_pos b ∧ bread file (b_pos b) (zlen (b_bytes b)) = b_bytes b.

(** The lock a process holds. *)
Definition held (p : proc) : lockmode :=
  match at_ p with Inside s _ | Leaving s _ => lock_of s | _ => LNone end.
Definition holders (l : lockmode) (ps : list proc) : Z := zlen (filter (λ p, held p = l) ps).

Record good (max : Z) (stale : bool) (q : queue) (a : dq.aqueue) (ps : list proc) : Prop := {
  g_inv : qinv q a;
  g_max : maxmsgs (q_head q) = max;
  g_procs : Forall (proc_ok max stale) ps;
  g_bufs : stale = false → Forall (λ p, coherent (q_data q) (buf p)) ps;
  g_readers : sem_r q = holders LRead ps;
  g_writers : sem_w q = holders LWrite ps;
  g_excl : sem_w q = 0 ∨ sem_w q = 1 ∧ sem_r q = 0
}.

Lemma code_answer_ok max stale r : prog_ok max stale (code_answer r).
Proof. destruct r; simpl; auto. Qed.
#[local] Hint Resolve code_answer_ok : core.

Lemma call_ok max stale o : op_ok max stale o → prog_ok max stale (call o).
Proof.
  intros [Ho He]. unfold empties in He. destruct o; simpl in *; constructor; simpl; auto; intros r Hr; repeat case_match; subst; simpl in *; auto;
    constructor; simpl; auto; intros r' _; repeat case_match; auto.
Qed.

Lemma settle_ok max stale p rest : proc_ok max stale p → prog_ok max stale rest → proc_ok max stale (settle p rest).
Proof. intros (? & _ & ?) Hr. by destruct rest; (split; [|split]). Qed.

(** 1 for a process in mode [l] when those in mode [l'] are counted. *)
Definition holding (l l' : lockmode) : Z :=
  match l, l' with LNone, LNone | LRead, LRead | LWrite, LWrite => 1 | _, _ => 0 end.
Lemma holding_eq l l' : holding l l' = if decide (l = l') then 1 else 0.
Proof. by destruct l, l'. Qed.

Lemma holders_insert l ps i p p' : ps !! i = Some p →
  holders l (<[i := p']> ps) = holders l ps + holding (held p') l - holding (held p) l.
Proof.
  intros Hi. rewrite !holding_eq. unfold holders, zlen. revert i Hi. induction ps as [|p0 ps IH]; intros [|i] Hi; simpl in *; [done|done| |].
  - simplify_eq. rewrite !filter_cons. repeat case_decide; simpl; lia.
  - specialize (IH _ Hi). rewrite !filter_cons. repeat case_decide; simpl; lia.
Qed.

Lemma holders_pos l ps i p : ps !! i = Some p → held p = l → 1 ≤ holders l ps.
Proof.
  intros Hi <-. unfold holders, zlen. assert (p ∈ filter (λ x, held x = held p) ps) as Hp.
  { apply list_elem_of_filter. split; [done|]. by eapply list_elem_of_lookup_2. }
  destruct (filter _ ps); [by apply elem_of_nil in Hp|]. simpl. lia.
Qed.

Lemma holders_nonneg l ps : 0 ≤ holders l ps.
Proof. apply zlen_nonneg. Qed.

Lemma read_section_ok f q a c mode : let max := maxmsgs (q_head q) in qinv q a → 0 ≤ c ≤ max →
  0 ≤ (read_section f c mode a).2 ≤ max ∧ res_ok max (SGet mode) (RGot (read_section f c mode a).1).
Proof.
  intros max Hq Hc. unfold read_section. case_decide; [done|]. cbv zeta.
  set (c1 := if has_flag mode DTAGMO_RESETCURSOR then 0 else c).
  assert (0 ≤ moved a c1 mode ≤ max) as Hm by (unfold moved, c1; repeat case_match; lia).
  destruct (chosen a _ mode) as [m|] eqn:E; [|done].
  assert (m ∈ a) as Hin%elem_of_nums%(qi_range _ _ Hq) by by eapply chosen_elem. unfold got_of. cbn [fst snd res_ok].
  split; [destruct (_ && _)|]; lia.
Qed.

(** *** Reading through a buffer *)

Lemma coherent_grows file file' b : file `prefix_of` file' → coherent file b → coherent file' b.
Proof.
  intros [x ->] [H1 H2]. split; [done|]. rewrite <- H2 at 2. unfold bread in *. rewrite drop_app, take_app.
  assert (length (take (Z.to_nat (zlen (b_bytes b))) (drop (Z.to_nat (b_pos b)) file)) = length (b_bytes b)) as Hl by by rewrite H2.
  rewrite length_take in Hl. unfold zlen. rewrite Nat2Z.id in *.
  replace (length (b_bytes b) - length (drop (Z.to_nat (b_pos b)) file))%nat with O by lia. simpl. by rewrite app_nil_r.
Qed.

Lemma bread_length file off len : 0 ≤ off → 0 ≤ len → off + len ≤ zlen file → zlen (bread file off len) = len.
Proof. intros. unfold bread, zlen in *. rewrite length_take, length_drop. lia. Qed.

Lemma bread_split file off l len : 0 ≤ off → 0 ≤ l ≤ len → bread file off l ++ bread file (off + l) (len - l) = bread file off len.
Proof.
  intros Ho Hl. unfold bread. rewrite Z2Nat.inj_add, <- drop_drop, take_take_drop by lia. f_equal. lia.
Qed.

(** The first bytes at [off] are as many as were found. *)
Lemma bread_found file off len : bread file off len = bread file off (zlen (bread file off len)).
Proof.
  unfold bread, zlen. rewrite Nat2Z.id, length_take. set (l := drop _ _). destruct (decide (Z.to_nat len ≤ length l)%nat).
  - f_equal. lia.
  - rewrite !take_ge by lia. done.
Qed.

Lemma fread_length fill b file off len : 0 ≤ off → 0 ≤ len → off + len ≤ zlen file →
  zlen (fread fill b file off len).1 = len.
Proof.
  intros Ho Hl Hf. unfold fread. set (av := if b_pos b <=? off then bread (b_bytes b) (off - b_pos b) len else []).
  assert (zlen av ≤ len) as Hav.
  { unfold av, bread, zlen. destruct (_ <=? _); [rewrite length_take; lia|simpl; lia]. }
  pose proof (zlen_nonneg av). destruct (Z.eqb_spec (zlen av) len); [done|]. cbn [fst]. rewrite zlen_app, bread_length; lia.
Qed.

Lemma fread_coherent fill b file off len : 0 ≤ off → 0 ≤ len → off + len ≤ zlen file → coherent file b →
  (fread fill b file off len).1 = bread file off len ∧ coherent file (fread fill b file off len).2.
Proof.
  intros Ho Hl Hf [H1 H2]. unfold fread. set (av := if b_pos b <=? off then bread (b_bytes b) (off - b_pos b) len else []).
  assert (av = bread file off (zlen av) ∧ zlen av ≤ len) as [Hav Hle].
  { unfold av. destruct (Z.leb_spec (b_pos b) off); [|done]. set (k := zlen (b_bytes b)) in *.
    assert (bread (b_bytes b) (off - b_pos b) len = bread file off (Z.of_nat (Z.to_nat len `min` (Z.to_nat k - Z.to_nat (off - b_pos b))))) as ->.
    { rewrite <- H2. unfold bread. rewrite skipn_firstn_comm, drop_drop, take_take, Nat2Z.id. do 2 f_equal. lia. }
    split; [apply bread_found|]. unfold bread, zlen. rewrite length_take. lia. }
  pose proof (zlen_nonneg av). destruct (Z.eqb_spec (zlen av) len) as [E|E]; cbn [fst snd].
  - split; [by rewrite Hav, E|done].
  - split; [rewrite Hav at 1; by rewrite bread_split by lia|]. split; cbn [b_pos b_bytes]; [lia|].
    symmetry. apply bread_found.
Qed.

(** The entries of a well-formed queue are read in full, and right when the buffer is. *)
Lemma stdio_ok fill b q a m : qinv q a → m ∈ a →
  let e := ent (q_table q) (num m) in let r := fread fill b (q_data q) (offset e - base q) (msglen e) in
  stdio fill b e q = Ok ((inr r.1, r.2), q) ∧ zlen r.1 = zlen (text m) ∧
  (coherent (q_data q) b → r.1 = text m ∧ coherent (q_data q) r.2).
Proof.
  intros Hq Hm e r. pose proof (qi_stored _ _ Hq) as Hs. rewrite Forall_forall in Hs. destruct (Hs _ Hm) as (_ & H2 & H3 & H4).
  fold e in H2, H3, H4. pose proof (base_pos q). pose proof (zlen_nonneg (text m)).
  assert (text m = [] ∨ offset e - base q + msglen e ≤ zlen (q_data q)) as Hin.
  { rewrite <- H4 in *. unfold bread, zlen in *. rewrite length_take, length_drop in H2.
    destruct (decide (msglen e = 0)) as [E|]; [left; by rewrite E|right; lia]. }
  assert (zlen r.1 = zlen (text m) ∧ (coherent (q_data q) b → r.1 = text m ∧ coherent (q_data q) r.2)) as [Hl Hc].
  { destruct Hin as [E|Hin].
    - unfold r, fread. rewrite H2, E. change (zlen []) with 0. 
      assert (∀ l o, bread l o 0 = []) as -> by done. destruct (_ <=? _); change (zlen [] =? 0) with true; done.
    - split; [unfold r; rewrite fread_length; lia|]. intros Hc. rewrite <- H4. apply fread_coherent; done || lia. }
  split; [|done]. unfold stdio, get. erewrite bind_ok by done. cbn beta.
  rewrite (proj2 (Z.ltb_ge (offset e) 0)), (proj2 (Z.ltb_ge (offset e) (base q))) by lia. fold r.
  destruct r as [bs b']. cbn [fst snd] in *. by rewrite Hl, H2, Z.eqb_refl.
Qed.

(** What a body does to a queue and to the abstract queue. *)
Lemma sec_body_ok fill stale s c b q a : let max := maxmsgs (q_head q) in qinv q a → 0 ≤ c ≤ max → sec_ok max stale s →
  (stale = false → coherent (q_data q) b) →
  ∃ f b' q', let r := spec_sec max f s c a in
    delivers stale a f ∧ sec_body (stdio fill) s c b q = Ok ((r.1, b'), q') ∧ qinv q' r.2 ∧ keeps q q' ∧
    0 ≤ r.1.2 ≤ max ∧ res_ok max s r.1.1 ∧
    (stale = false → q_data q `prefix_of` q_data q' ∧ coherent (q_data q') b').
Proof.
  intros max Hq Hc Hs Hb. subst max. pose proof (keeps_refl q) as Hk.
  assert (delivers stale a text) as Hd by done.
  destruct s as [message p|n| | | |mode]; cbn [sec_body spec_sec res_ok].
  - destruct (putmsg_ok q a message p Hq) as (q' & E & Hq' & Hk'). rewrite (bind_ok _ _ _ _ _ E).
    pose proof (putmsg_data _ _ _ _ _ _ Hq E) as Hp.
    eexists text, _, q'. split_and!; try done; try apply Hc. intros Hst. split; [done|].
    destruct (_ =? 0); [done|]. eapply coherent_grows; [done|by apply Hb].
  - destruct (delmsg_ok q a n Hq) as (q' & E & Hq' & Hk'); [by eapply inside_inv|]. rewrite (bind_ok _ _ _ _ _ E).
    pose proof (leaves_delmsg n q) as Hp. unfold wlp in Hp. rewrite E in Hp.
    eexists text, _, q'. split_and!; try done; try apply Hc. intros Hst. rewrite Hp. by auto.
  - destruct (emptyq_ok q a true Hq) as (q' & E & Hq' & Hk' & _). rewrite (bind_ok _ _ _ _ _ E).
    eexists text, _, q'. split_and!; try done; try apply Hc. intros ->. done.
  - exists text, b, q. unfold hget. rewrite bind_gets, (qi_live _ _ Hq). split_and!; try done; try apply Hc. auto.
  - exists text, b, q. unfold DTA_ASKQ, hget. rewrite bind_assoc, bind_gets, (qi_live _ _ Hq). split_and!; try done; try apply Hc. auto.
  - set (rdm := λ m, let e := ent (q_table q) (num m) in fread fill b (q_data q) (offset e - base q) (msglen e)).
    destruct (getmsg_with_ok (stdio fill b) b (λ m, (rdm m).1) (λ m, (rdm m).2) q a c mode Hq) as (b' & E & Hb'); [by eapply inside_inv| |].
    { intros m Hm. by apply (stdio_ok fill b q a m Hq Hm). }
    destruct (read_section_ok (λ m, (rdm m).1) q a c mode Hq Hc) as [H1 H2].
    exists (λ m, (rdm m).1), b', q. split_and!; try done; [| |apply H1..|].
    + intros m Hm. destruct (stdio_ok fill b q a m Hq Hm) as (_ & Hl & Hco). split; [done|]. intros Hst. by apply Hco, Hb.
    + rewrite (bind_ok _ _ _ _ _ E). by destruct (read_section _ _ _ _).
    + intros Hst. split; [done|]. destruct Hb' as [->|(m & Hm & ->)]; [by apply Hb|].
      destruct (stdio_ok fill b q a m Hq Hm) as (_ & _ & Hco). by apply Hco, Hb.
Qed.

Lemma good_lookup max stale q a ps i p : good max stale q a ps → ps !! i = Some p → proc_ok max stale p.
Proof. intros H Hi. pose proof (g_procs _ _ _ _ _ H) as HF. by eapply Forall_lookup_1. Qed.
Lemma good_buf max stale q a ps i p : good max stale q a ps → ps !! i = Some p → stale = false → coherent (q_data q) (buf p).
Proof. intros H Hi Hs. pose proof (g_bufs _ _ _ _ _ H Hs) as HF. apply (Forall_lookup_1 _ _ _ _ HF Hi). Qed.

(** A process that holds no lock and takes none. *)
Lemma good_same max stale q a ps i p p' : good max stale q a ps → ps !! i = Some p → proc_ok max stale p' → held p' = held p →
  buf p' = buf p → good max stale q a (<[i := p']> ps).
Proof.
  intros Hg Hi Hp Hh Hbf. pose proof (good_buf _ _ _ _ _ _ _ Hg Hi) as Hb. destruct Hg as [H1 H2 H3 Hbs H4 H5 H6].
  split; try done; [by apply Forall_insert| | |].
  - intros Hs. apply Forall_insert; [by apply Hbs|]. rewrite Hbf. by apply Hb.
  - rewrite (holders_insert _ _ _ p), Hh by done; lia.
  - rewrite (holders_insert _ _ _ p), Hh by done; lia.
Qed.

Lemma settle_held p rest : held (settle p rest) = LNone.
Proof. by destruct rest. Qed.
Lemma settle_buf p rest : buf (settle p rest) = buf p.
Proof. by destruct rest. Qed.

(** The change of the semaphores and of the holders agree. *)
Lemma good_sems max stale q a ps i p p' r w : good max stale q a ps → ps !! i = Some p → proc_ok max stale p' →
  buf p' = buf p →
  r = sem_r q + holding (held p') LRead - holding (held p) LRead →
  w = sem_w q + holding (held p') LWrite - holding (held p) LWrite →
  (w = 0 ∨ w = 1 ∧ r = 0) → good max stale (set_sems r w (sem_m q) q) a (<[i := p']> ps).
Proof.
  intros Hg Hi Hp Hbf -> -> Hx. pose proof (good_buf _ _ _ _ _ _ _ Hg Hi) as Hb. destruct Hg as [H1 H2 H3 Hbs H4 H5 H6].
  split; cbn; [by apply qinv_sems|done|by apply Forall_insert| | | |done].
  - intros Hs. apply Forall_insert; [by apply Hbs|]. rewrite Hbf. by apply Hb.
  - rewrite (holders_insert _ _ _ p) by done; lia.
  - rewrite (holders_insert _ _ _ p) by done; lia.
Qed.

Lemma set_sems_id q r w : r = sem_r q → w = sem_w q → set_sems r w (sem_m q) q = q.
Proof. intros -> ->. by destruct q. Qed.

(** The semaphore operations that go through. *)
Lemma lock_ok s q q' : lock s q = Ok ((), q') → let l := lock_of s in
  q' = set_sems (sem_r q + holding l LRead) (sem_w q + holding l LWrite) (sem_m q) q ∧
  (l = LWrite → sem_r q = 0) ∧ (l ≠ LNone → sem_w q = 0).
Proof.
  unfold lock. destruct (lock_of s); cbv zeta; cbn [holding].
  - intros [= <-]. split; [|done]. rewrite set_sems_id; [done|lia|lia].
  - unfold setrlock, get. erewrite bind_ok by done. cbn beta. case_test; [|done]. intros [= <-]. by rewrite Z.add_0_r.
  - unfold setwlock, get. erewrite bind_ok by done. cbn beta. case_test; [|done]. intros [= <-]. by rewrite Z.add_0_r.
Qed.
Lemma unlock_ok s q q' : unlock s q = Ok ((), q') → let l := lock_of s in
  q' = set_sems (sem_r q - holding l LRead) (sem_w q - holding l LWrite) (sem_m q) q.
Proof.
  unfold unlock. destruct (lock_of s); cbv zeta; cbn [holding].
  - intros [= <-]. rewrite set_sems_id; [done|lia|lia].
  - unfold freerlock, get. erewrite bind_ok by done. cbn beta. case_test; [|done]. intros [= <-]. by rewrite Z.sub_0_r.
  - unfold freewlock, get. erewrite bind_ok by done. cbn beta. case_test; [|done]. intros [= <-]. by rewrite Z.sub_0_r.
Qed.

Lemma good_excl max stale q a ps : good max stale q a ps → (sem_w q = 0 ∨ sem_w q = 1 ∧ sem_r q = 0) ∧ 0 ≤ sem_r q.
Proof. intros H. split; [by apply (g_excl _ _ _ _ _ H)|]. rewrite (g_readers _ _ _ _ _ H). apply holders_nonneg. Qed.

Lemma bind_inv {S A B} (m : M S A) (k : A → M S B) s r : (m ≫= k) s = Ok r → ∃ a s', m s = Ok (a, s') ∧ k a s' = Ok r.
Proof. unfold mbind, M_bind. destruct (m s) as [[a s']|]; [by eauto|done]. Qed.

Lemma proc_step_ok max fill stale q a ps i p p' q' : good max stale q a ps → ps !! i = Some p →
  proc_step (stdio fill) p q = Ok (p', q') →
  ∃ f b a', delivers stale a f ∧ spec_step max f p b a = Some (p', a') ∧ good max stale q' a' (<[i := p']> ps).
Proof.
  intros Hg Hi E. pose proof (good_lookup _ _ _ _ _ _ _ Hg Hi) as Hp. pose proof Hp as ([Hc1 Hc2] & Hpc & Ht).
  pose proof (good_buf _ _ _ _ _ _ _ Hg Hi) as Hbuf. assert (delivers stale a text) as Hd by done.
  destruct (good_excl _ _ _ _ _ Hg) as [Hx Hr]. destruct p as [c pc l xs b]; cbn in *. unfold proc_step in E. cbn in E. unfold spec_step; cbn.
  destruct pc as [|s k|s k|s rest]; cbn in Hpc.
  - destruct l as [|o l]; [done|]. apply Forall_cons in Ht as [Ho Ht]. injection E as <- <-. exists text, b, a. split; [done|]. split; [done|].
    eapply good_same; [done|done| |by rewrite settle_held|by rewrite settle_buf]. apply settle_ok; [done|by apply call_ok].
  - apply bind_inv in E as ([] & q2 & (-> & Hw & Hn)%lock_ok & [= <- <-]). exists text, b, a. split; [done|]. split; [done|].
    eapply good_sems; [done|done|done|done| | |]; unfold held; cbn; destruct (lock_of s); cbn [holding]; naive_solver lia.
  - inversion Hpc as [|s' k' Hs Hk]; subst. destruct Hg as [H1 H2 H3 Hbs H4 H5 H6]. subst max.
    destruct (sec_body_ok fill stale s c b q a H1 ltac:(lia) Hs Hbuf) as (f & b' & q2 & Hf & E2 & Hq2 & [K1 K2 K3 K4] & Hc' & Hres & Hco).
    rewrite (bind_ok _ _ _ _ _ E2) in E. exists f, b'. destruct (spec_sec (maxmsgs (q_head q)) f s c a) as [[r c'] a'] eqn:Es. cbn [fst snd] in *.
    injection E as <- <-. exists a'. split; [done|]. split; [done|]. split; try done; [| | | |by rewrite K2, K3].
    + apply Forall_insert; [done|]. split; [done|]. split; [by apply Hk|done].
    + intros Hst. destruct (Hco Hst) as [Hpre Hb']. apply Forall_insert; [|done].
      eapply Forall_impl; [by apply Hbs|]. intros p. by apply coherent_grows.
    + rewrite K2, (holders_insert _ _ _ _ _ Hi). unfold held; cbn. lia.
    + rewrite K3, (holders_insert _ _ _ _ _ Hi). unfold held; cbn. lia.
  - apply bind_inv in E as ([] & q2 & ->%unlock_ok & [= <- <-]). exists text, b, a. split; [done|]. split; [by destruct rest|].
    pose proof (holders_pos _ _ _ _ Hi eq_refl) as Hh. unfold held in Hh; cbn in Hh.
    pose proof (g_readers _ _ _ _ _ Hg). pose proof (g_writers _ _ _ _ _ Hg).
    eapply good_sems; [done|done|by apply settle_ok|by rewrite settle_buf| | |]; rewrite ?settle_held; unfold held; cbn; destruct (lock_of s) eqn:El; cbn [holding]; lia.
Qed.

(** ** Runs *)

Lemma good_reach max fill stale c c' a : rtc (step (stdio fill)) c c' → good max stale c.1 a c.2 →
  ∃ a', rtc (astep max stale) (a, c.2) (a', c'.2) ∧ good max stale c'.1 a' c'.2.
Proof.
  intros Hr. revert a. induction Hr as [|c1 c2 c3 Hs _ IH]; intros a Hg; [by exists a|].
  destruct Hs as [i p q p' q' ps Hi E]; cbn in *. destruct (proc_step_ok _ _ _ _ _ _ _ _ _ _ Hg Hi E) as (f & b & a1 & Hf & Ea & Hg1).
  destruct (IH _ Hg1) as (a' & Hr' & Hg'). exists a'. split; [|done]. eapply rtc_l; [by eapply astep_proc|done].
Qed.

(** Processes that have called nothing yet, on a handle just opened. *)
Definition fresh (max : Z) (p : proc) : Prop := at_ p = Idle ∧ 0 ≤ cursor p ≤ max ∧ Forall (qop_ok max) (todo p) ∧ buf p = no_buf.

(** A process that does not empty the queue. *)
Definition never_empties (p : proc) : Prop := Forall (λ o, ¬ empties o) (todo p).

Lemma fresh_good max stale q a ps : qinv q a → idle q → maxmsgs (q_head q) = max → Forall (fresh max) ps →
  stale = true ∨ Forall never_empties ps → good max stale q a ps.
Proof.
  intros Hq [Hr Hw] Hm Hps Hst. assert (∀ l, l ≠ LNone → holders l ps = 0) as H0.
  { intros l Hl. unfold holders. clear Hst. induction Hps as [|p ps [Hp _] _ IH]; [done|]. rewrite filter_cons_False; [done|].
    unfold held. by rewrite Hp. }
  split; [done|done| | |by rewrite H0|by rewrite H0|by left]; rewrite Forall_forall in Hps.
  - apply Forall_forall. intros p Hp. destruct (Hps p Hp) as (E & Hc & Ht & _).
    split; [done|]. rewrite E. split; [done|]. rewrite Forall_forall in Ht. apply Forall_forall. intros o Ho. split; [by apply Ht|].
    intros He. destruct Hst as [|Hn]; [done|]. rewrite Forall_forall in Hn. specialize (Hn p Hp). unfold never_empties in Hn.
    rewrite Forall_forall in Hn. by destruct (Hn o Ho).
  - intros _. apply Forall_forall. intros p Hp. by destruct (Hps p Hp) as (_ & _ & _ & ->).
Qed.

Lemma holders_two l ps i j p p' : l ≠ LNone → i ≠ j → ps !! i = Some p → ps !! j = Some p' → held p = l → held p' = l →
  2 ≤ holders l ps.
Proof.
  intros Hl Hne Hi Hj <- Hp'. pose proof (holders_pos (held p) (<[i := Proc 0 Idle [] [] no_buf]> ps) j p') as H.
  rewrite list_lookup_insert_ne, (holders_insert _ _ _ p) in H by done. specialize (H Hj Hp').
  destruct (held p); [done|simpl in H; lia..].
Qed.

Lemma good_exclusive max stale q a ps i j p p' : good max stale q a ps → i ≠ j → ps !! i = Some p → ps !! j = Some p' →
  held p = LWrite → held p' = LNone.
Proof.
  intros Hg Hne Hi Hj Hp. destruct (good_excl _ _ _ _ _ Hg) as [Hx _]. pose proof (holders_pos _ _ _ _ Hi Hp) as H1.
  rewrite <- (g_writers _ _ _ _ _ Hg) in H1. destruct (held p') eqn:E; [done| |].
  - pose proof (holders_pos _ _ _ _ Hj E) as H2. rewrite <- (g_readers _ _ _ _ _ Hg) in H2. lia.
  - pose proof (holders_two LWrite ps i j p p') as H2. rewrite <- (g_writers _ _ _ _ _ Hg) in H2. lia || (specialize (H2 ltac:(done) Hne Hi Hj Hp E); lia).
Qed.

(** When a process cannot step it has finished or waits for a lock that is taken. *)
Lemma proc_stuck max fill stale q a ps i p f : good max stale q a ps → ps !! i = Some p → proc_step (stdio fill) p q = Fault f →
  at_ p = Idle ∧ todo p = [] ∨ ∃ s k, at_ p = Want s k ∧ lock_of s ≠ LNone ∧ (sem_w q ≠ 0 ∨ lock_of s = LWrite ∧ sem_r q ≠ 0).
Proof.
  intros Hg Hi E. pose proof (good_lookup _ _ _ _ _ _ _ Hg Hi) as (Hc & Hpc & Ht). 
  pose proof (holders_pos _ _ _ _ Hi eq_refl) as Hh. pose proof (g_readers _ _ _ _ _ Hg) as Hr. pose proof (g_writers _ _ _ _ _ Hg) as Hw.
  destruct p as [c pc l xs bf]; cbn in *. unfold proc_step in E; cbn in E.
  destruct pc as [|s k|s k|s rest]; cbn in Hpc.
  - left. by destruct l.
  - right. exists s, k. split; [done|]. revert E. unfold lock. destruct (lock_of s).
    + done.
    + unfold setrlock, get. rewrite bind_assoc. erewrite bind_ok by done. cbn beta. case_test; [done|]. auto.
    + unfold setwlock, get. rewrite bind_assoc. erewrite bind_ok by done. cbn beta. case_test; [done|]. intros _. split; [done|].
      apply andb_false_iff in Heqb as [H|H]; btests; auto.
  - inversion Hpc as [|s' k' Hs Hk]; subst. 
    destruct (sec_body_ok fill stale s c bf q a) as (f' & b' & q2 & _ & E2 & _); [apply Hg|by rewrite (g_max _ _ _ _ _ Hg)..|by apply (good_buf _ _ _ _ _ _ _ Hg Hi)|].
    rewrite (bind_ok _ _ _ _ _ E2) in E. by destruct (spec_sec _ _ s c a) as [[? ?] ?].
  - exfalso. revert E. unfold held in Hh; cbn in Hh. unfold unlock. destruct (lock_of s).
    + done.
    + unfold freerlock, get. rewrite bind_assoc. erewrite bind_ok by done. cbn beta. case_test; [done|lia].
    + unfold freewlock, get. rewrite bind_assoc. erewrite bind_ok by done. cbn beta. case_test; [done|lia].
Qed.

Lemma held_steps max fill stale q a ps i p : good max stale q a ps → ps !! i = Some p → held p ≠ LNone → ∃ c, step (stdio fill) (q, ps) c.
Proof.
  intros Hg Hi Hp. destruct (proc_step (stdio fill) p q) as [[p' q']|f] eqn:E; [eexists; by eapply step_proc|].
  unfold held in Hp. destruct (proc_stuck _ _ _ _ _ _ _ _ _ Hg Hi E) as [[H _]|(s & k & H & _)]; by rewrite H in Hp.
Qed.

Lemma holder_exists l ps : holders l ps ≠ 0 → ∃ i p, ps !! i = Some p ∧ held p = l.
Proof.
  intros H. unfold holders in H. destruct (filter (λ p, held p = l) ps) as [|p ps'] eqn:E; [done|].
  assert (p ∈ filter (λ p, held p = l) ps) as Hp by (rewrite E; left). apply list_elem_of_filter in Hp as [Hp Hin].
  apply list_elem_of_lookup in Hin as [i Hi]. by exists i, p.
Qed.

Lemma all_finished max fill stale q a ps : good max stale q a ps → (∀ c, ¬ step (stdio fill) (q, ps) c) → Forall (λ p, at_ p = Idle ∧ todo p = []) ps.
Proof.
  intros Hg Hno. apply Forall_lookup. intros i p Hi.
  destruct (proc_step (stdio fill) p q) as [[p' q']|f] eqn:E; [exfalso; eapply Hno; by eapply step_proc|].
  destruct (proc_stuck _ _ _ _ _ _ _ _ _ Hg Hi E) as [?|(s & k & _ & _ & H)]; [done|]. exfalso.
  assert (∃ l, l ≠ LNone ∧ holders l ps ≠ 0) as (l & Hl & Hh).
  { rewrite (g_readers _ _ _ _ _ Hg), (g_writers _ _ _ _ _ Hg) in H. destruct H as [H|[_ H]]; [by exists LWrite|by exists LRead]. }
  apply holder_exists in Hh as (j & p' & Hj & <-). destruct (held_steps _ fill _ _ _ _ _ _ Hg Hj Hl) as [c Hc]. by eapply Hno.
Qed.

(** ** Every schedule comes to an end *)

(** A program with at most [n] sections before its answer. *)
Fixpoint sections_le (n : nat) (p : prog) : Prop :=
  match p, n with
  | Answer _, _ => True
  | Section_ _ k, O => False
  | Section_ _ k, S n => ∀ r, sections_le n (k r)
  end.
(** The steps a process may still take. *)
Definition rank_le (n : nat) (p : proc) : Prop :=
  let rest := (7 * length (todo p))%nat in
  match at_ p with
  | Idle => (rest ≤ n)%nat
  | Want s k => ∃ d, sections_le d (Section_ s k) ∧ (3 * d + rest ≤ n)%nat
  | Inside s k => ∃ d, (∀ r, sections_le d (k r)) ∧ (3 * d + 2 + rest ≤ n)%nat
  | Leaving s p' => ∃ d, sections_le d p' ∧ (3 * d + 1 + rest ≤ n)%nat
  end.

Lemma code_answer_sections n r : sections_le n (code_answer r).
Proof. by destruct n, r. Qed.
#[local] Hint Resolve code_answer_sections : core.
Lemma call_sections o : sections_le 2 (call o).
Proof.
  destruct o as [|mode| | | |]; intros r; destruct r as [|n| |[|]]; try done; cbn;
    [destruct (has_flag _ _)|destruct (n =? 0)]; try done; intros r'; by destruct r'.
Qed.

Lemma settle_rank d p rest : sections_le d rest → rank_le (3 * d + 7 * length (todo p)) (settle p rest).
Proof. destruct rest as [x|s k]; unfold rank_le; simpl; [lia|]. intros H. exists d. split; [done|lia]. Qed.

Lemma rank_more n m p : (n ≤ m)%nat → rank_le n p → rank_le m p.
Proof. unfold rank_le. destruct (at_ p); [lia|naive_solver lia..]. Qed.

Lemma proc_step_rank rd n p q p' q' : rank_le n p → proc_step rd p q = Ok (p', q') → ∃ m, (m < n)%nat ∧ rank_le m p'.
Proof.
  intros Hn E. destruct p as [c pc l xs bf]; unfold proc_step in E; unfold rank_le in Hn; cbn in *. destruct pc as [|s k|s k|s rest].
  - destruct l as [|o l]; [done|]. injection E as <- <-. exists (n - 1)%nat. split; [simpl in Hn; lia|].
    eapply rank_more; [|apply settle_rank, call_sections]. simpl in *. lia.
  - apply bind_inv in E as ([] & q2 & _ & [= <- <-]). destruct Hn as ([|d] & Hd & Hn); [done|].
    exists (n - 1)%nat. split; [lia|]. exists d. split; [done|cbn; lia].
  - apply bind_inv in E as ([[r c'] b'] & q2 & _ & [= <- <-]). destruct Hn as (d & Hd & Hn).
    exists (n - 1)%nat. split; [lia|]. exists d. split; [done|cbn; lia].
  - apply bind_inv in E as ([] & q2 & _ & [= <- <-]). destruct Hn as (d & Hd & Hn).
    exists (n - 1)%nat. split; [lia|]. eapply rank_more; [|by apply settle_rank]. cbn. lia.
Qed.

Lemma step_rank rd c c' ns : step rd c c' → Forall2 rank_le ns c.2 → ∃ ns', Forall2 rank_le ns' c'.2 ∧ (sum_list ns' < sum_list ns)%nat.
Proof.
  intros [i p q p' q' ps Hi E] HF; cbn in *. revert i Hi. induction HF as [|n p0 ns ps Hn HF IH]; intros [|i] Hi; simplify_eq/=.
  - destruct (proc_step_rank _ _ _ _ _ _ Hn E) as (m & Hm & Hr). exists (m :: ns). split; [by constructor|simpl; lia].
  - destruct (IH _ Hi) as (ns' & HF' & Hs). exists (n :: ns'). split; [by constructor|simpl; lia].
Qed.

Lemma steps_rank rd k c c' ns : nsteps (step rd) k c c' → Forall2 rank_le ns c.2 → (k ≤ sum_list ns)%nat.
Proof.
  intros Hr. revert ns. induction Hr as [c|k c1 c2 c3 Hs _ IH]; intros ns HF; [lia|].
  destruct (step_rank _ _ _ _ Hs HF) as (ns' & HF' & Hlt). specialize (IH _ HF'). lia.
Qed.

(** ** Schedules as lists *)

Definition sched_step (rd : reader) (i : nat) (c : config) : option config :=
  match c.2 !! i with
  | Some p => match proc_step rd p c.1 with Ok (p', q') => Some (q', <[i := p']> c.2) | Fault _ => None end
  | None => None
  end.
Fixpoint sched (rd : reader) (l : list nat) (c : config) : option config :=
  match l with [] => Some c | i :: l' => match sched_step rd i c with Some c' => sched rd l' c' | None => None end end.

Lemma sched_sound rd l c c' : sched rd l c = Some c' → nsteps (step rd) (length l) c c'.
Proof.
  revert c. induction l as [|i l IH]; intros [q ps]; simpl; [intros [= ->]; constructor|]. unfold sched_step; cbn.
  destruct (ps !! i) as [p|] eqn:Hi; [|done]. destruct (proc_step rd p q) as [[p' q']|] eqn:E; [|done].
  intros H. eapply nsteps_l; [by eapply step_proc|by apply IH].
Qed.

Definition fresh_proc (l : list qop) : proc := Proc 0 Idle l [] no_buf.

Lemma fresh_proc_ok max l : 0 ≤ max → Forall (qop_ok max) l → fresh max (fresh_proc l).
Proof. intros Hm Hl. split; [done|]. split; [cbn; lia|]. done. Qed.

(** A library that fills a buffer of 4096 bytes. *)
Definition block (off len : Z) : Z * Z := (off / 4096 * 4096, 4096).

(** ** Properties *)

(** C18: processes that share a queue, each with a buffered stream on the file, act on it as
    if every section of every call happened at once on the abstract queue, whatever the
    schedule and whatever the library reads ahead; the file stays well formed, a process in a
    write section excludes all others, and no call faults: a process that cannot step has
    finished or waits for a lock.  The bytes that a get delivers are those of the message as
    long as no process empties the queue; otherwise only their number is right, since a
    buffer can hold bytes from before ([dta_stale_read]). *)
Theorem dta_processes_atomic max fill stale q a ps q' ps' :
  qinv q a → idle q → maxmsgs (q_head q) = max → Forall (fresh max) ps →
  stale = true ∨ Forall never_empties ps →
  rtc (step (stdio fill)) (q, ps) (q', ps') →
  ∃ a', rtc (astep max stale) (a, ps) (a', ps') ∧ qinv q' a' ∧
    (∀ i j p p', i ≠ j → ps' !! i = Some p → ps' !! j = Some p' → held p = LWrite → held p' = LNone) ∧
    (∀ i p f, ps' !! i = Some p → proc_step (stdio fill) p q' = Fault f → at_ p = Idle ∧ todo p = [] ∨ ∃ s k, at_ p = Want s k).
Proof.
  intros Hq Hi Hm Hps Hst Hr. pose proof (fresh_good _ _ _ _ _ Hq Hi Hm Hps Hst) as Hg.
  destruct (good_reach max fill stale _ _ a Hr Hg) as (a' & Ha & Hg'); cbn in *. exists a'. split; [done|]. split; [apply Hg'|]. split.
  - intros i j p p' Hne H1 H2 H3. by eapply (good_exclusive _ _ _ _ _ i j).
  - intros i p f H1 H2. destruct (proc_stuck _ _ _ _ _ _ _ _ _ Hg' H1 H2) as [?|(s & k & ? & _)]; eauto.
Qed.

(** One process that puts and gets, and one that asks. *)
Definition demo_procs : list proc := [fresh_proc [OPut [65] 1; OGet 5]; fresh_proc [OAsk]].
Definition demo_schedule : list nat := [0; 0; 0; 1; 0; 0; 1; 0; 0; 1; 0; 0; 0; 0; 1]%nat.
Definition demo_start : config := (new_queue 1, demo_procs).
Definition demo_mid : config := default demo_start (sched (stdio block) (take 8 demo_schedule) demo_start).

Lemma demo_procs_fresh : Forall (fresh 1) demo_procs.
Proof. repeat constructor; simpl; lia. Qed.

Lemma dta_processes_atomic_witness : ∃ a', rtc (astep 1 false) ([], demo_procs) (a', demo_mid.2) ∧ qinv demo_mid.1 a' ∧
  (log <$> demo_mid.2) = [[ACode 0]; []].
Proof.
  destruct (new_queue_inv 1) as [Hq Hi].
  assert (rtc (step (stdio block)) demo_start (demo_mid.1, demo_mid.2)) as Hr.
  { eapply rtc_nsteps_2, (sched_sound _ (take 8 demo_schedule)). vm_compute. reflexivity. }
  assert (false = true ∨ Forall never_empties demo_procs) as Hn by (right; repeat constructor; intros [?|?]; done).
  destruct (dta_processes_atomic 1 block false (new_queue 1) [] demo_procs _ _ Hq Hi eq_refl demo_procs_fresh Hn Hr) as (a' & Ha & Hq' & _).
  exists a'. split; [done|]. split; [done|]. vm_compute. reflexivity.
Defined.

(** C19: every schedule ends after at most seven steps per call, and it can only end with
    every call of every process answered: there is no deadlock. *)
Theorem dta_processes_finish max fill q a ps k q' ps' :
  qinv q a → idle q → maxmsgs (q_head q) = max → Forall (fresh max) ps → nsteps (step (stdio fill)) k (q, ps) (q', ps') →
  (k ≤ 7 * sum_list ((λ p, length (todo p)) <$> ps))%nat ∧
  ((∀ c, ¬ step (stdio fill) (q', ps') c) → Forall (λ p, at_ p = Idle ∧ todo p = []) ps').
Proof.
  intros Hq Hi Hm Hps Hr. split.
  - transitivity (sum_list ((λ p, 7 * length (todo p))%nat <$> ps)).
    + eapply steps_rank; [done|]. cbn. apply Forall2_fmap_l, Forall_Forall2_diag. eapply Forall_impl; [done|].
      intros p [E _]. change (rank_le (7 * length (todo p))%nat p). unfold rank_le. by rewrite E.
    + clear. induction ps as [|p ps IH]; [done|]. rewrite !fmap_cons. cbn [sum_list_with]. unfold id in *. lia.
  - intros Hstuck. pose proof (fresh_good _ true _ _ _ Hq Hi Hm Hps (or_introl eq_refl)) as Hg.
    destruct (good_reach max fill true _ _ a (rtc_nsteps_2 _ _ _ Hr) Hg) as (a' & _ & Hg'); cbn in *. by eapply all_finished.
Qed.

(** Four calls, two of them a cleaning and an inquiry. *)
Definition clean_procs : list proc := [fresh_proc [OPut [65] 1; OGet 5]; fresh_proc [OClean; OAsk]].
Definition clean_schedule : list nat := [0; 0; 0; 1; 0;  1; 1; 1;  0; 0; 0; 0; 0; 0; 0;  1; 1; 1; 1]%nat.
Definition clean_end : config := default demo_start (sched (stdio block) clean_schedule (new_queue 1, clean_procs)).

Lemma clean_procs_fresh : Forall (fresh 1) clean_procs.
Proof. repeat constructor; simpl; lia. Qed.

Lemma dta_processes_finish_witness : (19 ≤ 7 * 4)%nat ∧
  ((∀ c, ¬ step (stdio block) (clean_end.1, clean_end.2) c) → Forall (λ p, at_ p = Idle ∧ todo p = []) clean_end.2).
Proof.
  destruct (new_queue_inv 1) as [Hq Hi].
  apply (dta_processes_finish 1 block (new_queue 1) [] clean_procs 19 clean_end.1 clean_end.2 Hq Hi eq_refl clean_procs_fresh).
  apply (sched_sound _ clean_schedule). vm_compute. reflexivity.
Defined.

(** The calls of two sections are not atomic.  [DTA_CLEANQ] empties a queue into which
    another process put a message after its test; and between the read and the deletion of a
    [DTAGMO_DELETEAFTERREAD] another process can get the same message and put one in its
    entry: the first message is delivered twice, the second is deleted unread, and every call
    reports success. *)
Theorem dta_section_races :
  (∃ q p0 p1, rtc (step (stdio block)) (new_queue 1, [fresh_proc [OClean]; fresh_proc [OPut [65] 0; OAsk]]) (q, [p0; p1]) ∧
    log p0 = [ACode 0] ∧ log p1 = [ACode 0; AAsked 1 0] ∧ livmsgs (q_head q) = 0) ∧
  (∃ q p0 p1, rtc (step (stdio block)) (new_queue 1, [fresh_proc [OPut [65] 0; OGet 5]; fresh_proc [OGet 5; OPut [66] 0; OAsk]]) (q, [p0; p1]) ∧
    log p0 = [ACode 0; AGot 0 (Some (Some [65], 1, 0))] ∧
    log p1 = [AGot 0 (Some (Some [65], 1, 0)); ACode 0; AAsked 1 0] ∧ livmsgs (q_head q) = 0).
Proof.
  split; eexists _, _, _.
  - split; [eapply rtc_nsteps_2, (sched_sound _ [0; 0; 0; 0; 1; 1; 1; 1; 0; 0; 0; 1; 1; 1; 1]%nat); vm_compute; reflexivity|done].
  - split; [eapply rtc_nsteps_2, (sched_sound _ [0; 0; 0; 0;  0; 0; 0; 0;  1; 1; 1; 1; 1; 1; 1;  1; 1; 1; 1;  0; 0; 0;  1; 1; 1; 1]%nat);
      vm_compute; reflexivity|done].
Qed.

(** A get can deliver a message that is long gone: the second process read a message, which
    left its bytes in the buffer of its stream; the first emptied the queue and put another
    message, at the same place of the file; the second then gets the old bytes with the
    length and the priority of the new message, although the calls did not overlap. *)
Theorem dta_stale_read :
  ∃ q p0 p1, rtc (step (stdio block)) (new_queue 1, [fresh_proc [OPut [65] 0; OEmpty; OPut [66] 0]; fresh_proc [OGet 1; OGet 1]]) (q, [p0; p1]) ∧
    log p0 = [ACode 0; ACode 0; ACode 0] ∧ q_data q = [66] ∧
    log p1 = [AGot 0 (Some (Some [65], 1, 0)); AGot 0 (Some (Some [65], 1, 0))].
Proof.
  eexists _, _, _. split; [|split_and!].
  - eapply rtc_nsteps_2, (sched_sound _ [0; 0; 0; 0;  1; 1; 1; 1;  0; 0; 0; 0; 0; 0; 0; 0;  1; 1; 1; 1]%nat). vm_compute. reflexivity.
  - done.
  - done.
  - done.
Qed.
