(* ===== verification/Net.v ===== *)
(** Two programs at the ends of a stream socket: programs that send, receive and work on a
    local state, the steps of a connected pair, and the proof that the order in which the two
    sides run does not matter. *)
From S2P Require Import Prelude CLib.

(** ** Programs *)

(** [Recv n] is a [readn] of [n] bytes: it gets fewer only when the other side has ended. *)
Inductive net (S A : Type) : Type :=
  | Ret (a : A)
  | State (f : S → net S A * S)
  | Send (bs : list Z) (p : net S A)
  | Recv (n : Z) (k : list Z → net S A)
  | Halt (f : fault).
Arguments Ret {_ _} _.
Arguments State {_ _} _.
Arguments Send {_ _} _ _.
Arguments Recv {_ _} _ _.
Arguments Halt {_ _} _.

Fixpoint net_bind {S A B} (k : A → net S B) (p : net S A) : net S B :=
  match p with
  | Ret a => k a
  | State f => State (λ s, match f s with (p', s') => (net_bind k p', s') end)
  | Send bs p' => Send bs (net_bind k p')
  | Recv n k' => Recv n (λ bs, net_bind k (k' bs))
  | Halt f => Halt f
  end.
#[export] Instance net_ret S : MRet (net S) := λ A a, Ret a.
#[export] Instance net_mbind S : MBind (net S) := λ A B k p, net_bind k p.

Definition send {S} (bs : list Z) : net S () := Send bs (Ret ()).
Definition recv {S} (n : Z) : net S (list Z) := Recv n Ret.
Definition act {S A} (f : S → A * S) : net S A := State (λ s, (Ret (f s).1, (f s).2)).
Definition asks {S A} (f : S → A) : net S A := State (λ s, (Ret (f s), s)).
Definition halt {S A} (f : fault) : net S A := Halt f.
(** A computation of the state monad as a step of a program. *)
Definition lift {S A} (m : M S A) : net S A :=
  State (λ s, match m s with Ok (a, s') => (Ret a, s') | Fault f => (Halt f, s) end).

(** ** A connected pair *)

Record side (S A : Type) := Side { prg : net S A; local : S; inbox : list Z }.
Arguments Side {_ _} _ _ _.
Arguments prg {_ _} _.
Arguments local {_ _} _.
Arguments inbox {_ _} _.

Definition ended {S A} (p : net S A) : bool := match p with Ret _ | Halt _ => true | _ => false end.

(** A step of one side, with what it sends; [over] says that the other side has ended. *)
Definition side_step {S A} (over : bool) (x : side S A) : option (side S A * list Z) :=
  match prg x with
  | Ret _ | Halt _ => None
  | State f => let '(p, s) := f (local x) in Some (Side p s (inbox x), [])
  | Send bs p => Some (Side p (local x) (inbox x), bs)
  | Recv n k =>
      if n <=? zlen (inbox x) then Some (Side (k (take (Z.to_nat n) (inbox x))) (local x) (drop (Z.to_nat n) (inbox x)), [])
      else if over then Some (Side (k (inbox x)) (local x) [], [])
      else None
  end.
Definition deliver {S A} (bs : list Z) (x : side S A) : side S A := Side (prg x) (local x) (inbox x ++ bs).

Section pair.
Context {S A T B : Type}.
Definition pair_conf : Type := side S A * side T B.
Definition done_l (c : pair_conf) : bool := ended (prg c.1).
Definition done_r (c : pair_conf) : bool := ended (prg c.2).

Inductive pstep : pair_conf → pair_conf → Prop :=
  | left_step x y x' bs : side_step (ended (prg y)) x = Some (x', bs) → pstep (x, y) (x', deliver bs y)
  | right_step x y y' bs : side_step (ended (prg x)) y = Some (y', bs) → pstep (x, y) (deliver bs x, y').

(** What one side can do it can still do, with the same effect, after the other has sent. *)
Lemma side_step_deliver {S' A'} over over' (x : side S' A') x' bs cs : side_step over x = Some (x', bs) →
  (over = true → over' = true) → (over = true → cs = []) → side_step over' (deliver cs x) = Some (deliver cs x', bs).
Proof.
  intros E Ho Hcs. destruct x as [p s i]; unfold side_step, deliver in *; cbn in *. destruct p as [a|f|ds p|n k|f]; try done.
  - destruct (f s). by simplify_eq.
  - by simplify_eq.
  - destruct (Z.leb_spec n (zlen i)) as [Hn|Hn].
    + simplify_eq. cbn. rewrite (proj2 (Z.leb_le _ _)) by (rewrite zlen_app; pose proof (zlen_nonneg cs); lia).
      unfold zlen in Hn. rewrite take_app_le, drop_app_le by lia. done.
    + destruct over; [|done]. rewrite Hcs, app_nil_r, (proj2 (Z.leb_gt _ _)), Ho by done. by simplify_eq.
Qed.

Lemma side_step_not_ended {S' A'} over (x : side S' A') r : side_step over x = Some r → ended (prg x) = false.
Proof. unfold side_step. by destruct (prg x). Qed.

Lemma pstep_diamond c c1 c2 : pstep c c1 → pstep c c2 → c1 = c2 ∨ ∃ d, pstep c1 d ∧ pstep c2 d.
Proof.
  assert (∀ x y x' bs y' cs, side_step (ended (prg y)) x = Some (x', bs) → side_step (ended (prg x)) y = Some (y', cs) →
    ∃ d, pstep (x', deliver bs y) d ∧ pstep (deliver cs x, y') d) as Hd.
  { intros x y x' bs y' cs E1 E2. pose proof (side_step_not_ended _ _ _ E1) as N1. pose proof (side_step_not_ended _ _ _ E2) as N2.
    rewrite N1 in E2. rewrite N2 in E1. exists (deliver cs x', deliver bs y'). split.
    - apply right_step. eapply side_step_deliver; done.
    - apply left_step. eapply side_step_deliver; done. }
  intros [x y x' bs E1|x y y' bs E1] H; inversion H as [? ? x2 bs2 E2|? ? y2 bs2 E2]; subst.
  - left. congruence.
  - right. by apply Hd.
  - right. destruct (Hd x y x2 bs2 y' bs) as (d & ? & ?); eauto.
  - left. congruence.
Qed.

Definition stuck (c : pair_conf) : Prop := ∀ c', ¬ pstep c c'.

(** When one run ends, every run can be completed to it, and all have its length. *)
Lemma pstep_confluent k c d m c' : nsteps pstep k c d → stuck d → nsteps pstep m c c' → ∃ r, (m + r = k)%nat ∧ nsteps pstep r c' d.
Proof.
  revert c m c'. induction k as [|k IH]; intros c m c' Hk Hd Hm.
  - inversion Hk; subst. destruct Hm as [|m ? e ? He _]; [by exists 0%nat; split; [|constructor]|]. by apply Hd in He.
  - inversion Hk as [|k0 ? c1 ? H1 Hk1]; subst. destruct Hm as [|m c e c' He Hm]; [by exists (Datatypes.S k)|].
    assert (nsteps pstep k e d) as He'; [|destruct (IH _ _ _ He' Hd Hm) as (r & <- & Hr); by exists r].
    destruct (pstep_diamond _ _ _ H1 He) as [->|(f & Hf1 & Hf2)]; [done|].
    destruct (IH _ 1%nat f Hk1 Hd) as (r & <- & Hr); [by apply nsteps_once|]. simpl. by eapply nsteps_l.
Qed.

Lemma ended_stuck c : done_l c = true → done_r c = true → stuck c.
Proof.
  intros H1 H2 c' H. destruct H as [x y x' bs E|x y y' bs E]; apply side_step_not_ended in E; unfold done_l, done_r in *; cbn in *; congruence.
Qed.

(** The outcome of a pair: every run can be completed to [d], in which both sides have ended. *)
Definition always_ends (c d : pair_conf) : Prop :=
  done_l d = true ∧ done_r d = true ∧ ∃ k, ∀ m c', nsteps pstep m c c' → (m ≤ k)%nat ∧ nsteps pstep (k - m) c' d.

Lemma run_ends c d : rtc pstep c d → done_l d = true → done_r d = true → always_ends c d.
Proof.
  intros Hr H1 H2. split; [done|]. split; [done|]. apply rtc_nsteps_1 in Hr as [k Hk]. exists k. intros m c' Hm.
  destruct (pstep_confluent _ _ _ _ _ Hk (ended_stuck _ H1 H2) Hm) as (r & <- & Hr). split; [lia|].
  by replace (m + r - m)%nat with r by lia.
Qed.
End pair.
Arguments pair_conf : clear implicits.
