(* ===== verification/DtaNet.v ===== *)
(** The DTA transport over a socket: the client calls of [dtalib.c] ([DTA_PUT], [DTA_GET],
    [DTA_RCMD], [DTA_SENDMSG]), the server process [tcpget] of [dtaserver.c], and the queue
    sender [sendq] of [dtaqm.c]. *)
From S2P Require Import Prelude CLib Net DtaQueue.

(** ** Bytes of the protocol *)

Definition SMSGLEN : Z := 200.
Definition BUFFERLENGTH : Z := 16384.

Definition smsg (s : list Z) : list Z := strncpy SMSGLEN s.

(** The string in a buffer that [sprintf] or [strcmp] reads to its end. *)
Definition cstring {S} (buf : list Z) : net S (list Z) :=
  if bool_decide (0 ∈ buf) then mret (cstr buf) else halt (UB "string without terminator").
(** [sprintf] into an array of [n] bytes. *)
Definition sprintf {S} (n : Z) (s : list Z) : net S (list Z) :=
  if zlen s <? n then mret s else halt (UB "sprintf beyond the array").

(** [readn] of an [int] whose result is not tested. *)
Definition recv_int {S} : net S Z :=
  bs ← recv 4; if zlen bs =? 4 then mret (of_be32 bs) else halt (UB "int read in part").

(** ** [readn] and [writen] *)

(** What [read] gives call after call: the bytes that have arrived in one piece; an empty
    piece is the end of the stream, an error or the alarm. *)
Fixpoint readn (pieces : list (list Z)) (nleft : Z) : list Z * list (list Z) :=
  match pieces with
  | [] => ([], [])
  | piece :: pieces' =>
      if nleft <=? 0 then ([], pieces) else
      let nread := Z.min (zlen piece) nleft in
      if nread =? 0 then ([], pieces') else
      if zlen piece <=? nleft then
        let '(bs, rest) := readn pieces' (nleft - nread) in (piece ++ bs, rest)
      else (take (Z.to_nat nread) piece, drop (Z.to_nat nread) piece :: pieces')
  end.

(** [results] is what [write] can take call after call, 0 or less when it fails: the value
    returned and the bytes that were sent. *)
Fixpoint write_loop (results : list Z) (bs : list Z) : list Z :=
  match results with
  | [] => []
  | r :: results' =>
      if zlen bs <=? 0 then [] else
      if r <=? 0 then [] else
      take (Z.to_nat r) bs ++ write_loop results' (drop (Z.to_nat r) bs)
  end.
Definition writen (results : list Z) (bs : list Z) : Z * list Z := (zlen bs, write_loop results bs).

(** ** Hosts *)

(** A queue file; [qf_sems] says whether its semaphore set exists. *)
Record qfile := QFile { qf_sems : bool; qf_queue : queue }.
Record host := Host { files : gmap (list Z) (list Z); qfiles : gmap (list Z) qfile; dtapath : list Z; hostname : list Z }.
Definition set_files (f : gmap (list Z) (list Z)) (h : host) : host := Host f (qfiles h) (dtapath h) (hostname h).
Definition set_qfiles (q : gmap (list Z) qfile) (h : host) : host := Host (files h) q (dtapath h) (hostname h).

(** [strrchr(s,'/')+1], or [s] when it has no slash. *)
Fixpoint before_slash (r : list Z) : list Z :=
  match r with [] => [] | c :: r' => if c =? 47 then [] else c :: before_slash r' end.
Definition basename (s : list Z) : list Z := reverse (before_slash (reverse s)).
Definition has_slash (s : list Z) : bool := bool_decide (47 ∈ s).

Definition put_file (name d : list Z) : net host () := act (λ h, ((), set_files (<[name := d]> (files h)) h)).
Definition get_file (name : list Z) : net host (option (list Z)) := asks (λ h, files h !! name).

(** ** Files over the socket *)

(** [fread] and [writen] of one buffer of [size] bytes after another, to the end of the file. *)
Fixpoint send_blocks (size : Z) (fuel : nat) (rest : list Z) : net host () :=
  match fuel with
  | O => halt NoFuel
  | Datatypes.S fuel =>
      let buf := take (Z.to_nat size) rest in
      let readsize := zlen buf in
      if readsize =? 0 then mret ()
      else
        _ ← send buf;
        if readsize <? size then mret ()   (* feof *)
        else send_blocks size fuel (drop (Z.to_nat size) rest)
  end.
Definition send_file : nat → list Z → net host () := send_blocks BUFFERLENGTH.

(** [readn] of at most [size] bytes and [fwrite] to the end of the file [name] while
    [readtotal] is below [filelength]; false when nothing came. *)
Fixpoint recv_blocks (size : Z) (fuel : nat) (name : list Z) (readtotal filelength : Z) : net host bool :=
  match fuel with
  | O => halt NoFuel
  | Datatypes.S fuel =>
      if readtotal <? filelength then
        bs ← recv (if filelength - readtotal <? size then filelength - readtotal else size);
        if zlen bs =? 0 then mret false
        else
          _ ← act (λ h, ((), set_files (<[name := default [] (files h !! name) ++ bs]> (files h)) h));
          recv_blocks size fuel name (readtotal + zlen bs) filelength
      else mret true
  end.
Definition recv_file : nat → list Z → Z → Z → net host bool := recv_blocks BUFFERLENGTH.
Definition file_fuel (filelength : Z) : nat := Datatypes.S (Z.to_nat filelength).

(** [fopen(name,"a+b")]: creates the file when there is none. *)
Definition open_append (name : list Z) : net host () :=
  act (λ h, ((), set_files (<[name := default [] (files h !! name)]> (files h)) h)).

(** [st_size] as an [int]; -1 for a file that is not there. *)
Definition st_size (d : list Z) : Z := wrap_s 32 (zlen d).

(** ** The client calls *)

Definition DTARC_SOCKETREAD_ERROR : Z := 2024.
Record DTAFTINFO := FtInfo { ft_filesize : Z; ft_startpos : Z }.

Section client.
(** [sizeof(time_t)] of the platform. *)
Context (SIZEOF_time_t : Z).

(** [writen] of the [time_t] whose first four bytes are the [int] given. *)
Definition send_time_t (z : Z) : net host () :=
  if SIZEOF_time_t =? 4 then send (be32 z) else halt (UB "an int read or written as a time_t").
Definition recv_time_t : net host Z :=
  if SIZEOF_time_t =? 4 then recv_int else halt (UB "an int read or written as a time_t").

(** [mtime] is the modification time [stat] gives. *)
Definition DTA_PUT (sourcefile targetfile : list Z) (mtime : Z) : net host (Z * option DTAFTINFO) :=
  _ ← send (smsg (bytes "putfile"));
  _ ← send (smsg sourcefile);
  _ ← send (smsg targetfile);
  st ← get_file sourcefile;
  match st with
  | None => halt (UB "stat failed: size not set")
  | Some d =>
      let filelength := st_size d in
      _ ← send (be32 filelength);
      _ ← send_time_t mtime;
      bs ← recv 4;
      if negb (zlen bs =? 4) then mret (DTARC_SOCKETREAD_ERROR, None) else
      let startpos := of_be32 bs in
      if startpos <? 0 then mret (DTARC_FILESEEK_ERROR, None) else
      _ ← send_file (S (length d)) (drop (Z.to_nat startpos) d);
      bs ← recv 1;
      if negb (zlen bs =? 1) then mret (DTARC_SOCKETREAD_ERROR, None) else
      if bool_decide (bs = bytes "0") then mret (-1, None) else
      mret (0, Some (FtInfo filelength startpos))
  end.
End client.

Definition tmp_name (targetfile : list Z) : net host (list Z) :=
  path ← asks dtapath;
  if has_slash targetfile then sprintf 200 targetfile
  else sprintf 200 (path ++ bytes "/tmp/" ++ targetfile).

Definition DTA_GET (sourcefile targetfile : list Z) : net host (Z * option DTAFTINFO) :=
  _ ← send (smsg (bytes "getfile"));
  _ ← send (smsg sourcefile);
  tmpfile ← tmp_name targetfile;
  st ← get_file tmpfile;
  let startpos := match st with None => 0 | Some d => st_size d end in
  _ ← send (be32 startpos);
  bs ← recv 4;
  if negb (zlen bs =? 4) then mret (DTARC_SOCKETREAD_ERROR, None) else
  let filelength := of_be32 bs in
  if filelength <? 0 then mret (DTARC_FILEOPEN_ERROR, None) else
  _ ← open_append tmpfile;
  ok ← recv_file (file_fuel filelength) tmpfile startpos filelength;
  if negb ok then mret (DTARC_SOCKETREAD_ERROR, None) else
  mret (0, Some (FtInfo filelength startpos)).

Definition END_OF_RESULT : list Z := bytes "DTA:end of result.".

(** The rows the loop has stored, each cut to [resultlength]; [None] when a read fell short. *)
Fixpoint recv_rows (fuel : nat) (resultlength : Z) (rows : list (list Z)) : net host (option (list (list Z))) :=
  match fuel with
  | O => halt NoFuel
  | Datatypes.S fuel =>
      bs ← recv SMSGLEN;
      if negb (zlen bs =? SMSGLEN) then mret None else
      let rows := rows ++ [take (Z.to_nat (resultlength - 1)) (cstr bs)] in
      if negb (bool_decide (0 ∈ bs)) && (SMSGLEN <? resultlength) then halt (UB "string without terminator") else
      if bool_decide (cstr bs = END_OF_RESULT) then mret (Some rows) else recv_rows fuel resultlength rows
  end.

(** The code, [resultrow], and the rows written to the array [DTA_RESULT] gave. *)
Definition DTA_RCMD (command : list Z) (result resultlength : Z) : net host (Z * option (Z * list (list Z))) :=
  _ ← send (smsg (bytes "execrcmd"));
  _ ← send (smsg command);
  _ ← send (be32 result);
  bs ← recv 4;
  if negb (zlen bs =? 4) then mret (DTARC_SOCKETREAD_ERROR, None) else
  let rret := of_be32 bs in
  rows ← recv_rows (S (S (Z.to_nat result))) resultlength [];
  match rows with
  | None => mret (DTARC_SOCKETREAD_ERROR, None)
  | Some rows => mret (rret, Some (zlen rows - 1, rows))
  end.

Definition DTA_SENDMSG (remotequeue message : list Z) (priority : Z) : net host Z :=
  _ ← send (smsg (bytes "sendmsg"));
  _ ← recv 1;
  _ ← send (smsg remotequeue);
  _ ← recv 1;
  _ ← send (smsg (pad 10 (dec priority) ++ [32] ++ pad 10 (dec (zlen message))));
  _ ← recv 1;
  _ ← send message;
  bs ← recv 1;
  if negb (zlen bs =? 1) then mret DTARC_SOCKETREAD_ERROR else
  if bool_decide (bs = bytes "0") then mret (-1) else mret 0.

(** ** Queues of a host *)

(** An open queue: its file and the cursor of the handle. *)
Record DTAHQUEUE := HQueue { fullfilename : list Z; cursor : Z }.

Definition queue_file (path queuename : list Z) : list Z := path ++ bytes "/queues/" ++ queuename ++ bytes ".q".

(** The code, or the handle.  The first to open the file creates its semaphores. *)
Definition DTA_OPENQ (queuename : list Z) : net host (Z + DTAHQUEUE) :=
  path ← asks dtapath;
  full ← sprintf 100 (queue_file path queuename);
  qf ← asks (λ h, qfiles h !! full);
  match qf with
  | None => mret (inl DTARC_FILEOPEN_ERROR)
  | Some (QFile sems q) =>
      _ ← (if sems then mret () else
             act (λ h, ((), set_qfiles (<[full := QFile true (set_sems 0 0 0 q)]> (qfiles h)) h)));
      mret (inr (HQueue full 0))
  end.

(** A queue function on the file of a handle. *)
Definition on_queue {A} (full : list Z) (m : qM A) : net host A :=
  lift (λ h,
    match qfiles h !! full with
    | None => Fault (UB "mapping of a file that was never opened")
    | Some (QFile sems q) =>
        match m q with
        | Ok (a, q') => Ok (a, set_qfiles (<[full := QFile sems q']> (qfiles h)) h)
        | Fault f => Fault f
        end
    end).

(** ** The server process *)

(** The locals of [tcpget] that outlive a request. *)
Record server := Server { smsgbuf : list Z; openedqueue : list Z; hq : option DTAHQUEUE }.
Definition with_buf (buf : list Z) (v : server) : server := Server buf (openedqueue v) (hq v).

(** [%10ld]: at most ten characters of an integer, and the rest. *)
Definition scan_ld10 (s : list Z) : option (Z * list Z) :=
  let s := skip_space s in
  let '(neg, w, s) := match s with c :: s' => if c =? 45 then (true, 9, s') else if c =? 43 then (false, 9, s') else (false, 10, s) | [] => (false, 10, s) end in
  let '(ds, r) := scan_digits (Z.to_nat w) s in
  if bool_decide (ds = []) then None else Some (if neg : bool then - digits_val 0 ds else digits_val 0 ds, r).

(** A message of [n] bytes read into a buffer: memset, [readn], and the string copied out of
    it into an array of [n] bytes. *)
Definition recv_str (n : Z) : net host (list Z * list Z) :=
  bs ← recv SMSGLEN;
  let buf := bs ++ replicate (Z.to_nat (SMSGLEN - zlen bs)) 0 in
  mret (buf, strncpy n buf).

(** What one line does to the buffer: [fgets], and the newline cut off. *)
Definition line_buf (line buf : list Z) : net host (list Z) :=
  let buf := line ++ 0 :: drop (length line + 1) buf in
  let n := strlen buf in
  if n =? 0 then halt (UB "character before the buffer") else
  mret (if bool_decide (last (cstr buf) = Some 10) then <[Z.to_nat (n - 1) := 0]> buf else buf).

Fixpoint send_lines (i : nat) (rest buf : list Z) : net host (list Z) :=
  match i with
  | O => mret buf
  | Datatypes.S i =>
      let '(line, rest) := fgets 200 rest in
      if bool_decide (line = []) then mret buf else
      buf ← line_buf line buf;
      _ ← send buf;
      send_lines i rest buf
  end.

Section server.
(** [sizeof(time_t)] of the platform, what [/bin/sh -c] does to a host, the process number,
    and the bytes that fresh memory holds. *)
Context (SIZEOF_time_t : Z) (sh : list Z → host → Z * host) (pid : Z) (junk : Z → list Z).

Definition System (cmd : list Z) : net host Z := act (sh cmd).

(** The requests give the new locals, or [None] when [tcpget] returns -1. *)
Definition putfile (v : server) : net host (option server) :=
  '(_, _) ← recv_str 200;
  '(buf, target) ← recv_str 200;
  targetfile ← cstring target;
  path ← asks dtapath;
  tmpfile ← sprintf 200 (path ++ bytes "/tmp/" ++ basename targetfile);
  filelength ← recv_int;
  _ ← recv_time_t SIZEOF_time_t;
  _ ← sprintf 200 (tmpfile ++ bytes ".ctl");
  st ← get_file tmpfile;
  let startpos := match st with None => 0 | Some d => st_size d end in
  _ ← send (be32 startpos);
  _ ← open_append tmpfile;
  ok ← recv_file (file_fuel filelength) tmpfile startpos filelength;
  if negb ok then _ ← send (bytes "0"); mret None else
  cmd ← sprintf 200 (bytes "mv -f " ++ tmpfile ++ [32] ++ targetfile);
  r ← System cmd;
  if negb (r =? 0) then _ ← send (bytes "0"); mret None else
  _ ← send (bytes "1");
  mret (Some (with_buf buf v)).

Definition getfile (v : server) : net host (option server) :=
  '(buf, source) ← recv_str 200;
  sourcefile ← cstring source;
  startpos ← recv_int;
  st ← get_file sourcefile;
  match st with
  | None => _ ← send (be32 (-1)); mret None
  | Some d =>
      _ ← send (be32 (st_size d));
      _ ← send_file (Datatypes.S (length d)) (drop (Z.to_nat startpos) d);   (* a failed fseek leaves the position at 0 *)
      mret (Some (with_buf buf v))
  end.

Definition execrcmd (v : server) : net host (option server) :=
  '(buf, cmd) ← recv_str 200;
  command ← cstring cmd;
  result ← recv_int;
  path ← asks dtapath;
  tmpfile ← sprintf 200 (path ++ bytes "/tmp/rcmd" ++ dec pid);
  syscmd ← sprintf 200 (command ++ bytes " > " ++ tmpfile);
  ret ← System syscmd;
  _ ← send (be32 ret);
  st ← get_file tmpfile;
  match st with
  | None => mret (Some (with_buf buf v))
  | Some d =>
      buf ← send_lines (Z.to_nat result) d buf;
      let buf := smsg (bytes "DTA:end of result.") in
      _ ← send buf;
      syscmd ← sprintf 200 (bytes "rm -f " ++ tmpfile);
      r ← System syscmd;
      if negb (r =? 0) then mret None else mret (Some (with_buf buf v))
  end.

(** Opens the queue of a message unless it is the one that is open. *)
Definition open_for (queuename : list Z) (v : server) : net host (option server) :=
  if bool_decide (openedqueue v = queuename) then mret (Some v) else
  r ← DTA_OPENQ queuename;
  mret (match r with inl _ => None | inr h => Some (Server (smsgbuf v) queuename (Some h)) end).

Definition sendmsg (v : server) : net host (option server) :=
  _ ← send (bytes "1");
  bs ← recv SMSGLEN;
  let buf := bs ++ drop (length bs) (replicate (Z.to_nat SMSGLEN) 0) in
  queuename ← cstring (strncpy 50 buf);
  _ ← send (bytes "1");
  bs ← recv SMSGLEN;
  let buf := bs ++ drop (length bs) buf in
  s ← cstring buf;
  match (scan_ld10 s ≫= λ '(p, r), scan_ld10 r ≫= λ '(l, _), Some (p, l)) with
  | None => halt (UB "msgprio or msglen not set")
  | Some (msgprio, msglen) =>
      if msglen <? 0 then mret None else   (* malloc fails *)
      _ ← send (bytes "1");
      bs ← recv msglen;
      let message := bs ++ drop (length bs) (junk msglen) in
      o ← open_for queuename (with_buf buf v);
      match o with
      | None => _ ← send (bytes "0"); mret None
      | Some v =>
          match hq v with
          | None => halt (UB "put on a queue that was never opened")
          | Some h =>
              rc ← on_queue (fullfilename h) (DTA_PUTMSG IoOk message msgprio);
              if negb (rc =? 0) then _ ← send (bytes "0"); mret None else
              _ ← send (bytes "1");
              mret (Some v)
          end
      end
  end.

Definition status (v : server) : net host (option server) :=
  name ← asks hostname; _ ← send (cstr name); mret (Some v).

(** One request: the string [what] picks the work. *)
Definition request (v : server) : net host (option server) :=
  let what := cstr (smsgbuf v) in
  if bool_decide (what = bytes "status") then status v
  else if bool_decide (what = bytes "putfile") then putfile v
  else if bool_decide (what = bytes "getfile") then getfile v
  else if bool_decide (what = bytes "execrcmd") then execrcmd v
  else if bool_decide (what = bytes "sendmsg") then sendmsg v
  else mret (Some v).

(** The loop, for at most [n] requests. *)
Fixpoint requests (n : nat) (v : server) : net host Z :=
  match n with
  | O => halt NoFuel
  | Datatypes.S n =>
      bs ← recv SMSGLEN;
      if zlen bs =? 0 then mret 0 else
      r ← request (with_buf (bs ++ drop (length bs) (smsgbuf v)) v);
      match r with None => mret (-1) | Some v => requests n v end
  end.
Definition tcpget (n : nat) : net host Z := requests n (Server (replicate (Z.to_nat SMSGLEN) 0) [] None).
End server.

(** ** The queue sender *)

(** [while(DTA_GETMSG(...)==0)]: looks at the first message, sends it, and deletes it once the
    server has confirmed it; the handle's cursor goes along. *)
Fixpoint send_loop (fuel : nat) (full : list Z) (cursor : Z) (remotequeue : list Z) : net host () :=
  match fuel with
  | O => halt NoFuel
  | Datatypes.S fuel =>
      '(rc, _, cursor) ← on_queue full (DTA_GETMSG cursor (DTAGMO_READBYPRIORITY + DTAGMO_JUSTINQUIRE));
      if negb (rc =? 0) then mret () else
      '(rc, out, cursor) ← on_queue full (DTA_GETMSG cursor DTAGMO_READBYPRIORITY);
      if negb (rc =? 0) then mret () else
      match out with
      | Some (Some message, _, priority) =>
          ret ← DTA_SENDMSG remotequeue message priority;
          if negb (ret =? 0) then mret () else
          '(ret, _, cursor) ← on_queue full (DTA_GETMSG cursor (DTAGMO_READBYPRIORITY + DTAGMO_DELETEAFTERREAD));
          if negb (ret =? 0) then mret () else
          send_loop fuel full cursor remotequeue
      | _ => halt (UB "message not set")
      end
  end.

(** [conn] is the code of [DTA_CONN]. *)
Definition sendq (fuel : nat) (conn : Z) (queuename remotequeue : list Z) : net host () :=
  r ← DTA_OPENQ queuename;
  match r with
  | inl _ => mret ()
  | inr h =>
      let full := fullfilename h in
      m ← on_queue full setmlock;
      if negb (m =? 0) then mret () else
      '(rc, _, c) ← on_queue full (DTA_GETMSG (cursor h) (DTAGMO_READBYPRIORITY + DTAGMO_JUSTINQUIRE));
      _ ← (if rc =? 0 then if negb (conn =? 0) then mret () else send_loop fuel full c remotequeue else mret ());
      on_queue full freemlock
  end.
