(* ===== verification/DtaNetSpec.v ===== *)
(** The calls and the requests of the DTA transport run against each other: the steps of each
    loop, and of each request with its call. *)
From S2P Require Import Prelude CLib Net DtaQueue DtaQueueSpec DtaNet.

(** ** Steps of a connected pair *)

Lemma deliver_nil {S A} (x : side S A) : deliver [] x = x.
Proof. destruct x. unfold deliver; cbn. by rewrite app_nil_r. Qed.

Section steps.
Context {S A T B : Type}.
Implicit Types (p : net S A) (q : net T B) (x : side S A) (y : side T B) (c : pair_conf S A T B).

Lemma l_send bs p s i y c : rtc pstep (Side p s i, deliver bs y) c → rtc pstep (Side (Send bs p) s i, y) c.
Proof. intros H. eapply rtc_l; [by apply left_step|done]. Qed.
Lemma r_send bs q t j x c : rtc pstep (deliver bs x, Side q t j) c → rtc pstep (x, Side (Send bs q) t j) c.
Proof. intros H. eapply rtc_l; [by apply right_step|done]. Qed.

Lemma l_quiet x x' y c : side_step (ended (prg y)) x = Some (x', []) → rtc pstep (x', y) c → rtc pstep (x, y) c.
Proof. intros E H. eapply rtc_l; [by apply left_step|by rewrite deliver_nil]. Qed.
Lemma r_quiet x y y' c : side_step (ended (prg x)) y = Some (y', []) → rtc pstep (x, y') c → rtc pstep (x, y) c.
Proof. intros E H. eapply rtc_l; [by apply right_step|by rewrite deliver_nil]. Qed.

Lemma l_state f p s s' i y c : f s = (p, s') → rtc pstep (Side p s' i, y) c → rtc pstep (Side (State f) s i, y) c.
Proof. intros E. apply l_quiet. unfold side_step; cbn. by rewrite E. Qed.
Lemma r_state f q t t' j x c : f t = (q, t') → rtc pstep (x, Side q t' j) c → rtc pstep (x, Side (State f) t j) c.
Proof. intros E. apply r_quiet. unfold side_step; cbn. by rewrite E. Qed.

Lemma side_recv {S' A'} over n (k : list Z → net S' A') s bs i : zlen bs = n →
  side_step over (Side (Recv n k) s (bs ++ i)) = Some (Side (k bs) s i, []).
Proof.
  intros <-. unfold side_step; cbn. rewrite (proj2 (Z.leb_le _ _)) by (rewrite zlen_app; pose proof (zlen_nonneg i); lia).
  unfold zlen. by rewrite Nat2Z.id, take_app_length, drop_app_length.
Qed.
Lemma l_recv n k s bs i y c : zlen bs = n → rtc pstep (Side (k bs) s i, y) c → rtc pstep (Side (Recv n k) s (bs ++ i), y) c.
Proof. intros. eapply l_quiet; [by apply side_recv|done]. Qed.
Lemma r_recv n k t bs j x c : zlen bs = n → rtc pstep (x, Side (k bs) t j) c → rtc pstep (x, Side (Recv n k) t (bs ++ j)) c.
Proof. intros. eapply r_quiet; [by apply side_recv|done]. Qed.

(** A read of everything that came, and the end of the other side's bytes. *)
Lemma r_recv_all n k t j x c : zlen j = n → rtc pstep (x, Side (k j) t []) c → rtc pstep (x, Side (Recv n k) t j) c.
Proof. intros Hn H. rewrite <- (app_nil_r j) at 1. by apply r_recv. Qed.
Lemma l_recv_all n k s i y c : zlen i = n → rtc pstep (Side (k i) s [], y) c → rtc pstep (Side (Recv n k) s i, y) c.
Proof. intros Hn H. rewrite <- (app_nil_r i) at 1. by apply l_recv. Qed.
Lemma r_recv_end n k t j x c : ended (prg x) = true → zlen j < n → rtc pstep (x, Side (k j) t []) c → rtc pstep (x, Side (Recv n k) t j) c.
Proof. intros He Hn. apply r_quiet. unfold side_step; cbn. by rewrite (proj2 (Z.leb_gt _ _)), He by done. Qed.
End steps.

(** What a side does on its own, and all it sends meanwhile. *)
Inductive solo {S A} : side S A → list Z → side S A → Prop :=
  | solo_refl x : solo x [] x
  | solo_step x x1 x2 bs cs : side_step false x = Some (x1, bs) → solo x1 cs x2 → solo x (bs ++ cs) x2.

Lemma deliver_app {S A} (x : side S A) bs cs : deliver cs (deliver bs x) = deliver (bs ++ cs) x.
Proof. unfold deliver; cbn. by rewrite app_assoc. Qed.

Lemma side_step_over {S A} over (x : side S A) r : side_step false x = Some r → side_step over x = Some r.
Proof.
  unfold side_step. destruct (prg x); try done. destruct (_ <=? _); [done|]. done.
Qed.

Lemma l_solo {S A T B} (x x' : side S A) (y : side T B) bs c : solo x bs x' → rtc pstep (x', deliver bs y) c → rtc pstep (x, y) c.
Proof.
  intros H. revert y. induction H as [x|x x1 x2 bs cs E _ IH]; intros y Hr; [by rewrite deliver_nil in Hr|].
  eapply rtc_l; [by apply left_step, side_step_over|]. apply IH. by rewrite deliver_app.
Qed.
Lemma r_solo {S A T B} (x : side S A) (y y' : side T B) bs c : solo y bs y' → rtc pstep (deliver bs x, y') c → rtc pstep (x, y) c.
Proof.
  intros H. revert x. induction H as [y|y y1 y2 bs cs E _ IH]; intros x Hr; [by rewrite deliver_nil in Hr|].
  eapply rtc_l; [by apply right_step, side_step_over|]. apply IH. by rewrite deliver_app.
Qed.

Lemma solo_send {S A} bs cs p s i (x : side S A) : solo (Side p s i) cs x → solo (Side (Send bs p) s i) (bs ++ cs) x.
Proof. intros. by eapply solo_step. Qed.
Lemma solo_state {S A} f p s s' i bs (x : side S A) : f s = (p, s') → solo (Side p s' i) bs x → solo (Side (State f) s i) bs x.
Proof. intros E H. eapply (solo_step _ _ _ []); [|done]. unfold side_step; cbn. by rewrite E. Qed.
Lemma solo_recv {S A} n k s bs i cs (x : side S A) : zlen bs = n → solo (Side (k bs) s i) cs x → solo (Side (Recv n k) s (bs ++ i)) cs x.
Proof. intros E H. eapply (solo_step _ _ _ []); [|done]. by apply side_recv. Qed.

Lemma solo_bind {S A B} (k : A → net S B) p p' s s' i i' bs : solo (Side p s i) bs (Side p' s' i') →
  solo (Side (net_bind k p) s i) bs (Side (net_bind k p') s' i').
Proof.
  intros H. remember (Side p s i) as x eqn:Ex. remember (Side p' s' i') as x' eqn:Ex'. revert p s i Ex.
  induction H as [x|x x1 x2 bs cs E _ IH]; intros p s i ->; [simplify_eq; constructor|].
  destruct x1 as [p1 s1 i1]. eapply solo_step; [|by apply IH]. unfold side_step in *; cbn in *.
  destruct p as [a|f|ds p|m k'|f]; cbn; try done.
  - destruct (f s). by simplify_eq.
  - by simplify_eq.
  - destruct (m <=? zlen i); [|done]. by simplify_eq.
Qed.

Lemma solo_app {S A} (x y z : side S A) bs cs : solo x bs y → solo y cs z → solo x (bs ++ cs) z.
Proof. induction 1 as [x|x x1 x2 bs' cs' E _ IH]; intros Hz; [done|]. rewrite <- app_assoc. eapply solo_step; [done|by apply IH]. Qed.
Lemma solo_quiet {S A} (x y z : side S A) cs : solo x [] y → solo y cs z → solo x cs z.
Proof. apply solo_app. Qed.

(** The basic steps. *)
Lemma send_solo {S} bs (s : S) i : solo (Side (send bs) s i) bs (Side (Ret ()) s i).
Proof. rewrite <- (app_nil_r bs) at 2. apply solo_send. constructor. Qed.
Lemma recv_solo {S} n bs (s : S) i : zlen bs = n → solo (Side (recv n) s (bs ++ i)) [] (Side (Ret bs) s i).
Proof. intros. apply solo_recv; [done|constructor]. Qed.
Lemma recv_all_solo {S} n bs (s : S) : zlen bs = n → solo (Side (recv n) s bs) [] (Side (Ret bs) s []).
Proof. intros. rewrite <- (app_nil_r bs) at 1. by apply recv_solo. Qed.
Lemma asks_solo {S A} (f : S → A) s i : solo (Side (asks f) s i) [] (Side (Ret (f s)) s i).
Proof. eapply solo_state; [done|constructor]. Qed.
Lemma act_solo {S A} (f : S → A * S) s i : solo (Side (act f) s i) [] (Side (Ret (f s).1) (f s).2 i).
Proof. eapply solo_state; [done|constructor]. Qed.

(** A context in which a program runs as it does alone. *)
Definition frame {S A B} (C : net S A → net S B) : Prop := ∀ p p' s s' i i' bs,
  solo (Side p s i) bs (Side p' s' i') → solo (Side (C p) s i) bs (Side (C p') s' i').
Lemma frame_bind {S A B} (k : A → net S B) : frame (net_bind k).
Proof. intros ????????. by apply solo_bind. Qed.
Lemma frame_compose {S A B D} (C : net S A → net S B) (C' : net S B → net S D) : frame C → frame C' → frame (λ p, C' (C p)).
Proof. intros H H' ????????. by apply H', H. Qed.

(** Runs a piece of a side on its own: the binds around the piece stay. *)
Ltac nsimpl := cbn [mbind net_mbind net_bind mret net_ret fst snd negb andb Z.eqb Pos.eqb].
Ltac got_it := try match goal with |- context [deliver ?bs (Side ?p ?s ?i)] => change (deliver bs (Side p s i)) with (Side p s (i ++ bs)) end.
Ltac peel :=
  lazymatch goal with
  | |- solo (Side (net_bind _ _) _ _) _ _ => eapply solo_bind; peel
  | |- solo (Side (mbind _ _) _ _) _ _ => eapply solo_bind; peel
  | H : frame ?C |- solo (Side (?C _) _ _) _ _ => eapply H; peel
  | _ => idtac
  end.
Tactic Notation "lsolo" tactic3(t) := eapply l_solo; [peel; t|rewrite ?deliver_nil; nsimpl; got_it].
Tactic Notation "rsolo" tactic3(t) := eapply r_solo; [peel; t|rewrite ?deliver_nil; nsimpl; got_it].
Tactic Notation "ssolo" tactic3(t) := eapply solo_quiet; [peel; t|nsimpl].
Ltac lsend := lsolo (apply send_solo); rewrite ?app_nil_l.
Ltac rsend := rsolo (apply send_solo); rewrite ?app_nil_l.
Ltac state_step := first [apply asks_solo | apply act_solo].
Ltac lact := lsolo state_step.
Ltac ract := rsolo state_step.
Ltac ssend := eapply solo_app; [peel; apply send_solo|nsimpl].

(** ** The loops of a file transfer *)

Lemma send_blocks_solo size fuel d s i : 0 < size → (length d < fuel)%nat →
  solo (Side (send_blocks size fuel d) s i) d (Side (Ret ()) s i).
Proof.
  intros HB. revert d. induction fuel as [|fuel IH]; intros d Hf; [lia|]. cbn [send_blocks].
  assert (d = take (Z.to_nat size) d ++ drop (Z.to_nat size) d) as E by (symmetry; apply take_drop).
  assert (length (take (Z.to_nat size) d) = Z.to_nat size `min` length d)%nat as Hl by apply length_take.
  set (buf := take _ d) in *. set (rest := drop _ d) in *. pose proof (length_app buf rest) as Hd. rewrite <- E in Hd.
  destruct (Z.eqb_spec (zlen buf) 0) as [E0|N0]; unfold zlen in *.
  - assert (length d = 0%nat) as ->%nil_length_inv by lia. constructor.
  - rewrite E at 1. ssend. destruct (Z.ltb_spec (Z.of_nat (length buf)) size).
    + assert (rest = []) as -> by (apply nil_length_inv; lia). constructor.
    + apply IH. lia.
Qed.
Lemma send_file_solo fuel d s i : (length d < fuel)%nat → solo (Side (send_file fuel d) s i) d (Side (Ret ()) s i).
Proof. by apply send_blocks_solo. Qed.

(** Writing a file on a host. *)
Definition with_file (name d : list Z) (h : host) : host := set_files (<[name := d]> (files h)) h.
Lemma with_file_twice name d d' h : with_file name d (with_file name d' h) = with_file name d h.
Proof. unfold with_file, set_files; cbn. by rewrite insert_insert_eq. Qed.
Lemma with_file_same name d h : files h !! name = Some d → with_file name d h = h.
Proof. intros H. unfold with_file. rewrite insert_id by done. by destruct h. Qed.
Lemma with_file_lookup name d h : files (with_file name d h) !! name = Some d.
Proof. apply lookup_insert_eq. Qed.

Lemma recv_blocks_solo size fuel name rt fl s old d i : 0 < size →
  files s !! name = Some old → zlen d = Z.max 0 (fl - rt) → (length d < fuel)%nat →
  solo (Side (recv_blocks size fuel name rt fl) s (d ++ i)) [] (Side (Ret true) (with_file name (old ++ d) s) i).
Proof.
  intros HB. revert rt s old d. induction fuel as [|fuel IH]; intros rt s old d Hs Hd Hf; [lia|]. cbn [recv_blocks].
  destruct (Z.ltb_spec rt fl) as [Hlt|Hge].
  - set (n := if fl - rt <? size then fl - rt else size).
    assert (0 < n ≤ zlen d) as Hn by (unfold n; case_test; lia).
    assert (d = take (Z.to_nat n) d ++ drop (Z.to_nat n) d) as E by (symmetry; apply take_drop).
    assert (zlen (take (Z.to_nat n) d) = n) as Hb by (unfold zlen in *; rewrite length_take; lia).
    set (bs := take _ d) in *. set (rest := drop _ d) in *. rewrite E, <- (app_assoc bs). ssolo (by apply recv_solo).
    rewrite (proj2 (Z.eqb_neq _ 0)) by lia. ssolo (apply act_solo). rewrite Hs. cbn [default from_option id].
    fold (with_file name (old ++ bs) s). nsimpl.
    assert (length d = length bs + length rest)%nat as Hl by (rewrite E; apply length_app).
    rewrite (app_assoc old), <- (with_file_twice name ((old ++ bs) ++ rest) (old ++ bs) s).
    apply IH; [apply with_file_lookup|unfold zlen in *; lia|unfold zlen in *; lia].
  - assert (d = []) as -> by (apply nil_length_inv; unfold zlen in Hd; lia). rewrite app_nil_r, with_file_same by done. constructor.
Qed.
Lemma recv_file_solo fuel name rt fl s old d i :
  files s !! name = Some old → zlen d = Z.max 0 (fl - rt) → (length d < fuel)%nat →
  solo (Side (recv_file fuel name rt fl) s (d ++ i)) [] (Side (Ret true) (with_file name (old ++ d) s) i).
Proof. by apply recv_blocks_solo. Qed.

(** ** What goes over the wire *)

Lemma st_size_id d : zlen d < 2 ^ 31 → st_size d = zlen d.
Proof. intros H. apply wrap_s_id; [lia|]. pose proof (zlen_nonneg d). lia. Qed.

(** A name that fits a message of the protocol. *)
Definition sendable (s : list Z) : Prop := no_nul s ∧ zlen s < SMSGLEN.

Lemma zlen_smsg s : zlen (smsg s) = SMSGLEN.
Proof. by apply zlen_strncpy. Qed.
Lemma cstr_smsg s : sendable s → cstr (smsg s) = s.
Proof. intros [Hs Hn]. by apply cstr_strncpy. Qed.

Lemma strncpy_smsg s n : sendable s → zlen s < n → strncpy n (smsg s) = strncpy n s.
Proof. intros Hs Hn. unfold strncpy. rewrite cstr_smsg by done. destruct Hs as [Hs _]. by rewrite cstr_id. Qed.

Lemma cstring_ok {S} n s : no_nul s → zlen s < n → @cstring S (strncpy n s) = Ret s.
Proof. intros Hs Hn. unfold cstring. destruct (cstr_strncpy n s Hs Hn) as [-> ?]. by rewrite bool_decide_true. Qed.
Lemma cstring_smsg {S} s : sendable s → @cstring S (smsg s) = Ret s.
Proof. intros [Hs Hn]. by apply cstring_ok. Qed.
Lemma sprintf_ok {S} n s : zlen s < n → @sprintf S n s = Ret s.
Proof. intros Hn. unfold sprintf. by rewrite (proj2 (Z.ltb_lt _ _)). Qed.

Lemma recv_str_solo n s h i : sendable s → zlen s < n →
  solo (Side (recv_str n) h (smsg s ++ i)) [] (Side (Ret (smsg s, strncpy n s)) h i).
Proof.
  intros Hs Hn. unfold recv_str. ssolo (apply recv_solo, zlen_smsg).
  rewrite zlen_smsg, Z.sub_diag, app_nil_r, strncpy_smsg by done. constructor.
Qed.
Lemma recv_int_solo {S} z (h : S) i : solo (Side recv_int h (be32 z ++ i)) [] (Side (Ret (of_be32 (be32 z))) h i).
Proof. unfold recv_int. ssolo (by apply recv_solo). rewrite ?zlen_be32. constructor. Qed.

(** ** The header of a message *)

Definition in_header (n : Z) : Prop := - 10 ^ 9 < n < 10 ^ 10.

Lemma scan_ld10_pad n r : in_header n → (∀ c r', r = c :: r' → isdigit c = false) → scan_ld10 (pad 10 (dec n) ++ r) = Some (n, r).
Proof.
  intros [Hn1 Hn2] Hr. unfold scan_ld10, pad. rewrite <- app_assoc, skip_space_replicate. unfold dec. destruct (Z.ltb_spec n 0) as [Hn|Hn].
  - assert (Forall (λ c, 48 ≤ c ≤ 57) (udec 20 (- n))) as Hd by (apply udec_digits; lia).
    assert (length (udec 20 (- n)) ≤ 9)%nat as Hl by (apply udec_length; [lia|change (Z.of_nat 9) with 9; lia]). pose proof (udec_nonempty 20 (- n) ltac:(lia)) as Hne.
    cbn [app skip_space isspace Z.eqb Z.leb Pos.eqb orb andb Z.compare Pos.compare Pos.compare_cont].
    rewrite scan_digits_all by done. rewrite bool_decide_false by done. rewrite digits_val_udec by (change (Z.of_nat 20) with 20; lia). by rewrite Z.opp_involutive.
  - assert (Forall (λ c, 48 ≤ c ≤ 57) (udec 20 n)) as Hd by (apply udec_digits; lia).
    assert (length (udec 20 n) ≤ 10)%nat as Hl by (apply udec_length; [lia|change (Z.of_nat 10) with 10; lia]). pose proof (udec_nonempty 20 n ltac:(lia)) as Hne.
    pose proof (digits_val_udec 20 n ltac:(change (Z.of_nat 20) with 20; lia)) as Hv. destruct (udec 20 n) as [|c ds] eqn:E; [done|].
    pose proof Hd as [Hc _]%Forall_cons. assert (skip_space ((c :: ds) ++ r) = (c :: ds) ++ r) as ->.
    { simpl. unfold isspace. destruct (Z.eqb_spec c 32), (Z.leb_spec 9 c), (Z.leb_spec c 13); simpl; (lia || done). }
    cbn [app]. destruct (Z.eqb_spec c 45), (Z.eqb_spec c 43); try lia. rewrite (app_comm_cons ds r c), scan_digits_all by done.
    rewrite bool_decide_false by done. by rewrite Hv.
Qed.

Lemma dec_no_nul n : no_nul (dec n).
Proof.
  unfold dec. assert (∀ m, 0 ≤ m → no_nul (udec 20 m)) as H by (intros m Hm; eapply Forall_impl; [by apply udec_digits|simpl; lia]).
  destruct (Z.ltb_spec n 0); [apply Forall_cons; split; [done|]|]; apply H; lia.
Qed.
Lemma dec_header_length n : in_header n → zlen (dec n) ≤ 10.
Proof.
  intros [Hn1 Hn2]. unfold dec, zlen. destruct (Z.ltb_spec n 0); cbn [length].
  - pose proof (udec_length 20 (- n) 9 ltac:(lia) ltac:(change (Z.of_nat 9) with 9; lia)). lia.
  - pose proof (udec_length 20 n 10 ltac:(lia) ltac:(change (Z.of_nat 10) with 10; lia)). lia.
Qed.

Definition header (p n : Z) : list Z := pad 10 (dec p) ++ [32] ++ pad 10 (dec n).
Lemma header_sendable p n : in_header p → in_header n → sendable (header p n).
Proof.
  intros Hp Hn. split.
  - unfold header, pad. repeat (apply Forall_app; split); try apply dec_no_nul; try by apply Forall_replicate. by repeat constructor.
  - unfold header. rewrite !zlen_app, !pad_length by by apply dec_header_length. done.
Qed.
Lemma scan_header p n : in_header p → in_header n →
  (scan_ld10 (header p n) ≫= λ '(p, r), scan_ld10 r ≫= λ '(l, _), Some (p, l)) = Some (p, n).
Proof.
  intros Hp Hn. unfold header. rewrite scan_ld10_pad by (done || by intros ? ? [= <- _]). cbn [mbind option_bind].
  change (scan_ld10 ([32] ++ pad 10 (dec n))) with (scan_ld10 (pad 10 (dec n))). rewrite <- (app_nil_r (pad 10 (dec n))).
  by rewrite scan_ld10_pad.
Qed.

(** ** The requests *)

(** Finds the work of a request. *)
Ltac dispatch :=
  unfold request; cbn [smsgbuf with_buf]; rewrite cstr_smsg by (split; [by repeat constructor|done]);
  repeat rewrite bool_decide_false by done; rewrite bool_decide_true by done.

Section server.
Context (sh : list Z → host → Z * host) (pid : Z) (junk : Z → list Z).
Implicit Types (s t : host) (v : server).
Abbreviation serve := (requests 4 sh pid junk).
Abbreviation do_request := (request 4 sh pid junk).

Lemma serve_request {S A} n cmd v t j (x : side S A) c : zlen (smsgbuf v) = SMSGLEN →
  rtc pstep (x, Side (net_bind (λ r, match r with None => mret (-1) | Some v => serve n v end) (do_request (with_buf (smsg cmd) v))) t j) c →
  rtc pstep (x, Side (serve (Datatypes.S n) v) t (smsg cmd ++ j)) c.
Proof.
  intros Hv H. cbn [requests]. rsolo (apply recv_solo, zlen_smsg). rewrite zlen_smsg. cbn [Z.eqb SMSGLEN].
  rewrite drop_ge, app_nil_r; [done|]. pose proof (zlen_smsg cmd). unfold zlen in *. lia.
Qed.

Definition tmp_of (t : host) (targetfile : list Z) : list Z := dtapath t ++ bytes "/tmp/" ++ basename targetfile.
Definition mv_cmd (src tgt : list Z) : list Z := bytes "mv -f " ++ src ++ [32] ++ tgt.
Definition have (t : host) (name : list Z) : list Z := default [] (files t !! name).

Lemma put_run {A} (C : net host (Z * option DTAFTINFO) → net host A) source target mtime d s t t' v n :
  let tmp := tmp_of t target in let old := have t tmp in
  frame C → files s !! source = Some d → zlen d < 2 ^ 31 → zlen old < 2 ^ 31 → sendable source → sendable target →
  zlen tmp + 4 < 200 → zlen (mv_cmd tmp target) < 200 → zlen (smsgbuf v) = SMSGLEN →
  sh (mv_cmd tmp target) (with_file tmp (old ++ drop (length old) d) t) = (0, t') →
  rtc pstep (Side (C (DTA_PUT 4 source target mtime)) s [], Side (serve (S n) v) t [])
    (Side (C (Ret (0, Some (FtInfo (zlen d) (zlen old))))) s [], Side (serve n (with_buf (smsg target) v)) t' []).
Proof.
  intros tmp old HC Hd Hdl Hol Hs Ht Htl Hcl Hv Hmv. unfold DTA_PUT. do 3 lsend. lact. rewrite Hd. nsimpl. do 2 lsend. rewrite st_size_id by done.
  rewrite <- !app_assoc. apply serve_request; [done|].
  dispatch. unfold putfile. 
  rsolo (apply recv_str_solo; [done|apply Hs]). 
  rsolo (apply recv_str_solo; [done|apply Ht]). rewrite cstring_ok by apply Ht. nsimpl. ract. fold (tmp_of t target). fold tmp.
  rewrite (sprintf_ok 200 tmp) by lia. nsimpl. rsolo (apply recv_int_solo). rewrite of_be32_be32 by (pose proof (zlen_nonneg d); lia).
  rewrite <- (app_nil_r (be32 mtime)). rsolo (apply recv_int_solo).
  rewrite (sprintf_ok 200 (tmp ++ _)) by (rewrite zlen_app; exact Htl). nsimpl. ract.
  assert (match files t !! tmp with Some d0 => st_size d0 | None => 0 end = zlen old) as ->.
  { unfold old, have in *. destruct (files t !! tmp); [by apply st_size_id|done]. }
  rsend. lsolo (by apply recv_all_solo). rewrite ?zlen_be32. cbn [Z.eqb negb Pos.eqb].
  rewrite of_be32_be32 by (pose proof (zlen_nonneg old); lia). rewrite (proj2 (Z.ltb_ge _ _)) by apply zlen_nonneg. nsimpl.
  lsolo (apply send_file_solo; rewrite length_drop; lia). ract. fold (have t tmp). fold old. fold (with_file tmp old t).
  rewrite ?app_nil_l, <- (app_nil_r (drop _ _)).
  rsolo (apply (recv_file_solo _ tmp (zlen old) (zlen d) _ old); [apply with_file_lookup|unfold zlen; rewrite length_drop; lia|unfold file_fuel, zlen; rewrite length_drop; lia]).
  rewrite (sprintf_ok 200 (bytes _ ++ _)) by exact Hcl. nsimpl. 
  assert (zlen old = Z.of_nat (length old)) as El by done. rewrite El, Nat2Z.id.
  rewrite with_file_twice.
  ract. unfold mv_cmd in Hmv. rewrite Hmv. cbn [fst snd]. nsimpl. cbn [Z.eqb negb].
  rsend. lsolo (by apply recv_all_solo). rewrite bool_decide_false by done. cbn [negb Z.eqb zlen length bytes]. nsimpl. constructor.
Qed.

(** Where [DTA_GET] puts the file. *)
Definition get_name (s : host) (targetfile : list Z) : list Z :=
  if has_slash targetfile then targetfile else dtapath s ++ bytes "/tmp/" ++ targetfile.

Lemma tmp_name_solo target s i : zlen (get_name s target) < 200 → solo (Side (tmp_name target) s i) [] (Side (Ret (get_name s target)) s i).
Proof.
  intros Hl. unfold tmp_name, get_name in *. ssolo state_step.
  destruct (has_slash target); rewrite sprintf_ok by done; constructor.
Qed.

Lemma get_run {A} (C : net host (Z * option DTAFTINFO) → net host A) source target d s t v n :
  let name := get_name s target in let old := have s name in
  frame C → files t !! source = Some d → zlen d < 2 ^ 31 → zlen old < 2 ^ 31 → sendable source → zlen name < 200 → zlen (smsgbuf v) = SMSGLEN →
  rtc pstep (Side (C (DTA_GET source target)) s [], Side (serve (S n) v) t [])
    (Side (C (Ret (0, Some (FtInfo (zlen d) (zlen old))))) (with_file name (old ++ drop (length old) d) s) [],
     Side (serve n (with_buf (smsg source) v)) t []).
Proof.
  intros name old HC Hd Hdl Hol Hs Hnl Hv. unfold DTA_GET. do 2 lsend. lsolo (by apply tmp_name_solo). fold name. lact.
  assert (match files s !! name with Some d0 => st_size d0 | None => 0 end = zlen old) as ->.
  { unfold old, have in *. destruct (files s !! name); [by apply st_size_id|done]. }
  lsend. rewrite <- !app_assoc, ?app_nil_l. apply serve_request; [done|].
  dispatch. unfold getfile.
  rsolo (apply recv_str_solo; [done|apply Hs]). rewrite cstring_ok by apply Hs. nsimpl.
  rewrite <- (app_nil_r (be32 _)). rsolo (apply recv_int_solo). rewrite of_be32_be32 by (pose proof (zlen_nonneg old); lia).
  ract. rewrite Hd. nsimpl. rewrite st_size_id by done.
  rsend. rsolo (apply send_file_solo; rewrite length_drop; lia).
  lsolo (by apply recv_solo). rewrite ?zlen_be32. cbn [Z.eqb negb Pos.eqb]. rewrite of_be32_be32 by (pose proof (zlen_nonneg d); lia).
  rewrite (proj2 (Z.ltb_ge _ _)) by apply zlen_nonneg. nsimpl. lact. fold (have s name). fold old. fold (with_file name old s).
  assert (Z.to_nat (zlen old) = length old) as -> by (unfold zlen; lia). rewrite <- (app_nil_r (drop _ _)).
  lsolo (apply (recv_file_solo _ name (zlen old) (zlen d) _ old); [apply with_file_lookup|unfold zlen; rewrite length_drop; lia|unfold file_fuel, zlen; rewrite length_drop; lia]).
  rewrite app_nil_r, with_file_twice.
  constructor.
Qed.

(** A file that the server does not have ends the connection. *)
Lemma get_missing_run {A} (C : net host (Z * option DTAFTINFO) → net host A) source target s t v n :
  frame C → files t !! source = None → zlen (have s (get_name s target)) < 2 ^ 31 → sendable source → zlen (get_name s target) < 200 → zlen (smsgbuf v) = SMSGLEN →
  rtc pstep (Side (C (DTA_GET source target)) s [], Side (serve (S n) v) t [])
    (Side (C (Ret (DTARC_FILEOPEN_ERROR, None))) s [], Side (Ret (-1)) t []).
Proof.
  set (name := get_name s target). intros HC Hd Hol Hs Hnl Hv. unfold DTA_GET. do 2 lsend. lsolo (by apply tmp_name_solo). fold name. lact.
  assert (match files s !! name with Some d0 => st_size d0 | None => 0 end = zlen (have s name)) as ->.
  { unfold have in *. destruct (files s !! name); [by apply st_size_id|done]. }
  lsend. rewrite <- !app_assoc, ?app_nil_l. apply serve_request; [done|].
  dispatch. unfold getfile.
  rsolo (apply recv_str_solo; [done|apply Hs]). rewrite cstring_ok by apply Hs. nsimpl.
  rewrite <- (app_nil_r (be32 _)). rsolo (apply recv_int_solo).
  ract. rewrite Hd. nsimpl. rsend.
  lsolo (by apply recv_all_solo). rewrite app_nil_r, ?zlen_be32. nsimpl. cbn [Z.eqb negb Pos.eqb]. rewrite of_be32_be32 by lia. nsimpl. constructor.
Qed.

(** The queue that a server has open is the one it says. *)
Definition srv_ok (t : host) (v : server) : Prop :=
  zlen (smsgbuf v) = SMSGLEN ∧
  (openedqueue v ≠ [] → ∃ h q, hq v = Some h ∧ fullfilename h = queue_file (dtapath t) (openedqueue v) ∧
    qfiles t !! fullfilename h = Some (QFile true q)).

(** The queue as it is once it is open. *)
Definition opened (f : qfile) : queue := if qf_sems f then qf_queue f else set_sems 0 0 0 (qf_queue f).
Definition with_qfile (full : list Z) (f : qfile) (t : host) : host := set_qfiles (<[full := f]> (qfiles t)) t.

Lemma with_qfile_same full f t : qfiles t !! full = Some f → with_qfile full f t = t.
Proof. intros H. unfold with_qfile. rewrite insert_id by done. by destruct t. Qed.

Lemma DTA_OPENQ_solo qn t i f : let full := queue_file (dtapath t) qn in zlen full < 100 → qfiles t !! full = Some f →
  solo (Side (DTA_OPENQ qn) t i) [] (Side (Ret (inr (HQueue full 0))) (with_qfile full (QFile true (opened f)) t) i).
Proof.
  intros full Hl Hf. unfold DTA_OPENQ. ssolo state_step. fold full. rewrite sprintf_ok by done. nsimpl. ssolo state_step. rewrite Hf. nsimpl.
  destruct f as [[] q]; unfold opened; cbn [qf_sems qf_queue].
  - rewrite with_qfile_same by done. constructor.
  - ssolo state_step. constructor.
Qed.

Lemma open_for_solo qn t v i f : let full := queue_file (dtapath t) qn in
  srv_ok t v → qn ≠ [] → zlen full < 100 → qfiles t !! full = Some f →
  ∃ h, fullfilename h = full ∧
    solo (Side (open_for qn v) t i) [] (Side (Ret (Some (Server (smsgbuf v) qn (Some h)))) (with_qfile full (QFile true (opened f)) t) i).
Proof.
  intros full [Hb Ho] Hq Hl Hf. unfold open_for. destruct (decide (openedqueue v = qn)) as [E|E].
  - rewrite bool_decide_true by done. destruct Ho as (h & q & Hh & Hfull & Hqf); [by rewrite E|]. exists h. rewrite E in Hfull. split; [done|].
    rewrite Hfull in Hqf. fold full in Hqf. rewrite Hf in Hqf. simplify_eq. unfold opened; cbn. rewrite with_qfile_same by done.
    replace (Server (smsgbuf v) (openedqueue v) (Some h)) with v by (destruct v; cbn in *; by subst). constructor.
  - rewrite bool_decide_false by done. exists (HQueue full 0). split; [done|]. ssolo (by apply (DTA_OPENQ_solo _ _ _ f)). constructor.
Qed.

Lemma on_queue_solo {A} full (m : qM A) t i q a q' : qfiles t !! full = Some (QFile true q) → m q = Ok (a, q') →
  solo (Side (on_queue full m) t i) [] (Side (Ret a) (with_qfile full (QFile true q') t) i).
Proof. intros Hq Hm. unfold on_queue. eapply solo_state; [by rewrite Hq, Hm|]. constructor. Qed.

Lemma with_qfile_twice full f f' t : with_qfile full f (with_qfile full f' t) = with_qfile full f t.
Proof. unfold with_qfile, set_qfiles; cbn. by rewrite insert_insert_eq. Qed.

(** What a put of a message to the queue [qn] of the host makes of the host. *)
Lemma sendmsg_run {A} (C : net host (Z) → net host A) qn message p s t v n f rc q' : let full := queue_file (dtapath t) qn in
  frame C → (∀ m, 0 ≤ m → zlen (junk m) = m) →
  srv_ok t v → sendable qn → qn ≠ [] → zlen qn < 50 → zlen full < 100 → in_header p → in_header (zlen message) →
  qfiles t !! full = Some f → DTA_PUTMSG IoOk message p (opened f) = Ok (rc, q') →
  let t' := with_qfile full (QFile true q') t in
  ∃ v', srv_ok t' v' ∧
  rtc pstep (Side (C (DTA_SENDMSG qn message p)) s [], Side (serve (S n) v) t [])
    (Side (C (Ret (if rc =? 0 then 0 else -1))) s [], Side (if rc =? 0 then serve n v' else Ret (-1)) t' []).
Proof.
  intros full HC Hj Hv Hqn Hne Hl Hfl Hp Hm Hf Hput t'. destruct (header_sendable p (zlen message) Hp Hm) as [Hh1 Hh2].
  set (v1 := Server (smsg (header p (zlen message))) (openedqueue v) (hq v)).
  assert (srv_ok t v1) as Hv1 by (split; [apply zlen_smsg|apply Hv]).
  destruct (open_for_solo qn t v1 [] f Hv1 Hne Hfl Hf) as (h & Hh & Hopen).
  exists (Server (smsgbuf v1) qn (Some h)). split.
  { split; [apply zlen_smsg|]. intros _. exists h, q'. split; [done|]. split; [done|]. rewrite Hh. apply lookup_insert_eq. }
  unfold DTA_SENDMSG. lsend. rewrite <- (app_nil_r (smsg (bytes "sendmsg"))). apply serve_request; [apply Hv|]. dispatch. unfold sendmsg.
  rsend. lsolo (by apply recv_all_solo). lsend.
  rsolo (apply recv_all_solo, zlen_smsg).
  rewrite drop_ge, app_nil_r by (rewrite length_replicate; pose proof (zlen_smsg qn); unfold zlen in *; lia).
  rewrite strncpy_smsg, cstring_ok by (done || apply Hqn). nsimpl.
  rsend. lsolo (by apply recv_all_solo). lsend. fold (header p (zlen message)).
  rsolo (apply recv_all_solo, zlen_smsg).
  rewrite (drop_ge (smsg qn)), app_nil_r by (pose proof (zlen_smsg qn); pose proof (zlen_smsg (header p (zlen message))); unfold zlen in *; lia).
  rewrite cstring_smsg by by apply header_sendable. nsimpl. rewrite scan_header by done.
  rewrite (proj2 (Z.ltb_ge _ 0)) by apply zlen_nonneg. 
  rsend. lsolo (by apply recv_all_solo). lsend. rsolo (by apply recv_all_solo).
  rewrite (drop_ge (junk _)), app_nil_r by (pose proof (Hj (zlen message) (zlen_nonneg _)); unfold zlen in *; lia).
  unfold with_buf; cbn [smsgbuf openedqueue hq]. fold v1. rsolo (exact Hopen). cbn [hq].
  rsolo (eapply on_queue_solo; [rewrite Hh; apply lookup_insert_eq|exact Hput]). rewrite Hh, with_qfile_twice. fold t'.
  destruct (rc =? 0); cbn [negb]; rsend; lsolo (by apply recv_all_solo); cbn [Z.eqb negb zlen length bytes]; constructor.
Qed.
End server.

(** ** The rows of a remote command *)

(** A line of output that fits the buffer and is not the mark of the end. *)
Definition plain_line (l : list Z) : Prop := no_nul l ∧ 10 ∉ l ∧ zlen l ≤ 198 ∧ l ≠ END_OF_RESULT.
Definition text_of (ls : list (list Z)) : list Z := concat ((λ l, l ++ [10]) <$> ls).
(** A buffer that carries a line. *)
Definition carries (b l : list Z) : Prop := zlen b = SMSGLEN ∧ cstr b = l ∧ 0 ∈ b.

Lemma fgets_end : fgets 200 [] = ([], []).
Proof. vm_compute. reflexivity. Qed.

Lemma line_buf_ok l buf : plain_line l → zlen buf = SMSGLEN →
  ∃ b, @line_buf (l ++ [10]) buf = Ret b ∧ carries b l.
Proof.
  intros (Hn & H10 & Hl & _) Hb. unfold line_buf.
  assert (cstr ((l ++ [10]) ++ 0 :: drop (length (l ++ [10]) + 1) buf) = l ++ [10]) as E.
  { apply cstr_app, Forall_app. split; [done|by repeat constructor]. }
  unfold strlen. rewrite E, last_snoc, bool_decide_true by done. rewrite zlen_app. change (zlen [10]) with 1.
  pose proof (zlen_nonneg l). rewrite (proj2 (Z.eqb_neq _ 0)) by lia. eexists. split; [done|].
  replace (Z.to_nat (zlen l + 1 - 1)) with (length l) by (unfold zlen; lia).
  rewrite <- (app_assoc l), insert_app_r_alt, Nat.sub_diag by lia. cbn [app insert list_insert]. split; [|split].
  - unfold zlen, SMSGLEN in *. rewrite length_app. cbn [length]. rewrite length_drop, length_app. cbn [length]. lia.
  - by apply cstr_app.
  - apply elem_of_app. right. left.
Qed.

Lemma send_lines_solo i ls buf s j : Forall plain_line ls → zlen buf = SMSGLEN →
  ∃ bufs buf', Forall2 carries bufs (take i ls) ∧
    solo (Side (send_lines i (text_of ls) buf) s j) (concat bufs) (Side (Ret buf') s j).
Proof.
  intros Hls. revert i buf. induction Hls as [|l ls Hl _ IH]; intros [|i] buf Hb; cbn [take]; try (exists [], buf; split; [constructor|constructor]).
  destruct (line_buf_ok l buf Hl Hb) as (b & E & Hc). destruct (IH i b (proj1 Hc)) as (bufs & buf' & HF & Hs).
  exists (b :: bufs), buf'. split; [by constructor|]. cbn [send_lines]. change (text_of (l :: ls)) with ((l ++ [10]) ++ text_of ls).
  rewrite <- (app_assoc l [10]); cbn [app]; rewrite fgets_line by (destruct Hl as (_ & ? & ? & _); done || lia). rewrite bool_decide_false by by destruct l. rewrite E. cbn [concat]. nsimpl. ssend. exact Hs.
Qed.

Definition cut (resultlength : Z) (l : list Z) : list Z := take (Z.to_nat (resultlength - 1)) l.

Lemma recv_rows_solo fuel rl rows bufs ls e s : Forall2 carries bufs ls → (∀ l, l ∈ ls → l ≠ END_OF_RESULT) → carries e END_OF_RESULT →
  (length bufs < fuel)%nat →
  solo (Side (recv_rows fuel rl rows) s (concat bufs ++ e)) [] (Side (Ret (Some (rows ++ (cut rl <$> ls) ++ [cut rl END_OF_RESULT]))) s []).
Proof.
  intros HF. revert fuel rows. induction HF as [|b l bufs ls (H1 & H2 & H3) _ IH]; intros [|fuel] rows Hne He Hf; try (simpl in Hf; lia);
    cbn [recv_rows].
  - destruct He as (E1 & E2 & E3). cbn [concat app]. ssolo (by apply recv_all_solo). rewrite E1.
    rewrite Z.eqb_refl. rewrite bool_decide_true by done. cbn [negb andb]. rewrite E2, bool_decide_true by done. constructor.
  - cbn [concat]. rewrite <- app_assoc. ssolo (by apply recv_solo). rewrite H1.
    rewrite Z.eqb_refl. rewrite bool_decide_true by done. cbn [negb andb]. rewrite H2, bool_decide_false by (apply Hne; left).
    replace (rows ++ (cut rl <$> l :: ls) ++ [cut rl END_OF_RESULT])
      with ((rows ++ [cut rl l]) ++ (cut rl <$> ls) ++ [cut rl END_OF_RESULT]) by (by rewrite <- app_assoc).
    apply IH; [|done|simpl in Hf; lia]. intros x Hx. apply Hne. by right.
Qed.

Section rcmd.
Context (sh : list Z → host → Z * host) (pid : Z) (junk : Z → list Z).
Implicit Types (s t : host) (v : server).

Definition rcmd_tmp (t : host) : list Z := dtapath t ++ bytes "/tmp/rcmd" ++ dec pid.

Lemma rcmd_run {A} (C : net host (Z * option (Z * list (list Z))) → net host A) command result rl ls ret s t t1 t2 v n : let tmp := rcmd_tmp t in
  frame C → sendable command → zlen (command ++ bytes " > " ++ tmp) < 200 → zlen tmp < 190 → zlen (smsgbuf v) = SMSGLEN →
  - 2 ^ 31 ≤ ret < 2 ^ 31 → - 2 ^ 31 ≤ result < 2 ^ 31 → 
  sh (command ++ bytes " > " ++ tmp) t = (ret, t1) → files t1 !! tmp = Some (text_of ls) → Forall plain_line ls →
  sh (bytes "rm -f " ++ tmp) t1 = (0, t2) →
  rtc pstep (Side (C (DTA_RCMD command result rl)) s [], Side (requests 4 sh pid junk (S n) v) t [])
    (Side (C (Ret (ret, Some (zlen (take (Z.to_nat result) ls), (cut rl <$> take (Z.to_nat result) ls) ++ [cut rl END_OF_RESULT])))) s [],
     Side (requests 4 sh pid junk n (with_buf (smsg END_OF_RESULT) v)) t2 []).
Proof.
  intros tmp HC Hc Hcl Htl Hv Hret Hres Hsh1 Ht1 Hls Hsh2. unfold DTA_RCMD. do 3 lsend. rewrite <- !app_assoc, ?app_nil_l. apply serve_request; [done|].
  dispatch. unfold execrcmd. rsolo (apply recv_str_solo; [done|apply Hc]). rewrite cstring_ok by apply Hc. nsimpl.
  rewrite <- (app_nil_r (be32 _)). rsolo (apply recv_int_solo). rewrite of_be32_be32 by done. ract. fold (rcmd_tmp t). fold tmp.
  rewrite (sprintf_ok 200 tmp) by lia. nsimpl. rewrite (sprintf_ok 200 (command ++ _)) by done. nsimpl. ract. rewrite Hsh1. cbn [fst snd]. 
  rsend. ract. rewrite Ht1. nsimpl.
  destruct (send_lines_solo (Z.to_nat result) ls (smsg command) t1 [] Hls (zlen_smsg _)) as (bufs & buf' & HF & Hsolo).
  rsolo (exact Hsolo). fold (smsg END_OF_RESULT). rsend. 
  rewrite (sprintf_ok 200 (bytes _ ++ tmp)) by (rewrite zlen_app; change (zlen (bytes "rm -f ")) with 6; lia). nsimpl. ract. rewrite Hsh2.
  nsimpl.
  rewrite <- !app_assoc. lsolo (by apply recv_solo). rewrite ?zlen_be32. cbn [Z.eqb negb Pos.eqb]. rewrite of_be32_be32 by done.
  pose proof (Forall2_length _ _ _ HF) as Hlen. rewrite length_take in Hlen.
  lsolo (apply (recv_rows_solo _ rl [] bufs (take (Z.to_nat result) ls)); [done| | |lia]).
  - intros l Hl. pose proof (Forall_take _ (Z.to_nat result) _ Hls) as Ht. rewrite Forall_forall in Ht. by apply Ht.
  - split; [apply zlen_smsg|]. apply cstr_strncpy; [by repeat constructor|done].
  - rewrite !zlen_app. change (zlen [cut rl END_OF_RESULT]) with 1. change (zlen []) with 0.
    replace (0 + (zlen (cut rl <$> take (Z.to_nat result) ls) + 1) - 1) with (zlen (take (Z.to_nat result) ls)) by (unfold zlen; rewrite length_fmap; lia).
    constructor.
Qed.
End rcmd.
