(* ===== verification/DtaNetApi.v ===== *)
(** What the DTA transport does for its users: files and messages that go through a connection
    arrive whole, whatever the two sides' speeds. *)
From S2P Require Import Prelude CLib Net DtaQueue DtaQueueSpec DtaQueueApi DtaNet DtaNetSpec.

(** ** [readn] and [writen] *)

Lemma readn_pieces pieces n : Forall (λ p, p ≠ []) pieces → 0 ≤ n →
  (readn pieces n).1 = take (Z.to_nat n) (concat pieces) ∧ concat (readn pieces n).2 = drop (Z.to_nat n) (concat pieces).
Proof.
  intros Hp. revert n. induction Hp as [|p pieces Hp _ IH]; intros n Hn; cbn [readn concat]; [by rewrite take_nil, drop_nil|].
  assert (0 < zlen p) by (destruct p; [done|unfold zlen; simpl; lia]).
  destruct (Z.leb_spec n 0) as [H0|H0]; [assert (n = 0) as -> by lia; done|].
  rewrite (proj2 (Z.eqb_neq _ 0)) by lia. destruct (Z.leb_spec (zlen p) n) as [Hl|Hl].
  - rewrite Z.min_l by lia. destruct (IH (n - zlen p) ltac:(lia)) as [E1 E2]. destruct (readn pieces (n - zlen p)) as [bs rest]; cbn in *.
    assert (Z.to_nat n = length p + Z.to_nat (n - zlen p))%nat as -> by (unfold zlen in *; lia).
    rewrite take_app_add, drop_app_add. by subst.
  - rewrite Z.min_r by lia. cbn. unfold zlen in *. by rewrite take_app_le, drop_app_le by lia.
Qed.

Lemma readn_short pieces rest n : Forall (λ p, p ≠ []) pieces → zlen (concat pieces) < n →
  readn (pieces ++ [] :: rest) n = (concat pieces, rest).
Proof.
  intros Hp. revert n. induction Hp as [|p pieces Hp _ IH]; intros n Hn; cbn [readn concat app].
  - change (zlen (concat [])) with 0 in Hn. rewrite (proj2 (Z.leb_gt _ _)) by lia. by rewrite Z.min_l by (unfold zlen; simpl; lia).
  - assert (0 < zlen p) by (destruct p; [done|unfold zlen; simpl; lia]). pose proof (zlen_nonneg (concat pieces)).
    cbn [concat] in Hn. rewrite zlen_app in Hn. rewrite (proj2 (Z.leb_gt n 0)), (proj2 (Z.eqb_neq _ 0)), (proj2 (Z.leb_le _ _)) by lia.
    rewrite Z.min_l, IH by lia. done.
Qed.

Lemma write_loop_all results bs : Forall (λ r, 0 < r) results → zlen bs ≤ foldr Z.add 0 results → write_loop results bs = bs.
Proof.
  intros Hr. revert bs. induction Hr as [|r results Hr Hrs IH]; intros bs Hl; cbn [write_loop foldr] in *.
  - symmetry. apply nil_length_inv. unfold zlen in Hl. lia.
  - destruct (Z.leb_spec (zlen bs) 0); [symmetry; apply nil_length_inv; unfold zlen in *; lia|].
    assert (0 ≤ foldr Z.add 0 results) by (clear -Hrs; induction Hrs; simpl; lia).
    rewrite (proj2 (Z.leb_gt _ _)), IH by (done || unfold zlen in *; rewrite length_drop; lia). apply take_drop.
Qed.

(** ** A connection *)

(** A client program against [tcpget]. *)
Definition connect {A} (client : net host A) (server_prog : net host Z) (s t : host) : pair_conf host A host Z :=
  (Side client s [], Side server_prog t []).
Definition outcome {A} (a : A) (s : host) (r : Z) (t : host) : pair_conf host A host Z := (Side (Ret a) s [], Side (Ret r) t []).

Section api.
Context (sh : list Z → host → Z * host) (pid : Z) (junk : Z → list Z).

Lemma serve_end {S A} n v t (x : side S A) c : ended (prg x) = true → rtc pstep (x, Side (Ret 0) t []) c →
  rtc pstep (x, Side (requests 4 sh pid junk (Datatypes.S n) v) t []) c.
Proof. intros He. apply r_quiet. unfold side_step. cbn. by rewrite He. Qed.

Lemma start_ok t : srv_ok t (Server (replicate (Z.to_nat SMSGLEN) 0) [] None).
Proof. split; [|done]. unfold zlen. cbn. by rewrite length_replicate. Qed.
End api.

(** Names without blanks and shell characters: letters, digits and [-./_]. *)
Definition plain_char (c : Z) : bool :=
  isdigit c || ((65 <=? c) && (c <=? 90)) || ((97 <=? c) && (c <=? 122)) || bool_decide (c ∈ [45; 46; 47; 95]).
Definition plain (s : list Z) : Prop := s ≠ [] ∧ Forall (λ c, plain_char c = true) s.

(** [mv -f] of a file that is there, onto another name. *)
Definition mv_moves (sh : list Z → host → Z * host) : Prop := ∀ src tgt h d,
  plain src → plain tgt → src ≠ tgt → files h !! src = Some d →
  sh (mv_cmd src tgt) h = (0, set_files (<[tgt := d]> (delete src (files h))) h).

(** ** Properties *)

(** C20: [readn] gives the first [n] bytes that arrive however the stream is cut into
    pieces, and leaves the rest; after an empty read it gives what came before.  [writen]
    sends everything when every [write] makes progress; but it returns [n] whatever happened,
    so no caller ever sees an error. *)
Theorem sock_readn_writen pieces n :
  Forall (λ p, p ≠ []) pieces → 0 ≤ n →
  ((readn pieces n).1 = take (Z.to_nat n) (concat pieces) ∧ concat (readn pieces n).2 = drop (Z.to_nat n) (concat pieces)) ∧
  (∀ rest, zlen (concat pieces) < n → readn (pieces ++ [] :: rest) n = (concat pieces, rest)) ∧
  (∀ results bs, Forall (λ r, 0 < r) results → zlen bs ≤ foldr Z.add 0 results → writen results bs = (zlen bs, bs)) ∧
  (∀ results bs, (writen results bs).1 = zlen bs ∧ writen (-1 :: results) bs = (zlen bs, [])).
Proof.
  intros Hp Hn. split; [by apply readn_pieces|]. split; [intros rest; by apply readn_short|]. split.
  - intros results bs Hr Hl. unfold writen. by rewrite write_loop_all.
  - intros results bs. split; [done|]. unfold writen; cbn. by destruct (zlen bs <=? 0).
Qed.

Lemma sock_readn_writen_witness : readn [[1; 2]; [3]; [4; 5; 6]] 4 = ([1; 2; 3; 4], [[5; 6]]) ∧
  readn ([[1; 2]; [3]] ++ [] :: [[9]]) 4 = ([1; 2; 3], [[9]]).
Proof.
  split; [done|]. apply (sock_readn_writen [[1; 2]; [3]] 4); [by repeat constructor|lia|done].
Defined.

(** C21: [DTA_PUT] against [tcpget] always ends with code 0 and the file moved to its name on
    the server, in every interleaving; bytes of an interrupted transfer that are in the
    server's temporary file are kept, and only what lies behind them is sent. *)
Theorem dta_put_transfers sh pid junk source target mtime d s t n :
  let tmp := tmp_of t target in let old := have t tmp in let new := old ++ drop (length old) d in
  mv_moves sh → files s !! source = Some d → zlen d < 2 ^ 31 → zlen old < 2 ^ 31 → sendable source → sendable target →
  plain tmp → plain target → tmp ≠ target → zlen tmp + 4 < 200 → zlen (mv_cmd tmp target) < 200 → (2 ≤ n)%nat →
  always_ends (connect (net_bind Ret (DTA_PUT 4 source target mtime)) (tcpget 4 sh pid junk n) s t)
    (outcome (0, Some (FtInfo (zlen d) (zlen old))) s 0 (set_files (<[target := new]> (delete tmp (files t))) t)).
Proof.
  intros tmp old new Hmv Hd Hdl Hol Hs Ht Hpt Hp Hne Htl Hcl Hn. destruct n as [|[|n]]; [lia..|]. apply run_ends; [|done|done].
  etransitivity.
  - apply (put_run sh pid junk (net_bind Ret) source target mtime d s t (set_files (<[target := new]> (delete tmp (files t))) t));
      try done; [apply frame_bind|].
    fold tmp old new. rewrite (Hmv _ _ _ new) by (done || apply with_file_lookup). unfold with_file, set_files; cbn. by rewrite delete_insert_eq.
  - apply serve_end; [done|]. apply rtc_refl.
Qed.

(** A shell that knows [mv -f] and [rm -f], and prints two lines for every other command. *)
Fixpoint word (s : list Z) : list Z := match s with [] => [] | c :: s' => if c =? 32 then [] else c :: word s' end.
Definition demo_sh (cmd : list Z) (h : host) : Z * host :=
  let rest := drop 6 cmd in
  let src := word rest in
  let tgt := drop (Datatypes.S (length src)) rest in
  if bool_decide (take 6 cmd = bytes "mv -f ") then
    match files h !! src with
    | Some d => (0, set_files (<[tgt := d]> (delete src (files h))) h)
    | None => (256, h)
    end
  else if bool_decide (take 6 cmd = bytes "rm -f ") then (0, set_files (delete src (files h)) h)
  else (3, with_file (bytes "/d/tmp/rcmd7") (text_of [bytes "one"; bytes "two"]) h).

Lemma plain_no_blank s : plain s → 32 ∉ s.
Proof. intros [_ Hs] Hin. rewrite Forall_forall in Hs. by specialize (Hs _ Hin). Qed.
Lemma word_app s t : 32 ∉ s → word (s ++ 32 :: t) = s.
Proof.
  induction s as [|c s IH]; intros Hs; [done|]. apply not_elem_of_cons in Hs as [Hc Hs]. simpl.
  rewrite (proj2 (Z.eqb_neq c 32)) by congruence. by rewrite IH.
Qed.
Lemma demo_sh_mv : mv_moves demo_sh.
Proof.
  intros src tgt h d Hs _ _ Hd. unfold demo_sh, mv_cmd. change (drop 6 (bytes "mv -f " ++ src ++ [32] ++ tgt)) with (src ++ 32 :: tgt).
  rewrite word_app by by apply plain_no_blank. rewrite Hd.
  assert (drop (Datatypes.S (length src)) (src ++ 32 :: tgt) = tgt) as ->.
  { replace (Datatypes.S (length src)) with (length src + 1)%nat by lia. by rewrite drop_app_add. }
  change (take 6 (bytes "mv -f " ++ src ++ [32] ++ tgt)) with (bytes "mv -f "). by rewrite bool_decide_true.
Qed.

Definition demo_client : host := Host {[bytes "a" := bytes "hello"]} ∅ (bytes "/c") [].
(** A server with the first two bytes of an interrupted transfer. *)
Definition demo_server : host := Host {[bytes "/d/tmp/b" := bytes "he"]} ∅ (bytes "/d") [].

Lemma plain_bytes s : s ≠ [] → forallb plain_char s = true → plain s.
Proof. intros Hs Hb. split; [done|]. apply Forall_forall. intros c Hc. apply forallb_forall with (x := c) in Hb; [done|]. by apply list_elem_of_In. Qed.
Lemma sendable_bytes s : forallb (λ c, negb (c =? 0)) s && (zlen s <? SMSGLEN) = true → sendable s.
Proof.
  intros [Hb Hl%Z.ltb_lt]%andb_true_iff. split; [|done]. apply Forall_forall. intros c Hc. apply forallb_forall with (x := c) in Hb.
  - by apply negb_true_iff, Z.eqb_neq in Hb.
  - by apply list_elem_of_In.
Qed.

Lemma dta_put_transfers_witness :
  always_ends (connect (net_bind Ret (DTA_PUT 4 (bytes "a") (bytes "b") 0)) (tcpget 4 demo_sh 7 (λ n, replicate (Z.to_nat n) 0) 2) demo_client demo_server)
    (outcome (0, Some (FtInfo 5 2)) demo_client 0 (Host {[bytes "b" := bytes "hello"]} ∅ (bytes "/d") [])).
Proof.
  apply (dta_put_transfers demo_sh 7 (λ n, replicate (Z.to_nat n) 0) (bytes "a") (bytes "b") 0 (bytes "hello") demo_client demo_server 2 demo_sh_mv);
    try (by vm_compute); try (by apply plain_bytes); try (by apply sendable_bytes).
Defined.

(** Puts a file and gets it back under another name. *)
Definition put_get (source target back : list Z) (mtime : Z) : net host (Z * Z) :=
  '(r1, _) ← DTA_PUT 4 source target mtime; '(r2, _) ← DTA_GET target back; mret (r1, r2).

(** C22: a file that is put to a server and got back on the same connection has the bytes it
    had, when neither side has a piece of an earlier transfer. *)
Theorem dta_put_get_roundtrip sh pid junk source target back mtime d s t n :
  let tmp := tmp_of t target in let name := get_name s back in
  mv_moves sh → files s !! source = Some d → files s !! name = None → files t !! tmp = None → zlen d < 2 ^ 31 →
  sendable source → sendable target → plain tmp → plain target → tmp ≠ target →
  zlen tmp + 4 < 200 → zlen (mv_cmd tmp target) < 200 → zlen name < 200 → (3 ≤ n)%nat →
  ∃ s' t', always_ends (connect (put_get source target back mtime) (tcpget 4 sh pid junk n) s t) (outcome (0, 0) s' 0 t') ∧
    files s' !! name = Some d ∧ files t' !! target = Some d.
Proof.
  intros tmp name Hmv Hd Hname Htmp Hdl Hs Ht Hpt Hp Hne Htl Hcl Hnl Hn. destruct n as [|[|[|n]]]; [lia..|].
  assert (have t tmp = []) as Eold by (unfold have; by rewrite Htmp). assert (have s name = []) as Eback by (unfold have; by rewrite Hname).
  set (t' := set_files (<[target := d]> (delete tmp (files t))) t). exists (with_file name d s), t'. split; [|split; [apply with_file_lookup|apply lookup_insert_eq]].
  apply run_ends; [|done|done]. etransitivity; [|etransitivity].
  - unfold put_get. apply (put_run sh pid junk (net_bind _) source target mtime d s t t'); try done; [apply frame_bind|..]; fold tmp; rewrite Eold; [done|].
    rewrite (Hmv _ _ _ d) by (done || apply with_file_lookup). unfold with_file, set_files; cbn. by rewrite delete_insert_eq.
  - nsimpl. refine (get_run sh pid junk (net_bind _) target back d s t' _ _ _ _ _ _ _ _ _); fold name; rewrite ?Eback; try done;
      [apply frame_bind|apply lookup_insert_eq|apply zlen_smsg].
  - nsimpl. apply serve_end; [done|]. fold name. rewrite Eback. apply rtc_refl.
Qed.

Lemma dta_put_get_roundtrip_witness : ∃ s' t',
  always_ends (connect (put_get (bytes "a") (bytes "b") (bytes "x/y") 0) (tcpget 4 demo_sh 7 (λ _, []) 3) demo_client (Host ∅ ∅ (bytes "/d") []))
    (outcome (0, 0) s' 0 t') ∧ files s' !! (bytes "x/y") = Some (bytes "hello") ∧ files t' !! (bytes "b") = Some (bytes "hello").
Proof.
  apply (dta_put_get_roundtrip demo_sh 7 (λ _, []) (bytes "a") (bytes "b") (bytes "x/y") 0 (bytes "hello") demo_client (Host ∅ ∅ (bytes "/d") []) 3 demo_sh_mv);
    try (by vm_compute); try (by apply plain_bytes); try (by apply sendable_bytes).
Defined.

(** C23: [DTA_RCMD] returns the code of the command and its first [result] lines, each cut to
    the length of a row, in every interleaving; but it writes one row more than it was asked
    for, the mark of the end, so that an array of [result] rows is overrun. *)
Theorem dta_rcmd_rows sh pid junk command result rl ls ret s t t1 t2 n : let tmp := rcmd_tmp pid t in
  sendable command → zlen (command ++ bytes " > " ++ tmp) < 200 → zlen tmp < 190 → (2 ≤ n)%nat →
  - 2 ^ 31 ≤ ret < 2 ^ 31 → - 2 ^ 31 ≤ result < 2 ^ 31 →
  sh (command ++ bytes " > " ++ tmp) t = (ret, t1) → files t1 !! tmp = Some (text_of ls) → Forall plain_line ls →
  sh (bytes "rm -f " ++ tmp) t1 = (0, t2) →
  let rows := take (Z.to_nat result) ls in
  always_ends (connect (net_bind Ret (DTA_RCMD command result rl)) (tcpget 4 sh pid junk n) s t)
    (outcome (ret, Some (zlen rows, (cut rl <$> rows) ++ [cut rl END_OF_RESULT])) s 0 t2).
Proof.
  intros tmp Hc Hcl Htl Hn Hret Hres H1 H2 H3 H4 rows. destruct n as [|[|n]]; [lia..|]. apply run_ends; [|done|done]. etransitivity.
  - apply (rcmd_run sh pid junk (net_bind Ret) command result rl ls ret s t t1 t2); try done. apply frame_bind.
  - apply serve_end; [done|]. apply rtc_refl.
Qed.

Lemma plain_line_bytes l : forallb (λ c, negb (c =? 0) && negb (c =? 10)) l && (zlen l <=? 198) && negb (bool_decide (l = END_OF_RESULT)) = true →
  plain_line l.
Proof.
  intros [[Hb Hl%Z.leb_le]%andb_true_iff He]%andb_true_iff. assert (∀ c, c ∈ l → c ≠ 0 ∧ c ≠ 10) as H.
  { intros c Hc. apply forallb_forall with (x := c) in Hb; [|by apply list_elem_of_In]. by btests. }
  split; [apply Forall_forall; intros c Hc; by apply H|]. split; [intros Hc; by destruct (H _ Hc)|]. split; [done|].
  by apply negb_true_iff, bool_decide_eq_false in He.
Qed.

Lemma dta_rcmd_rows_witness : let h := Host ∅ ∅ (bytes "/d") [] in
  always_ends (connect (net_bind Ret (DTA_RCMD (bytes "ls") 1 80)) (tcpget 4 demo_sh 7 (λ _, []) 2) h h)
    (outcome (3, Some (1, [bytes "one"; END_OF_RESULT])) h 0 h).
Proof.
  apply (dta_rcmd_rows demo_sh 7 (λ _, []) (bytes "ls") 1 80 [bytes "one"; bytes "two"] 3 (Host ∅ ∅ (bytes "/d") []) (Host ∅ ∅ (bytes "/d") [])
    (with_file (bytes "/d/tmp/rcmd7") (text_of [bytes "one"; bytes "two"]) (Host ∅ ∅ (bytes "/d") [])) (Host ∅ ∅ (bytes "/d") []) 2);
    try (by vm_compute); try (by apply sendable_bytes).
  repeat (apply Forall_cons_2; [by apply plain_line_bytes|]). constructor.
Defined.

(** ** The queue sender *)

(** The messages put one after the other. *)
Definition puts (max : Z) (l : list amsg) (b : dq.aqueue) : dq.aqueue := foldl (λ b m, (dq.put max (text m) (prio m) b).2) b l.
(** A message whose length and priority fit the header of the protocol. *)
Definition fits (m : amsg) : Prop := in_header (prio m) ∧ in_header (zlen (text m)).

Lemma get_first mode m a : has_flag mode DTAGMO_READBYPRIORITY = true → has_flag mode DTAGMO_SKIPWHILEREAD = false → 0 ∉ dq.nums (m :: a) →
  dq.get 0 mode (m :: a) =
    ((0, Some (if has_flag mode DTAGMO_JUSTINQUIRE then None else Some (text m), zlen (text m), prio m), 0),
     if has_flag mode DTAGMO_DELETEAFTERREAD then dq.remove (num m) (m :: a) else m :: a).
Proof.
  intros H1 H2 H3. unfold dq.get. rewrite H1, H2.
  replace (if has_flag mode DTAGMO_RESETCURSOR then 0 else 0) with 0 by (by destruct (has_flag mode DTAGMO_RESETCURSOR)).
  rewrite bool_decide_false by done. cbn [andb negb]. rewrite next_in_list_dead by done. cbn [head].
  by destruct (has_flag mode DTAGMO_DELETEAFTERREAD).
Qed.

Lemma remove_first m a : NoDup (dq.nums (m :: a)) → dq.remove (num m) (m :: a) = a.
Proof.
  intros Hn. unfold dq.nums in Hn. rewrite fmap_cons in Hn. apply NoDup_cons in Hn as [Hm _]. unfold dq.remove. rewrite filter_cons_False by naive_solver.
  apply filter_all, Forall_forall. intros x Hx E. apply Hm. rewrite <- E. by apply elem_of_nums.
Qed.

(** A get on the open queue of a host. *)
Lemma get_solo full mode s i q a : qfiles s !! full = Some (QFile true q) → qinv q a → idle q →
  let r := dq.get 0 mode a in
  ∃ q', solo (Side (on_queue full (DTA_GETMSG 0 mode)) s i) [] (Side (Ret r.1) (with_qfile full (QFile true q') s) i) ∧
    qinv q' r.2 ∧ same_m q q'.
Proof.
  intros Hf Hq Hi r. destruct (DTA_GETMSG_ok q a 0 mode Hq Hi) as (q' & E & Hq' & Hs).
  { eapply inside_inv; [done|]. pose proof (qi_max _ _ Hq). lia. }
  exists q'. split; [by eapply on_queue_solo|done].
Qed.

Lemma same_m_trans q1 q2 q3 : same_m q1 q2 → same_m q2 q3 → same_m q1 q3.
Proof. intros (H1 & H2 & H3) (K1 & K2 & K3). unfold same_m. by rewrite K1, K3. Qed.

Lemma with_qfile_lookup full f s : qfiles (with_qfile full f s) !! full = Some f.
Proof. apply lookup_insert_eq. Qed.

Section sendq.
Context (sh : list Z → host → Z * host) (pid : Z) (junk : Z → list Z) (fullc rq : list Z).
Abbreviation serve := (requests 4 sh pid junk).

(** The server's side: the queue [rq] holds [b] and has room for [max] messages. *)
Definition remote (t : host) (b : dq.aqueue) (max : Z) : Prop :=
  ∃ f, qfiles t !! queue_file (dtapath t) rq = Some f ∧ qinv (opened f) b ∧ idle (opened f) ∧ maxmsgs (q_head (opened f)) = max.
(** The client's side: its queue holds [a], and nobody is inside. *)
Definition mine (s : host) (a : dq.aqueue) (m : Z) : Prop :=
  ∃ q, qfiles s !! fullc = Some (QFile true q) ∧ qinv q a ∧ idle q ∧ sem_m q = m.

Hypothesis junk_len : ∀ m, 0 ≤ m → zlen (junk m) = m.
Hypothesis rq_ok : sendable rq ∧ rq ≠ [] ∧ zlen rq < 50.

Lemma mine_get s a m mode i : mine s a m → 
  ∃ s', solo (Side (on_queue fullc (DTA_GETMSG 0 mode)) s i) [] (Side (Ret (dq.get 0 mode a).1) s' i) ∧ mine s' (dq.get 0 mode a).2 m.
Proof.
  intros (q & Hf & Hq & Hi & Hm). destruct (get_solo _ mode s i q a Hf Hq Hi) as (q' & Hs & Hq' & (_ & Hi' & Hm')).
  eexists. split; [exact Hs|]. exists q'. split; [apply with_qfile_lookup|]. split; [done|]. split; [done|]. by rewrite Hm'.
Qed.

Lemma mine_zero s a m : mine s a m → 0 ∉ dq.nums a.
Proof. intros (q & _ & Hq & _). by eapply zero_not_num. Qed.

(** A look at the first message, and its removal. *)
Lemma mine_peek mode s m a sm i : mine s (m :: a) sm → has_flag mode DTAGMO_READBYPRIORITY = true →
  has_flag mode DTAGMO_SKIPWHILEREAD = false → has_flag mode DTAGMO_DELETEAFTERREAD = false →
  ∃ s', solo (Side (on_queue fullc (DTA_GETMSG 0 mode)) s i) []
    (Side (Ret (0, Some (if has_flag mode DTAGMO_JUSTINQUIRE then None else Some (text m), zlen (text m), prio m), 0)) s' i) ∧ mine s' (m :: a) sm.
Proof.
  intros Hs H1 H2 H3. destruct (mine_get s (m :: a) sm mode i Hs) as (s' & Hr & Hs'). rewrite get_first in Hr, Hs' by (done || by eapply mine_zero).
  rewrite H3 in *. by exists s'.
Qed.
Lemma mine_take s m a sm i : mine s (m :: a) sm →
  ∃ s', solo (Side (on_queue fullc (DTA_GETMSG 0 (DTAGMO_READBYPRIORITY + DTAGMO_DELETEAFTERREAD))) s i) []
    (Side (Ret (0, Some (Some (text m), zlen (text m), prio m), 0)) s' i) ∧ mine s' a sm.
Proof.
  intros Hs. destruct (mine_get s (m :: a) sm (DTAGMO_READBYPRIORITY + DTAGMO_DELETEAFTERREAD) i Hs) as (s' & Hr & Hs').
  rewrite get_first in Hr, Hs' by (done || by eapply mine_zero). destruct Hs as (q & _ & Hq & _).
  cbn [snd] in Hs'. change (has_flag (DTAGMO_READBYPRIORITY + DTAGMO_DELETEAFTERREAD) DTAGMO_DELETEAFTERREAD) with true in Hs'.
  rewrite remove_first in Hs' by apply (qi_nodup _ _ Hq). by exists s'.
Qed.

(** One message to the server. *)
Lemma remote_put {A} (C : net host Z → net host A) s t b max v n m : frame C → remote t b max → srv_ok t v → fits m →
  zlen (queue_file (dtapath t) rq) < 100 → let r := dq.put max (text m) (prio m) b in
  ∃ t' v', dtapath t' = dtapath t ∧ remote t' r.2 max ∧ srv_ok t' v' ∧
  rtc pstep (Side (C (DTA_SENDMSG rq (text m) (prio m))) s [], Side (serve (S n) v) t [])
    (Side (C (Ret (if r.1 =? 0 then 0 else -1))) s [], Side (if r.1 =? 0 then serve n v' else Ret (-1)) t' []).
Proof.
  intros HC (f & Hf & Hq & Hi & Hmax) Hv [Hp Hl] Hlen r. destruct rq_ok as (R1 & R2 & R3).
  destruct (DTA_PUTMSG_ok _ _ (text m) (prio m) Hq Hi) as (q' & E & Hq' & (M1 & I1 & _)). rewrite Hmax in *.
  destruct (sendmsg_run sh pid junk C rq (text m) (prio m) s t v n f _ q' HC junk_len Hv R1 R2 R3 Hlen Hp Hl Hf E) as (v' & Hv' & Hr).
  eexists _, v'. split; [|split; [|split; [exact Hv'|exact Hr]]]; [done|].
  exists (QFile true q'). split; [apply with_qfile_lookup|done].
Qed.

Lemma put_code max m b : let r := dq.put max (text m) (prio m) b in r.1 = 0 ∨ r.1 ≠ 0 ∧ r.2 = b ∧ zlen b = max.
Proof. unfold dq.put. destruct (Z.eqb_spec (zlen b) max); [right|by left]. done. Qed.

(** What the sender leaves: a first part of its messages is on the server, the others are
    still its own, and it only stops before the end when the server's queue is full. *)
Definition forwarded (n : nat) (a b : dq.aqueue) (max sm : Z) (s : host) (y : side host Z) : Prop :=
  ∃ a1 a2 t', a = a1 ++ a2 ∧ mine s a2 sm ∧ remote t' (puts max a1 b) max ∧
    (a2 = [] ∧ (∃ v', y = Side (serve (S n) v') t' []) ∨ zlen (puts max a1 b) = max ∧ y = Side (Ret (-1)) t' []).

Lemma send_loop_run {A} (C : net host () → net host A) fuel n s t v a b max : frame C → mine s a 1 → remote t b max → srv_ok t v →
  zlen (queue_file (dtapath t) rq) < 100 → Forall fits a → (length a < fuel)%nat →
  ∃ s' y, forwarded n a b max 1 s' y ∧
    rtc pstep (Side (C (send_loop fuel fullc 0 rq)) s [], Side (serve (S n + length a) v) t []) (Side (C (Ret ())) s' [], y).
Proof.
  intros HC. revert s t v b fuel. induction a as [|m a IH]; intros s t v b [|fuel] Hs Ht Hv Hl Ha Hf; try (simpl in Hf; lia); cbn [send_loop].
  - destruct (mine_get s [] 1 (DTAGMO_READBYPRIORITY + DTAGMO_JUSTINQUIRE) [] Hs) as (s1 & H1 & Hs1).
    exists s1, (Side (serve (S n) v) t []). split; [exists [], [], t; eauto 10|].
    rewrite Nat.add_0_r. lsolo (exact H1). cbn [dq.get fst snd]. nsimpl. apply rtc_refl.
  - apply Forall_cons in Ha as [Hm Ha]. cbn [length]. rewrite Nat.add_succ_r.
    destruct (mine_peek (DTAGMO_READBYPRIORITY + DTAGMO_JUSTINQUIRE) s m a 1 [] Hs) as (s1 & H1 & Hs1); [done..|].
    destruct (mine_peek DTAGMO_READBYPRIORITY s1 m a 1 [] Hs1) as (s2 & H2 & Hs2); [done..|].
    set (K := λ ret, if negb (ret =? 0) then mret () else
      '(ret, _, cursor) ← on_queue fullc (DTA_GETMSG 0 (DTAGMO_READBYPRIORITY + DTAGMO_DELETEAFTERREAD));
      if negb (ret =? 0) then mret () else send_loop fuel fullc cursor rq).
    assert (frame (λ p, C (net_bind K p))) as HK by (apply (frame_compose (net_bind K) C); [apply frame_bind|done]).
    enough (∃ s' y, forwarded n (m :: a) b max 1 s' y ∧
      rtc pstep (Side (C (net_bind K (DTA_SENDMSG rq (text m) (prio m)))) s2 [], Side (serve (S (S n + length a)) v) t []) (Side (C (Ret ())) s' [], y))
      as (s' & y & Hy & Hr) by (exists s', y; split; [done|]; lsolo (exact H1); lsolo (exact H2); exact Hr).
    destruct (remote_put (λ p, C (net_bind K p)) s2 t b max v (S n + length a) m HK Ht Hv Hm Hl) as (t1 & v1 & Ep & Ht1 & Hv1 & Hr).
    pose proof (put_code max m b) as Hcode. set (r := dq.put max (text m) (prio m) b) in *. destruct Hcode as [E|(E & E2 & E3)].
    + rewrite E in Hr. cbn [Z.eqb] in Hr. destruct (mine_take s2 m a 1 [] Hs2) as (s3 & H3 & Hs3).
      destruct (IH s3 t1 v1 r.2 fuel Hs3 Ht1 Hv1) as (s' & y & (a1 & a2 & t' & -> & Hs' & Ht' & Hy) & Hr'); [by rewrite Ep|done|simpl in Hf; lia|].
      exists s', y. split; [exists (m :: a1), a2, t'; done|]. etransitivity; [exact Hr|]. unfold K. nsimpl. lsolo (exact H3). exact Hr'.
    + rewrite (proj2 (Z.eqb_neq _ _) E) in Hr. exists s2, (Side (Ret (-1)) t1 []). split; [|exact Hr].
      exists [], (m :: a), t1. split; [done|]. split; [done|]. rewrite E2 in Ht1. split; [done|]. by right.
Qed.

Lemma mine_setmlock s a i : mine s a 0 → ∃ s', solo (Side (on_queue fullc setmlock) s i) [] (Side (Ret 0) s' i) ∧ mine s' a 1.
Proof.
  intros (q & Hf & Hq & [Hr Hw] & Hm). eexists. split.
  - eapply on_queue_solo; [done|]. unfold setmlock, get. erewrite bind_ok by done. cbn beta. rewrite Hm. cbn. done.
  - eexists. split; [apply with_qfile_lookup|]. split; [by apply qinv_sems|done].
Qed.
Lemma mine_freemlock s a i : mine s a 1 → ∃ s', solo (Side (on_queue fullc freemlock) s i) [] (Side (Ret ()) s' i) ∧ mine s' a 0.
Proof.
  intros (q & Hf & Hq & [Hr Hw] & Hm). eexists. split.
  - eapply on_queue_solo; [done|]. unfold freemlock, get. erewrite bind_ok by done. cbn beta. rewrite Hm. cbn. done.
  - eexists. split; [apply with_qfile_lookup|]. split; [by apply qinv_sems|done].
Qed.
End sendq.

(** A queue of a host that nobody uses, whether its semaphores exist or not. *)
Definition queue_at (h : host) (name : list Z) (a : dq.aqueue) (max : Z) : Prop :=
  zlen (queue_file (dtapath h) name) < 100 ∧
  ∃ f, qfiles h !! queue_file (dtapath h) name = Some f ∧ qinv (opened f) a ∧ idle (opened f) ∧ sem_m (opened f) = 0 ∧ maxmsgs (q_head (opened f)) = max.

(** C24: [sendq] forwards the messages of a queue, in the order of the list, each exactly
    once, to the queue of the same connection's server, in every interleaving; it deletes a
    message only after the server has it, and leaves messages only when the server's queue is
    full.  Both queues stay well formed and the lock against a second sender is free again. *)
Theorem dta_sendq_forwards sh pid junk fuel n qn rq s t a b max maxc :
  (∀ m, 0 ≤ m → zlen (junk m) = m) → sendable rq ∧ rq ≠ [] ∧ zlen rq < 50 →
  queue_at s qn a maxc → queue_at t rq b max → Forall fits a → (length a < fuel)%nat →
  ∃ a1 a2 s' t' r, a = a1 ++ a2 ∧
    always_ends (connect (sendq fuel 0 qn rq) (tcpget 4 sh pid junk (Datatypes.S n + length a)) s t) (outcome () s' r t') ∧
    mine (queue_file (dtapath s) qn) s' a2 0 ∧ remote rq t' (puts max a1 b) max ∧
    (a2 = [] ∧ r = 0 ∨ zlen (puts max a1 b) = max ∧ r = -1).
Proof.
  intros Hj Hrq [Hl (fc & Hfc & Hqc & Hic & Hmc & _)] [Hlt (ft & Hft & Hqt & Hit & _ & Hmt)] Ha Hf. set (full := queue_file (dtapath s) qn) in *.
  assert (remote rq t b max) as Ht by by exists ft.
  assert (mine full (with_qfile full (QFile true (opened fc)) s) a 0) as H1 by (exists (opened fc); split; [apply with_qfile_lookup|done]).
  destruct (mine_setmlock full _ a [] H1) as (s2 & S2 & H2).
  destruct (mine_get full s2 a 1 (DTAGMO_READBYPRIORITY + DTAGMO_JUSTINQUIRE) [] H2) as (s3 & S3 & H3).
  set (v := Server (replicate (Z.to_nat SMSGLEN) 0) [] None). pose proof (start_ok t) as Hv. fold v in Hv.
  assert (∃ s4 y, forwarded sh pid junk full rq n a b max 1 s4 y ∧
    rtc pstep (connect (sendq fuel 0 qn rq) (tcpget 4 sh pid junk (Datatypes.S n + length a)) s t)
      (Side (on_queue full freemlock) s4 [], y)) as (s4 & y & (a1 & a2 & t' & -> & Hs4 & Ht' & Hy) & Hr).
  { unfold connect, sendq, tcpget. fold v. destruct a as [|m a].
    - exists s3, (Side (requests 4 sh pid junk (Datatypes.S n) v) t []). split; [exists [], [], t; eauto 10|].
      lsolo (by apply (DTA_OPENQ_solo _ _ _ fc)). fold full. lsolo (exact S2). lsolo (exact S3). rewrite Nat.add_0_r. apply rtc_refl.
    - rewrite get_first in H3, S3 by (done || by eapply mine_zero).
      destruct (send_loop_run sh pid junk full rq Hj Hrq (net_bind (λ _, on_queue full freemlock)) fuel n s3 t v (m :: a) b max) as (s4 & y & Hy & Hr); try done.
      { apply frame_bind. }
      exists s4, y. split; [done|]. lsolo (by apply (DTA_OPENQ_solo _ _ _ fc)). fold full. lsolo (exact S2). lsolo (exact S3). exact Hr. }
  destruct (mine_freemlock full s4 a2 [] Hs4) as (s' & S5 & H5).
  assert (∃ r, rtc pstep (Side (Ret ()) s' [], y) (outcome () s' r t') ∧ (a2 = [] ∧ r = 0 ∨ zlen (puts max a1 b) = max ∧ r = -1)) as (r & Hy' & Hcase).
  { destruct Hy as [[-> [v' ->]]|[Hfull ->]].
    - exists 0. split; [|by left]. apply serve_end; [done|]. apply rtc_refl.
    - exists (-1). split; [apply rtc_refl|by right]. }
  exists a1, a2, s', t', r. split; [done|]. split; [|done]. apply run_ends; [|done|done].
  etransitivity; [exact Hr|]. lsolo (exact S5). exact Hy'.
Qed.

Definition demo_sent : queue :=
  match run_qops [OPut [65] 1; OPut [66; 67] 2] 0 (new_queue 3) with Ok (_, q) => q | Fault _ => new_queue 0 end.
Definition demo_host (q : queue) : host := Host ∅ {[bytes "/d/queues/q.q" := QFile true q]} (bytes "/d") [].

Lemma demo_sent_ok : qinv demo_sent [AMsg 2 2 [66; 67]; AMsg 1 1 [65]] ∧ idle demo_sent.
Proof.
  destruct (new_queue_inv 3) as [Hq Hi].
  destruct (run_qops_ok [OPut [65] 1; OPut [66; 67] 2] (new_queue 3) [] 0 Hq Hi) as (q' & E & Hq' & Hi');
    [eapply inside_inv; [done|]; simpl; lia|by repeat constructor|].
  unfold demo_sent. rewrite E. split; [|exact Hi'].
  match type of Hq' with qinv _ ?a => assert (a = [AMsg 2 2 [66; 67]; AMsg 1 1 [65]]) as Ea by (vm_compute; reflexivity) end. by rewrite <- Ea.
Qed.

Lemma dta_sendq_forwards_witness : ∃ a1 a2 s' t' r, [AMsg 2 2 [66; 67]; AMsg 1 1 [65]] = a1 ++ a2 ∧
  always_ends (connect (sendq 3 0 (bytes "q") (bytes "q")) (tcpget 4 demo_sh 7 (λ n, replicate (Z.to_nat n) 0) 3) (demo_host demo_sent) (demo_host (new_queue 5)))
    (outcome () s' r t') ∧ remote (bytes "q") t' (puts 5 a1 []) 5 ∧ (a2 = [] ∧ r = 0 ∨ zlen (puts 5 a1 []) = 5 ∧ r = -1).
Proof.
  destruct demo_sent_ok as [H1 H2]. destruct (new_queue_inv 5) as [H3 H4].
  destruct (dta_sendq_forwards demo_sh 7 (λ n, replicate (Z.to_nat n) 0) 3 0 (bytes "q") (bytes "q") (demo_host demo_sent) (demo_host (new_queue 5))
    [AMsg 2 2 [66; 67]; AMsg 1 1 [65]] [] 5 3) as (a1 & a2 & s' & t' & r & E & Hr & _ & Ht & Hc).
  - intros m Hm. unfold zlen. rewrite length_replicate. lia.
  - split; [by apply sendable_bytes|done].
  - split; [done|]. exists (QFile true demo_sent). split; [done|]. split; [exact H1|]. split; [exact H2|]. by vm_compute.
  - split; [done|]. exists (QFile true (new_queue 5)). split; [done|]. split; [exact H3|]. split; [exact H4|]. by vm_compute.
  - repeat constructor; vm_compute; done.
  - simpl. lia.
  - exists a1, a2, s', t', r. done.
Defined.
