(* ===== verification/DtaAdmin.v ===== *)
(** The administration programs of the DTA queues: the list of queues
    and the programs [createq.c] and [deleteq.c] that change it. *)
From S2P Require Import Prelude CLib Net DtaQueue DtaQueueSpec DtaQueueApi DtaNet DtaNetSpec DtaNetApi.

(** ** The list of queues *)

Record QUEUELIST := QEntry { queuename : list Z; queuetype : Z; remotehost : list Z; remotequeue : list Z }.
#[export] Instance QUEUELIST_eq_dec : EqDecision QUEUELIST.
Proof. solve_decision. Defined.

Definition DTA_QTYPE_RECEIVE : Z := 0.
Definition DTA_QTYPE_SEND : Z := 1.
Definition MAXQUEUES : nat := Z.to_nat 1000.
Definition MAXMSGS : Z := 5000.

(** [fprintf(f,"%s\t%d\t%s\t%s\n",...)] *)
Definition print_entry (e : QUEUELIST) : list Z :=
  queuename e ++ [9] ++ dec (queuetype e) ++ [9] ++ remotehost e ++ [9] ++ remotequeue e ++ [10].

(** [%s]: the next word, and what is behind it. *)
Fixpoint span_word (s : list Z) : list Z * list Z :=
  match s with
  | c :: s' => if isspace c then ([], s) else let '(w, r) := span_word s' in (c :: w, r)
  | [] => ([], [])
  end.
Definition scan_s (s : list Z) : option (list Z * list Z) :=
  let '(w, r) := span_word (skip_space s) in if bool_decide (w = []) then None else Some (w, r).

(** [%d]: an [int], and what is behind it. *)
Definition scan_d (s : list Z) : option (Z * list Z) :=
  let s := skip_space s in
  let '(neg, s) := match s with c :: s' => if c =? 45 then (true, s') else if c =? 43 then (false, s') else (false, s) | [] => (false, s) end in
  let '(ds, r) := scan_digits (length s) s in
  if bool_decide (ds = []) then None else Some (wrap_s 32 (if neg : bool then - digits_val 0 ds else digits_val 0 ds), r).

(** One [fscanf(f,"%s%d%s%s",...)]: nothing, or the name, the other fields as far as they
    were set, and the rest of the file. *)
Inductive scanned := NoEntry | Entry (name : list Z) (ty : option Z) (rh rq : option (list Z)) (rest : list Z).
Definition fscanf_entry (s : list Z) : scanned :=
  match scan_s s with
  | None => NoEntry
  | Some (name, r1) =>
      match scan_d r1 with
      | None => Entry name None None None (skip_space r1)
      | Some (ty, r2) =>
          match scan_s r2 with
          | None => Entry name (Some ty) None None []
          | Some (rh, r3) =>
              match scan_s r3 with
              | None => Entry name (Some ty) (Some rh) None []
              | Some (rq, r4) => Entry name (Some ty) (Some rh) (Some rq) r4
              end
          end
      end
  end.

(** The names of an entry are read into arrays of 50 bytes. *)
Definition names_fit (name : list Z) (rh rq : option (list Z)) : bool :=
  (zlen name <? 50) && (zlen (default [] rh) <? 50) && (zlen (default [] rq) <? 50).

Abbreviation hM := (M host).

Definition list_file (path : list Z) : list Z := path ++ bytes "/etc/queues.lst".

(** ** [createq] *)

(** The loop over the list; true when the name is in it, and the entries seen. *)
Fixpoint find_queue (n : nat) (name : list Z) (s : list Z) : hM (bool * nat) :=
  match n with
  | O => mret (false, O)
  | S n =>
      match fscanf_entry s with
      | NoEntry => mret (false, O)
      | Entry nm _ rh rq rest =>
          if negb (names_fit nm rh rq) then fail (UB "entry of the list beyond its array") else
          if bool_decide (nm = name) then mret (true, O) else '(b, i) ← find_queue n name rest; mret (b, S i)
      end
  end.

(** The arguments by [getopt]: the name, host, queue and size, or the usage. *)
Definition parse_args (opt : Z) (argv : list (list Z)) : hM (option (QUEUELIST * Z)) :=
  let argc := zlen argv in
  let arg i := default [] (argv !! i) in
  let size i := if argc =? Z.of_nat i + 1 then atol (arg i) else MAXMSGS in
  if opt =? 114 then
    if (argc <? 3) || (4 <? argc) then mret None else
    name ← strcpy 50 (arg 2%nat);
    mret (Some (QEntry name DTA_QTYPE_RECEIVE (bytes "NULL") (bytes "NULL"), size 3%nat))
  else if opt =? 115 then
    if (argc <? 5) || (6 <? argc) then mret None else
    name ← strcpy 50 (arg 2%nat);
    rh ← strcpy 50 (arg 3%nat);
    rq ← strcpy 50 (arg 4%nat);
    mret (Some (QEntry name DTA_QTYPE_SEND rh rq, size 5%nat))
  else mret None.

Section admin.
(** Whether [malloc] gives a number of bytes, what the shell does, and whether the server has
    made the shared memory that [DTA_INIT] attaches; for [createq], whether the list opens for
    appending and the queue file for writing, and what is in that file after an [fwrite] that
    fails. *)
Context (malloc_ok : Z → bool) (sh : list Z → host → Z * host) (dta_up : bool).
Context (list_opens file_opens : bool) (write_error : option (list Z)).

Definition system (cmd : list Z) : hM Z := λ h, Ok (sh cmd h).

(** The queue file: an empty file, and then the head and the table. *)
Definition write_queue (full : list Z) (maxmsgs : Z) : hM bool :=
  if negb file_opens then mret false else
  _ ← modify (λ h, set_files (<[full := []]> (files h)) (set_qfiles (delete full (qfiles h)) h));
  let size := wrap_u 64 ((maxmsgs + 1) * SIZEOF_QueueTable) in
  if negb (malloc_ok size) then mret false else
  if maxmsgs <? 0 then fail (UB "first entry beyond the memory") else
  if size <? (maxmsgs + 1) * SIZEOF_QueueTable then fail (UB "table beyond its memory") else
  match write_error with
  | Some written => _ ← modify (λ h, set_files (<[full := written]> (files h)) h); mret false
  | None =>
      _ ← modify (λ h, set_files (delete full (files h)) (set_qfiles (<[full := QFile false (new_queue (Z.to_nat maxmsgs))]> (qfiles h)) h));
      mret true
  end.

(** [DTA_INIT], [DTA_OPENQ] and [DTA_CLOSEQ] of the new queue: its semaphores are there
    afterwards. *)
Definition open_close (queuename : list Z) : hM Z :=
  if negb dta_up then mret (-1) else
  h ← get;
  full ← strcpy 100 (queue_file (dtapath h) queuename);
  match qfiles h !! full with
  | None => mret (-1)
  | Some f => _ ← modify (set_qfiles (<[full := QFile true (opened f)]> (qfiles h))); mret 0
  end.

Definition createq (dtapath : option (list Z)) (opt : Z) (argv : list (list Z)) : hM Z :=
  a ← parse_args opt argv;
  match a with
  | None => mret (-1)
  | Some (e, maxmsgs) =>
      match dtapath with
      | None => mret (-1)
      | Some path =>
          path ← strcpy 100 path;
          lst ← strcpy 100 (list_file path);
          l ← gets (λ h, files h !! lst);
          '(found, i) ← match l with None => mret (false, O) | Some s => find_queue MAXQUEUES (queuename e) s end;
          if found : bool then mret (-1) else
          if (i =? MAXQUEUES)%nat then mret (-1) else
          if negb list_opens then mret (-1) else
          _ ← modify (λ h, set_files (<[lst := default [] (files h !! lst)]> (files h)) h);
          full ← strcpy 100 (queue_file path (queuename e));
          ok ← write_queue full maxmsgs;
          if negb ok then mret (-1) else
          _ ← modify (λ h, set_files (<[lst := default [] (files h !! lst) ++ print_entry e]> (files h)) h);
          open_close (queuename e)
      end
  end.

(** ** [deleteq] *)

(** The loop that copies the other entries of the list. *)
Fixpoint copy_others (n : nat) (name : list Z) (s : list Z) : hM (list Z) :=
  match n with
  | O => mret []
  | S n =>
      match fscanf_entry s with
      | NoEntry => mret []
      | Entry nm ty rh rq rest =>
          if negb (names_fit nm rh rq) then fail (UB "entry of the list beyond its array") else
          if bool_decide (nm = name) then copy_others n name rest else
          match ty, rh, rq with
          | Some ty, Some rh, Some rq => r ← copy_others n name rest; mret (print_entry (QEntry nm ty rh rq) ++ r)
          | _, _, _ => fail (UB "fields of the entry not set")
          end
      end
  end.

Definition toupper (c : Z) : Z := if (97 <=? c) && (c <=? 122) then c - 32 else c.

(** [scanf("%s",answer)] into the array of 10 bytes, and [answer[0]] after it: [typed] is what
    is typed; at its end nothing is stored, and [stack] is the byte that was there. *)
Definition scan_answer (typed : list Z) (stack : Z) : hM Z :=
  match scan_s typed with
  | None => mret stack
  | Some (w, _) => if zlen w <? 10 then mret (default 0 (head w)) else fail (UB "answer beyond its array")
  end.

Definition deleteq (dtapath : option (list Z)) (argv : list (list Z)) (typed : list Z) (stack : Z) : hM Z :=
  if negb (zlen argv =? 2) then mret (-1) else
  match dtapath with
  | None => mret (-1)
  | Some path =>
      path ← strcpy 100 path;
      name ← strcpy 50 (default [] (argv !! 1%nat));
      full ← strcpy 100 (queue_file path name);
      f ← gets (λ h, qfiles h !! full);
      match f with
      | None => mret (-1)
      | Some f =>
          kept ← (if 0 <? livmsgs (q_head (qf_queue f)) then c ← scan_answer typed stack; mret (negb (toupper c =? 89))
                  else mret false);
          if kept : bool then mret (-1) else
          _ ← modify (λ h, set_qfiles (<[full := QFile false (qf_queue f)]> (qfiles h)) h);   (* IPC_RMID *)
          cmd ← strcpy 100 (bytes "rm " ++ full);
          _ ← system cmd;
          lst ← strcpy 100 (list_file path);
          tmp ← strcpy 100 (list_file path ++ bytes ".tmp");
          l ← gets (λ h, files h !! lst);
          match l with
          | None => mret (-1)
          | Some s =>
              s' ← copy_others MAXQUEUES name s;
              _ ← modify (λ h, set_files (<[tmp := s']> (files h)) h);
              cmd ← strcpy 100 (bytes "mv " ++ tmp ++ [32] ++ lst);
              _ ← system cmd;
              mret 0
          end
      end
  end.
End admin.

(** ** Printing and scanning the list *)

Definition is_word (w : list Z) : Prop := w ≠ [] ∧ Forall (λ c, isspace c = false) w.
Definition proper (e : QUEUELIST) : Prop :=
  is_word (queuename e) ∧ is_word (remotehost e) ∧ is_word (remotequeue e) ∧ names_fit (queuename e) (Some (remotehost e)) (Some (remotequeue e)) = true ∧ - 2 ^ 31 ≤ queuetype e < 2 ^ 31.
Definition list_text (l : list QUEUELIST) : list Z := concat (print_entry <$> l).

Lemma span_word_app w c r : Forall (λ c, isspace c = false) w → isspace c = true → span_word (w ++ c :: r) = (w, c :: r).
Proof. induction 1 as [|x w Hx _ IH]; intros Hc; simpl; [by rewrite Hc|]. by rewrite Hx, IH. Qed.

Lemma skip_word w r : is_word w → skip_space (w ++ r) = w ++ r.
Proof. intros [Hne Hw]. destruct w as [|c w]; [done|]. apply Forall_cons in Hw as [Hc _]. simpl. by rewrite Hc. Qed.

Lemma scan_s_word w c r : is_word w → isspace c = true → scan_s (w ++ c :: r) = Some (w, c :: r).
Proof.
  intros Hw Hc. unfold scan_s. rewrite skip_word, span_word_app by (done || apply Hw). by rewrite bool_decide_false by apply Hw.
Qed.
Lemma scan_s_blank c s : isspace c = true → scan_s (c :: s) = scan_s s.
Proof. intros Hc. unfold scan_s. simpl. by rewrite Hc. Qed.
Lemma scan_d_blank c s : isspace c = true → scan_d (c :: s) = scan_d s.
Proof. intros Hc. unfold scan_d. simpl skip_space. by rewrite Hc. Qed.

Lemma udec_word n : 0 ≤ n → skip_space (udec 20 n) = udec 20 n.
Proof.
  intros Hn. pose proof (udec_digits 20 n Hn) as Hd. destruct (udec 20 n) as [|c d]; [done|]. apply Forall_cons in Hd as [Hc _]. simpl. unfold isspace.
  destruct (Z.eqb_spec c 32), (Z.leb_spec 9 c), (Z.leb_spec c 13); simpl; (lia || done).
Qed.

Lemma scan_d_dec n c r : - 2 ^ 31 ≤ n < 2 ^ 31 → isspace c = true → isdigit c = false → scan_d (dec n ++ c :: r) = Some (n, c :: r).
Proof.
  intros Hn Hc Hd. unfold scan_d, dec.
  assert (∀ m, 0 ≤ m ≤ 2 ^ 31 → ∃ x d, udec 20 m = x :: d ∧ 48 ≤ x ≤ 57 ∧ Forall (λ c, 48 ≤ c ≤ 57) (udec 20 m) ∧ digits_val 0 (udec 20 m) = m) as Hu.
  { intros m Hm. pose proof (udec_digits 20 m ltac:(lia)) as H1. pose proof (udec_nonempty 20 m ltac:(lia)) as H2.
    pose proof (digits_val_udec 20 m ltac:(change (Z.of_nat 20) with 20; lia)) as H3. destruct (udec 20 m) as [|x d]; [done|]. exists x, d.
    apply Forall_cons in H1 as H1'. naive_solver. }
  assert (∀ m, 0 ≤ m ≤ 2 ^ 31 → scan_digits (length (udec 20 m ++ c :: r)) (udec 20 m ++ c :: r) = (udec 20 m, c :: r)) as Hs.
  { intros m Hm. destruct (Hu m Hm) as (x & d & _ & _ & H & _). apply scan_digits_all; [done|rewrite length_app; lia|]. by intros ? ? [= <- _]. }
  destruct (Z.ltb_spec n 0) as [H0|H0].
  - destruct (Hu (- n) ltac:(lia)) as (x & d & E & _ & _ & Hv).
    cbn [app skip_space isspace Z.eqb Z.leb Pos.eqb orb andb Z.compare Pos.compare Pos.compare_cont].
    rewrite Hs by lia. rewrite bool_decide_false by by rewrite E. by rewrite Hv, Z.opp_involutive, wrap_s_id by lia.
  - destruct (Hu n ltac:(lia)) as (x & d & E & Hx & _ & Hv). specialize (Hs n ltac:(lia)).
    assert (skip_space (udec 20 n ++ c :: r) = udec 20 n ++ c :: r) as ->.
    { pose proof (udec_word n H0) as Hw. rewrite E in Hw |- *. cbn [app skip_space] in *. destruct (isspace x) eqn:Ex; [|done].
      exfalso. unfold isspace in Ex. destruct (Z.eqb_spec x 32), (Z.leb_spec 9 x), (Z.leb_spec x 13); simpl in Ex; (lia || done). }
    rewrite E in Hs, Hv |- *. cbn [app] in *. rewrite (proj2 (Z.eqb_neq x 45)), (proj2 (Z.eqb_neq x 43)) by lia.
    rewrite Hs. rewrite bool_decide_false by done. by rewrite Hv, wrap_s_id by lia.
Qed.

Lemma fscanf_print e rest : proper e → fscanf_entry (print_entry e ++ rest) =
  Entry (queuename e) (Some (queuetype e)) (Some (remotehost e)) (Some (remotequeue e)) ([10] ++ rest).
Proof.
  intros (Hn & Hh & Hr & _ & Ht). unfold fscanf_entry, print_entry. rewrite <- !app_assoc. cbn [app].
  rewrite scan_s_word by done. rewrite scan_d_blank by done. rewrite scan_d_dec by done. rewrite scan_s_blank by done.
  rewrite scan_s_word by done. rewrite scan_s_blank by done. by rewrite scan_s_word by done.
Qed.
Lemma fscanf_blank c s : isspace c = true → fscanf_entry (c :: s) = fscanf_entry s.
Proof. intros Hc. unfold fscanf_entry. by rewrite scan_s_blank. Qed.

(** The newline behind an entry is skipped by the next call. *)
Lemma fscanf_list nl e l : nl = [] ∨ nl = [10] → proper e → fscanf_entry (nl ++ list_text (e :: l)) =
  Entry (queuename e) (Some (queuetype e)) (Some (remotehost e)) (Some (remotequeue e)) ([10] ++ list_text l).
Proof. intros [->| ->] He; cbn [app]; rewrite ?fscanf_blank by done; by apply fscanf_print. Qed.
Lemma fscanf_end nl : nl = [] ∨ nl = [10] → fscanf_entry (nl ++ list_text []) = NoEntry.
Proof. by intros [->| ->]. Qed.

(** ** The loops over the list *)

Lemma find_queue_ok n name l nl h : nl = [] ∨ nl = [10] → Forall proper l → (length l ≤ n)%nat →
  ∃ i, find_queue n name (nl ++ list_text l) h = Ok ((bool_decide (name ∈ queuename <$> l), i), h) ∧ (name ∉ queuename <$> l → i = length l).
Proof.
  intros Hnl Hl. revert n nl Hnl. induction Hl as [|e l He _ IH]; intros [|n] nl Hnl Hn; try (simpl in Hn; lia); cbn [find_queue].
  - by exists 0%nat.
  - rewrite fscanf_end by done. by exists 0%nat.
  - rewrite fscanf_list by done. destruct He as (_ & _ & _ & -> & _). cbn [negb]. destruct (decide (queuename e = name)) as [E|E].
    + rewrite bool_decide_true by done. exists 0%nat. rewrite bool_decide_true by (subst; left). split; [done|]. intros H. destruct H. subst. left.
    + rewrite bool_decide_false by done. destruct (IH n [10]) as (i & Hi & Hi'); [by right|simpl in Hn; lia|]. rewrite (bind_ok _ _ _ _ _ Hi).
      exists (S i). rewrite fmap_cons. split.
      * assert (bool_decide (name ∈ queuename e :: (queuename <$> l)) = bool_decide (name ∈ queuename <$> l)) as ->; [|done].
        apply bool_decide_ext. rewrite elem_of_cons. naive_solver.
      * intros H. apply not_elem_of_cons in H as [_ H]. simpl. by rewrite Hi'.
Qed.

Lemma copy_others_ok n name l nl h : nl = [] ∨ nl = [10] → Forall proper l → (length l ≤ n)%nat →
  copy_others n name (nl ++ list_text l) h = Ok (list_text (filter (λ e, queuename e ≠ name) l), h).
Proof.
  intros Hnl Hl. revert n nl Hnl. induction Hl as [|e l He _ IH]; intros [|n] nl Hnl Hn; try (simpl in Hn; lia); cbn [copy_others]; [done| |].
  - by rewrite fscanf_end.
  - rewrite fscanf_list by done. destruct He as (_ & _ & _ & -> & _). cbn [negb].
    specialize (IH n [10] ltac:(by right) ltac:(simpl in Hn; lia)). rewrite filter_cons. destruct (decide (queuename e = name)) as [E|E].
    + rewrite bool_decide_true, decide_False by naive_solver. done.
    + rewrite bool_decide_false, decide_True by done. rewrite (bind_ok _ _ _ _ _ IH). by destruct e.
Qed.

(** ** Properties *)

Lemma list_not_queue path name : list_file path ≠ queue_file path name.
Proof. unfold list_file, queue_file. intros H%app_inv_head. done. Qed.

Lemma list_text_nil l : Forall proper l → list_text l = [] → l = [].
Proof. destruct 1 as [|e l He _]; [done|]. unfold list_text, print_entry. cbn. intros H. by destruct (queuename e). Qed.

(** A host whose list of queues is [l]. *)
Definition listed (path : list Z) (l : list QUEUELIST) (h : host) : Prop :=
  Forall proper l ∧ (length l ≤ MAXQUEUES)%nat ∧ have h (list_file path) = list_text l ∧
  zlen (list_file path) + 4 < 100.

Lemma find_listed path l h name : listed path l h →
  ∃ i, (match files h !! list_file path with None => mret (false, O) | Some s => find_queue MAXQUEUES name s end) h =
    Ok ((bool_decide (name ∈ queuename <$> l), i), h) ∧ (name ∉ queuename <$> l → i = length l).
Proof.
  intros (Hp & Hn & Ht & _). unfold have in Ht. destruct (files h !! list_file path) as [s|] eqn:E; cbn in Ht.
  - subst s. apply (find_queue_ok MAXQUEUES name l []); [by left|done|done].
  - symmetry in Ht. apply list_text_nil in Ht; [|done]. subst l. exists 0%nat. split; [|done]. by rewrite bool_decide_false by apply not_elem_of_nil.
Qed.

(** What [createq] leaves after a failure when it has opened the list: the list is there, and
    unchanged, and the queue file, when it was opened, holds [written]. *)
Definition left_over (path full : list Z) (l : list QUEUELIST) (written : option (list Z)) (h : host) : host :=
  let m := <[list_file path := list_text l]> (files h) in
  match written with
  | None => set_files m h
  | Some w => set_files (<[full := w]> m) (set_qfiles (delete full (qfiles h)) h)
  end.

(** C25: [createq] refuses a name that is listed and a full list, and changes nothing then;
    otherwise it adds the entry to the list, which reads back as the old entries and the new
    one, and makes a well formed empty queue of the size asked for.  When a file cannot be
    opened or written, or there is no memory for the table, it returns -1 and the list keeps
    its entries. *)
Theorem createq_spec malloc_ok list_opens file_opens write_error path opt argv e n h l : let full := queue_file path (queuename e) in
  parse_args opt argv h = Ok (Some (e, n), h) → proper e → listed path l h → dtapath h = path →
  zlen full < 100 → files h !! full = None → 0 ≤ n → (n + 1) * SIZEOF_QueueTable < 2 ^ 64 →
  createq malloc_ok true list_opens file_opens write_error (Some path) opt argv h =
    (if decide (queuename e ∈ queuename <$> l) then Ok (-1, h)
     else if (length l =? MAXQUEUES)%nat then Ok (-1, h)
     else if negb list_opens then Ok (-1, h)
     else if negb file_opens then Ok (-1, left_over path full l None h)
     else if negb (malloc_ok ((n + 1) * SIZEOF_QueueTable)) then Ok (-1, left_over path full l (Some []) h)
     else match write_error with
          | Some w => Ok (-1, left_over path full l (Some w) h)
          | None => Ok (0, set_files (<[list_file path := list_text (l ++ [e])]> (files h))
                             (set_qfiles (<[full := QFile true (new_queue (Z.to_nat n))]> (qfiles h)) h))
          end) ∧
  qinv (new_queue (Z.to_nat n)) [].
Proof.
  intros full Hargs He Hl Hpath Hfull Hnew Hn Hov. split; [|apply new_queue_inv]. pose proof Hl as (Hp & Hlen & Ht & Hlst).
  unfold createq. rewrite (bind_ok _ _ _ _ _ Hargs).
  erewrite bind_ok by (apply strcpy_ok; unfold list_file in Hlst; rewrite zlen_app in Hlst; pose proof (zlen_nonneg (bytes "/etc/queues.lst")); lia).
  erewrite bind_ok by (apply strcpy_ok; lia). rewrite bind_gets.
  destruct (find_listed path l h (queuename e) Hl) as (i & E & Hi). rewrite (bind_ok _ _ _ _ _ E). destruct (decide (queuename e ∈ queuename <$> l)) as [Hin|Hin].
  { by rewrite bool_decide_true. }
  rewrite bool_decide_false by done. rewrite Hi by done. destruct (length l =? MAXQUEUES)%nat; [done|]. destruct list_opens; [cbn [negb]|done].
  unfold have in Ht. mstep. rewrite Ht. erewrite bind_ok by by apply strcpy_ok. unfold write_queue. fold full. destruct file_opens; [cbn [negb]|done].
  pose proof (list_not_queue path (queuename e)) as Hne. fold full in Hne. mstep.
  unfold wrap_u. rewrite Z.mod_small by (unfold SIZEOF_QueueTable in *; lia).
  destruct (malloc_ok _); [cbn [negb]|done].
  rewrite (proj2 (Z.ltb_ge n 0)), Z.ltb_irrefl by lia. destruct write_error as [w|].
  { mstep. unfold left_over, set_files, set_qfiles, mret, M_ret; cbn [qfiles files dtapath hostname]. by rewrite insert_insert_eq. }
  mstep.
  unfold open_close, get. cbn [negb]. erewrite bind_ok by done. cbn beta. unfold set_files, set_qfiles; cbn [qfiles files dtapath hostname].
  rewrite Hpath. erewrite bind_ok by by apply strcpy_ok. fold full. rewrite lookup_insert_eq, bind_modify. do 2 f_equal.
  rewrite delete_insert_eq, delete_id by by rewrite lookup_insert_ne. unfold set_qfiles; cbn [qfiles files dtapath hostname].
  rewrite lookup_insert_eq, !insert_insert_eq, insert_delete_eq.
  unfold list_text. rewrite fmap_app, concat_app. cbn [fmap list_fmap concat default]. by rewrite app_nil_r.
Qed.

Definition demo_entry : QUEUELIST := QEntry (bytes "in") DTA_QTYPE_RECEIVE (bytes "NULL") (bytes "NULL").
Definition demo_list : list QUEUELIST := [QEntry (bytes "out") DTA_QTYPE_SEND (bytes "hostb") (bytes "in"); QEntry (bytes "z") DTA_QTYPE_RECEIVE (bytes "NULL") (bytes "NULL")].
Definition demo_admin : host := Host {[bytes "/d/etc/queues.lst" := list_text demo_list]} ∅ (bytes "/d") [].

Lemma proper_bytes e : forallb (λ w, negb (bool_decide (w = [])) && forallb (λ c, negb (isspace c)) w && (zlen w <? 50)) [queuename e; remotehost e; remotequeue e] &&
  (- 2 ^ 31 <=? queuetype e) && (queuetype e <? 2 ^ 31) = true → proper e.
Proof.
  intros [[H H1%Z.leb_le]%andb_true_iff H2%Z.ltb_lt]%andb_true_iff. cbn [forallb] in H. btests.
  assert (∀ w, bool_decide (w = []) = false → forallb (λ c, negb (isspace c)) w = true → is_word w) as Hw.
  { intros w Hne%bool_decide_eq_false Hc. split; [done|]. apply Forall_forall. intros c Hin. apply forallb_forall with (x := c) in Hc.
    - by apply negb_true_iff in Hc.
    - by apply list_elem_of_In. }
  split; [by apply Hw|]. split; [by apply Hw|]. split; [by apply Hw|]. split; [|lia]. unfold names_fit. cbn [default from_option id].
  repeat (rewrite (proj2 (Z.ltb_lt _ _)) by done). done.
Qed.

Lemma demo_listed : listed (bytes "/d") demo_list demo_admin.
Proof.
  split; [repeat (apply Forall_cons_2; [by apply proper_bytes|]); constructor|]. split; [unfold MAXQUEUES; simpl length; lia|].
  by vm_compute.
Qed.

Lemma createq_spec_witness :
  createq (λ _, true) true true true None (Some (bytes "/d")) 114 [bytes "createq"; bytes "-r"; bytes "in"; bytes "10"] demo_admin =
    Ok (0, set_files (<[bytes "/d/etc/queues.lst" := list_text (demo_list ++ [demo_entry])]> (files demo_admin))
      (set_qfiles (<[bytes "/d/queues/in.q" := QFile true (new_queue 10)]> (qfiles demo_admin)) demo_admin)).
Proof.
  refine (proj1 (createq_spec (λ _, true) true true None (bytes "/d") 114 [bytes "createq"; bytes "-r"; bytes "in"; bytes "10"] demo_entry 10 demo_admin demo_list
    _ _ demo_listed _ _ _ _ _)); try (by vm_compute). by apply proper_bytes.
Defined.

Lemma toupper_yes c : (toupper c =? 89) = (c =? 89) || (c =? 121).
Proof.
  unfold toupper. destruct (Z.leb_spec 97 c), (Z.leb_spec c 122); simpl;
    destruct (Z.eqb_spec (c - 32) 89), (Z.eqb_spec c 89), (Z.eqb_spec c 121); simpl; (done || lia).
Qed.

(** The shell removes a file, and renames one onto another name. *)
Definition rm_removes (sh : list Z → host → Z * host) : Prop := ∀ name h, plain name →
  (sh (bytes "rm " ++ name) h).2 = set_files (delete name (files h)) (set_qfiles (delete name (qfiles h)) h).
Definition mv_renames (sh : list Z → host → Z * host) : Prop := ∀ src tgt h d, plain src → plain tgt → src ≠ tgt → files h !! src = Some d →
  (sh (bytes "mv " ++ src ++ [32] ++ tgt) h).2 = set_files (<[tgt := d]> (delete src (files h))) h.

Lemma system_ok sh cmd h : system sh cmd h = Ok ((sh cmd h).1, (sh cmd h).2).
Proof. unfold system. by rewrite <- surjective_pairing. Qed.

(** The first byte of the answer: of the word typed if it fits its array, and whatever is on
    the stack when nothing is typed. *)
Definition first_byte (typed : list Z) (stack : Z) : option Z :=
  match scan_s typed with None => Some stack | Some (w, _) => if zlen w <? 10 then Some (default 0 (head w)) else None end.

(** C26: [deleteq] of a queue that is empty, or when the answer is yes, removes its file and
    its entry, and the list reads back as the other entries in their order; when the answer is
    not yes, or the queue does not exist, nothing changes.  The answer is the first byte of
    the word typed; a word of ten bytes or more is written beyond its array, and at the end of
    the input a byte decides that was never set. *)
Theorem deleteq_spec sh path name typed stack h l f : let full := queue_file path name in let lst := list_file path in
  rm_removes sh → mv_renames sh → listed path l h → zlen name < 50 → zlen full + 3 < 100 →
  zlen (bytes "mv " ++ (lst ++ bytes ".tmp") ++ [32] ++ lst) < 100 → plain full → plain (lst ++ bytes ".tmp") → plain lst →
  files h !! lst = Some (list_text l) → files h !! full = None → files h !! (lst ++ bytes ".tmp") = None → qfiles h !! full = f →
  let deleted := set_files (<[lst := list_text (filter (λ e, queuename e ≠ name) l)]> (files h)) (set_qfiles (delete full (qfiles h)) h) in
  deleteq sh (Some path) [bytes "deleteq"; name] typed stack h =
    match f with
    | None => Ok (-1, h)
    | Some q =>
        if livmsgs (q_head (qf_queue q)) <=? 0 then Ok (0, deleted) else
        match first_byte typed stack with
        | None => Fault (UB "answer beyond its array")
        | Some c => if (c =? 89) || (c =? 121) then Ok (0, deleted) else Ok (-1, h)
        end
    end.
Proof.
  intros full lst Hrm Hmv (Hp & Hlen & _ & Hll) Hname Hfull Hcmd Hpf Hpt Hpl Hfl Hnew Htmp Hf deleted. unfold deleteq.
  change (negb (zlen [bytes "deleteq"; name] =? 2)) with false. cbv iota. fold lst in Hll.
  assert (zlen (lst ++ bytes ".tmp") < 100) as Htl by (rewrite zlen_app; change (zlen (bytes ".tmp")) with 4; lia).
  assert (zlen path < 100) as Hpl' by (unfold lst, list_file in Hll; rewrite zlen_app in Hll; pose proof (zlen_nonneg (bytes "/etc/queues.lst")); lia).
  erewrite bind_ok by by apply strcpy_ok. erewrite bind_ok by by apply strcpy_ok. fold full. cbn [lookup list_lookup default from_option id].
  erewrite bind_ok by (apply strcpy_ok; fold full; lia). fold full. rewrite bind_gets, Hf. destruct f as [q|]; [|done].
  match goal with |- context [if 0 <? ?l then ?m else ?m'] => set (ask := if 0 <? l then m else m') end.
  match goal with |- (_ ≫= ?k) h = _ => set (cont := k) end.
  assert (cont false h = Ok (0, deleted)) as Hdel.
  { unfold cont. cbv iota beta. rewrite bind_modify.
    erewrite bind_ok by (apply strcpy_ok; rewrite zlen_app; change (zlen (bytes "rm ")) with 3; lia).
    rewrite (bind_ok _ _ _ _ _ (system_ok sh _ _)), Hrm by done.
    unfold set_files, set_qfiles; cbn [qfiles files dtapath hostname].
    erewrite bind_ok by (apply strcpy_ok; fold lst; lia). fold lst. erewrite bind_ok by by apply strcpy_ok. rewrite bind_gets. cbn [files].
    rewrite delete_id, Hfl by done. erewrite bind_ok by by apply (copy_others_ok MAXQUEUES name l []); [left| |].
    rewrite bind_modify. erewrite bind_ok by by apply strcpy_ok.
    rewrite (bind_ok _ _ _ _ _ (system_ok sh _ _)).
    erewrite Hmv; [|done|done| |apply lookup_insert_eq].
    - unfold set_files; cbn [qfiles files dtapath hostname]. rewrite delete_insert_eq, delete_id by done. by rewrite delete_insert_eq.
    - intros E. apply (f_equal zlen) in E. rewrite zlen_app in E. change (zlen (bytes ".tmp")) with 4 in E. lia. }
  assert (ask h = if livmsgs (q_head (qf_queue q)) <=? 0 then Ok (false, h) else
    match first_byte typed stack with None => Fault (UB "answer beyond its array") | Some c => Ok (negb (toupper c =? 89), h) end) as Hask.
  { unfold ask, scan_answer, first_byte. rewrite Z.ltb_antisym. destruct (_ <=? 0); [done|]. cbn [negb].
    destruct (scan_s typed) as [[w ?]|]; [destruct (zlen w <? 10)|]; done. }
  unfold mbind at 1, M_bind at 1. rewrite Hask. destruct (_ <=? 0); [exact Hdel|].
  destruct (first_byte typed stack) as [c|]; [|done]. rewrite <- toupper_yes. by destruct (toupper c =? 89).
Qed.

Definition demo_rm (cmd : list Z) (h : host) : Z * host :=
  let rest := drop 3 cmd in
  if bool_decide (take 3 cmd = bytes "rm ") then (0, set_files (delete rest (files h)) (set_qfiles (delete rest (qfiles h)) h))
  else
    let src := word rest in
    match files h !! src with
    | Some d => (0, set_files (<[drop (Datatypes.S (length src)) rest := d]> (delete src (files h))) h)
    | None => (256, h)
    end.
Lemma demo_rm_removes : rm_removes demo_rm.
Proof. intros name h _. done. Qed.
Lemma demo_mv_renames : mv_renames demo_rm.
Proof.
  intros src tgt h d Hs _ _ Hd. unfold demo_rm. change (drop 3 (bytes "mv " ++ src ++ [32] ++ tgt)) with (src ++ 32 :: tgt).
  rewrite word_app by by apply plain_no_blank. rewrite Hd.
  assert (drop (Datatypes.S (length src)) (src ++ 32 :: tgt) = tgt) as ->; [|done].
  replace (Datatypes.S (length src)) with (length src + 1)%nat by lia. by rewrite drop_app_add.
Qed.

Definition demo_admin_q : host :=
  Host {[bytes "/d/etc/queues.lst" := list_text demo_list]} {[bytes "/d/queues/z.q" := QFile true (new_queue 3)]} (bytes "/d") [].

Lemma deleteq_spec_witness :
  deleteq demo_rm (Some (bytes "/d")) [bytes "deleteq"; bytes "z"] [] 0 demo_admin_q =
    Ok (0, set_files (<[bytes "/d/etc/queues.lst" := list_text [QEntry (bytes "out") DTA_QTYPE_SEND (bytes "hostb") (bytes "in")]]> (files demo_admin_q))
      (set_qfiles (delete (bytes "/d/queues/z.q") (qfiles demo_admin_q)) demo_admin_q)).
Proof.
  refine (deleteq_spec demo_rm (bytes "/d") (bytes "z") [] 0 demo_admin_q demo_list (Some (QFile true (new_queue 3))) demo_rm_removes demo_mv_renames
    demo_listed _ _ _ _ _ _ _ _ _ _); first [by apply plain_bytes | by vm_compute].
Defined.

(** A queue with a message: what is typed decides, and a long word overflows the array. *)
Definition demo_full_q : host := Host {[bytes "/d/etc/queues.lst" := list_text demo_list]}
  {[bytes "/d/queues/z.q" := QFile true (match DTA_PUTMSG IoOk [65] 0 (new_queue 3) with Ok (_, q) => q | Fault _ => new_queue 3 end)]} (bytes "/d") [].
Theorem deleteq_answers :
  deleteq demo_rm (Some (bytes "/d")) [bytes "deleteq"; bytes "z"] (bytes "no") 0 demo_full_q = Ok (-1, demo_full_q) ∧
  deleteq demo_rm (Some (bytes "/d")) [bytes "deleteq"; bytes "z"] (bytes "nonononono") 0 demo_full_q = Fault (UB "answer beyond its array") ∧
  fst <$> (match deleteq demo_rm (Some (bytes "/d")) [bytes "deleteq"; bytes "z"] [] 89 demo_full_q with Ok r => Some r | Fault _ => None end) = Some 0.
Proof. by vm_compute. Qed.
