(* ===== verification/DtaQm.v ===== *)
(** The queue manager [dtaqm.c]: the cleaner of a queue, and the rounds in which [main] starts
    cleaners and senders. *)
From S2P Require Import Prelude CLib Net DtaQueue DtaQueueSpec DtaQueueApi DtaNet DtaNetSpec DtaNetApi DtaAdmin.

Definition QSEND_INTERVAL : Z := 5.
Definition QCLEAN_INTERVAL : Z := 11.

(** ** The cleaner *)

Definition cleanq (queuename : list Z) : net host () :=
  r ← DTA_OPENQ queuename;
  match r with
  | inl _ => mret ()
  | inr h =>
      let full := fullfilename h in
      m ← on_queue full setmlock;
      if negb (m =? 0) then mret () else
      _ ← on_queue full (DTA_CLEANQ true);
      on_queue full freemlock
  end.

(** ** The rounds of [main] *)

(** The variables of [main] and the global array, which keeps what earlier rounds read. *)
Record manager := Manager { lastsendtime : Z; lastcleantime : Z; queuelist : list QUEUELIST }.
Inductive job := Clean (queuename : list Z) | Sendq (queuename remotehost remotequeue : list Z).

#[export] Instance job_eq_dec : EqDecision job.
Proof. solve_decision. Defined.

Definition no_entry : QUEUELIST := QEntry [] 0 [] [].

(** The loop that reads the list into the array [old] of earlier rounds: the entries read. *)
Fixpoint read_list (n : nat) (old : list QUEUELIST) (s : list Z) : result (list QUEUELIST) :=
  match n with
  | O => Ok []
  | S n =>
      match fscanf_entry s with
      | NoEntry => Ok []
      | Entry nm ty rh rq rest =>
          if negb (names_fit nm rh rq) then Fault (UB "entry of the list beyond its array") else
          let e := default no_entry (head old) in
          match read_list n (tail old) rest with
          | Ok l => Ok (QEntry nm (default (queuetype e) ty) (default (remotehost e) rh) (default (remotequeue e) rq) :: l)
          | Fault f => Fault f
          end
      end
  end.

Definition send_job (e : QUEUELIST) : option job :=
  if queuetype e =? DTA_QTYPE_SEND then Some (Sendq (queuename e) (remotehost e) (remotequeue e)) else None.

Section main.
(** Whether the [fork] for a process succeeds in the turn at a time. *)
Context (forks : Z → job → bool).

(** The processes that are started for [js], and whether all are: a [fork] that fails ends
    the manager. *)
Fixpoint start (nowtime : Z) (js : list job) : list job * bool :=
  match js with
  | [] => ([], true)
  | j :: js' => if forks nowtime j then let '(l, b) := start nowtime js' in (j :: l, b) else ([], false)
  end.

(** One turn of [while(1)] at [nowtime] with the list file as it is then: the processes that
    are started and the new variables, or [None] when the manager ends, because the list cannot
    be opened or a [fork] fails. *)
Definition round (nowtime : Z) (lst : option (list Z)) (st : manager) : result (option manager * list job) :=
  let send := QSEND_INTERVAL <? nowtime - lastsendtime st in
  let clean := QCLEAN_INTERVAL <? nowtime - lastcleantime st in
  if send || clean then
    match lst with
    | None => Ok (None, [])
    | Some s =>
        match read_list MAXQUEUES (queuelist st) s with
        | Fault f => Fault f
        | Ok l =>
            let '(js, b) := start nowtime ((if clean then (λ e, Clean (queuename e)) <$> l else []) ++ (if send then omap send_job l else [])) in
            Ok (if b then Some (Manager (if send then nowtime else lastsendtime st) (if clean then nowtime else lastcleantime st)
                                  (l ++ drop (length l) (queuelist st)))
                else None, js)
        end
    end
  else Ok (Some st, []).

(** Rounds at the times and with the list files given, until the manager ends. *)
Fixpoint rounds (l : list (Z * option (list Z))) (st : manager) : result (option manager * list (Z * list job)) :=
  match l with
  | [] => Ok (Some st, [])
  | (t, s) :: l' =>
      match round t s st with
      | Fault f => Fault f
      | Ok (None, js) => Ok (None, [(t, js)])
      | Ok (Some st', js) =>
          match rounds l' st' with
          | Ok (st'', out) => Ok (st'', (t, js) :: out)
          | r => r
          end
      end
  end.
End main.

(** ** What is started, and when *)

Lemma read_list_ok n old l nl : nl = [] ∨ nl = [10] → Forall proper l → (length l ≤ n)%nat → read_list n old (nl ++ list_text l) = Ok l.
Proof.
  intros Hnl Hl. revert n old nl Hnl. induction Hl as [|e l He _ IH]; intros [|n] old nl Hnl Hn; try (simpl in Hn; lia); cbn [read_list]; [done| |].
  - by rewrite fscanf_end.
  - rewrite fscanf_list by done. destruct He as (_ & _ & _ & -> & _). cbn [negb]. rewrite (IH n (tail old) [10]) by (first [by right|simpl in Hn; lia]).
    by destruct e.
Qed.

(** The times at which a timer of [main] goes off. *)
Fixpoint fires (interval last : Z) (ts : list Z) : list Z :=
  match ts with
  | [] => []
  | t :: ts' => if interval <? t - last then t :: fires interval t ts' else fires interval last ts'
  end.

(** Times that follow each other by more than [lo] and at most [hi]. *)
Fixpoint spaced (lo hi t : Z) (l : list Z) : Prop :=
  match l with [] => True | t' :: l' => lo < t' - t ≤ hi ∧ spaced lo hi t' l' end.
(** Readings of a clock at most [g] apart. *)
Fixpoint clock (g t : Z) (l : list Z) : Prop :=
  match l with [] => True | t' :: l' => 0 ≤ t' - t ≤ g ∧ clock g t' l' end.

(** The last of the readings. *)
Fixpoint final (t : Z) (l : list Z) : Z := match l with [] => t | t' :: l' => final t' l' end.

Lemma fires_spaced iv g lst t ts : clock g t ts → lst ≤ t ≤ lst + iv →
  spaced iv (iv + g) lst (fires iv lst ts) ∧ final t ts - final lst (fires iv lst ts) ≤ iv.
Proof.
  revert lst t. induction ts as [|t' ts IH]; intros lst t Hc Hl; [cbn; lia|]. destruct Hc as [Ht Hc]. cbn [fires final].
  destruct (Z.ltb_spec iv (t' - lst)); [|apply IH; [done|lia]].
  destruct (IH t' t' Hc ltac:(lia)) as [H1 H2]. cbn [spaced final]. split; [split; [lia|done]|done].
Qed.

Definition list_at (x : Z * list QUEUELIST) : Z * option (list Z) := (x.1, Some (list_text x.2)).
Definition lists_ok (l : list (Z * list QUEUELIST)) : Prop := Forall (λ x, Forall proper x.2 ∧ (length x.2 ≤ MAXQUEUES)%nat) l.
(** The times of the rounds that start [j]. *)
Definition times (j : job) (out : list (Z * list job)) : list Z := fst <$> filter (λ x, j ∈ x.2) out.

Lemma elem_of_jobs e l send clean : e ∈ l → queuetype e = DTA_QTYPE_SEND →
  let js := (if clean : bool then (λ e, Clean (queuename e)) <$> l else []) ++ (if send : bool then omap send_job l else []) in
  (Sendq (queuename e) (remotehost e) (remotequeue e) ∈ js ↔ send = true) ∧ (Clean (queuename e) ∈ js ↔ clean = true).
Proof.
  intros He Ht js. unfold js. rewrite !elem_of_app. split.
  - split; [|intros ->; right; apply list_elem_of_omap; exists e; split; [done|]; unfold send_job; by rewrite Ht].
    intros [H|H]; destruct clean, send; try done; try by apply elem_of_nil in H.
    all: apply list_elem_of_fmap in H as (? & ? & _); done.
  - split; [|intros ->; left; apply list_elem_of_fmap; by exists e].
    intros [H|H]; destruct clean, send; try done; try by apply elem_of_nil in H.
    all: apply list_elem_of_omap in H as (x & _ & H); unfold send_job in H; by case_match.
Qed.

Lemma start_all forks t js : (∀ j, j ∈ js → forks t j = true) → start forks t js = (js, true).
Proof. induction js as [|j js IH]; intros H; cbn [start]; [done|]. rewrite H by left. rewrite IH; [done|]. intros j' Hj. apply H. by right. Qed.
Lemma start_prefix forks t js : prefix (start forks t js).1 js ∧ Forall (λ j, forks t j = true) (start forks t js).1.
Proof.
  induction js as [|j js [IH1 IH2]]; cbn [start]; [done|]. destruct (forks t j) eqn:E; [|split; [apply prefix_nil|constructor]].
  destruct (start forks t js) as [l b]. split; [by apply prefix_cons|by constructor].
Qed.

Lemma rounds_ok forks e l st : (∀ t j, forks t j = true) → lists_ok l → Forall (λ x, e ∈ x.2) l → queuetype e = DTA_QTYPE_SEND →
  ∃ st' out, rounds forks (list_at <$> l) st = Ok (Some st', out) ∧
    times (Sendq (queuename e) (remotehost e) (remotequeue e)) out = fires QSEND_INTERVAL (lastsendtime st) l.*1 ∧
    times (Clean (queuename e)) out = fires QCLEAN_INTERVAL (lastcleantime st) l.*1.
Proof.
  intros Hfk Hok He Ht. revert st. induction l as [|[t q] l IH]; intros st; [by exists st, []|].
  apply Forall_cons in Hok as [[Hp Hn] Hok]. apply Forall_cons in He as [He Hes]. rewrite !fmap_cons. cbn [fst snd list_at rounds fires] in *.
  unfold round. set (send := QSEND_INTERVAL <? t - lastsendtime st). set (clean := QCLEAN_INTERVAL <? t - lastcleantime st).
  destruct (elem_of_jobs e q send clean He Ht) as [Hs Hc]. cbv zeta in Hs, Hc.
  destruct (send || clean) eqn:E.
  - rewrite (read_list_ok MAXQUEUES _ q []) by (done || by left). rewrite start_all by done.
    destruct (IH Hok Hes (Manager (if send then t else lastsendtime st) (if clean then t else lastcleantime st) (q ++ drop (length q) (queuelist st))))
      as (st' & out & Hr & H1 & H2). rewrite Hr. eexists _, _. split; [done|]. unfold times in *. rewrite !filter_cons. cbn [snd].
    cbn [lastsendtime lastcleantime] in *.
    split; [destruct send; [rewrite decide_True by tauto|rewrite decide_False by naive_solver]|destruct clean; [rewrite decide_True by tauto|rewrite decide_False by naive_solver]];
      rewrite ?fmap_cons; cbn [fst]; congruence.
  - apply orb_false_iff in E as [-> ->]. destruct (IH Hok Hes st) as (st' & out & Hr & H1 & H2). rewrite Hr. eexists _, _. split; [done|].
    unfold times in *. rewrite !filter_cons. cbn [snd]. by rewrite !decide_False by apply not_elem_of_nil.
Qed.

(** The cleaner changes nothing that counts: the queue holds what it held, and its locks are
    free again. *)
Lemma cleanq_solo qn s a max i : queue_at s qn a max →
  ∃ s', solo (Side (cleanq qn) s i) [] (Side (Ret ()) s' i) ∧ mine (queue_file (dtapath s) qn) s' a 0.
Proof.
  intros [Hl (f & Hf & Hq & Hi & Hm & _)]. set (full := queue_file (dtapath s) qn) in *.
  assert (mine full (with_qfile full (QFile true (opened f)) s) a 0) as H1 by (exists (opened f); split; [apply with_qfile_lookup|done]).
  destruct (mine_setmlock full _ a i H1) as (s2 & S2 & (q2 & Hf2 & Hq2 & Hi2 & Hm2)).
  destruct (DTA_CLEANQ_ok q2 a Hq2 Hi2) as (q3 & E3 & Hq3 & (_ & Hi3 & Hm3)).
  assert (mine full (with_qfile full (QFile true q3) s2) a 1) as H3.
  { exists q3. split; [apply with_qfile_lookup|]. split; [done|]. split; [done|]. by rewrite Hm3. }
  destruct (mine_freemlock full _ a i H3) as (s4 & S4 & H4). exists s4. split; [|done].
  unfold cleanq. ssolo (by apply (DTA_OPENQ_solo _ _ _ f)). fold full. ssolo (exact S2). ssolo (by eapply on_queue_solo). exact S4.
Qed.

(** ** Properties *)

(** C27: [main] first starts a cleaner for every queue and a sender for every queue of type
    send; from then on, when its turns are at most [g] seconds apart, a queue that stays listed
    gets a sender more than 5 and at most [5 + g] seconds after the last one, and a cleaner
    more than 11 and at most [11 + g] seconds after the last one.  This takes every [fork] to
    succeed: the manager ends at the first that fails ([round_fork_fails]). *)
Theorem dtaqm_rounds forks g e t0 q0 l old : (∀ t j, forks t j = true) →
  lists_ok ((t0, q0) :: l) → Forall (λ x, e ∈ x.2) ((t0, q0) :: l) → queuetype e = DTA_QTYPE_SEND →
  QCLEAN_INTERVAL < t0 → clock g t0 l.*1 →
  ∃ st out sends cleans, rounds forks (list_at <$> (t0, q0) :: l) (Manager 0 0 old) = Ok (Some st, out) ∧
    head out = Some (t0, ((λ e, Clean (queuename e)) <$> q0) ++ omap send_job q0) ∧
    times (Sendq (queuename e) (remotehost e) (remotequeue e)) out = t0 :: sends ∧
    times (Clean (queuename e)) out = t0 :: cleans ∧
    spaced QSEND_INTERVAL (QSEND_INTERVAL + g) t0 sends ∧ final t0 l.*1 - final t0 sends ≤ QSEND_INTERVAL ∧
    spaced QCLEAN_INTERVAL (QCLEAN_INTERVAL + g) t0 cleans ∧ final t0 l.*1 - final t0 cleans ≤ QCLEAN_INTERVAL.
Proof.
  intros Hfk Hok He Ht H0 Hc. pose proof (rounds_ok forks e _ (Manager 0 0 old) Hfk Hok He Ht) as (st & out & Hr & H1 & H2).
  assert (QSEND_INTERVAL < QCLEAN_INTERVAL) as Hlt by done. assert (0 ≤ QSEND_INTERVAL) by done.
  rewrite fmap_cons in H1, H2. cbn [fst fires lastsendtime lastcleantime] in H1, H2. rewrite Z.sub_0_r in H1, H2.
  rewrite (proj2 (Z.ltb_lt _ _)) in H1 by lia. rewrite (proj2 (Z.ltb_lt _ _)) in H2 by lia.
  destruct (fires_spaced QSEND_INTERVAL g t0 t0 l.*1 Hc ltac:(lia)) as [S1 S2].
  destruct (fires_spaced QCLEAN_INTERVAL g t0 t0 l.*1 Hc ltac:(lia)) as [C1 C2].
  exists st, out, (fires QSEND_INTERVAL t0 l.*1), (fires QCLEAN_INTERVAL t0 l.*1). split; [done|]. split; [|done].
  apply Forall_cons in Hok as [[Hp Hn] _]. rewrite fmap_cons in Hr. cbn [rounds list_at fst snd] in Hr. unfold round in Hr.
  cbn [lastsendtime lastcleantime queuelist] in Hr. rewrite Z.sub_0_r, (proj2 (Z.ltb_lt QSEND_INTERVAL t0)), (proj2 (Z.ltb_lt QCLEAN_INTERVAL t0)) in Hr by lia.
  cbn [orb] in Hr. rewrite (read_list_ok MAXQUEUES _ q0 []) in Hr by (done || by left). rewrite start_all in Hr by done. cbn iota beta in Hr.
  destruct (rounds _ _ _) as [[st' out']|]; [|done]. by injection Hr as _ <-.
Qed.

(** At a [fork] that fails the manager ends; the processes before it were started. *)
Lemma round_fork_fails forks t s st j : round forks t s st = Ok (None, j) → s ≠ None →
  ∃ l js, s = Some l ∧ prefix j js ∧ Forall (λ x, forks t x = true) j ∧ ∃ x, x ∈ js ∧ forks t x = false.
Proof.
  unfold round. destruct (_ || _); [|done]. destruct s as [s|]; [|done]. destruct (read_list _ _ s) as [l|]; [|done].
  match goal with |- context [start forks t ?k] => set (js := k); pose proof (start_prefix forks t js) as [H1 H2]; pose proof (start_all forks t js) as H3;
    destruct (start forks t js) as [js' b] end.
  intros [= E <-] _. exists s, js. split; [done|]. split; [done|]. split; [done|].
  destruct (decide (Forall (λ x, forks t x = true) js)) as [Hf|Hf].
  - rewrite Forall_forall in Hf. specialize (H3 Hf). injection H3 as _ ->. done.
  - apply not_Forall_Exists in Hf; [|intros x; solve_decision]. apply Exists_exists in Hf as (x & Hx & Hn). exists x. split; [done|]. by apply not_true_is_false.
Qed.

Definition demo_send : QUEUELIST := QEntry (bytes "out") DTA_QTYPE_SEND (bytes "hostb") (bytes "in").

Lemma dtaqm_rounds_witness : ∃ st out sends cleans,
  rounds (λ _ _, true) (list_at <$> ((λ t, (t, [demo_send])) <$> [100; 101; 104; 106; 107; 113])) (Manager 0 0 []) = Ok (Some st, out) ∧
  times (Sendq (bytes "out") (bytes "hostb") (bytes "in")) out = 100 :: sends ∧ times (Clean (bytes "out")) out = 100 :: cleans ∧
  spaced 5 11 100 sends ∧ spaced 11 17 100 cleans.
Proof.
  assert (proper demo_send) as Hp by by apply proper_bytes.
  assert (∀ t : Z, Forall proper (t, [demo_send]).2 ∧ (length (t, [demo_send]).2 ≤ MAXQUEUES)%nat) as Hl.
  { intros t. split; [by repeat constructor|unfold MAXQUEUES; simpl length; lia]. }
  destruct (dtaqm_rounds (λ _ _, true) 6 demo_send 100 [demo_send] ((λ t, (t, [demo_send])) <$> [101; 104; 106; 107; 113]) []) as (st & out & sends & cleans & E & _ & H1 & H2 & H3 & _ & H4 & _).
  - done.
  - repeat (apply Forall_cons_2; [apply Hl|]). constructor.
  - repeat (apply Forall_cons_2; [left|]). constructor.
  - done.
  - done.
  - cbn. lia.
  - by exists st, out, sends, cleans.
Defined.
