(* ===== verification/LcName.v ===== *)
(** The file splitter [boss/bude/syscomp/src/dta/src/lcsplit.c], its file names: the
    expansion of a name format ([getfilename]), the recognition of an expanded name
    ([matchname]), and the removal of old files ([deloldfile], [timer]). *)
From Stdlib Require Import Sorted.
From S2P Require Import Prelude CLib.

(** ** Time *)

(** The fields of [struct tm] the program looks at. *)
Record tm := Tm { tm_year : Z; tm_mon : Z; tm_mday : Z; tm_hour : Z; tm_min : Z; tm_sec : Z }.

(** A number in at least [w] places, filled with zeros. *)
Definition zpad (w : Z) (s : list Z) : list Z := replicate (Z.to_nat (w - zlen s)) 48 ++ s.

(** The conversions of [strftime] by their letters. *)
Definition time_field (c : Z) (t : tm) : option (list Z) :=
  if c =? 89 then Some (dec (1900 + tm_year t)) else
  if c =? 121 then Some (zpad 2 (dec ((1900 + tm_year t) mod 100))) else
  if c =? 109 then Some (zpad 2 (dec (tm_mon t + 1))) else
  if c =? 100 then Some (zpad 2 (dec (tm_mday t))) else
  if c =? 72 then Some (zpad 2 (dec (tm_hour t))) else
  if c =? 77 then Some (zpad 2 (dec (tm_min t))) else
  if c =? 83 then Some (zpad 2 (dec (tm_sec t))) else None.

(** What [strftime] leaves in an array when the result does not fit is indeterminate. *)
Definition strftime {S} (max : Z) (s : list Z) : M S (list Z) :=
  if zlen s <? max then mret s else fail (UB "result of strftime does not fit").

(** ** [printf] and [scanf] of one [int] *)

(** A format of a percent sign, the digits [ds] and the letter d: a leading zero is the flag
    that fills with zeros, the number is the width. *)
Definition fmt_int (ds : list Z) (n : Z) : list Z :=
  let w := digits_val 0 ds in
  if bool_decide (head ds = Some 48) then
    if n <? 0 then 45 :: zpad (w - 1) (dec (- n)) else zpad w (dec n)
  else pad w (dec n).

(** [sscanf] of at most [w] characters of a number, after white space; a width of 0 is none. *)
Definition scan_int (w : Z) (s : list Z) : option Z :=
  let s := skip_space s in
  let w := if w =? 0 then length s else Z.to_nat w in
  let '(neg, w, s) := match s with
                      | c :: s' => if c =? 45 then (true, pred w, s') else if c =? 43 then (false, pred w, s') else (false, w, s)
                      | [] => (false, w, s) end in
  let '(ds, _) := scan_digits w s in
  if bool_decide (ds = []) then None
  else Some (wrap_s 32 (Z.max LONG_MIN (Z.min LONG_MAX (if neg : bool then - digits_val 0 ds else digits_val 0 ds)))).

(** ** [getfilename] *)

(** [strcat] to [truefilename], an array of 200 bytes. *)
Definition cat {S} (acc s : list Z) : M S (list Z) :=
  if zlen (acc ++ s) <? 200 then mret (acc ++ s) else fail (UB "name beyond the array").

(** The state is the counter [sn].  [fmt] are the digits behind a percent sign that is read;
    with the sign they are the string [fmtstr] in an array of 20 bytes. *)
Definition name_char (t : tm) (c : Z) (acc : list Z) (fmt : option (list Z)) : M Z (list Z * option (list Z)) :=
  match fmt with
  | Some ds =>
      if c =? 37 then
        acc ← cat acc (37 :: ds); mret (acc, Some [])
      else match time_field c t with
      | Some s =>
          str ← strftime (if c =? 89 then 5 else 3) s;
          acc ← cat acc str; mret (acc, None)
      | None =>
          if isdigit c then
            if zlen ds <? 18 then mret (acc, Some (ds ++ [c])) else fail (UB "format beyond the array")
          else if c =? 78 then
            if negb (zlen ds <? 18) then fail (UB "format beyond the array") else
            sn ← get;
            if sn =? 2 ^ 31 - 1 then fail (UB "counter overflows") else
            _ ← modify (λ n, n + 1);
            let str := fmt_int ds (sn + 1) in
            if negb (zlen str <? 100) then fail (UB "number beyond the array") else
            acc ← cat acc str; mret (acc, None)
          else
            acc ← cat acc (37 :: ds);
            acc ← cat acc [c]; mret (acc, None)
      end
  | None =>
      if c =? 37 then mret (acc, Some []) else
      acc ← cat acc [c]; mret (acc, None)
  end.

Fixpoint name_loop (t : tm) (filename acc : list Z) (fmt : option (list Z)) : M Z (list Z) :=
  match filename with
  | [] => mret acc
  | c :: rest => '(acc, fmt) ← name_char t c acc fmt; name_loop t rest acc fmt
  end.

Definition getfilename (t : tm) (circle : Z) (filename : list Z) : M Z (list Z) :=
  truefilename ← name_loop t filename [] None;
  sn ← get;
  _ ← when ((0 <? circle) && (sn =? circle)) (modify (λ _, 0));
  mret truefilename.

(** ** [matchname] *)

(** The largest value of a time field, and how many characters it takes. *)
Definition field_bound (c : Z) : option (Z * Z) :=
  if c =? 89 then Some (4, 2 ^ 32) else if c =? 121 then Some (2, 2 ^ 32) else
  if c =? 109 then Some (2, 12) else if c =? 100 then Some (2, 31) else
  if c =? 72 then Some (2, 23) else if c =? 77 then Some (2, 59) else
  if c =? 83 then Some (2, 61) else None.

(** One turn of the loop at the positions [i] and [j]; [inr] is the result. *)
Definition match_body {S} (filename nameformat : list Z) (x : nat * nat) : M S ((nat * nat) + bool) :=
  let '(i, j) := x in
  match filename !! i, nameformat !! j with
  | Some a, Some b =>
      if b =? a then mret (inl (i + 1, j + 1)%nat) else
      if negb (b =? 37) then mret (inr false) else
      let j := (j + 1)%nat in
      match nameformat !! j with
      | None => mret (inr false)
      | Some c =>
          match field_bound c with
          | Some (w, bound) =>
              match scan_int w (drop i filename) with
              | None => mret (inr false)
              | Some f => if bound <? wrap_u 32 f then mret (inr false) else mret (inl (i + Z.to_nat w, j + 1)%nat)
              end
          | None =>
              if isdigit c || (c =? 78) then
                match strchr (drop j nameformat) 78 with
                | None => mret (inr false)
                | Some k =>
                    let ds := take (Z.to_nat k) (drop j nameformat) in
                    if negb (k <? 18) then fail (UB "format beyond the array") else
                    if negb (forallb isdigit ds) then fail (UB "format with another conversion") else
                    match scan_int (digits_val 0 ds) (drop i filename) with
                    | None => mret (inr false)
                    | Some f =>
                        let str := fmt_int ds f in
                        if negb (zlen str <? 50) then fail (UB "number beyond the array") else
                        mret (inl (i + length str, j + Z.to_nat k + 1)%nat)
                    end
                end
              else mret (inr false)
          end
      end
  | _, _ => mret (inr (bool_decide (i = length filename) && bool_decide (j = length nameformat)))
  end.

(** Every turn advances in the format. *)
Definition matchname {S} (filename nameformat : list Z) : M S bool :=
  iter (Datatypes.S (length nameformat)) (match_body filename nameformat) (0%nat, 0%nat).

(** ** Formats as lists of items *)

(** A character other than a percent sign, a time field, and a number. *)
Inductive item := Lit (c : Z) | Conv (c : Z) | Num (ds : list Z).

Definition render_item (it : item) : list Z :=
  match it with Lit c => [c] | Conv c => [37; c] | Num ds => 37 :: ds ++ [78] end.
Definition render (items : list item) : list Z := items ≫= render_item.

(** What an item becomes, with the counter before and after. *)
Definition expand_item (t : tm) (it : item) (sn : Z) : list Z :=
  match it with Lit c => [c] | Conv c => default [] (time_field c t) | Num ds => fmt_int ds (sn + 1) end.
Definition after_item (it : item) (sn : Z) : Z := match it with Num _ => sn + 1 | _ => sn end.
Fixpoint expand (t : tm) (items : list item) (sn : Z) : list Z :=
  match items with [] => [] | it :: items' => expand_item t it sn ++ expand t items' (after_item it sn) end.
Definition count (items : list item) : Z := foldr (λ it n, after_item it n) 0 items.

Definition tm_ok (t : tm) : Prop :=
  1000 ≤ 1900 + tm_year t ≤ 9999 ∧ 0 ≤ tm_mon t ≤ 11 ∧ 1 ≤ tm_mday t ≤ 31 ∧
  0 ≤ tm_hour t ≤ 23 ∧ 0 ≤ tm_min t ≤ 59 ∧ 0 ≤ tm_sec t ≤ 61.

(** Nothing that prints a digit comes next. *)
Definition no_digit_next (items : list item) : Prop :=
  match items with [] => True | Lit c :: _ => isdigit c = false | _ => False end.

(** The items that can be read back: a number without width must not run into a digit, and a
    number must not outgrow its width. *)
Definition item_ok (it : item) (rest : list item) (sn : Z) : Prop :=
  match it with
  | Lit c => c ≠ 0 ∧ c ≠ 37
  | Conv c => c ∈ [89; 121; 109; 100; 72; 77; 83]
  | Num ds =>
      Forall (λ c, 48 ≤ c ≤ 57) ds ∧ zlen ds < 18 ∧ digits_val 0 ds < 50 ∧ 0 ≤ sn < 2 ^ 31 - 1 ∧
      (digits_val 0 ds = 0 ∨ sn + 1 < 10 ^ digits_val 0 ds) ∧
      (0 < digits_val 0 ds ∧ head ds = Some 48 ∨ no_digit_next rest)
  end.
Fixpoint items_ok (items : list item) (sn : Z) : Prop :=
  match items with [] => True | it :: rest => item_ok it rest sn ∧ items_ok rest (after_item it sn) end.

(** ** Digits *)

Definition digits (s : list Z) : Prop := Forall (λ c, 48 ≤ c ≤ 57) s.

Lemma zpad_digits w s : digits s → digits (zpad w s).
Proof. intros H. apply Forall_app. split; [|done]. apply Forall_replicate. lia. Qed.

Lemma digits_val_zeros k s : digits_val 0 (replicate k 48 ++ s) = digits_val 0 s.
Proof. induction k as [|k IH]; [done|]. exact IH. Qed.

Lemma dec_val n : 0 ≤ n < 10 ^ 20 → digits_val 0 (dec n) = n.
Proof. intros H. rewrite dec_nonneg by lia. by apply digits_val_udec. Qed.

Lemma zpad_val w n : 0 ≤ n < 10 ^ 20 → digits_val 0 (zpad w (dec n)) = n.
Proof. intros H. unfold zpad. by rewrite digits_val_zeros, dec_val. Qed.

Lemma zpad_length w n : 0 < w → 0 ≤ n < 10 ^ w → zlen (zpad w (dec n)) = w.
Proof.
  intros Hw H. unfold zpad. rewrite zlen_app, zlen_replicate.
  pose proof (dec_length n (Z.to_nat w) ltac:(lia) ltac:(rewrite Z2Nat.id; lia)). unfold zlen. lia.
Qed.

Lemma scan_digits_exact ds r : digits ds → scan_digits (length ds) (ds ++ r) = (ds, r).
Proof.
  induction 1 as [|c ds Hc _ IH]; [by destruct r|]. simpl. rewrite digit_isdigit by done. by rewrite IH.
Qed.

(** Reading digits that end where the width does or before a character that is none. *)
Lemma scan_int_digits w s r : digits s → s ≠ [] → digits_val 0 s < 2 ^ 31 → 0 ≤ digits_val 0 s →
  (0 ≤ w ∧ w = zlen s ∨ (w = 0 ∨ zlen s ≤ w) ∧ ∀ c r', r = c :: r' → isdigit c = false) →
  scan_int w (s ++ r) = Some (digits_val 0 s).
Proof.
  intros Hs Hne Hv H0 Hw. unfold scan_int. destruct s as [|c s]; [done|].
  pose proof (Forall_inv Hs) as Hc. simpl in Hc. assert (skip_space ((c :: s) ++ r) = (c :: s) ++ r) as ->.
  { simpl. unfold isspace. destruct (Z.eqb_spec c 32), (Z.leb_spec 9 c), (Z.leb_spec c 13); simpl; (lia || done). }
  set (n := if w =? 0 then length ((c :: s) ++ r) else Z.to_nat w).
  assert (scan_digits n ((c :: s) ++ r) = (c :: s, r)) as E.
  { destruct Hw as [[Hw ->]|[Hw Hr]].
    - unfold n. destruct (Z.eqb_spec (zlen (c :: s)) 0) as [H1|]; [rewrite zlen_cons in H1; pose proof (zlen_nonneg s); lia|].
      unfold zlen. rewrite Nat2Z.id. by apply scan_digits_exact.
    - apply scan_digits_all; [done| |done]. unfold n. destruct (Z.eqb_spec w 0); [rewrite length_app; lia|].
      unfold zlen in *. lia. }
  rewrite <- app_comm_cons in *. destruct (Z.eqb_spec c 45); [lia|]. destruct (Z.eqb_spec c 43); [lia|].
  rewrite E. rewrite bool_decide_false by done. f_equal. unfold LONG_MIN, LONG_MAX. rewrite Z.max_r, Z.min_r by lia.
  apply wrap_s_id; lia.
Qed.

(** ** Fields and numbers *)

Lemma digits_val_lt_acc s a : digits s → 0 ≤ a → digits_val a s < (a + 1) * 10 ^ zlen s.
Proof.
  intros Hs. revert a. induction Hs as [|c s Hc _ IH]; intros a Ha; [change (zlen []) with 0; rewrite Z.pow_0_r; simpl; lia|]. cbn [digits_val]. rewrite digit_isdigit by done.
  rewrite zlen_cons, Z.pow_add_r by (pose proof (zlen_nonneg s); lia).
  specialize (IH (a * 10 + (c - 48)) ltac:(lia)). assert (0 < 10 ^ zlen s) by (apply Z.pow_pos_nonneg; [lia|apply zlen_nonneg]). nia.
Qed.
Lemma digits_val_lt s : digits s → digits_val 0 s < 10 ^ zlen s.
Proof. intros Hs. pose proof (digits_val_lt_acc s 0 Hs ltac:(lia)). lia. Qed.

(** What a time field prints is read back in its width and within its bound. *)
Lemma field_ok c t : tm_ok t → c ∈ [89; 121; 109; 100; 72; 77; 83] →
  ∃ s w b, time_field c t = Some s ∧ field_bound c = Some (w, b) ∧ digits s ∧ zlen s = w ∧ 0 < w ≤ 4 ∧
    zlen s < (if c =? 89 then 5 else 3) ∧ 0 ≤ digits_val 0 s ≤ b ∧ digits_val 0 s < 2 ^ 31 ∧ isdigit c = false ∧ c ≠ 37 ∧ c ≠ 78.
Proof.
  intros (Hy & Hmo & Hd & Hh & Hmi & Hs) Hc.
  assert (∀ n, 0 ≤ n < 100 → digits (zpad 2 (dec n)) ∧ zlen (zpad 2 (dec n)) = 2 ∧ digits_val 0 (zpad 2 (dec n)) = n) as H2.
  { intros n Hn. split; [apply zpad_digits, dec_digits; lia|]. split; [apply zpad_length; lia|]. apply zpad_val. lia. }
  assert (∀ n b, 0 ≤ n < 100 → n ≤ b → digits (zpad 2 (dec n)) ∧ zlen (zpad 2 (dec n)) = 2 ∧ 0 < 2 ≤ 4 ∧ zlen (zpad 2 (dec n)) < 3 ∧
    0 ≤ digits_val 0 (zpad 2 (dec n)) ≤ b ∧ digits_val 0 (zpad 2 (dec n)) < 2 ^ 31) as H3.
  { intros n b Hn Hb. destruct (H2 n Hn) as (E1 & E2 & E3). rewrite E2, E3. repeat (split; try done); lia. }
  pose proof (Z.mod_pos_bound (1900 + tm_year t) 100 ltac:(lia)).
  rewrite !elem_of_cons, elem_of_nil in Hc. destruct_or!; try done; subst c; cbn [time_field field_bound Z.eqb Pos.eqb];
    do 3 eexists; (split; [reflexivity|]); (split; [reflexivity|]).
  - assert (zlen (dec (1900 + tm_year t)) = 4) as E.
    { pose proof (dec_length (1900 + tm_year t) 4 ltac:(lia) ltac:(simpl; lia)) as Hl.
      destruct (decide (zlen (dec (1900 + tm_year t)) = 4)) as [|Hn]; [done|]. exfalso.
      pose proof (dec_digits (1900 + tm_year t) ltac:(lia)) as Hdg.
      pose proof (digits_val_lt (dec (1900 + tm_year t)) Hdg) as Hv. rewrite dec_val in Hv by lia.
      assert (10 ^ zlen (dec (1900 + tm_year t)) ≤ 10 ^ 3) by (apply Z.pow_le_mono_r; unfold zlen in *; lia). lia. }
    rewrite E, dec_val by lia. split_and!; try done; try lia. by apply dec_digits; lia.
  - destruct (H3 ((1900 + tm_year t) mod 100) (2 ^ 32)) as (? & ? & ? & ? & ? & ?); [lia..|]. split_and!; try done; lia.
  - destruct (H3 (tm_mon t + 1) 12) as (? & ? & ? & ? & ? & ?); [lia..|]. split_and!; try done; lia.
  - destruct (H3 (tm_mday t) 31) as (? & ? & ? & ? & ? & ?); [lia..|]. split_and!; try done; lia.
  - destruct (H3 (tm_hour t) 23) as (? & ? & ? & ? & ? & ?); [lia..|]. split_and!; try done; lia.
  - destruct (H3 (tm_min t) 59) as (? & ? & ? & ? & ? & ?); [lia..|]. split_and!; try done; lia.
  - destruct (H3 (tm_sec t) 61) as (? & ? & ? & ? & ? & ?); [lia..|]. split_and!; try done; lia.
Qed.

Lemma fmt_int_shape ds n : digits ds → digits_val 0 ds < 50 → 0 < n < 2 ^ 31 → digits_val 0 ds = 0 ∨ n < 10 ^ digits_val 0 ds →
  ∃ k s, fmt_int ds n = replicate k 32 ++ s ∧ digits s ∧ s ≠ [] ∧ digits_val 0 s = n ∧ zlen (fmt_int ds n) < 50 ∧
    (digits_val 0 ds ≠ 0 → zlen s ≤ digits_val 0 ds) ∧ (digits_val 0 ds = 0 → k = 0%nat) ∧
    (head ds = Some 48 → k = 0%nat ∧ (digits_val 0 ds ≠ 0 → zlen s = digits_val 0 ds)).
Proof.
  intros Hds Hw Hn Hlt. unfold fmt_int. set (w := digits_val 0 ds) in *.
  assert (0 ≤ w) as Hw0. { unfold w. clear -Hds. assert (∀ a, 0 ≤ a → 0 ≤ digits_val a ds) as H; [|by apply H].
    induction Hds as [|c ds Hc _ IH]; intros a Ha; [done|]. cbn [digits_val]. rewrite digit_isdigit by done. apply IH. lia. }
  pose proof (dec_digits n ltac:(lia)) as Hd. pose proof (dec_pos_length n) as Hp. pose proof (dec_val n ltac:(lia)) as Hv.
  pose proof (dec_length n 10 ltac:(lia) ltac:(simpl; lia)) as Hl.
  assert (w ≠ 0 → zlen (dec n) ≤ w) as Hle.
  { intros H0. destruct Hlt as [|Hlt]; [done|]. pose proof (dec_length n (Z.to_nat w) ltac:(lia) ltac:(rewrite Z2Nat.id; lia)). unfold zlen. lia. }
  assert (zlen (dec n) ≤ 10) by (unfold zlen; lia). assert (dec n ≠ []) by (intros H'; rewrite H' in Hp; simpl in Hp; lia).
  destruct (bool_decide (head ds = Some 48)) eqn:Eh.
  - apply bool_decide_eq_true in Eh. destruct (Z.ltb_spec n 0); [lia|]. exists 0%nat, (zpad w (dec n)).
    assert (w ≠ 0 → zlen (zpad w (dec n)) = w) as Hz by (intros; apply zpad_length; [lia|destruct Hlt; [done|lia]]).
    split_and!; try done.
    + by apply zpad_digits.
    + unfold zpad. by intros [_ ?]%app_eq_nil.
    + apply zpad_val. lia.
    + destruct (decide (w = 0)) as [E0|E0]; [rewrite E0|rewrite Hz by done; lia]. unfold zpad. rewrite zlen_app, zlen_replicate. unfold zlen in *. lia.
    + intros Hw1. rewrite Hz by done. lia.
  - apply bool_decide_eq_false in Eh. exists (Z.to_nat (w - zlen (dec n))), (dec n). split_and!; try done; [|intros ->; unfold zlen; lia].
    unfold pad. rewrite zlen_app, zlen_replicate. lia.
Qed.

Lemma scan_int_spaces w k s : scan_int w (replicate k 32 ++ s) = scan_int w s ∨ w = 0.
Proof.
  destruct (Z.eqb_spec w 0) as [->|Hw]; [by right|left]. unfold scan_int. rewrite skip_space_replicate.
  by rewrite (proj2 (Z.eqb_neq _ _) Hw).
Qed.

(** What a number prints is read back. *)
Lemma num_ok ds n r : digits ds → digits_val 0 ds < 50 → 0 < n < 2 ^ 31 → digits_val 0 ds = 0 ∨ n < 10 ^ digits_val 0 ds →
  0 < digits_val 0 ds ∧ head ds = Some 48 ∨ (∀ c r', r = c :: r' → isdigit c = false) →
  scan_int (digits_val 0 ds) (fmt_int ds n ++ r) = Some n ∧ zlen (fmt_int ds n) < 50 ∧
  ∃ a b, fmt_int ds n = a :: b ∧ (isdigit a = true ∨ a = 32).
Proof.
  intros Hds Hw Hn Hlt Hr. destruct (fmt_int_shape ds n Hds Hw Hn Hlt) as (k & s & E & Hs & Hne & Hv & Hlen & Hle & Hk & Hz).
  split; [|split; [done|]].
  - assert (scan_int (digits_val 0 ds) (s ++ r) = Some n) as H.
    { rewrite <- Hv. apply scan_int_digits; try done; try lia. destruct Hr as [[Hp Hh]|Hr].
      - left. split; [lia|]. destruct (Hz Hh) as [_ Hz']. symmetry. apply Hz'. lia.
      - right. split; [|done]. destruct (decide (digits_val 0 ds = 0)); [by left|right; auto]. }
    rewrite E, <- app_assoc. destruct (decide (digits_val 0 ds = 0)) as [H0|H0].
    + by rewrite (Hk H0).
    + destruct (scan_int_spaces (digits_val 0 ds) k (s ++ r)) as [->|]; [done|done].
  - rewrite E. destruct k as [|k]; [|by exists 32, (replicate k 32 ++ s); split; [|right]].
    destruct s as [|c s]; [done|]. exists c, s. split; [done|left]. apply digit_isdigit. by apply Forall_inv in Hs.
Qed.

(** ** Expansion *)

Lemma cat_ok {S} acc s (x : S) : zlen (acc ++ s) < 200 → cat acc s x = Ok (acc ++ s, x).
Proof. intros H. unfold cat. by rewrite (proj2 (Z.ltb_lt _ _)). Qed.

Lemma digit_no_field c t : 48 ≤ c ≤ 57 → time_field c t = None.
Proof. intros H. unfold time_field. repeat (case_test; [lia|]). done. Qed.

Lemma name_digits t ds rest acc ds0 sn : digits ds → zlen (ds0 ++ ds) < 19 →
  name_loop t (ds ++ rest) acc (Some ds0) sn = name_loop t rest acc (Some (ds0 ++ ds)) sn.
Proof.
  intros Hds. revert ds0. induction Hds as [|c ds Hc _ IH]; intros ds0 Hl; [by rewrite app_nil_r|].
  rewrite zlen_app, zlen_cons in Hl. pose proof (zlen_nonneg ds).
  cbn [app name_loop name_char]. rewrite (proj2 (Z.eqb_neq c 37)), digit_no_field, digit_isdigit by lia.
  rewrite (proj2 (Z.ltb_lt (zlen ds0) 18)) by lia. rewrite bind_ret, IH; [by rewrite <- app_assoc|].
  rewrite <- app_assoc, zlen_app. simpl. rewrite zlen_cons. lia.
Qed.

Lemma name_item t it rest items acc sn : tm_ok t → item_ok it items sn → zlen (acc ++ expand_item t it sn) < 200 →
  name_loop t (render_item it ++ rest) acc None sn = name_loop t rest (acc ++ expand_item t it sn) None (after_item it sn).
Proof.
  intros Ht Hok Hl. destruct it as [c|c|ds]; simpl in Hok, Hl |- *.
  - destruct Hok as [_ Hc]. rewrite (proj2 (Z.eqb_neq _ _) Hc). mstep. by rewrite (bind_ok _ _ _ _ _ (cat_ok _ _ _ Hl)).
  - destruct (field_ok c t Ht Hok) as (s & w & b & Hf & _ & _ & _ & _ & Hlt & _ & _ & Hd & Hc & _).
    rewrite Hf in Hl |- *. simpl in Hl |- *. mstep. unfold name_char at 1. rewrite (proj2 (Z.eqb_neq _ _) Hc), Hf. unfold strftime.
    rewrite (proj2 (Z.ltb_lt _ _) Hlt). mstep. rewrite (bind_ok _ _ _ _ _ (cat_ok _ _ _ Hl)). mstep. done.
  - destruct Hok as (Hds & H18 & Hw & Hsn & Hlt & _). mstep. rewrite <- app_assoc, name_digits by (done || simpl; lia). simpl.
    rewrite (proj2 (Z.ltb_lt _ _) H18). mstep. unfold get. rewrite (bind_ok (λ s, Ok (s, s)) _ sn sn sn eq_refl).
    rewrite (proj2 (Z.eqb_neq _ _)) by lia. mstep.
    destruct (num_ok ds (sn + 1) [] Hds Hw ltac:(lia) Hlt ltac:(by right)) as (_ & Hz & _).
    rewrite (proj2 (Z.ltb_lt _ _)) by lia. mstep. rewrite (bind_ok _ _ _ _ _ (cat_ok _ _ _ Hl)). mstep. done.
Qed.

Lemma name_items t items rest acc sn : tm_ok t → items_ok items sn → zlen (acc ++ expand t items sn) < 200 →
  name_loop t (render items ++ rest) acc None sn =
  name_loop t rest (acc ++ expand t items sn) None (foldl (λ n it, after_item it n) sn items).
Proof.
  intros Ht. revert acc sn. induction items as [|it items IH]; intros acc sn Hok Hl; [by rewrite app_nil_r|].
  destruct Hok as [H1 H2]. unfold render. rewrite bind_cons, <- app_assoc. fold (render items). cbn [expand] in Hl |- *.
  rewrite (name_item _ _ _ items) by (try done; rewrite app_assoc, zlen_app in Hl; pose proof (zlen_nonneg (expand t items (after_item it sn))); lia).
  rewrite app_assoc in Hl. rewrite IH by done. by rewrite <- app_assoc.
Qed.

(** ** Recognition *)

Lemma lookup_drop_head {A} (l : list A) i x k : drop i l = x :: k → l !! i = Some x.
Proof. intros E. rewrite <- (Nat.add_0_r i), <- lookup_drop, E. done. Qed.

Lemma drop_next {A} (l : list A) i a b : drop i l = a ++ b → drop (i + length a) l = b.
Proof. intros E. rewrite <- drop_drop, E. apply drop_app_length. Qed.

Lemma strchr_digits ds r : digits ds → strchr (ds ++ 78 :: r) 78 = Some (zlen ds).
Proof.
  induction 1 as [|c ds Hc _ IH]; [done|]. simpl. rewrite (proj2 (Z.eqb_neq c 0)), (proj2 (Z.eqb_neq c 78)), IH by lia.
  simpl. by rewrite zlen_cons, Z.add_1_l.
Qed.

Lemma digits_forallb ds : digits ds → forallb isdigit ds = true.
Proof. induction 1 as [|c ds Hc _ IH]; [done|]. simpl. by rewrite digit_isdigit, IH. Qed.

Section matching.
Context {S : Type} (filename nameformat : list Z).
Implicit Types (s : S) (i j : nat).

(** One turn over a time field or a number whose first printed character is no percent sign. *)
Lemma match_conv t c items r rf i j s : tm_ok t → item_ok (Conv c) items 0 →
  drop i filename = default [] (time_field c t) ++ r → drop j nameformat = 37 :: c :: rf →
  match_body filename nameformat (i, j) s = Ok (inl (i + length (default [] (time_field c t)), j + 2)%nat, s).
Proof.
  intros Ht Hok Hi Hj. destruct (field_ok c t Ht Hok) as (str & w & b & Hf & Hb & Hd & Hlen & Hw & _ & Hv & Hv2 & _).
  rewrite Hf in Hi |- *. simpl in Hi |- *.
  assert (nameformat !! j = Some 37 ∧ nameformat !! (j + 1)%nat = Some c) as [E1 E2].
  { split; [by eapply lookup_drop_head|]. eapply (lookup_drop_head _ _ _ rf). apply (drop_next _ _ [37] _ Hj). }
  destruct str as [|a str]; [unfold zlen in Hlen; simpl in Hlen; lia|].
  pose proof (Forall_inv Hd) as Ha. simpl in Ha. rewrite (lookup_drop_head filename i a (str ++ r)) by done.
  rewrite E1, (proj2 (Z.eqb_neq 37 a)) by lia. change (negb (37 =? 37)) with false. cbv iota. rewrite E2, Hb, Hi.
  rewrite scan_int_digits; [|done|done|lia|lia|left; split; [lia|done]]. cbv iota beta.
  rewrite wrap_u_id by lia. destruct (Z.ltb_spec b (digits_val 0 (a :: str))); [lia|].
  unfold mret, M_ret. do 4 f_equal; [|lia]. rewrite <- Hlen. unfold zlen. by rewrite Nat2Z.id.
Qed.

Lemma match_num ds n items r rf i j s : item_ok (Num ds) items (n - 1) → (no_digit_next items → ∀ c r', r = c :: r' → isdigit c = false) →
  drop i filename = fmt_int ds n ++ r → drop j nameformat = 37 :: ds ++ 78 :: rf →
  match_body filename nameformat (i, j) s = Ok (inl (i + length (fmt_int ds n), j + (length ds + 2))%nat, s).
Proof.
  intros (Hds & H18 & Hw & Hsn & Hlt & Hnext) Hr Hi Hj. replace (n - 1 + 1) with n in Hlt by lia.
  destruct (num_ok ds n r Hds Hw ltac:(lia) Hlt) as (Hscan & H50 & a & b & Hab & Ha).
  { destruct Hnext as [Hx|Hx]; [by left|right; by apply Hr]. }
  assert (drop (j + 1) nameformat = ds ++ 78 :: rf) as Hj1 by apply (drop_next _ _ [37] _ Hj).
  assert (∃ c, nameformat !! (j + 1)%nat = Some c ∧ field_bound c = None ∧ isdigit c || (c =? 78) = true) as (c & E2 & Hb & Hc).
  { destruct ds as [|c ds]; [exists 78|exists c]; (split; [by eapply lookup_drop_head|]); [done|].
    apply Forall_inv in Hds. simpl in Hds. split; [|by rewrite digit_isdigit].
    unfold field_bound. repeat (case_test; [lia|]). done. }
  pose proof Hi as Hi'. rewrite Hab, <- app_comm_cons in Hi'. unfold match_body. rewrite (lookup_drop_head filename i _ _ Hi').
  rewrite (lookup_drop_head nameformat j _ _ Hj). rewrite (proj2 (Z.eqb_neq 37 a)).
  2:{ intros <-. by destruct Ha. }
  change (negb (37 =? 37)) with false. cbv iota. rewrite E2, Hb, Hc, Hj1, strchr_digits by done.
  cbv beta iota zeta. assert (take (Z.to_nat (zlen ds)) (ds ++ 78 :: rf) = ds) as ->.
  { unfold zlen. rewrite Nat2Z.id. apply take_app_length. }
  rewrite (proj2 (Z.ltb_lt _ _) H18), digits_forallb by done. cbn [negb]. rewrite Hi, Hscan.
  rewrite (proj2 (Z.ltb_lt _ _) H50). cbn [negb]. unfold mret, M_ret. do 4 f_equal. unfold zlen. rewrite Nat2Z.id. lia.
Qed.

Lemma match_turn t it items r rf i j s sn : tm_ok t → item_ok it items sn →
  (no_digit_next items → ∀ c r', r = c :: r' → isdigit c = false) →
  drop i filename = expand_item t it sn ++ r → drop j nameformat = render_item it ++ rf →
  match_body filename nameformat (i, j) s =
  Ok (inl (i + length (expand_item t it sn), j + length (render_item it))%nat, s).
Proof.
  intros Ht Hok Hr Hi Hj. destruct it as [c|c|ds]; cbn [expand_item render_item after_item] in *.
  - unfold match_body. rewrite (lookup_drop_head _ _ _ _ Hi), (lookup_drop_head _ _ _ _ Hj), Z.eqb_refl. done.
  - by apply (match_conv t c items r rf).
  - erewrite (match_num ds (sn + 1) items r rf); [|by rewrite Z.add_simpl_r|exact Hr|exact Hi|by rewrite Hj, <- app_comm_cons, <- app_assoc].
    cbn [length]. rewrite length_app. simpl. do 4 f_equal. lia.
Qed.

Lemma match_items t items i j s n sn : tm_ok t → items_ok items sn → (length items < n)%nat →
  drop i filename = expand t items sn → drop j nameformat = render items →
  (i ≤ length filename)%nat → (j ≤ length nameformat)%nat →
  iter n (match_body filename nameformat) (i, j) s = Ok (true, s).
Proof.
  intros Ht. revert i j n sn. induction items as [|it items IH]; intros i j n sn Hok Hn Hi Hj Hil Hjl.
  - destruct n as [|n]; [simpl in Hn; lia|]. simpl in Hi, Hj. rewrite iter_S.
    assert (i = length filename) as -> by (apply (f_equal length) in Hi; rewrite length_drop in Hi; simpl in Hi; lia).
    assert (j = length nameformat) as -> by (apply (f_equal length) in Hj; rewrite length_drop in Hj; simpl in Hj; lia).
    rewrite (bind_ok _ _ s (inr true) s); [done|]. unfold match_body. rewrite lookup_ge_None_2 by done.
    by rewrite !bool_decide_true by done.
  - destruct n as [|n]; [simpl in Hn; lia|]. destruct Hok as [H1 H2]. cbn [expand] in Hi. unfold render in Hj. rewrite bind_cons in Hj.
    fold (render items) in Hj. rewrite iter_S.
    assert (no_digit_next items → ∀ c r', expand t items (after_item it sn) = c :: r' → isdigit c = false) as Hnd.
    { intros Hnext c r' E. destruct items as [|[c'| |] items]; try done. by injection E as <- _. }
    rewrite (bind_ok _ _ _ _ _ (match_turn t it items (expand t items (after_item it sn)) (render items) i j s sn Ht H1 Hnd Hi Hj)).
    apply (IH _ _ _ (after_item it sn)); try done.
    + simpl in Hn. lia.
    + by apply drop_next.
    + by apply drop_next.
    + apply (f_equal length) in Hi. rewrite length_drop, length_app in Hi. lia.
    + apply (f_equal length) in Hj. rewrite length_drop, length_app in Hj. lia.
Qed.
End matching.

(** The name a format gives is recognised by the same format. *)
Lemma matchname_expand {S} t items sn (s : S) : tm_ok t → items_ok items sn →
  matchname (expand t items sn) (render items) s = Ok (true, s).
Proof.
  intros Ht Hok. unfold matchname. apply (match_items _ _ t items _ _ _ _ sn); try done; try lia.
  assert (length items ≤ length (render items))%nat; [|lia].
  clear. induction items as [|it items IH]; [done|]. unfold render. rewrite bind_cons, length_app. fold (render items).
  destruct it; simpl; lia.
Qed.

(** ** [matchname] does not fault *)

(** A format of items, however it came about. *)
Definition item_fits (it : item) : Prop :=
  match it with
  | Lit c => c ≠ 37
  | Conv c => c ≠ 37 ∧ c ≠ 78 ∧ isdigit c = false
  | Num ds => digits ds ∧ zlen ds < 18 ∧ digits_val 0 ds < 50
  end.

Lemma scan_int_range w s v : scan_int w s = Some v → - 2 ^ 31 ≤ v < 2 ^ 31.
Proof.
  unfold scan_int. repeat case_match; try done; intros [= <-]; unfold wrap_s; change (32 - 1) with 31;
    match goal with |- context [?x mod 2 ^ 32] => pose proof (Z.mod_pos_bound x (2 ^ 32) ltac:(lia)) end;
    case_match; btests; lia.
Qed.

Lemma fmt_int_short ds v : digits_val 0 ds < 50 → - 2 ^ 31 ≤ v < 2 ^ 31 → zlen (fmt_int ds v) < 50.
Proof.
  intros Hw Hv. assert (∀ n, 0 ≤ n ≤ 2 ^ 31 → 0 ≤ zlen (dec n) ≤ 10) as Hd.
  { intros n Hn. pose proof (dec_length n 10 ltac:(lia) ltac:(simpl; lia)). unfold zlen. lia. }
  assert (0 ≤ zlen (dec v) ≤ 11).
  { destruct (Z_lt_dec v 0); [|specialize (Hd v ltac:(lia)); lia]. unfold dec. rewrite (proj2 (Z.ltb_lt v 0)) by done.
    rewrite zlen_cons. specialize (Hd (- v) ltac:(lia)). rewrite dec_nonneg in Hd by lia. lia. }
  assert (v < 0 → 0 ≤ zlen (dec (- v)) ≤ 10) by (intros; apply Hd; lia).
  unfold fmt_int, zpad, pad. repeat case_test; rewrite ?zlen_cons, zlen_app, zlen_replicate; lia.
Qed.

Section total.
Context {S : Type} (filename nameformat : list Z).

(** The position is inside an item, behind its percent sign, or before an item. *)
Definition at_items (j : nat) : Prop :=
  ∃ mid items, drop j nameformat = mid ++ render items ∧ 37 ∉ mid ∧ Forall item_fits items.

Lemma at_items_next j : at_items j → at_items (j + 1).
Proof.
  intros (mid & items & E & Hm & Hf). destruct mid as [|c mid].
  - simpl in E. destruct items as [|it items].
    + exists [], []. rewrite <- drop_drop, E. by split_and!.
    + apply Forall_cons in Hf as [H1 H2]. unfold render in E. rewrite bind_cons in E. fold (render items) in E.
      destruct it as [c|c|ds]; simpl in E, H1.
      * exists [], items. rewrite (drop_next _ _ [c] _ E : drop (_ + 1) _ = _). by split_and!; [|apply not_elem_of_nil|].
      * exists [c], items. rewrite (drop_next _ _ [37] _ E : drop (_ + 1) _ = _). split_and!; try done. intros H%list_elem_of_singleton. by destruct H1 as [H1 _].
      * exists (ds ++ [78]), items. rewrite (drop_next _ _ [37] ((ds ++ [78]) ++ render items) E : drop (_ + 1) _ = _). split_and!; try done.
        intros [H|H%list_elem_of_singleton]%elem_of_app; [|done]. destruct H1 as [Hd _]. unfold digits in Hd. rewrite Forall_forall in Hd. specialize (Hd _ H). lia.
  - exists mid, items. rewrite (drop_next _ _ [c] _ E : drop (_ + 1) _ = _). split_and!; try done. intros H. apply Hm. by apply list_elem_of_further.
Qed.

Lemma match_body_total i j (s : S) : at_items j →
  ∃ r, match_body filename nameformat (i, j) s = Ok (r, s) ∧
    match r with inl (_, j') => (j < j')%nat ∧ (j < length nameformat)%nat ∧ at_items j' | inr _ => True end.
Proof.
  intros Hat. unfold match_body. destruct (filename !! i) as [a|] eqn:Ea; [|by eexists].
  destruct (nameformat !! j) as [b|] eqn:Eb; [|by eexists].
  pose proof (lookup_lt_Some _ _ _ Eb) as Hj.
  destruct (Z.eqb_spec b a); [eexists; split; [reflexivity|]; split_and!; [lia|done|by apply at_items_next]|].
  destruct (Z.eqb_spec b 37) as [->|]; [|by eexists]. simpl negb. cbv iota.
  destruct Hat as (mid & items & E & Hm & Hf). pose proof (drop_S _ _ _ Eb) as Ed.
  destruct mid as [|m mid].
  2:{ exfalso. rewrite E in Ed. injection Ed as -> _. apply Hm. by apply list_elem_of_here. }
  destruct items as [|it items]; [by rewrite E in Ed|]. rewrite app_nil_l in E. unfold render in E. rewrite bind_cons in E.
  fold (render items) in E. apply Forall_cons in Hf as [H1 H2].
  destruct it as [c|c|ds]; cbn [render_item app] in E; rewrite Ed in E; simpl in H1; [by injection E as <- _|..].
  - injection E as E. assert (nameformat !! (j + 1)%nat = Some c) as ->.
    { rewrite Nat.add_1_r. by eapply lookup_drop_head. }
    assert (at_items (j + 1 + 1)) as Hat'.
    { exists [], items. rewrite (Nat.add_1_r j), (drop_next _ _ [c] _ E : drop (Datatypes.S j + 1) _ = _). split_and!; [done|apply not_elem_of_nil|done]. }
    destruct (field_bound c) as [[w bd]|].
    + destruct (scan_int w _); [|by eexists]. destruct (_ <? _); [by eexists|]. eexists; split; [reflexivity|]. split_and!; [lia|done|done].
    + destruct H1 as (_ & H78 & Hd). rewrite Hd, (proj2 (Z.eqb_neq _ _) H78). by eexists.
  - injection E as E. rewrite <- app_assoc in E. simpl in E. destruct H1 as (Hds & H18 & Hw).
    replace (j + 1)%nat with (Datatypes.S j) by lia.
    assert (∃ c, nameformat !! Datatypes.S j = Some c ∧ field_bound c = None ∧ isdigit c || (c =? 78) = true) as (c & -> & Hb & Hc).
    { destruct ds as [|c ds]; [exists 78|exists c]; (split; [by eapply lookup_drop_head|]); [done|].
      apply Forall_inv in Hds. simpl in Hds. split; [|by rewrite digit_isdigit].
      unfold field_bound. repeat (case_test; [lia|]). done. }
    rewrite Hb, Hc, E, strchr_digits by done. cbv beta iota zeta.
    assert (take (Z.to_nat (zlen ds)) (ds ++ 78 :: render items) = ds) as ->.
    { unfold zlen. rewrite Nat2Z.id. apply take_app_length. }
    rewrite (proj2 (Z.ltb_lt _ _) H18), digits_forallb by done. cbn [negb].
    destruct (scan_int _ _) as [v|] eqn:Ev; [|by eexists]. apply scan_int_range in Ev.
    rewrite (proj2 (Z.ltb_lt _ _)) by by apply fmt_int_short. eexists; split; [reflexivity|]. split_and!; [lia|done|].
    exists [], items. split_and!; [|apply not_elem_of_nil|done]. unfold zlen. rewrite Nat2Z.id.
    replace (Datatypes.S j + length ds + 1)%nat with (Datatypes.S j + length (ds ++ [78%Z]))%nat by (rewrite length_app; simpl; lia).
    apply drop_next. by rewrite <- app_assoc.
Qed.

Lemma match_loop_total n i j (s : S) : at_items j → (length nameformat - j < n)%nat →
  ∃ b, iter n (match_body filename nameformat) (i, j) s = Ok (b, s).
Proof.
  revert i j. induction n as [|n IH]; intros i j Hat Hn; [lia|]. rewrite iter_S.
  destruct (match_body_total i j s Hat) as ([[i' j']|b] & E & Hr); rewrite (bind_ok _ _ _ _ _ E); [|by exists b].
  apply IH; [apply Hr|]. lia.
Qed.
End total.

Lemma matchname_total {S} filename items (s : S) : Forall item_fits items → ∃ b, matchname filename (render items) s = Ok (b, s).
Proof.
  intros Hf. apply match_loop_total; [|lia]. exists [], items. split_and!; [done|apply not_elem_of_nil|done].
Qed.

(** ** Removal of old files *)

(** A file: its bytes, when they were last modified, when its status last changed (also by a
    [chmod] or a [mv]), whether it is a regular one. *)
Record file := File { content : list Z; mtime : Z; ctime : Z; regular : bool }.
Abbreviation fs := (gmap (list Z) file).

(** [sprintf] into an array of [n] bytes. *)
Definition sprintf {S} (n : Z) (s : list Z) : M S (list Z) :=
  if zlen s <? n then mret s else fail (UB "text beyond the array").

Section cleaning.
(** What [popen] of a command with the mode "rb" lets the program read ([None] when it
    refuses), and what [system] of a command does. *)
Context (popen : list Z → fs → option (list Z)) (system : list Z → fs → fs).
Context (namepath nameformat : list Z) (keep : Z).

(** [isfile]: -1, 1 or 0. *)
Definition isfile (name : list Z) : M fs Z :=
  m ← get; mret (match m !! name with None => -1 | Some f => if regular f then 1 else 0 end).

(** One line of the listing: [inr] leaves the loop. *)
Definition old_body (now : Z) (out : list Z) : M fs (list Z + Z) :=
  let '(line, rest) := fgets 80 out in
  if bool_decide (line = []) then mret (inr 0) else
  if bool_decide (cstr line = []) then fail (UB "character before the array") else
  let filename := take (length (cstr line) - 1) (cstr line) in
  full ← sprintf 200 (namepath ++ 47 :: filename);
  r ← isfile full;
  if negb (r =? 1) then mret (inl rest) else
  b ← matchname filename nameformat;
  if negb b then mret (inl rest) else
  m ← get;
  match m !! full with
  | None => mret (inl rest)
  | Some f =>
      if keep * 3600 <? now - ctime f then
        cmd ← sprintf 200 (bytes "rm " ++ full);
        _ ← modify (system cmd);
        mret (inl rest)
      else mret (inr 0)
  end.

Definition deloldfile (now : Z) : M fs Z :=
  cmd ← sprintf 200 (bytes "ls -1rt " ++ namepath);
  m ← get;
  match popen cmd m with
  | None => mret (-1)
  | Some out => iter (Datatypes.S (length out)) (old_body now) out
  end.

(** The hour of the last call, before and after. *)
Definition timer (hour now : Z) (nowtime : tm) : M fs Z :=
  if negb (hour =? tm_hour nowtime) then _ ← deloldfile now; mret (tm_hour nowtime) else mret hour.

(** ** What the cleaning removes *)

Definition matches (n : list Z) : bool :=
  match matchname n nameformat () with Ok (b, _) => b | Fault _ => false end.
Definition in_dir (n : list Z) : list Z := namepath ++ 47 :: n.
(** The program takes a file for an old part. *)
Definition expired (now : Z) (n : list Z) (f : file) : bool :=
  regular f && matches n && (keep * 3600 <? now - ctime f).
End cleaning.

(** ** The state does not matter to [matchname] *)

Lemma match_body_state {S} filename nameformat x (s : S) :
  match_body filename nameformat x s =
  match match_body filename nameformat x () with Ok (r, _) => Ok (r, s) | Fault e => Fault e end.
Proof.
  destruct x as [i j]. unfold match_body. destruct (filename !! i), (nameformat !! j); try done.
  destruct (_ =? _); [done|]. destruct (negb _); [done|]. destruct (nameformat !! (j + 1)%nat) as [c|]; [|done].
  destruct (field_bound c) as [[w b]|].
  - destruct (scan_int _ _); [|done]. by destruct (_ <? _).
  - destruct (_ || _); [|done]. destruct (strchr _ _); [|done]. cbv zeta. destruct (negb _); [done|]. destruct (negb _); [done|].
    destruct (scan_int _ _); [|done]. by destruct (negb _).
Qed.

Lemma matchname_state {S} filename nameformat (s : S) :
  matchname filename nameformat s =
  match matchname filename nameformat () with Ok (r, _) => Ok (r, s) | Fault e => Fault e end.
Proof.
  unfold matchname. generalize (0%nat, 0%nat) as x. induction (Datatypes.S (length nameformat)) as [|n IH]; intros x; [done|].
  rewrite !iter_S. unfold mbind, M_bind. rewrite (match_body_state _ _ x s).
  destruct (match_body filename nameformat x ()) as [[[x'|b] []]|e]; done.
Qed.

Section cleaned.
Context (popen : list Z → fs → option (list Z)) (system : list Z → fs → fs).
Context (namepath : list Z) (items : list item) (keep : Z).
Context (Hitems : Forall item_fits items).

Lemma matches_run (n : list Z) (m : fs) : matchname n (render items) m = Ok (matches (render items) n, m).
Proof.
  rewrite matchname_state. unfold matches. destruct (matchname_total n items () Hitems) as [b E]. by rewrite E.
Qed.

(** The names of the listing are of files, are short, and have no bytes the listing cannot show. *)
Definition listable (n : list Z) : Prop := n ≠ [] ∧ zlen n < 79 ∧ 10 ∉ n ∧ no_nul n.
Definition listing (names : list (list Z)) : list Z := names ≫= λ n, n ++ [10].

(** The program stops at the first part that is not old. *)
Definition stops (now : Z) (m : fs) (n : list Z) : bool :=
  match m !! in_dir namepath n with
  | Some f => regular f && matches (render items) n && negb (keep * 3600 <? now - ctime f)
  | None => false
  end.
(** The names of the listing that it looks at before. *)
Fixpoint reached (now : Z) (m : fs) (names : list (list Z)) : list (list Z) :=
  match names with [] => [] | n :: ns => if stops now m n then [] else n :: reached now m ns end.

(** The files of the names it reaches that it takes for old parts are gone, the others are as
    they were. *)
Definition cleaned (now : Z) (names : list (list Z)) (m m' : fs) : Prop :=
  (∀ n, n ∈ names → m' !! in_dir namepath n =
    match m !! in_dir namepath n with
    | Some f => if expired (render items) keep now n f && bool_decide (n ∈ reached now m names) then None else Some f
    | None => None
    end) ∧
  ∀ p, (∀ n, n ∈ names → p ≠ in_dir namepath n) → m' !! p = m !! p.

(** The order of [ls -rt]: files that were modified earlier come first. *)
Definition by_mtime (m : fs) : list (list Z) → Prop :=
  StronglySorted (λ a b, ∀ f g, m !! in_dir namepath a = Some f → m !! in_dir namepath b = Some g → mtime f ≤ mtime g).

(** A word that the shell and [rm] take as it is: letters, digits and the characters "/",
    ".", "_" and "-", the last not at the start. *)
Definition shell_char (c : Z) : bool :=
  isdigit c || ((65 <=? c) && (c <=? 90)) || ((97 <=? c) && (c <=? 122)) || bool_decide (c ∈ [45; 46; 47; 95]).
Definition shell_word (s : list Z) : Prop := Forall (λ c, shell_char c = true) s ∧ head s ≠ Some 45.
Definition removable (n : list Z) : Prop := matches (render items) n = true → shell_word (in_dir namepath n).

Context (Hrm : ∀ n m, shell_word n → system (bytes "rm " ++ n) m = delete n m).
Context (Hpath : zlen namepath ≤ 100).

Lemma lc_sprintf_ok {S} k s (x : S) : zlen s < k → sprintf k s x = Ok (s, x).
Proof. intros H. unfold sprintf. by rewrite (proj2 (Z.ltb_lt _ _)). Qed.

Lemma in_dir_inj a b : in_dir namepath a = in_dir namepath b → a = b.
Proof. unfold in_dir. intros H%app_inv_head. by injection H. Qed.

(** One line of the listing. *)
Lemma old_line now n rest m : listable n → removable n →
  old_body system namepath (render items) keep now (n ++ 10 :: rest) m =
  match m !! in_dir namepath n with
  | Some f =>
      if regular f && matches (render items) n then
        if keep * 3600 <? now - ctime f then Ok (inl rest, delete (in_dir namepath n) m) else Ok (inr 0, m)
      else Ok (inl rest, m)
  | None => Ok (inl rest, m)
  end.
Proof.
  intros Hn Hw. pose proof Hn as (Hne & Hl & H10 & Hnul). unfold old_body. rewrite fgets_line by (done || lia).
  rewrite bool_decide_false by by destruct n. rewrite cstr_id.
  2:{ apply Forall_app. split; [done|by repeat constructor]. }
  rewrite bool_decide_false by by destruct n. rewrite length_app. simpl length.
  replace (length n + 1 - 1)%nat with (length n) by lia. rewrite take_app_length.
  assert (zlen (namepath ++ 47 :: n) < 190) as Hf by (rewrite zlen_app, zlen_cons; lia).
  rewrite (bind_ok _ _ _ _ _ (lc_sprintf_ok 200 (namepath ++ 47 :: n) m ltac:(lia))). fold (in_dir namepath n) in Hf |- *.
  unfold isfile, get. rewrite bind_assoc, (bind_ok (λ s, Ok (s, s)) _ m m m eq_refl), bind_ret.
  destruct (m !! in_dir namepath n) as [f|] eqn:Ef; [|done].
  destruct (regular f); [|done]. change (negb (1 =? 1)) with false. cbv iota.
  rewrite (bind_ok _ _ _ _ _ (matches_run n m)). unfold removable in Hw. destruct (matches (render items) n); [|done].
  cbn [negb andb]. cbv iota. rewrite (bind_ok (λ s, Ok (s, s)) _ m m m eq_refl), Ef.
  destruct (keep * 3600 <? now - ctime f); [|done].
  rewrite (bind_ok _ _ _ _ _ (lc_sprintf_ok 200 (bytes "rm " ++ in_dir namepath n) m ltac:(rewrite zlen_app; change (zlen (bytes "rm ")) with 3; lia))).
  rewrite bind_modify, Hrm by by apply Hw. done.
Qed.

Lemma reached_incl now m ns n : n ∈ reached now m ns → n ∈ ns.
Proof. induction ns as [|k ns IH]; [done|]. simpl. destruct (stops now m k); [by intros ?%elem_of_nil|]. set_solver. Qed.

Lemma reached_delete now m n ns : n ∉ ns → reached now (delete (in_dir namepath n) m) ns = reached now m ns.
Proof.
  induction ns as [|k ns IH]; [done|]. intros [Hne Hn]%not_elem_of_cons. simpl. rewrite IH by done.
  unfold stops. rewrite lookup_delete_ne; [done|]. by intros E%in_dir_inj.
Qed.

Lemma cleaned_keep now n ns m m' : (∀ f, m !! in_dir namepath n = Some f → expired (render items) keep now n f = false) →
  stops now m n = false → n ∉ ns → cleaned now ns m m' → cleaned now (n :: ns) m m'.
Proof.
  intros He Hs Hn [H1 H2]. split.
  - simpl. rewrite Hs. intros k [-> |Hk]%elem_of_cons.
    + rewrite H2.
      * destruct (m !! in_dir namepath n) eqn:E; [|done]. by rewrite He.
      * intros k Hk E%in_dir_inj. by subst.
    + rewrite H1 by done. destruct (m !! in_dir namepath k); [|done].
      assert (bool_decide (k ∈ n :: reached now m ns) = bool_decide (k ∈ reached now m ns)) as ->; [|done].
      apply bool_decide_ext. rewrite elem_of_cons. split; [|by right]. intros [->|?]; [by destruct Hn|done].
  - intros p Hp. apply H2. intros k Hk. apply Hp. by apply list_elem_of_further.
Qed.

Lemma cleaned_drop now n ns m m' f : m !! in_dir namepath n = Some f → expired (render items) keep now n f = true →
  stops now m n = false → n ∉ ns → cleaned now ns (delete (in_dir namepath n) m) m' → cleaned now (n :: ns) m m'.
Proof.
  intros Ef He Hs Hn [H1 H2]. split.
  - simpl. rewrite Hs. intros k [-> |Hk]%elem_of_cons.
    + rewrite H2, lookup_delete_eq, Ef, He, bool_decide_true; [done|left|]. intros k Hk E%in_dir_inj. by subst.
    + assert (k ≠ n) as Hne by (by intros ->).
      rewrite H1, lookup_delete_ne, reached_delete by (try done; intros E%in_dir_inj; by subst).
      destruct (m !! in_dir namepath k); [|done].
      assert (bool_decide (k ∈ n :: reached now m ns) = bool_decide (k ∈ reached now m ns)) as ->; [|done].
      apply bool_decide_ext. rewrite elem_of_cons. split; [|by right]. by intros [?|?].
  - intros p Hp. rewrite H2, lookup_delete_ne; [done| |].
    + intros <-. by apply (Hp n); [apply list_elem_of_here|].
    + intros k Hk. apply Hp. by apply list_elem_of_further.
Qed.

Lemma cleaned_stop now ns m : reached now m ns = [] → cleaned now ns m m.
Proof.
  intros H. split; [|done]. intros n Hn. destruct (m !! in_dir namepath n); [|done]. by rewrite H, andb_false_r.
Qed.

Lemma old_loop now ns m fuel : NoDup ns → Forall listable ns → Forall removable ns → (length ns < fuel)%nat →
  ∃ m', iter fuel (old_body system namepath (render items) keep now) (listing ns) m = Ok (0, m') ∧ cleaned now ns m m'.
Proof.
  revert m fuel. induction ns as [|n ns IH]; intros m [|fuel] Hnd Hls Hws Hfuel; simpl in Hfuel; try lia.
  { exists m. split; [done|by apply cleaned_stop]. }
  apply NoDup_cons in Hnd as [Hn Hnd]. apply Forall_cons in Hls as [Hl Hls]. apply Forall_cons in Hws as [Hw Hws].
  unfold listing. rewrite bind_cons, iter_S. fold (listing ns). rewrite <- app_assoc. change ([10] ++ listing ns) with (10 :: listing ns).
  unfold mbind at 1, M_bind. rewrite old_line by done.
  assert (stops now m n = match m !! in_dir namepath n with
    | Some f => regular f && matches (render items) n && negb (keep * 3600 <? now - ctime f) | None => false end) as Hst by done.
  destruct (m !! in_dir namepath n) as [f|] eqn:Ef.
  2:{ destruct (IH m fuel) as (m' & E & Hc); [done..|lia|]. exists m'. split; [done|]. apply cleaned_keep; [|done|done|done]. congruence. }
  destruct (regular f && matches (render items) n) eqn:Erm.
  2:{ destruct (IH m fuel) as (m' & E & Hc); [done..|lia|]. exists m'. split; [done|]. apply cleaned_keep; [|done|done|done].
      intros f' Hf'. rewrite Ef in Hf'. injection Hf' as <-. unfold expired. by rewrite Erm. }
  destruct (Z.ltb_spec (keep * 3600) (now - ctime f)) as [Hold|Hyoung].
  - destruct (IH (delete (in_dir namepath n) m) fuel) as (m' & E & Hc); [done..|lia|].
    exists m'. split; [done|]. eapply cleaned_drop; [exact Ef| |done|done|done]. unfold expired. rewrite Erm. by apply Z.ltb_lt.
  - exists m. split; [done|]. apply cleaned_stop. simpl. by rewrite Hst.
Qed.

(** A name that is not reached is behind a part that is not old. *)
Lemma reached_not now m ns n : n ∈ ns → n ∉ reached now m ns → NoDup ns → by_mtime m ns →
  ∃ k g, k ∈ ns ∧ m !! in_dir namepath k = Some g ∧ regular g && matches (render items) k = true ∧ now - ctime g ≤ keep * 3600 ∧
    ∀ f, m !! in_dir namepath n = Some f → mtime g ≤ mtime f.
Proof.
  induction ns as [|k ns IH]; [by intros ?%elem_of_nil|]. intros Hin Hr [Hk Hnd]%NoDup_cons [Hs Hle]%StronglySorted_inv.
  simpl in Hr. destruct (stops now m k) eqn:Hst.
  - unfold stops in Hst. destruct (m !! in_dir namepath k) as [g|] eqn:Eg; [|done].
    apply andb_true_iff in Hst as [Hp Hy]. apply negb_true_iff, Z.ltb_ge in Hy. exists k, g. split; [left|]. split_and!; try done.
    intros f Hf. apply elem_of_cons in Hin as [->|Hin]; [rewrite Eg in Hf; injection Hf as <-; lia|].
    rewrite Forall_forall in Hle. by apply (Hle n Hin).
  - apply not_elem_of_cons in Hr as [Hne Hr]. apply elem_of_cons in Hin as [->|Hin]; [done|].
    destruct (IH Hin Hr Hnd Hs) as (k' & g & Hk' & ?). exists k', g. split; [by right|done].
Qed.
End cleaned.

(** ** Properties *)

(** Characters that stand for themselves. *)
Definition plain (s : list Z) : Prop := Forall (λ c, c ≠ 0 ∧ c ≠ 37) s.

Lemma plain_items s sn : plain s → items_ok (Lit <$> s) sn.
Proof. induction 1 as [|c s Hc _ IH]; [done|]. by split. Qed.
Lemma plain_render s : render (Lit <$> s) = s.
Proof. unfold render. induction s as [|c s IH]; [done|]. by rewrite fmap_cons, bind_cons, IH. Qed.
Lemma plain_expand t s sn : expand t (Lit <$> s) sn = s.
Proof. induction s as [|c s IH]; [done|]. cbn. by rewrite IH. Qed.
Lemma plain_count s sn : foldl (λ n it, after_item it n) sn (Lit <$> s) = sn.
Proof. induction s as [|c s IH]; [done|]. exact IH. Qed.

Lemma item_ok_fits it items sn : item_ok it items sn → item_fits it.
Proof.
  destruct it as [c|c|ds]; simpl; [by intros [_ ?]| |by intros (? & ? & ? & _)].
  rewrite !elem_of_cons, elem_of_nil. intros H. destruct_or!; subst; done.
Qed.

(** What [getfilename] makes of a path and a format. *)
Lemma getfilename_expand t circle path items sn : tm_ok t → plain path → items_ok items sn →
  zlen (path ++ 47 :: expand t items sn) < 200 →
  getfilename t circle (path ++ 47 :: render items) sn =
    let n := foldl (λ n it, after_item it n) sn items in
    Ok (path ++ 47 :: expand t items sn, if (0 <? circle) && (n =? circle) then 0 else n).
Proof.
  intros Ht Hp Hok Hl. unfold getfilename.
  pose proof (name_items t (Lit <$> (path ++ [47])) (render items) [] sn Ht) as H1. rewrite plain_render, plain_expand, plain_count in H1.
  assert (plain (path ++ [47])) as Hp' by by apply Forall_app; split; [|repeat constructor].
  rewrite zlen_app, zlen_cons in Hl. pose proof (zlen_nonneg (expand t items sn)).
  pose proof (name_items t items [] (path ++ [47]) sn Ht Hok) as H2. rewrite !app_nil_r, <- app_assoc in H2. cbn [app] in H2.
  rewrite <- app_assoc in H1. cbn [app] in H1. rewrite (bind_ok _ _ sn (path ++ 47 :: expand t items sn) (foldl (λ n it, after_item it n) sn items)).
  2:{ rewrite H1, H2; [done|..]; rewrite ?zlen_app, ?zlen_cons; [change (zlen []) with 0; lia|by apply plain_items|change (zlen []) with 0; lia]. }
  unfold get. rewrite (bind_ok (λ s, Ok (s, s)) _ _ _ _ eq_refl).
  destruct ((0 <? circle) && (_ =? circle)); cbn [when]; [rewrite bind_modify|rewrite bind_ret]; done.
Qed.

(** C30: The names the splitter makes are the ones its cleaner knows: a format of plain
    characters, time fields and numbers that do not run into digits and do not outgrow their
    width is expanded, for any time and counter, within the array, and [matchname] accepts the
    result for the same format.  It accepts or refuses every other name without a fault. *)
Theorem lcsplit_names_match t circle path items sn : tm_ok t → plain path → items_ok items sn →
  zlen (path ++ 47 :: expand t items sn) < 200 →
  (∃ sn', getfilename t circle (path ++ 47 :: render items) sn = Ok (path ++ 47 :: expand t items sn, sn')) ∧
  matchname (expand t items sn) (render items) () = Ok (true, ()) ∧
  ∀ name, ∃ b, matchname name (render items) () = Ok (b, ()).
Proof.
  intros Ht Hp Hok Hl. rewrite (getfilename_expand _ _ _ _ _ Ht Hp Hok Hl). split; [by eexists|].
  split; [by apply matchname_expand|]. intros name. apply matchname_total.
  revert sn Hok Hl. induction items as [|it items IH]; intros sn Hok Hl; [done|]. destruct Hok as [H1 H2].
  constructor; [by eapply item_ok_fits|]. apply (IH _ H2).
  cbn [expand] in Hl. rewrite !zlen_app, !zlen_cons, zlen_app in *. pose proof (zlen_nonneg (expand_item t it sn)). lia.
Qed.

(** part%Y%m%d_%03N in the directory /d. *)
Definition demo_items : list item :=
  (Lit <$> bytes "part") ++ [Conv 89; Conv 109; Conv 100; Lit 95; Num (bytes "03")].
Definition demo_tm : tm := Tm 102 2 23 7 5 9.

#[export] Instance plain_dec s : Decision (plain s).
Proof. unfold plain. apply _. Defined.
#[export] Instance no_digit_next_dec items : Decision (no_digit_next items).
Proof. destruct items as [|[]]; simpl; apply _. Defined.
#[export] Instance item_ok_dec it items sn : Decision (item_ok it items sn).
Proof. destruct it; unfold item_ok; apply _. Defined.
#[export] Instance items_ok_dec items sn : Decision (items_ok items sn).
Proof. revert sn. induction items as [|it items IH]; intros sn; simpl; apply _. Defined.

Lemma lcsplit_names_match_witness :
  getfilename demo_tm 0 (bytes "/d/part%Y%m%d_%03N") 6 = Ok (bytes "/d/part20020323_007", 7) ∧
  matchname (bytes "part20020323_007") (bytes "part%Y%m%d_%03N") () = Ok (true, ()).
Proof.
  split; [by vm_compute|].
  refine (proj1 (proj2 (lcsplit_names_match demo_tm 0 (bytes "/d") demo_items 6 _ _ _ _))).
  - by vm_compute.
  - apply (bool_decide_unpack _). by vm_compute.
  - apply (bool_decide_unpack _). by vm_compute.
  - by vm_compute.
Defined.

(** A number that outgrows its width is not known any more. *)
Example lcsplit_outgrown_name :
  getfilename demo_tm 0 (bytes "/d/part_%03N") 999 = Ok (bytes "/d/part_1000", 1000) ∧
  matchname (bytes "part_1000") (bytes "part_%03N") () = Ok (false, ()).
Proof. by vm_compute. Qed.

(** C31: Of a listing by the times of modification the cleaner deletes exactly the regular
    files whose names match the format and whose status changed more than [keep] hours ago, up
    to the first matching file whose status changed later: there it stops.  So an old part is
    spared exactly when such a file was modified no later, and none is when status changes and
    modifications are in the same order.  The names must be words for the shell, since [rm] is
    a command line.  It runs once an hour at most. *)
Theorem deloldfile_cleans popen system namepath items keep now names m :
  Forall item_fits items → zlen namepath ≤ 100 →
  (∀ n k, shell_word n → system (bytes "rm " ++ n) k = delete n k) →
  popen (bytes "ls -1rt " ++ namepath) m = Some (listing names) → by_mtime namepath m names →
  NoDup names → Forall listable names → Forall (removable namepath items) names →
  let part n f := regular f && matches (render items) n in
  let old f := keep * 3600 <? now - ctime f in
  ∃ m', deloldfile popen system namepath (render items) keep now m = Ok (0, m') ∧
    (∀ n f, n ∈ names → m !! in_dir namepath n = Some f →
      m' !! in_dir namepath n =
        if part n f && old f && bool_decide (n ∈ reached namepath items keep now m names) then None else Some f) ∧
    (∀ p, m !! p = None ∨ (∀ n, n ∈ names → p ≠ in_dir namepath n) → m' !! p = m !! p) ∧
    (∀ n f, n ∈ names → m !! in_dir namepath n = Some f → part n f = true → old f = true → m' !! in_dir namepath n = Some f →
      ∃ k g, k ∈ names ∧ m !! in_dir namepath k = Some g ∧ part k g = true ∧ old g = false ∧ mtime g ≤ mtime f) ∧
    ((∀ a b f g, m !! a = Some f → m !! b = Some g → mtime f ≤ mtime g → ctime f ≤ ctime g) →
      ∀ n f, n ∈ names → m !! in_dir namepath n = Some f → part n f = true → old f = true → m' !! in_dir namepath n = None) ∧
    ∀ t, timer popen system namepath (render items) keep (tm_hour t) now t m = Ok (tm_hour t, m).
Proof.
  intros Hit Hpath Hrm Hls Hmt Hnd Hl Hw part old.
  destruct (old_loop system namepath items keep Hit Hrm Hpath now names m (Datatypes.S (length (listing names)))) as (m' & E & H1 & H2);
    [done..| |].
  { clear. unfold listing. induction names as [|n ns IH]; [simpl; lia|]. rewrite bind_cons, !length_app. simpl in *. lia. }
  assert (∀ n f, n ∈ names → m !! in_dir namepath n = Some f → part n f = true → old f = true → m' !! in_dir namepath n = Some f →
      ∃ k g, k ∈ names ∧ m !! in_dir namepath k = Some g ∧ part k g = true ∧ old g = false ∧ mtime g ≤ mtime f) as Hspared.
  { intros n f Hn Hf Hp Ho Hk. rewrite H1, Hf in Hk by done. unfold part, old in Hp, Ho. unfold expired in Hk. rewrite Hp, Ho in Hk.
    case_bool_decide as Hr; [done|].
    destruct (reached_not namepath items keep now m names n Hn Hr Hnd Hmt) as (k & g & Hk' & Hg & Hpk & Hy & Hle).
    exists k, g. split_and!; [done..| |by apply Hle]. by apply Z.ltb_ge. }
  exists m'. split_and!; [| | |done| |].
  - unfold deloldfile. rewrite (bind_ok _ _ _ _ _ (lc_sprintf_ok 200 (bytes "ls -1rt " ++ namepath) m
      ltac:(rewrite zlen_app; change (zlen (bytes "ls -1rt ")) with 8; lia))).
    unfold get. rewrite (bind_ok (λ s, Ok (s, s)) _ m m m eq_refl), Hls. exact E.
  - intros n f Hn Hf. rewrite H1, Hf by done. done.
  - intros p [Hp|Hp]; [|by apply H2].
    destruct (decide (Exists (λ n, p = in_dir namepath n) names)) as [He|He].
    + apply Exists_exists in He as (n & Hn & ->). by rewrite H1, Hp.
    + apply H2. intros n Hn ->. apply He, Exists_exists. by exists n.
  - intros Hco n f Hn Hf Hp Ho. destruct (m' !! in_dir namepath n) as [f'|] eqn:Ek; [exfalso|done].
    assert (f' = f) as ->.
    { rewrite H1, Hf in Ek by done. by destruct (_ && _) in Ek; simplify_eq. }
    destruct (Hspared n f Hn Hf Hp Ho Ek) as (k & g & _ & Hg & _ & Hy & Hle).
    specialize (Hco _ _ _ _ Hg Hf Hle). unfold old in Ho, Hy. btests. lia.
  - intros t. unfold timer. by rewrite Z.eqb_refl.
Qed.

(** A directory with an old part, a new part and another file. *)
Definition demo_system (cmd : list Z) (m : fs) : fs :=
  if bool_decide (take 3 cmd = bytes "rm ") then delete (drop 3 cmd) m else m.
Definition demo_names : list (list Z) := [bytes "notes"; bytes "part_001"; bytes "part_002"].
Definition demo_fs : fs :=
  <[bytes "/d/notes" := File [] 0 0 true]> (<[bytes "/d/part_001" := File [] 100 100 true]> (<[bytes "/d/part_002" := File [] 9000 9000 true]> ∅)).
Definition demo_format : list item := (Lit <$> bytes "part_") ++ [Num (bytes "03")].

#[export] Instance item_fits_dec it : Decision (item_fits it).
Proof. destruct it; unfold item_fits, digits; apply _. Defined.
#[export] Instance shell_word_dec s : Decision (shell_word s).
Proof. unfold shell_word. apply _. Defined.
#[export] Instance removable_dec p it n : Decision (removable p it n).
Proof. unfold removable. apply _. Defined.
#[export] Instance listable_dec n : Decision (listable n).
Proof. unfold listable, no_nul. apply _. Defined.

Lemma deloldfile_cleans_witness :
  ∃ m', deloldfile (λ _ _, Some (listing demo_names)) demo_system (bytes "/d") (render demo_format) 1 10000 demo_fs = Ok (0, m') ∧
    m' !! in_dir (bytes "/d") (bytes "part_001") = None ∧
    m' !! in_dir (bytes "/d") (bytes "part_002") = Some (File [] 9000 9000 true).
Proof.
  destruct (deloldfile_cleans (λ _ _, Some (listing demo_names)) demo_system (bytes "/d") demo_format 1 10000 demo_names demo_fs)
    as (m' & E & H & _).
  - apply (bool_decide_unpack _). by vm_compute.
  - by vm_compute.
  - intros n k _. unfold demo_system. by rewrite bool_decide_true by done.
  - done.
  - repeat constructor; intros f g Hf Hg; vm_compute in Hf, Hg; injection Hf as <-; injection Hg as <-; simpl; lia.
  - apply (bool_decide_unpack _). by vm_compute.
  - apply (bool_decide_unpack _). by vm_compute.
  - apply (bool_decide_unpack _). by vm_compute.
  - exists m'. split; [exact E|]. split; [rewrite (H _ (File [] 100 100 true))|rewrite (H _ (File [] 9000 9000 true))];
      try (by vm_compute); apply (bool_decide_unpack _); by vm_compute.
Defined.

(** The listing is by modification, but the status change is tested: when the first file
    was renamed recently the program stops there, and the second, which is as old as a file can
    be, stays. *)
Example deloldfile_stops_early :
  let m : fs := <[bytes "/d/part_001" := File [] 100 9000 true]> (<[bytes "/d/part_002" := File [] 200 200 true]> ∅) in
  deloldfile (λ _ _, Some (listing [bytes "part_001"; bytes "part_002"])) demo_system (bytes "/d") (render demo_format) 1 10000 m = Ok (0, m).
Proof. by vm_compute. Qed.

(** A shell that splits the command into words, and an [rm] that removes each. *)
Fixpoint words (acc : list Z) (s : list Z) : list (list Z) :=
  match s with
  | [] => if bool_decide (acc = []) then [] else [acc]
  | c :: s' => if c =? 32 then (if bool_decide (acc = []) then [] else [acc]) ++ words [] s' else words (acc ++ [c]) s'
  end.
Definition shell_rm (cmd : list Z) (m : fs) : fs := foldr delete m (drop 1 (words [] cmd)).

(** The names of a format such as [%3N] have blanks: [rm] removes what comes before the
    blanks, and the part stays. *)
Example deloldfile_blank_name :
  let old := File [] 100 100 true in
  let m : fs := <[bytes "/d/part_  1" := old]> (<[bytes "/d/part_" := old]> ∅) in
  getfilename demo_tm 0 (bytes "/d/part_%3N") 0 = Ok (bytes "/d/part_  1", 1) ∧
  deloldfile (λ _ _, Some (listing [bytes "part_  1"])) shell_rm (bytes "/d") (bytes "part_%3N") 1 10000 m =
    Ok (0, <[bytes "/d/part_  1" := old]> ∅).
Proof. by vm_compute. Qed.

(** ** Different numbers give different names *)

Lemma fmt_int_inj ds a b : digits ds → digits_val 0 ds < 50 → 0 < a < 2 ^ 31 → 0 < b < 2 ^ 31 →
  digits_val 0 ds = 0 ∨ a < 10 ^ digits_val 0 ds → digits_val 0 ds = 0 ∨ b < 10 ^ digits_val 0 ds →
  fmt_int ds a = fmt_int ds b → a = b.
Proof.
  intros Hds Hw Ha Hb H1 H2 E. destruct (num_ok ds a [] Hds Hw Ha H1) as (Ea & _); [by right|].
  destruct (num_ok ds b [] Hds Hw Hb H2) as (Eb & _); [by right|]. rewrite E in Ea. congruence.
Qed.

Definition is_num (it : item) : bool := match it with Num _ => true | _ => false end.

Lemma expand_width t1 t2 items sn1 sn2 : tm_ok t1 → tm_ok t2 → items_ok items sn1 → forallb (negb ∘ is_num) items = true →
  length (expand t1 items sn1) = length (expand t2 items sn2).
Proof.
  intros H1 H2. revert sn1 sn2. induction items as [|it items IH]; intros sn1 sn2 Hok Hn; [done|].
  simpl in Hn. apply andb_true_iff in Hn as [Hn1 Hn2]. destruct Hok as [Ho1 Ho2]. cbn [expand]. rewrite !length_app.
  rewrite (IH (after_item it sn1) (after_item it sn2)) by done. f_equal. destruct it as [c|c|]; [done| |done].
  destruct (field_ok c t1 H1 Ho1) as (s1 & w1 & b1 & E1 & B1 & _ & L1 & _).
  destruct (field_ok c t2 H2 Ho1) as (s2 & w2 & b2 & E2 & B2 & _ & L2 & _). rewrite B1 in B2. injection B2 as <- <-.
  simpl. rewrite E1, E2. simpl. unfold zlen in *. lia.
Qed.

Lemma items_ok_app a b sn : items_ok (a ++ b) sn → forallb (negb ∘ is_num) a = true → items_ok b sn.
Proof.
  revert sn. induction a as [|it a IH]; intros sn Hok Hn; [done|]. simpl in Hn. apply andb_true_iff in Hn as [Hn1 Hn2].
  destruct Hok as [_ Hok]. apply IH; [|done]. by destruct it.
Qed.
Lemma expand_app t a b sn : forallb (negb ∘ is_num) a = true → expand t (a ++ b) sn = expand t a sn ++ expand t b sn.
Proof.
  revert sn. induction a as [|it a IH]; intros sn Hn; [done|]. simpl in Hn. apply andb_true_iff in Hn as [Hn1 Hn2].
  cbn [app expand]. rewrite IH by done. rewrite <- app_assoc. by destruct it.
Qed.

(** One number makes the names of different counters different, whatever the times. *)
Lemma expand_inj t1 t2 pre ds post sn1 sn2 : tm_ok t1 → tm_ok t2 →
  forallb (negb ∘ is_num) pre = true → forallb (negb ∘ is_num) post = true →
  items_ok (pre ++ Num ds :: post) sn1 → items_ok (pre ++ Num ds :: post) sn2 →
  expand t1 (pre ++ Num ds :: post) sn1 = expand t2 (pre ++ Num ds :: post) sn2 → sn1 = sn2.
Proof.
  intros H1 H2 Hpre Hpost Ho1 Ho2 E. rewrite !expand_app in E by done.
  assert (∀ sn, items_ok (pre ++ Num ds :: post) sn → items_ok pre sn) as Hp.
  { clear -Hpre. induction pre as [|it pre IH]; intros sn H; [done|]. simpl in Hpre. apply andb_true_iff in Hpre as [Hn1 Hn2].
    destruct H as [Ha Hb]. split; [by destruct it|]. by apply IH. }
  apply app_inj_1 in E as [_ E]; [|by apply expand_width; auto]. cbn [expand] in E.
  apply items_ok_app in Ho1 as [(Hds & _ & Hw & Hs1 & Hl1 & _) Ho1]; [|done].
  apply items_ok_app in Ho2 as [(_ & _ & _ & Hs2 & Hl2 & _) Ho2]; [|done].
  apply app_inj_2 in E as [E _]; [|by apply expand_width].
  cbn [expand_item] in E. apply fmt_int_inj in E; [lia|done|done|lia|lia|done|done].
Qed.
