(* ===== verification/Lcsplit.v ===== *)
(** The file splitter [boss/bude/syscomp/src/dta/src/lcsplit.c]: its input stream, which is
    read without blocking, the numbered output files, and the splitting by size, by lines and
    by the hour. *)
From S2P Require Import Prelude CLib LcName.

(** ** The streams *)

(** An input stream: the bytes to come; how many of them the next reads find (a read that
    finds fewer than it asks for fails with [EAGAIN], later reads find everything); and the
    end-of-file indicator. *)
Record stream := Stream { rest : list Z; cuts : list nat; at_eof : bool }.

(** How many bytes a read of at most [n] gets, and the reads to come. *)
Definition found (n : nat) (st : stream) : nat := match cuts st with [] => n | k :: _ => Nat.min n k end.

Definition stream_read (n : nat) (st : stream) : list Z * stream :=
  let d := take (found n st) (rest st) in
  (d, Stream (drop (found n st) (rest st)) (tail (cuts st))
        (at_eof st || (bool_decide (cuts st = []) && (length d <? n)%nat))).

(** [fgets] of at most [n] - 1 bytes; an empty list is [NULL]. *)
Definition stream_gets (n : nat) (st : stream) : list Z * stream :=
  let '(d, r) := fgets (Z.of_nat (S (found (pred n) st))) (rest st) in
  (d, Stream r (tail (cuts st))
        (at_eof st || (bool_decide (cuts st = []) && (length d <? pred n)%nat && negb (bool_decide (last d = Some 10))))).

(** The state: the input, the disk, the files written in this run in order with what was
    written to them (the last is [fout]), the counter of [getfilename], and how often the
    clock was read. *)
Record lc := Lc { fin : stream; disk : fs; outs : list (list Z * list Z); sn : Z; ticks : nat }.
Definition set_fin v s := Lc v (disk s) (outs s) (sn s) (ticks s).
Definition set_disk v s := Lc (fin s) v (outs s) (sn s) (ticks s).
Definition set_outs v s := Lc (fin s) (disk s) v (sn s) (ticks s).
Definition set_sn v s := Lc (fin s) (disk s) (outs s) v (ticks s).
Definition tick s := Lc (fin s) (disk s) (outs s) (sn s) (S (ticks s)).

Abbreviation lcM := (M lc).

Definition feof : lcM bool := gets (λ s, at_eof (fin s)).
Definition fread (n : Z) : lcM (list Z) := λ s, let '(d, st) := stream_read (Z.to_nat n) (fin s) in Ok (d, set_fin st s).
Definition fgets_in (n : nat) : lcM (list Z) := λ s, let '(d, st) := stream_gets n (fin s) in Ok (d, set_fin st s).

(** Enough turns for a loop that reads to the end. *)
Definition input_fuel (s : lc) : nat := S (S (length (rest (fin s)) + length (cuts (fin s)))).

(** ** Options *)

Record options := Options { o_size : Z; o_line : Z; o_hour : Z; o_keep : Z; o_circle : Z }.

Section lcsplit.
(** The clock at each reading, the local time, which files can be opened for writing, whether
    the source can be opened, and the commands the cleaner runs. *)
Context (clock : nat → Z) (localtime : Z → tm) (can_write : list Z → bool) (can_read : bool).
Context (popen : list Z → fs → option (list Z)) (system : list Z → fs → fs).

(** Writing to [fout]; the file has the time of the clock. *)
Definition on_last (d : list Z) (l : list (list Z * list Z)) : list (list Z * list Z) :=
  match last l with Some (n, c) => removelast l ++ [(n, c ++ d)] | None => l end.
Definition grown (d : list Z) (now : Z) (f : file) : file := File (content f ++ d) now now (regular f).
Definition fwrite_out (d : list Z) : lcM () :=
  l ← gets outs;
  match last l with
  | None => fail (UB "write to a file that did not open")
  | Some (n, _) =>
      _ ← modify (λ s, set_disk (alter (grown d (clock (ticks s))) n (disk s)) s);
      modify (λ s, set_outs (on_last d (outs s)) s)
  end.

(** The options [getopt] found, by their letters. *)
Fixpoint getopts (opts : list (Z * list Z)) (o : options) : lcM options :=
  match opts with
  | [] => mret o
  | (c, optarg) :: opts' =>
      if c =? 115 then getopts opts' (Options (atol optarg) (o_line o) (o_hour o) (o_keep o) (o_circle o)) else
      if c =? 108 then getopts opts' (Options (o_size o) (atol optarg) (o_hour o) (o_keep o) (o_circle o)) else
      if c =? 104 then getopts opts' (Options (o_size o) (o_line o) (atol optarg) (o_keep o) (o_circle o)) else
      if c =? 107 then getopts opts' (Options (o_size o) (o_line o) (o_hour o) (atol optarg) (o_circle o)) else
      if c =? 99 then getopts opts' (Options (o_size o) (o_line o) (o_hour o) (o_keep o) (atol optarg)) else
      if c =? 63 then fail (Quit "usage") else getopts opts' o
  end.

Definition time : lcM Z := n ← gets ticks; _ ← modify tick; mret (clock n).

(** [getfilename] with the time it asks for, and [fopen] of the name for writing. *)
Definition next_name (circle : Z) (desfilename : list Z) : lcM (list Z) :=
  now ← time;
  (λ s, match getfilename (localtime now) circle desfilename (sn s) with
        | Ok (name, sn') => Ok (name, set_sn sn' s)
        | Fault f => Fault f
        end) : lcM (list Z).
Definition fopen_wb (name : list Z) : lcM () :=
  if can_write name then
    modify (λ s, set_outs (outs s ++ [(name, [])]) (set_disk (<[name := File [] (clock (ticks s)) (clock (ticks s)) true]> (disk s)) s))
  else fail (UB "file that did not open").

(** [fclose(fout)], a new name, and [fopen]. *)
Definition next_file (circle : Z) (desfilename : list Z) : lcM () :=
  name ← next_name circle desfilename; fopen_wb name.

(** ** The three loops *)

Section loops.
Context (circle : Z) (desfilename : list Z).

(** One line, or the end of the inner loop with the number of lines. *)
Definition line_body (line lines : Z) : lcM (Z + Z) :=
  str ← fgets_in 500;
  if bool_decide (str = []) then mret (inr lines) else
  lines ← (if lines =? line then _ ← next_file circle desfilename; mret 0 else mret lines);
  _ ← fwrite_out (cstr str);
  mret (inl (lines + 1)).
Definition line_outer (line lines : Z) : lcM (Z + ()) :=
  e ← feof;
  if (e : bool) then mret (inr ()) else
  fuel ← gets input_fuel;
  lines ← iter fuel (line_body line) lines;
  e ← feof;
  if (e : bool) then mret (inr ()) else mret (inl lines).

Definition size_body (size sizes : Z) : lcM (Z + ()) :=
  e ← feof;
  if (e : bool) then mret (inr ()) else
  d ← fread (if sizes =? size then if 500 <=? size then 500 else size
             else if 500 <=? size - sizes then 500 else size - sizes);
  if bool_decide (d = []) then
    e ← feof;
    if (e : bool) then mret (inr ()) else mret (inl sizes)
  else
    sizes ← (if sizes =? size then _ ← next_file circle desfilename; mret 0 else mret sizes);
    _ ← fwrite_out d;
    mret (inl (sizes + zlen d)).

Definition hour_body (hour hours : Z) : lcM (Z + ()) :=
  e ← feof;
  if (e : bool) then mret (inr ()) else
  d ← fread 500;
  if bool_decide (d = []) then
    e ← feof;
    if (e : bool) then mret (inr ()) else mret (inl hours)
  else
    now ← time;
    let h := tm_hour (localtime now) in
    hours ← (if negb (h =? hours) && (Z.rem h hour =? 0) then _ ← next_file circle desfilename; mret h else mret hours);
    _ ← fwrite_out d;
    mret (inl hours).
End loops.

(** ** [main] *)

(** The place of the last slash. *)
Fixpoint split_path (s : list Z) : option (list Z * list Z) :=
  match s with
  | [] => None
  | c :: s' =>
      match split_path s' with
      | Some (p, f) => Some (c :: p, f)
      | None => if c =? 47 then Some ([], s') else None
      end
  end.

(** [timer(0)] at the start; its later runs on [SIGALRM] are not part of the model. *)
Definition first_timer (namepath nameformat : list Z) (keep : Z) : lcM () :=
  now ← time;
  (λ s, match timer popen system namepath nameformat keep (-1) now (localtime now) (disk s) with
        | Ok (_, d) => Ok ((), set_disk d s)
        | Fault f => Fault f
        end) : lcM ().

Definition main (opts : list (Z * list Z)) (args : list (list Z)) : lcM Z :=
  o ← getopts opts (Options 0 0 0 0 0);
  match args with
  | [] => fail (Quit "usage")
  | [_] => fail (UB "strcpy from a null pointer")
  | src :: des :: _ =>
      src ← strcpy 100 src;
      des ← strcpy 100 des;
      let '(namepath, nameformat) := default ([], des) (split_path des) in
      _ ← when (0 <? o_keep o) (first_timer namepath nameformat (o_keep o));
      name ← next_name (o_circle o) des;
      if negb (bool_decide (src = [45])) && negb can_read then fail (Quit "open error") else
      _ ← fopen_wb name;
      fuel ← gets input_fuel;
      _ ← (if 0 <? o_line o then iter fuel (line_outer (o_circle o) des (o_line o)) 0
           else if 0 <? o_size o then iter fuel (size_body (o_circle o) des (o_size o)) 0
           else if 0 <? o_hour o then
             now ← time;
             iter fuel (hour_body (o_circle o) des (o_hour o)) (tm_hour (localtime now))
           else mret ());
      mret 0
  end.
End lcsplit.

(** ** Reference *)

(** A list cut after every [n] elements; the empty list is one empty part. *)
Fixpoint chunks_upto {A} (fuel n : nat) (l : list A) : list (list A) :=
  match fuel with
  | O => [l]
  | S fuel => if (length l <=? n)%nat then [l] else take n l :: chunks_upto fuel n (drop n l)
  end.
Definition chunks {A} (n : nat) (l : list A) : list (list A) := chunks_upto (length l) n l.

(** The lines of a text as [fgets] finds them: at most 499 bytes. *)
Fixpoint pieces_upto (fuel : nat) (s : list Z) : list (list Z) :=
  match fuel with
  | O => []
  | S fuel => let '(l, r) := fgets 500 s in if bool_decide (l = []) then [] else l :: pieces_upto fuel r
  end.
Definition pieces (s : list Z) : list (list Z) := pieces_upto (length s) s.

Lemma chunks_enough {A} n f1 f2 (l : list A) : (0 < n)%nat → (length l ≤ f1)%nat → (length l ≤ f2)%nat →
  chunks_upto f1 n l = chunks_upto f2 n l.
Proof.
  intros Hn. revert f2 l. induction f1 as [|f1 IH]; intros [|f2] l H1 H2; [done| | |].
  1,2: cbn; by rewrite (proj2 (Nat.leb_le _ _)) by lia.
  cbn [chunks_upto]. destruct (Nat.leb_spec (length l) n); [done|]. f_equal. apply IH; rewrite length_drop; lia.
Qed.

Lemma chunks_short {A} n (l : list A) : (length l ≤ n)%nat → chunks n l = [l].
Proof. unfold chunks. intros H. destruct (length l) eqn:E; [done|]. cbn. by rewrite E, (proj2 (Nat.leb_le _ _)). Qed.

Lemma chunks_full {A} n (c l : list A) : (0 < n)%nat → length c = n → l ≠ [] → chunks n (c ++ l) = c :: chunks n l.
Proof.
  intros Hn Hc Hl. assert (0 < length l)%nat by (destruct l; [done|simpl; lia]).
  unfold chunks. rewrite length_app. destruct (length c + length l)%nat as [|m] eqn:E; [lia|]. cbn [chunks_upto].
  rewrite length_app, E, (proj2 (Nat.leb_gt _ _)) by lia. subst n. rewrite take_app_length, drop_app_length.
  f_equal. apply chunks_enough; lia.
Qed.

Lemma chunks_pos {A} n (l : list A) : (0 < length (chunks n l))%nat.
Proof. unfold chunks. destruct (length l) as [|m]; [simpl; lia|]. cbn. destruct (_ <=? _)%nat; simpl; lia. Qed.

Lemma chunks_join {A} n (l : list A) : concat (chunks n l) = l.
Proof.
  unfold chunks. generalize (length l) at 1 as f. intros f. revert l. induction f as [|f IH]; intros l; cbn; [apply app_nil_r|].
  destruct (_ <=? _)%nat; cbn; [apply app_nil_r|]. by rewrite IH, take_drop.
Qed.

(** ** Reading *)

(** Work left in a stream, and the reads until its end is seen, at most. *)
Definition left_in (st : stream) : nat := (length (rest st) + length (cuts st))%nat.
Definition turns (st : stream) : nat := (left_in st + (if at_eof st then 0 else 1))%nat.

(** The end of file is only seen at the end. *)
Definition eof_ok (st : stream) : Prop := at_eof st = true → rest st = [].

(** What a way of reading gets until the end of the file is seen, without the reads that find
    nothing. *)
Fixpoint reads (get : stream → list Z * stream) (fuel : nat) (st : stream) : list (list Z) :=
  match fuel with
  | O => []
  | S fuel =>
      if at_eof st then [] else
      let '(d, st') := get st in (if bool_decide (d = []) then [] else [d]) ++ reads get fuel st'
  end.
Definition reads_of (get : stream → list Z * stream) (st : stream) : list (list Z) := reads get (turns st) st.

(** The strings of [fgets], and the blocks of [fread]. *)
Definition fragments : stream → list (list Z) := reads_of (stream_gets 500).
Definition blocks : stream → list (list Z) := reads_of (stream_read 500).

Definition reader (get : stream → list Z * stream) : Prop := ∀ st, eof_ok st →
  rest st = (get st).1 ++ rest (get st).2 ∧ eof_ok (get st).2 ∧ (at_eof st = true → at_eof (get st).2 = true) ∧
  (left_in (get st).2 ≤ left_in st)%nat ∧
  ((get st).1 = [] → at_eof (get st).2 = true ∨ (left_in (get st).2 < left_in st)%nat) ∧
  ((get st).1 ≠ [] → (left_in (get st).2 < left_in st)%nat).

Lemma fgets_split n s d r : fgets n s = (d, r) → s = d ++ r.
Proof.
  unfold fgets. generalize (Z.to_nat (n - 1)) as k. intros k. revert s d r. induction k as [|k IH]; intros s d r; [by intros [= <- <-]|].
  destruct s as [|c s]; [by intros [= <- <-]|]. destruct (c =? 10); [by intros [= <- <-]|].
  match goal with |- context [let '(_, _) := ?x in _] => destruct x as [l r'] eqn:E end. intros [= <- <-].
  simpl. f_equal. by apply IH.
Qed.

Lemma fgets_short n s d r : fgets n s = (d, r) → (length d < Z.to_nat (n - 1))%nat → last d ≠ Some 10 → r = [].
Proof.
  unfold fgets. generalize (Z.to_nat (n - 1)) as k. intros k. revert s d r. induction k as [|k IH]; intros s d r; [lia|].
  destruct s as [|c s]; [by intros [= _ <-]|]. destruct (Z.eqb_spec c 10) as [->|]; [by intros [= <- _]|].
  match goal with |- context [let '(_, _) := ?x in _] => destruct x as [l r'] eqn:E end. intros [= <- <-] Hl Hlast.
  simpl in Hl. apply (IH s l r' E); [lia|]. intros H. apply Hlast. by destruct l.
Qed.

(** A string of [fgets] ends at the first newline, at the latest after [n] - 1 bytes. *)
Lemma fgets_piece n s d r : fgets n s = (d, r) → (length d ≤ Z.to_nat (n - 1))%nat ∧ 10 ∉ removelast d.
Proof.
  unfold fgets. generalize (Z.to_nat (n - 1)) as k. intros k. revert s d r. induction k as [|k IH]; intros s d r.
  { intros [= <- <-]. split; [simpl; lia|apply not_elem_of_nil]. }
  destruct s as [|c s]; [intros [= <- <-]; split; [simpl; lia|apply not_elem_of_nil]|].
  destruct (Z.eqb_spec c 10) as [->|Hc]; [intros [= <- _]; split; [simpl; lia|apply not_elem_of_nil]|].
  match goal with |- context [let '(_, _) := ?x in _] => destruct x as [l r'] eqn:E end. intros [= <- <-].
  destruct (IH s l r' E) as [Hl Hn]. split; [simpl; lia|]. destruct l as [|x l]; [apply not_elem_of_nil|].
  change (removelast (c :: x :: l)) with (c :: removelast (x :: l)). by apply not_elem_of_cons.
Qed.

Lemma stream_read_reader n : (0 < n)%nat → reader (stream_read n).
Proof.
  intros Hn st He. unfold stream_read, left_in, eof_ok, found. simpl.
  assert (length (tail (cuts st)) ≤ length (cuts st))%nat by (destruct (cuts st); simpl; lia).
  split; [by rewrite take_drop|]. split_and!.
  - destruct (at_eof st) eqn:Ee; simpl; [by rewrite He, drop_nil|]. destruct (cuts st) as [|k ks]; simpl; [|done].
    rewrite length_take. intros Hlt%Nat.ltb_lt. apply drop_ge. lia.
  - by intros ->.
  - rewrite length_drop. lia.
  - intros Hd. destruct (cuts st) as [|k ks]; simpl; [|right; rewrite length_drop; lia].
    left. rewrite Hd. simpl. rewrite (proj2 (Nat.ltb_lt 0 n)) by done. apply orb_true_r.
  - intros Hd. rewrite length_drop. destruct (cuts st) as [|k ks]; simpl;
      match type of Hd with take ?m _ ≠ [] => assert (0 < m ∧ 0 < length (rest st))%nat as [? ?]; [|lia] end;
      (split; [|destruct (rest st); [by rewrite take_nil in Hd|simpl; lia]]); [done|].
    destruct (decide (0 < Nat.min n k)%nat) as [|H0]; [done|]. replace (Nat.min n k) with 0%nat in Hd by lia. done.
Qed.

Lemma stream_gets_reader m : (0 < m)%nat → reader (stream_gets (S m)).
Proof.
  intros Hm st He. unfold stream_gets. change (pred (S m)) with m.
  destruct (fgets (Z.of_nat (S (found m st))) (rest st)) as [l r] eqn:E.
  pose proof (fgets_split _ _ _ _ E) as Hs. unfold left_in, eof_ok. cbn [rest cuts at_eof fst snd]. rewrite Hs, length_app.
  assert (length (tail (cuts st)) ≤ length (cuts st))%nat by (destruct (cuts st); simpl; lia).
  split; [done|]. split_and!.
  - destruct (at_eof st) eqn:Ee; [intros _; specialize (He Ee); rewrite He in Hs; by apply eq_sym, app_eq_nil in Hs as [_ Hs]|].
    destruct (cuts st) as [|k ks] eqn:Ec; [|done]. simpl. intros [Hl%Nat.ltb_lt Hn]%andb_true_iff.
    eapply fgets_short; [exact E|unfold found; rewrite Ec; lia|]. by apply negb_true_iff, bool_decide_eq_false in Hn.
  - by intros ->.
  - lia.
  - intros ->. destruct (cuts st) as [|k ks]; [left|right; simpl; lia].
    simpl. rewrite (proj2 (Nat.ltb_lt 0 m)) by done. apply orb_true_r.
  - intros Hl. destruct l; [done|]. simpl. lia.
Qed.

Section reads.
Context (get : stream → list Z * stream) (Hget : reader get).

Lemma turns_less st : eof_ok st → at_eof st = false → (turns (get st).2 < turns st)%nat.
Proof.
  intros He Ee. destruct (Hget st He) as (_ & _ & _ & H1 & H2 & H3). unfold turns. rewrite Ee.
  destruct (decide ((get st).1 = [])) as [Hd|Hd]; [destruct (H2 Hd) as [Ea|]; [rewrite Ea|]|specialize (H3 Hd)]; try destruct (at_eof (get st).2); lia.
Qed.

Lemma reads_enough f1 f2 st : eof_ok st → (turns st ≤ f1)%nat → (turns st ≤ f2)%nat → reads get f1 st = reads get f2 st.
Proof.
  assert (turns st = 0 → at_eof st = true)%nat as H0 by (unfold turns; destruct (at_eof st); [done|lia]).
  revert f2 st H0. induction f1 as [|f1 IH]; intros f2 st H0 He H1 H2.
  { destruct f2; [done|]. cbn. by rewrite H0 by lia. }
  destruct f2 as [|f2]; [cbn; by rewrite H0 by lia|]. cbn [reads]. destruct (at_eof st) eqn:Ee; [done|].
  pose proof (turns_less st He Ee). destruct (Hget st He) as (_ & He' & _). destruct (get st) as [d st']. f_equal.
  apply IH; [|done|simpl in *; lia..]. unfold turns. destruct (at_eof st'); [done|lia].
Qed.

Lemma reads_of_eof st : at_eof st = true → reads_of get st = [].
Proof. intros E. unfold reads_of. destruct (turns st); [done|]. cbn. by rewrite E. Qed.

Lemma reads_of_step st d st' : eof_ok st → get st = (d, st') →
  reads_of get st = (if bool_decide (d = []) then [] else [d]) ++ reads_of get st'.
Proof.
  intros He E. pose proof (Hget st He) as (Hr & He' & Hm & _). rewrite E in *. simpl in *.
  destruct (at_eof st) eqn:Ee.
  - rewrite He in Hr by done. apply eq_sym, app_eq_nil in Hr as [-> _]. by rewrite !reads_of_eof by auto.
  - pose proof (turns_less st He Ee) as Ht. rewrite E in Ht. simpl in Ht. unfold reads_of.
    destruct (turns st) as [|n]; [lia|]. cbn [reads]. rewrite Ee, E. f_equal. apply reads_enough; [done|lia..].
Qed.

(** The rule of induction on the reads. *)
Lemma reads_ind (P : stream → Prop) : (∀ st, eof_ok st → at_eof st = true → P st) →
  (∀ st, eof_ok st → at_eof st = false → P (get st).2 → P st) → ∀ st, eof_ok st → P st.
Proof.
  intros H0 H1 st. remember (turns st) as n eqn:En. revert st En. induction (lt_wf n) as [n _ IH]. intros st -> He.
  destruct (at_eof st) eqn:Ee; [by apply H0|]. apply H1; [done..|]. eapply IH; [by apply turns_less|done|]. by apply Hget.
Qed.

Lemma reads_join st : eof_ok st → concat (reads_of get st) = rest st.
Proof.
  revert st. apply reads_ind; intros st He Ee; [by rewrite reads_of_eof, He|]. intros IH.
  destruct (get st) as [d st'] eqn:E. rewrite (reads_of_step _ _ _ He E), concat_app. simpl in IH. rewrite IH.
  destruct (Hget st He) as (Hr & _). rewrite E in Hr. simpl in Hr. rewrite Hr.
  case_bool_decide as Hd; [by rewrite Hd|]. simpl. by rewrite app_nil_r.
Qed.

Lemma reads_all (P : list Z → Prop) st : (∀ st d st', eof_ok st → get st = (d, st') → d ≠ [] → P d) → eof_ok st → Forall P (reads_of get st).
Proof.
  intros H. revert st. apply reads_ind; intros st He Ee; [by rewrite reads_of_eof|]. intros IH.
  destruct (get st) as [d st'] eqn:E. rewrite (reads_of_step _ _ _ He E). apply Forall_app. split; [|done].
  case_bool_decide as Hd; [done|]. apply Forall_cons. split; [by eapply H|done].
Qed.
End reads.

(** A string that the program counts as a line: up to a newline, an end of the bytes so far,
    or 499 bytes. *)
Definition piece (d : list Z) : Prop := d ≠ [] ∧ (length d ≤ 499)%nat ∧ 10 ∉ removelast d.

Lemma fragments_ok st : eof_ok st → concat (fragments st) = rest st ∧ Forall piece (fragments st).
Proof.
  assert (reader (stream_gets 500)) as R by (apply stream_gets_reader; lia).
  intros He. split; [by apply reads_join|]. apply reads_all; [done| |done]. clear st He. intros st d st' He E Hd.
  unfold stream_gets in E. destruct (fgets _ _) as [l r] eqn:Ef. injection E as <- _. destruct (fgets_piece _ _ _ _ Ef) as [Hl Hn].
  split; [done|]. split; [|done]. revert Hl. unfold found. change (pred 500) with 499%nat. destruct (cuts st); lia.
Qed.

Lemma blocks_ok st : eof_ok st → concat (blocks st) = rest st ∧ Forall (λ d, d ≠ [] ∧ (length d ≤ 500)%nat) (blocks st).
Proof.
  assert (reader (stream_read 500)) as R by (apply stream_read_reader; lia).
  intros He. split; [by apply reads_join|]. apply reads_all; [done| |done]. clear st He. intros st d st' He [= <- _] Hd.
  split; [done|]. rewrite length_take. unfold found. destruct (cuts st); lia.
Qed.

Lemma pieces_enough f1 f2 s : (length s ≤ f1)%nat → (length s ≤ f2)%nat → pieces_upto f1 s = pieces_upto f2 s.
Proof.
  revert f2 s. induction f1 as [|f1 IH]; intros f2 s H1 H2.
  { assert (s = []) as -> by (by apply nil_length_inv; lia). by destruct f2. }
  destruct f2 as [|f2]; [assert (s = []) as -> by (by apply nil_length_inv; lia); done|].
  cbn [pieces_upto]. destruct (fgets 500 s) as [l r] eqn:E. apply fgets_split in E.
  case_bool_decide as Hl; [done|]. f_equal. apply (f_equal length) in E. rewrite length_app in E.
  assert (0 < length l)%nat by (destruct l; [done|simpl; lia]). apply IH; lia.
Qed.

Lemma pieces_step s d r : fgets 500 s = (d, r) → (d = [] → r = []) → pieces s = (if bool_decide (d = []) then [] else [d]) ++ pieces r.
Proof.
  intros E Hr. pose proof (fgets_split _ _ _ _ E) as Hs. case_bool_decide as Hd; [by rewrite Hs, Hd|].
  apply (f_equal length) in Hs. rewrite length_app in Hs.
  assert (0 < length d)%nat by (destruct d; [done|simpl; lia]). unfold pieces.
  rewrite (pieces_enough (length s) (S (length s))) by lia. cbn [pieces_upto]. rewrite E, bool_decide_false by done.
  simpl. f_equal. apply pieces_enough; lia.
Qed.

(** When no read comes up short the strings are the lines. *)
Lemma fragments_lines st : eof_ok st → cuts st = [] → fragments st = pieces (rest st).
Proof.
  assert (reader (stream_gets 500)) as R by (apply stream_gets_reader; lia).
  revert st. apply (reads_ind _ R (λ st, cuts st = [] → fragments st = pieces (rest st))).
  - intros st He Ee _. unfold fragments. by rewrite reads_of_eof, He.
  - intros st He Ee IH Hc. destruct (R st He) as (Hr & He' & _ & Hl & H0 & _). destruct (stream_gets 500 st) as [d st'] eqn:E.
    unfold fragments. rewrite (reads_of_step _ R _ _ _ He E). fold (fragments st'). simpl in *.
    unfold stream_gets, found in E. rewrite Hc in E. destruct (fgets _ _) as [l r] eqn:Ef. injection E as <- <-. simpl in *.
    rewrite IH by done. symmetry. apply pieces_step; [exact Ef|]. intros ->. apply He'.
    by rewrite orb_true_r.
Qed.

(** ** The output files *)

(** What the strings come to in a file: [fputs] writes each up to its first zero byte. *)
Definition text (g : list (list Z)) : list Z := concat (cstr <$> g).

Section spec.
Context (clock : nat → Z) (localtime : Z → tm) (can_write : list Z → bool).
Context (path : list Z) (pre post : list item) (ds : list Z) (circle : Z) (K : nat).
Definition format : list item := pre ++ Num ds :: post.
Definition des : list Z := path ++ 47 :: render format.

(** The number of the [k]th file. *)
Definition num (k : nat) : Z := if 0 <? circle then Z.of_nat k mod circle else Z.of_nat k.

Context (Htime : ∀ n, tm_ok (localtime (clock n))) (Hwrite : ∀ n, can_write n = true).
Context (Hpath : plain path) (Hpre : forallb (negb ∘ is_num) pre = true) (Hpost : forallb (negb ∘ is_num) post = true).
Context (Hok : ∀ k, (k < K)%nat → items_ok format (num k)).
Context (Hlen : ∀ t k, tm_ok t → (k < K)%nat → zlen (path ++ 47 :: expand t format (num k)) < 200).

(** The blocks by the hour: a block starts a file when it comes in an hour that is not the one
    of the last file and is a multiple of [hour]. *)
Fixpoint hour_groups (hour hours : Z) (tick : nat) (g bs : list (list Z)) : list (list (list Z)) :=
  match bs with
  | [] => [g]
  | b :: bs =>
      let h := tm_hour (localtime (clock tick)) in
      if negb (h =? hours) && (Z.rem h hour =? 0) then g :: hour_groups hour h (S (S tick)) [b] bs
      else hour_groups hour hours (S tick) (g ++ [b]) bs
  end.

(** What the files are to hold. *)
Definition parts (o : options) (st : stream) (tick : nat) : list (list Z) :=
  if 0 <? o_line o then text <$> chunks (Z.to_nat (o_line o)) (fragments st)
  else if 0 <? o_size o then chunks (Z.to_nat (o_size o)) (rest st)
  else if 0 <? o_hour o then
    @concat Z <$> hour_groups (o_hour o) (tm_hour (localtime (clock tick))) (S tick) [] (blocks st)
  else [[]].

Definition contents (s : lc) : list (list Z) := (outs s).*2.

(** The files have the names of their numbers, and the disk holds what was written to them,
    unless the name was used again. *)
Record good (s : lc) : Prop := {
  g_sn : sn s = num (length (outs s));
  g_names : ∀ k f, outs s !! k = Some f → ∃ t, tm_ok t ∧ f.1 = path ++ 47 :: expand t format (num k);
  g_disk : ∀ k f, outs s !! k = Some f → (∀ k' f', (k < k')%nat → outs s !! k' = Some f' → f'.1 ≠ f.1) →
    content <$> disk s !! f.1 = Some f.2
}.

Lemma count_format n : foldl (λ n it, after_item it n) n format = n + 1.
Proof.
  unfold format. rewrite foldl_app. cbn [foldl after_item].
  assert (∀ l m, forallb (negb ∘ is_num) l = true → foldl (λ n it, after_item it n) m l = m) as H.
  { induction l as [|it l IH]; intros m Hl; [done|]. simpl in Hl |- *. apply andb_true_iff in Hl as [H1 H2]. rewrite IH by done. by destruct it. }
  rewrite (H post) by done. rewrite (H pre) by done. done.
Qed.

(** The counter goes round after [circle] files. *)
Lemma num_next k : (if (0 <? circle) && (num k + 1 =? circle) then 0 else num k + 1) = num (S k).
Proof.
  unfold num. rewrite Nat2Z.inj_succ. unfold Z.succ. destruct (Z.ltb_spec 0 circle) as [Hc|]; simpl; [|lia].
  pose proof (Z.mod_pos_bound (Z.of_nat k) circle Hc). rewrite <- Zplus_mod_idemp_l.
  destruct (Z.eqb_spec (Z.of_nat k mod circle + 1) circle) as [E|]; [by rewrite E, Z_mod_same_full|]. symmetry. apply Z.mod_small. lia.
Qed.

Lemma num_inj a b : circle ≤ 0 ∨ (Z.of_nat a < circle ∧ Z.of_nat b < circle) → num a = num b → a = b.
Proof.
  unfold num. destruct (Z.ltb_spec 0 circle); intros [|[Ha Hb]]; try lia. rewrite !Z.mod_small by lia. lia.
Qed.

(** No name is used again before the numbers go round. *)
Lemma good_nodup s : good s → (length (outs s) ≤ K)%nat → circle ≤ 0 ∨ Z.of_nat (length (outs s)) ≤ circle → NoDup (outs s).*1.
Proof.
  intros [_ Hn _] HK Hc. apply NoDup_alt. intros i j n (f1 & E1 & H1)%list_lookup_fmap_Some (f2 & E2 & H2)%list_lookup_fmap_Some.
  destruct (Hn _ _ H1) as (t1 & Ht1 & N1). destruct (Hn _ _ H2) as (t2 & Ht2 & N2). apply lookup_lt_Some in H1, H2.
  rewrite E1, N1, N2 in E2. apply app_inv_head in E2. injection E2 as E. apply expand_inj in E; [|done..|apply Hok; lia|apply Hok; lia].
  apply num_inj; [lia|done].
Qed.

(** A new file. *)
Lemma next_file_ok s : good s → (length (outs s) < K)%nat →
  ∃ s', next_file clock localtime can_write circle des s = Ok ((), s') ∧ good s' ∧ fin s' = fin s ∧ ticks s' = S (ticks s) ∧
    contents s' = contents s ++ [[]].
Proof.
  intros G HK. unfold next_file, next_name, time.
  set (t := localtime (clock (ticks s))). set (name := path ++ 47 :: expand t format (sn s)).
  assert (getfilename t circle des (sn s) = Ok (name, num (S (length (outs s))))) as E.
  { unfold des. rewrite getfilename_expand; [|apply Htime|done|rewrite (g_sn _ G); by apply Hok|rewrite (g_sn _ G); apply Hlen; [apply Htime|done]].
    cbv zeta. by rewrite count_format, (g_sn _ G), num_next, <- (g_sn _ G). }
  set (s1 := set_sn (num (S (length (outs s)))) (tick s)).
  exists (set_outs (outs s ++ [(name, [])]) (set_disk (<[name := File [] (clock (ticks s1)) (clock (ticks s1)) true]> (disk s)) s1)).
  split; [|split; [|split; [done|split; [done|]]]].
  - cbv [mbind M_bind gets modify mret M_ret]. cbn [sn tick]. fold t. rewrite E. unfold fopen_wb. by rewrite Hwrite.
  - split; simpl.
    + by rewrite length_app, Nat.add_comm.
    + intros k f [Hk|[Hk Hf]]%lookup_app_Some; [by apply (g_names _ G)|].
      apply list_lookup_singleton_Some in Hf as [Hk0 <-]. exists t. split; [apply Htime|]. simpl. unfold name.
      rewrite (g_sn _ G). do 4 f_equal. lia.
    + intros k f [Hk|[Hk Hf]]%lookup_app_Some Hlast.
      * assert (name ≠ f.1) as Hne.
        { apply (Hlast (length (outs s)) (name, [])); [by apply lookup_lt_Some in Hk|by apply list_lookup_middle]. }
        rewrite lookup_insert_ne by done. apply (g_disk _ G k f Hk). intros k' f' Hlt Hk'. apply (Hlast k'); [done|by apply lookup_app_l_Some].
      * apply list_lookup_singleton_Some in Hf as [Hk0 <-]. simpl. by rewrite lookup_insert_eq.
  - unfold contents. simpl. by rewrite fmap_app.
Qed.

(** Bytes written to the last file. *)
Lemma fwrite_ok s cs c d : good s → contents s = cs ++ [c] →
  ∃ s', fwrite_out clock d s = Ok ((), s') ∧ good s' ∧ fin s' = fin s ∧ ticks s' = ticks s ∧ contents s' = cs ++ [c ++ d].
Proof.
  intros G Hc. unfold contents in Hc. destruct (list_snoc_case (outs s)) as [E|(l & [n c0] & E)]; [by rewrite E in Hc; destruct cs|].
  rewrite E, fmap_app in Hc. apply app_inj_tail in Hc as [Hcs Hc]. simpl in Hc. subst c0.
  exists (set_outs (l ++ [(n, c ++ d)]) (set_disk (alter (grown d (clock (ticks s))) n (disk s)) s)).
  split; [|split; [|split; [done|split; [done|]]]].
  - unfold fwrite_out. rewrite bind_gets, E, last_snoc, bind_modify. unfold modify. simpl. unfold on_last.
    by rewrite E, last_snoc, removelast_last.
  - assert (outs s !! length l = Some (n, c)) as Hlast by (rewrite E; by apply list_lookup_middle).
    split; simpl.
    + rewrite (g_sn _ G), E, !length_app. done.
    + intros k f [Hk|[Hk Hf]]%lookup_app_Some.
      * apply (g_names _ G k f). rewrite E. by apply lookup_app_l_Some.
      * apply list_lookup_singleton_Some in Hf as [Hk0 <-]. destruct (g_names _ G _ _ Hlast) as (t & Ht & En).
        exists t. split; [done|]. simpl in *. rewrite En. do 4 f_equal. lia.
    + intros k f [Hk|[Hk Hf]]%lookup_app_Some Hl.
      * assert (outs s !! k = Some f) as Hk' by (rewrite E; by apply lookup_app_l_Some).
        assert (n ≠ f.1) as Hne by (apply (Hl (length l) (n, c ++ d)); [by apply lookup_lt_Some in Hk|by apply list_lookup_middle]).
        rewrite lookup_alter_ne by done. apply (g_disk _ G k f Hk'). intros k' f' Hlt Hf'. rewrite E in Hf'.
        apply lookup_app_Some in Hf' as [Hf'|[Hge Hf']]; [apply (Hl k'); [done|by apply lookup_app_l_Some]|].
        by apply list_lookup_singleton_Some in Hf' as [_ <-].
      * apply list_lookup_singleton_Some in Hf as [Hk0 <-]. simpl. rewrite lookup_alter_eq.
        assert (content <$> disk s !! n = Some c) as Hd.
        { apply (g_disk _ G _ _ Hlast). intros k' f' Hlt Hk'. apply lookup_lt_Some in Hk'. rewrite E, length_app in Hk'. simpl in Hk'. lia. }
        destruct (disk s !! n) as [f|]; [|done]. simpl in *. by injection Hd as ->.
  - unfold contents. simpl. rewrite fmap_app. by rewrite Hcs.
Qed.

Lemma good_fin st s : good s → good (set_fin st s).
Proof. intros [? ? ?]. by split. Qed.
Lemma good_tick s : good s → good (tick s).
Proof. intros [? ? ?]. by split. Qed.

Lemma outs_length s cs c : contents s = cs ++ [c] → length (outs s) = S (length cs).
Proof. intros H. apply (f_equal length) in H. unfold contents in H. rewrite length_fmap, length_app in H. simpl in H. lia. Qed.

(** The bytes go to a new file. *)
Lemma fresh_ok s cs c d : good s → contents s = cs ++ [c] → (S (length cs) < K)%nat →
  ∃ s1 s', next_file clock localtime can_write circle des s = Ok ((), s1) ∧ fwrite_out clock d s1 = Ok ((), s') ∧
    good s' ∧ fin s' = fin s ∧ ticks s' = S (ticks s) ∧ contents s' = (cs ++ [c]) ++ [d].
Proof.
  intros G Hc HK. destruct (next_file_ok s G) as (s1 & E1 & G1 & Hf1 & Ht1 & Hc1); [by rewrite (outs_length _ _ _ Hc)|].
  rewrite Hc in Hc1. destruct (fwrite_ok s1 _ _ d G1 Hc1) as (s' & E2 & G2 & Hf2 & Ht2 & Hc2). exists s1, s'.
  split_and!; try done; congruence.
Qed.

(** ** The loops *)

Section loops_ok.
Context (target : list (list Z)) (Htarget : (length target ≤ K)%nat).
Definition finished (s : lc) : Prop := good s ∧ contents s = target.

Section size.
Context (size : Z) (Hsize : 0 < size).
Definition size_inv (sizes : Z) (s : lc) : Prop :=
  ∃ cs c, good s ∧ eof_ok (fin s) ∧ contents s = cs ++ [c] ∧ zlen c = sizes ∧ sizes ≤ size ∧
    target = cs ++ chunks (Z.to_nat size) (c ++ rest (fin s)).

Lemma size_inv_end sizes s : size_inv sizes s → at_eof (fin s) = true → finished s.
Proof.
  intros (cs & c & G & He & Hc & Hz & Hle & Ht) Ee. split; [done|].
  rewrite Hc, Ht, (He Ee), app_nil_r, chunks_short; [done|unfold zlen in Hz; lia].
Qed.

Lemma size_body_ok sizes s : size_inv sizes s →
  wp (size_body clock localtime can_write circle des size sizes)
    (λ r s', match r with inl sizes' => size_inv sizes' s' ∧ (turns (fin s') < turns (fin s))%nat | inr _ => finished s' end) s.
Proof.
  intros I. unfold size_body, feof. apply wp_bind, wp_gets. destruct (at_eof (fin s)) eqn:Ee; [by apply wp_ret, (size_inv_end sizes)|].
  destruct I as (cs & c & G & He & Hc & Hz & Hle & Ht).
  match goal with |- context [fread ?a] => set (ask := a) end. apply wp_bind. unfold fread, wp at 1.
  assert (0 < ask ∧ (sizes ≠ size → ask ≤ size - sizes) ∧ ask ≤ size) as (Ha1 & Ha2 & Ha3).
  { unfold ask. pose proof (zlen_nonneg c). repeat case_test; lia. }
  pose proof (stream_read_reader (Z.to_nat ask) ltac:(lia)) as R. pose proof (turns_less _ R _ He Ee) as Hm.
  destruct (R (fin s) He) as (Hr & He' & _).
  assert (length (stream_read (Z.to_nat ask) (fin s)).1 ≤ Z.to_nat ask)%nat as Hl.
  { simpl. rewrite length_take. unfold found. destruct (cuts (fin s)); lia. }
  destruct (stream_read (Z.to_nat ask) (fin s)) as [d st']. simpl in Hm, Hr, He', Hl.
  destruct (decide (d = [])) as [->|Hd].
  - rewrite bool_decide_true by done. apply wp_bind, wp_gets. simpl.
    assert (size_inv sizes (set_fin st' s)) as I'.
    { exists cs, c. split; [by apply good_fin|]. simpl in Hr |- *. by rewrite <- Hr. }
    destruct (at_eof st') eqn:Ee'; apply wp_ret; [by apply (size_inv_end sizes)|done].
  - rewrite bool_decide_false by done. destruct (Z.eqb_spec sizes size) as [Es|Es].
    + rewrite Hr, chunks_full in Ht; [|lia|unfold zlen in Hz; lia|by destruct d].
      destruct (fresh_ok (set_fin st' s) cs c d (good_fin _ _ G) Hc) as (s1 & s' & E1 & E2 & G' & Hf & _ & Hc').
      { rewrite Ht, length_app in Htarget. simpl in Htarget. pose proof (chunks_pos (Z.to_nat size) (d ++ rest st')). lia. }
      apply wp_bind, wp_bind. eapply wp_eq; [exact E1|]. apply wp_ret, wp_bind. eapply wp_eq; [exact E2|].
      apply wp_ret. rewrite Hf. split; [|done]. exists (cs ++ [c]), d. rewrite Hf. split; [done|]. split; [done|].
      split; [done|]. split; [done|]. split; [unfold zlen; lia|]. by rewrite <- app_assoc.
    + destruct (fwrite_ok (set_fin st' s) cs c d (good_fin _ _ G) Hc) as (s' & E & G' & Hf & _ & Hc').
      apply wp_bind, wp_ret, wp_bind. eapply wp_eq; [exact E|]. apply wp_ret. rewrite Hf. split; [|done].
      exists cs, (c ++ d). rewrite Hf, zlen_app. split; [done|]. split; [done|]. split; [done|]. specialize (Ha2 Es).
      split; [lia|]. split; [unfold zlen in *; lia|]. simpl. by rewrite <- app_assoc, <- Hr.
Qed.

Lemma size_loop_ok sizes s fuel : size_inv sizes s → (turns (fin s) < fuel)%nat →
  ∃ s', iter fuel (size_body clock localtime can_write circle des size) sizes s = Ok ((), s') ∧ finished s'.
Proof.
  intros I Hf. assert (wp (iter fuel (size_body clock localtime can_write circle des size) sizes) (λ _ s, finished s) s)
    as ([] & s' & E & Q)%wp_run; [|by exists s'].
  apply (wp_iter _ size_inv (λ _ s, turns (fin s))); [|done|done]. intros x s0 Hx. by apply size_body_ok.
Qed.
End size.

Section line.
Context (line : Z) (Hline : 0 < line).
Definition line_inv (lines : Z) (s : lc) : Prop :=
  ∃ gs g, good s ∧ eof_ok (fin s) ∧ contents s = (text <$> gs) ++ [text g] ∧ zlen g = lines ∧ lines ≤ line ∧
    target = text <$> (gs ++ chunks (Z.to_nat line) (g ++ fragments (fin s))).

Lemma line_inv_end lines s : line_inv lines s → at_eof (fin s) = true → finished s.
Proof.
  intros (gs & g & G & He & Hc & Hz & Hle & Ht) Ee. split; [done|]. unfold fragments in Ht.
  rewrite Hc, Ht, reads_of_eof, app_nil_r, chunks_short, fmap_app; [done|unfold zlen in Hz; lia|done].
Qed.

Lemma text_snoc g d : text (g ++ [d]) = text g ++ cstr d.
Proof. unfold text. rewrite fmap_app, concat_app. simpl. by rewrite app_nil_r. Qed.

Lemma line_body_ok lines s : line_inv lines s →
  wp (line_body clock localtime can_write circle des line lines)
    (λ r s', match r with
             | inl lines' => line_inv lines' s' ∧ (left_in (fin s') < left_in (fin s))%nat ∧ (turns (fin s') ≤ turns (fin s))%nat
             | inr lines' => line_inv lines' s' ∧ (at_eof (fin s') = false → turns (fin s') < turns (fin s))%nat end) s.
Proof.
  intros (gs & g & G & He & Hc & Hz & Hle & Ht). unfold line_body. apply wp_bind. unfold fgets_in, wp at 1.
  pose proof (stream_gets_reader 499 ltac:(lia)) as R. destruct (R (fin s) He) as (Hr & He' & Hmono & _ & _ & H1).
  pose proof (turns_less _ R _ He) as Hm. destruct (stream_gets 500 (fin s)) as [d st'] eqn:Er. simpl in Hr, He', Hmono, H1, Hm.
  assert (fragments (fin s) = (if bool_decide (d = []) then [] else [d]) ++ fragments st') as Hfr by by apply reads_of_step.
  destruct (decide (d = [])) as [Hd|Hd].
  - rewrite bool_decide_true in Hfr |- * by done. apply wp_ret. split.
    + exists gs, g. split; [by apply good_fin|]. simpl in Hfr |- *. by rewrite <- Hfr.
    + simpl. intros Ee. apply Hm. destruct (at_eof (fin s)) eqn:Es; [by rewrite Hmono in Ee|done].
  - rewrite bool_decide_false in Hfr |- * by done. specialize (H1 Hd).
    assert (∀ s', fin s' = st' → (left_in (fin s') < left_in (fin s) ∧ turns (fin s') ≤ turns (fin s))%nat) as Hm'.
    { intros s' ->. split; [done|]. destruct (at_eof (fin s)) eqn:Ee; [|specialize (Hm eq_refl); lia]. exfalso. rewrite (He Ee) in Hr. by destruct d. }
    destruct (Z.eqb_spec lines line) as [Es|Es].
    + rewrite Hfr, chunks_full in Ht; [|lia|unfold zlen in Hz; lia|done].
      destruct (fresh_ok (set_fin st' s) _ _ (cstr d) (good_fin _ _ G) Hc) as (s1 & s' & E1 & E2 & G' & Hf & _ & Hc').
      { rewrite Ht, length_fmap, length_app in Htarget. cbn [length] in Htarget. rewrite length_fmap.
        pose proof (chunks_pos (Z.to_nat line) ([d] ++ fragments st')). lia. }
      apply wp_bind, wp_bind. eapply wp_eq; [exact E1|]. apply wp_ret, wp_bind. eapply wp_eq; [exact E2|].
      apply wp_ret. split; [|by apply Hm']. exists (gs ++ [g]), [d]. rewrite Hf. split; [done|]. split; [done|].
      split; [rewrite Hc', fmap_app; unfold text; simpl; by rewrite app_nil_r|]. split; [done|]. split; [lia|].
      by rewrite Ht, <- app_assoc.
    + destruct (fwrite_ok (set_fin st' s) _ _ (cstr d) (good_fin _ _ G) Hc) as (s' & E & G' & Hf & _ & Hc').
      apply wp_bind, wp_ret, wp_bind. eapply wp_eq; [exact E|]. apply wp_ret. split; [|by apply Hm'].
      exists gs, (g ++ [d]). rewrite Hf, text_snoc, zlen_app. split; [done|]. split; [done|]. split; [done|].
      split; [unfold zlen in *; simpl; lia|]. split; [lia|]. by rewrite Ht, Hfr, <- app_assoc.
Qed.

Lemma line_loop_ok lines s fuel : line_inv lines s → (turns (fin s) < fuel)%nat →
  ∃ s', iter fuel (line_outer clock localtime can_write circle des line) lines s = Ok ((), s') ∧ finished s'.
Proof.
  intros I Hf.
  assert (wp (iter fuel (line_outer clock localtime can_write circle des line) lines) (λ _ s, finished s) s) as ([] & s' & E & Q)%wp_run; [|by exists s'].
  apply (wp_iter _ line_inv (λ _ s, turns (fin s))); [|done|done]. clear lines s fuel I Hf. intros lines s I. unfold line_outer, feof.
  apply wp_bind, wp_gets. destruct (at_eof (fin s)) eqn:Ee; [by apply wp_ret, (line_inv_end lines)|].
  apply wp_bind, wp_gets, wp_bind.
  eapply wp_conseq; [apply (wp_iter (line_body clock localtime can_write circle des line)
    (λ l s', line_inv l s' ∧ (turns (fin s') ≤ turns (fin s))%nat) (λ _ s', left_in (fin s'))
    (λ l s', line_inv l s' ∧ (at_eof (fin s') = false → turns (fin s') < turns (fin s))%nat))|].
  - intros x s0 [Hx Hle]. eapply wp_conseq; [by apply line_body_ok|]. intros [x'|x'] s'; simpl; [intuition lia|].
    intros [? ?]. split; [done|]. intros. apply (Nat.lt_le_trans _ (turns (fin s0))); auto.
  - by split.
  - unfold input_fuel, left_in. lia.
  - intros x' s' [I' Hm]. apply wp_bind, wp_gets. destruct (at_eof (fin s')) eqn:Ee'; apply wp_ret; [by apply (line_inv_end x')|]. split; auto.
Qed.
End line.

Section hour.
Context (hour : Z).
Definition hour_inv (hours : Z) (s : lc) : Prop :=
  ∃ gs g, good s ∧ eof_ok (fin s) ∧ contents s = (@concat Z <$> gs) ++ [concat g] ∧
    target = @concat Z <$> (gs ++ hour_groups hour hours (ticks s) g (blocks (fin s))).

Lemma hour_groups_pos hours tick g bs : (0 < length (hour_groups hour hours tick g bs))%nat.
Proof. clear target Htarget. revert hours tick g. induction bs as [|b bs IH]; intros; simpl; [lia|]. destruct (_ && _); [simpl; lia|apply IH]. Qed.

Lemma concat_snoc (g : list (list Z)) d : concat (g ++ [d]) = concat g ++ d.
Proof. rewrite concat_app. simpl. by rewrite app_nil_r. Qed.

Lemma hour_inv_end hours s : hour_inv hours s → at_eof (fin s) = true → finished s.
Proof.
  intros (gs & g & G & He & Hc & Ht) Ee. split; [done|]. unfold blocks in Ht.
  rewrite Hc, Ht, reads_of_eof, fmap_app; done.
Qed.

Lemma hour_body_ok hours s : hour_inv hours s →
  wp (hour_body clock localtime can_write circle des hour hours)
    (λ r s', match r with inl hours' => hour_inv hours' s' ∧ (turns (fin s') < turns (fin s))%nat | inr _ => finished s' end) s.
Proof.
  intros I. unfold hour_body, feof. apply wp_bind, wp_gets. destruct (at_eof (fin s)) eqn:Ee; [by apply wp_ret, (hour_inv_end hours)|].
  destruct I as (gs & g & G & He & Hc & Ht). apply wp_bind. unfold fread, wp at 1. change (Z.to_nat 500) with 500%nat.
  pose proof (stream_read_reader 500 ltac:(lia)) as R. pose proof (turns_less _ R _ He Ee) as Hm.
  destruct (R (fin s) He) as (Hr & He' & _). destruct (stream_read 500 (fin s)) as [d st'] eqn:Er. simpl in Hm, Hr, He'.
  assert (blocks (fin s) = (if bool_decide (d = []) then [] else [d]) ++ blocks st') as Hb by by apply reads_of_step.
  destruct (decide (d = [])) as [Hd|Hd].
  - rewrite bool_decide_true in Hb |- * by done. apply wp_bind, wp_gets. simpl.
    assert (hour_inv hours (set_fin st' s)) as I' by (exists gs, g; split; [by apply good_fin|]; simpl in Hb |- *; by rewrite <- Hb).
    destruct (at_eof st') eqn:Ee'; apply wp_ret; [by apply (hour_inv_end hours)|done].
  - rewrite bool_decide_false in Hb |- * by done. apply wp_bind, wp_bind, wp_gets, wp_bind, wp_modify, wp_ret.
    set (s1 := tick _). assert (good s1) as G1 by by apply good_tick, good_fin. change (contents s) with (contents s1) in Hc.
    rewrite Hb in Ht. cbn [app hour_groups] in Ht. simpl. destruct (negb _ && _).
    + destruct (fresh_ok s1 _ _ d G1 Hc) as (s2 & s' & E1 & E2 & G' & Hf & Htk & Hc').
      { rewrite Ht, length_fmap, length_app in Htarget. cbn [length] in Htarget. rewrite length_fmap.
        match type of Htarget with context [length (hour_groups ?a ?b ?c ?d ?e)] => pose proof (hour_groups_pos b c d e) end. lia. }
      apply wp_bind, wp_bind. eapply wp_eq; [exact E1|]. apply wp_ret, wp_bind. eapply wp_eq; [exact E2|].
      apply wp_ret. rewrite Hf. split; [|done]. exists (gs ++ [g]), [d]. rewrite Hf, Htk. split; [done|]. split; [done|].
      split; [rewrite Hc', fmap_app; simpl; by rewrite app_nil_r|]. by rewrite Ht, <- app_assoc.
    + destruct (fwrite_ok s1 _ _ d G1 Hc) as (s' & E & G' & Hf & Htk & Hc').
      apply wp_bind, wp_ret, wp_bind. eapply wp_eq; [exact E|]. apply wp_ret. rewrite Hf. split; [|done].
      exists gs, (g ++ [d]). by rewrite Hf, Htk, concat_snoc.
Qed.

Lemma hour_loop_ok hours s fuel : hour_inv hours s → (turns (fin s) < fuel)%nat →
  ∃ s', iter fuel (hour_body clock localtime can_write circle des hour) hours s = Ok ((), s') ∧ finished s'.
Proof.
  intros I Hf. assert (wp (iter fuel (hour_body clock localtime can_write circle des hour) hours) (λ _ s, finished s) s)
    as ([] & s' & E & Q)%wp_run; [|by exists s'].
  apply (wp_iter _ hour_inv (λ _ s, turns (fin s))); [|done|done]. intros x s0 Hx. by apply hour_body_ok.
Qed.
End hour.

End loops_ok.

(** ** The whole program *)

Lemma concat_map_concat (gs : list (list (list Z))) : concat (@concat Z <$> gs) = concat (concat gs).
Proof. induction gs as [|g gs IH]; [done|]. rewrite fmap_cons. cbn [concat]. by rewrite concat_app, IH. Qed.

Lemma hour_groups_join hour hours tick g bs : concat (hour_groups hour hours tick g bs) = g ++ bs.
Proof.
  revert hours tick g. induction bs as [|b bs IH]; intros hours tick g; simpl; [done|].
  destruct (_ && _); simpl; rewrite IH; [done|]. by rewrite <- app_assoc.
Qed.

Lemma text_all g : no_nul (concat g) → text g = concat g.
Proof.
  unfold no_nul. induction g as [|d g IH]; [done|]. cbn [concat]. rewrite Forall_app. intros [Hd Hg].
  change (cstr d ++ text g = d ++ concat g). by rewrite cstr_id, IH.
Qed.

Lemma concat_text gs : no_nul (concat (concat gs)) → concat (text <$> gs) = concat (concat gs).
Proof.
  unfold no_nul. induction gs as [|g gs IH]; [done|]. rewrite fmap_cons. cbn [concat]. rewrite concat_app. intros [Hg Hgs]%Forall_app.
  by rewrite text_all, IH.
Qed.

(** The parts join to the input. *)
Lemma parts_join o st tick : eof_ok st → 0 < o_line o ∨ 0 < o_size o ∨ 0 < o_hour o → (0 < o_line o → no_nul (rest st)) →
  concat (parts o st tick) = rest st.
Proof.
  intros He Hmode Hnul. unfold parts.
  destruct (Z.ltb_spec 0 (o_line o)) as [Hl|]; [|destruct (Z.ltb_spec 0 (o_size o)); [apply chunks_join|destruct (Z.ltb_spec 0 (o_hour o)); [|lia]]].
  - destruct (fragments_ok st He) as [Hj _]. specialize (Hnul Hl). rewrite <- Hj in Hnul |- *.
    rewrite <- (chunks_join (Z.to_nat (o_line o)) (fragments st)) in Hnul. rewrite concat_text by done. by rewrite chunks_join.
  - rewrite concat_map_concat, hour_groups_join. by apply blocks_ok.
Qed.

Lemma loop_ok o s : good s → eof_ok (fin s) → contents s = [[]] → o_circle o = circle → (length (parts o (fin s) (ticks s)) ≤ K)%nat →
  ∃ s', (if 0 <? o_line o then iter (input_fuel s) (line_outer clock localtime can_write (o_circle o) des (o_line o)) 0
           else if 0 <? o_size o then iter (input_fuel s) (size_body clock localtime can_write (o_circle o) des (o_size o)) 0
           else if 0 <? o_hour o then
             now ← time clock;
             iter (input_fuel s) (hour_body clock localtime can_write (o_circle o) des (o_hour o)) (tm_hour (localtime now))
           else mret ()) s = Ok ((), s') ∧
    finished (parts o (fin s) (ticks s)) s'.
Proof.
  intros G He Hc -> HK.
  assert (turns (fin s) < input_fuel s)%nat as Hf by (unfold turns, input_fuel, left_in; destruct (at_eof (fin s)); lia).
  assert (∀ T, parts o (fin s) (ticks s) = T → (length T ≤ K)%nat) as HT by by intros T <-. unfold parts in *.
  destruct (Z.ltb_spec 0 (o_line o)) as [Hl|_]; [|destruct (Z.ltb_spec 0 (o_size o)) as [Hs|_]; [|destruct (Z.ltb_spec 0 (o_hour o)) as [Hh|_]]].
  - apply line_loop_ok; [done|done| |done]. exists [], []. split_and!; try done. lia.
  - apply size_loop_ok; [done|done| |done]. exists [], []. split_and!; try done. lia.
  - unfold time. cbv [mbind M_bind gets modify mret M_ret]. apply hour_loop_ok; [done| |done].
    exists [], []. split; [by apply good_tick|]. split_and!; done.
  - exists s. split; [done|]. by split.
Qed.

(** C32: [lcsplit] writes the files [parts] describes, whatever the reads return: by size, the
    input cut after every [size] bytes; by lines, cut after every [line] strings of [fgets], which
    are the lines (of at most 499 bytes) when no read comes up short, and otherwise also end where the
    bytes found so far end, each up to its first zero byte; by the hour, a new file with the first
    block of an hour that [hour] divides.  So without zero bytes the files join to the input.
    The names are those of the numbers 1, 2, ..., from 1 again after [circle]; before that no file is written twice,
    and the disk holds what was written last under each name. *)
Theorem lcsplit_splits can_read popen system opts o src rest' input cuts0 d n :
  let st := Stream input cuts0 false in
  let t0 := (n + (if (0 <? o_keep o)%Z then 2 else 1))%nat in
  getopts opts (Options 0 0 0 0 0) (Lc st d [] 0 n) = Ok (o, Lc st d [] 0 n) → o_circle o = circle →
  (0 < o_keep o → ∃ r, let '(p, f) := default ([], des) (split_path des) in deloldfile popen system p f (o_keep o) (clock n) d = Ok r) →
  (length (parts o st t0) ≤ K)%nat → zlen src < 100 → zlen des < 100 → src = [45] ∨ can_read = true →
  ∃ s', main clock localtime can_write can_read popen system opts (src :: des :: rest') (Lc st d [] 0 n) = Ok (0, s') ∧
    contents s' = parts o st t0 ∧
    (∀ k f, outs s' !! k = Some f → (∃ t, tm_ok t ∧ f.1 = path ++ 47 :: expand t format (num k)) ∧
      ((∀ k' f', (k < k')%nat → outs s' !! k' = Some f' → f'.1 ≠ f.1) → content <$> disk s' !! f.1 = Some f.2)) ∧
    (circle ≤ 0 ∨ Z.of_nat (length (outs s')) ≤ circle → NoDup (outs s').*1) ∧
    (0 < o_line o ∨ 0 < o_size o ∨ 0 < o_hour o → (0 < o_line o → no_nul input) → concat (contents s') = input) ∧
    concat (fragments st) = input ∧ Forall piece (fragments st) ∧ (cuts0 = [] → fragments st = pieces input).
Proof.
  intros st t0 Eo Hcirc Hkeep HK Hsrc Hdes Hread. assert (eof_ok st) as He by done.
  assert (∃ d', (let '(p, f) := default ([], des) (split_path des) in
      when (0 <? o_keep o) (first_timer clock localtime popen system p f (o_keep o))) (Lc st d [] 0 n) = Ok ((), Lc st d' [] 0 (n + (if (0 <? o_keep o)%Z then 1 else 0))%nat))
    as (d' & Etimer).
  { destruct (default ([], des) (split_path des)) as [p f]. destruct (Z.ltb_spec 0 (o_keep o)) as [Hk|].
    - destruct (Hkeep Hk) as ([r d'] & Ed). exists d'. unfold first_timer, time, timer. cbv [mbind M_bind gets modify mret M_ret when].
      cbn [ticks disk tick]. rewrite (proj2 (Z.eqb_neq (-1) (tm_hour (localtime (clock n))))) by (destruct (Htime n) as (? & ? & ? & ? & ?); lia).
      cbn [negb ticks disk tick]. rewrite Ed. unfold set_disk. simpl. by rewrite Nat.add_1_r.
    - exists d. by rewrite Nat.add_0_r. }
  set (s0 := Lc st d' [] 0 (n + (if (0 <? o_keep o)%Z then 1 else 0))%nat) in *.
  assert (good s0) as G0.
  { split; [|by intros k f Hk..]. unfold num. destruct (0 <? circle); [symmetry; apply Zmod_0_l|done]. }
  assert (0 < length (parts o st t0))%nat as Hpos.
  { unfold parts. repeat case_test; rewrite ?length_fmap; [apply chunks_pos|apply chunks_pos|apply hour_groups_pos|simpl; lia]. }
  destruct (next_file_ok s0 G0) as (s1 & E1 & G1 & Hf1 & Ht1 & Hc1); [simpl; lia|].
  assert (ticks s1 = t0) as Htick by (rewrite Ht1; unfold s0, t0; simpl; destruct (_ <? _); lia).
  destruct (loop_ok o s1 G1 ltac:(by rewrite Hf1) Hc1 Hcirc ltac:(by rewrite Hf1, Htick)) as (s' & E & G & Hc).
  rewrite Hf1, Htick in Hc. change (fin s0) with st in Hc. exists s'. split; [|split; [done|split; [|split]]].
  - unfold main. rewrite (bind_ok _ _ _ _ _ Eo), (bind_ok _ _ _ _ _ (strcpy_ok _ _ _ Hsrc)), (bind_ok _ _ _ _ _ (strcpy_ok _ _ _ Hdes)).
    destruct (default ([], des) (split_path des)) as [p f]. rewrite (bind_ok _ _ _ _ _ Etimer).
    unfold next_file in E1. rewrite <- Hcirc in E1.
    destruct (next_name clock localtime (o_circle o) des s0) as [[name s2]|] eqn:En; [|by rewrite (bind_fault _ _ _ _ En) in E1].
    rewrite (bind_ok _ _ _ _ _ En) in E1. rewrite (bind_ok _ _ _ _ _ En).
    assert (negb (bool_decide (src = [45])) && negb can_read = false) as ->.
    { destruct Hread as [->| ->]; [by rewrite bool_decide_true by done|by destruct (bool_decide _)]. }
    rewrite (bind_ok _ _ _ _ _ E1), bind_gets. by rewrite (bind_ok _ _ _ _ _ E).
  - intros k f Hk. split; [by apply (g_names _ G)|by apply (g_disk _ G)].
  - apply good_nodup; [done|]. apply (f_equal length) in Hc. unfold contents in Hc. rewrite length_fmap in Hc. lia.
  - destruct (fragments_ok st He) as [Hj Hp]. split; [|split; [done|split; [done|]]].
    + rewrite Hc. by apply (parts_join o st t0 He).
    + by apply (fragments_lines st He).
Qed.
End spec.

(** Lines in two files that are used in turn, the second line found in two reads. *)
Lemma lcsplit_splits_witness :
  ∃ s', main (λ _, 0) (λ _, demo_tm) (λ _, true) true (λ _ _, None) (λ _ m, m) [(108, bytes "1"); (99, bytes "2"); (107, bytes "5")]
          [bytes "in"; bytes "d/f%02N"] (Lc (Stream [97; 10; 98; 99; 10; 100] [2%nat; 1%nat] false) ∅ [] 0 0) = Ok (0, s') ∧
    outs s' = [(bytes "d/f01", [97; 10]); (bytes "d/f02", [98]); (bytes "d/f01", [99; 10]); (bytes "d/f02", [100])].
Proof.
  destruct (lcsplit_splits (λ _, 0) (λ _, demo_tm) (λ _, true) (bytes "d") [Lit 102] [] (bytes "02") 2 4) with
    (input := [97; 10; 98; 99; 10; 100]) (can_read := true) (popen := λ (_ : list Z) (_ : fs), @None (list Z)) (system := λ (_ : list Z) (m : fs), m)
    (opts := [(108, bytes "1"); (99, bytes "2"); (107, bytes "5")]) (o := Options 0 1 0 5 2) (src := bytes "in") (rest' := @nil (list Z)) (cuts0 := [2%nat; 1%nat]) (d := ∅ : fs) (n := 0%nat)
    as (s' & E & H & Hn & _).
  - intros n. apply (bool_decide_unpack _). by vm_compute.
  - done.
  - apply (bool_decide_unpack _). by vm_compute.
  - done.
  - done.
  - intros k Hk. do 4 (destruct k as [|k]; [apply (bool_decide_unpack _); by vm_compute|]). lia.
  - intros t k _ Hk. do 4 (destruct k as [|k]; [by vm_compute|]). lia.
  - by vm_compute.
  - done.
  - intros _. exists (-1, ∅). by vm_compute.
  - vm_compute. lia.
  - by vm_compute.
  - by vm_compute.
  - by right.
  - exists s'. split; [exact E|]. vm_compute in E. injection E as <-. done.
Defined.

(** Five bytes of one line that are found in two reads count as two lines. *)
Example lcsplit_short_read :
  let run cuts := main (λ _, 0) (λ _, demo_tm) (λ _, true) true (λ _ _, None) (λ _ m, m) [(108, bytes "1")]
    [bytes "in"; bytes "d/f%02N"] (Lc (Stream (bytes "abcd" ++ [10]) cuts false) ∅ [] 0 0) in
  let files r := match r with Ok (_, s) => (outs s).*2 | Fault _ => [] end in
  files (run []) = [bytes "abcd" ++ [10]] ∧ files (run [2%nat]) = [bytes "ab"; bytes "cd" ++ [10]].
Proof. split; by vm_compute. Qed.
