(* ===== verification/Print.v ===== *)
(** The printer spooler [apue.3e/printer], the parts its programs share: the records of
    [print.h], sockets with the timed reads of [util.c] and the [writen] of [apue.3e/lib], the
    configuration file, and the client command [print.c]. *)
From S2P Require Import Prelude CLib.

(** ** Constants *)

Definition USERNM_MAX : Z := 64.
Definition JOBNM_MAX : Z := 256.
Definition MSGLEN_MAX : Z := 512.
Definition IPP_PORT : Z := 631.
Definition IBUFSZ : Z := 512.
Definition HBUFSZ : Z := 512.
Definition IOBUFSZ : Z := 8192.
Definition PR_TEXT : Z := 1.
Definition EIO : Z := 5.
Definition ETIME : Z := 62.

(** ** Sockets *)

(** What arrives on a connection: bytes, in pieces as [read] meets them, and pauses that
    outlast the time-out of a read. The end of the list is the end of the stream. *)
Inductive arrival := Data (bs : list Z) | Pause.
Abbreviation conn := (list arrival).

(** [tread] of at most [n] bytes: [None] when it times out. *)
Definition tread (n : Z) (c : conn) : option (list Z) * conn :=
  match c with
  | [] => (Some [], [])
  | Pause :: c' => (None, c')
  | Data bs :: c' =>
      (Some (take (Z.to_nat n) bs), match drop (Z.to_nat n) bs with [] => c' | r => Data r :: c' end)
  end.

(** The loop of [treadn]: what was read so far, and what is left to read. *)
Fixpoint treadn_loop (fuel : nat) (got : list Z) (nleft : Z) (c : conn) : option (list Z) * conn :=
  match fuel with
  | O => (None, c)
  | S fuel =>
      if 0 <? nleft then
        match tread nleft c with
        | (None, c') => (if bool_decide (got = []) then None else Some got, c')
        | (Some [], c') => (Some got, c')
        | (Some bs, c') => treadn_loop fuel (got ++ bs) (nleft - zlen bs) c'
        end
      else (Some got, c)
  end.
Definition treadn (n : Z) (c : conn) : option (list Z) * conn := treadn_loop (S (S (length c))) [] n c.

(** A connected socket: what this side has sent, how many bytes more the other side takes
    before writing fails, and what arrives. *)
Record sock := Sock { sent : list Z; room : Z; inc : conn }.
Definition write (bs : list Z) : M sock Z := λ s,
  if zlen bs =? 0 then Ok (0, s) else
  if room s <=? 0 then Ok (-1, s) else
  let n := Z.min (zlen bs) (room s) in
  Ok (n, Sock (sent s ++ take (Z.to_nat n) bs) (room s - n) (inc s)).
Definition sread (n : Z) : M sock (option (list Z)) := λ s,
  let '(r, c) := tread n (inc s) in Ok (r, Sock (sent s) (room s) c).

(** [readn] of [apue.3e/lib] is the same loop with reads that wait out every pause. *)
Definition is_data (a : arrival) : bool := match a with Data _ => true | Pause => false end.
Definition sreadn (n : Z) : M sock (option (list Z)) := λ s,
  let '(r, c) := treadn n (filter is_data (inc s)) in Ok (r, Sock (sent s) (room s) c).

(** [writen] of [apue.3e/lib]. *)
Definition writen_body (bs : list Z) (nleft : Z) : M sock (Z + Z) :=
  if 0 <? nleft then
    nwritten ← write (drop (Z.to_nat (zlen bs - nleft)) bs);
    if nwritten <? 0 then mret (inr (if nleft =? zlen bs then -1 else zlen bs - nleft))
    else if nwritten =? 0 then mret (inr (zlen bs - nleft))
    else mret (inl (nleft - nwritten))
  else mret (inr (zlen bs - nleft)).
Definition writen (bs : list Z) : M sock Z := iter (S (S (length bs))) (writen_body bs) (zlen bs).

(** ** Records *)

Record printreq := PrintReq { size : Z; flags : Z; usernm : list Z; jobnm : list Z }.
Definition SIZEOF_printreq : Z := 4 + 4 + USERNM_MAX + JOBNM_MAX.

(** On the wire [size] and [flags] are in network order; in the control file they are in the
    order of the host, which is little-endian. *)
Definition req_net (r : printreq) : list Z := be32 (size r) ++ be32 (flags r) ++ usernm r ++ jobnm r.
Definition req_host (r : printreq) : list Z := reverse (be32 (size r)) ++ reverse (be32 (flags r)) ++ usernm r ++ jobnm r.
Definition net_req (b : list Z) : printreq :=
  PrintReq (of_be (bread b 0 4)) (of_be (bread b 4 4)) (bread b 8 USERNM_MAX) (bread b (8 + USERNM_MAX) JOBNM_MAX).
Definition host_req (b : list Z) : printreq :=
  PrintReq (of_be (reverse (bread b 0 4))) (of_be (reverse (bread b 4 4))) (bread b 8 USERNM_MAX) (bread b (8 + USERNM_MAX) JOBNM_MAX).

(** [struct printresp]; the message is a buffer of [MSGLEN_MAX] bytes. *)
Record printresp := PrintResp { retcode : Z; resp_jobid : Z; msg : list Z }.
Definition SIZEOF_printresp : Z := 4 + 4 + MSGLEN_MAX.
Definition resp_net (r : printresp) : list Z := be32 (retcode r) ++ be32 (resp_jobid r) ++ msg r.
Definition net_resp (b : list Z) : printresp := PrintResp (of_be (bread b 0 4)) (of_be (bread b 4 4)) (bread b 8 MSGLEN_MAX).

(** ** The configuration file *)

(** A word of at most [w] characters, as [%ws] of [sscanf] reads it. *)
Fixpoint take_word (w : nat) (s : list Z) : list Z * list Z :=
  match w, s with
  | Datatypes.S w, c :: s' => if isspace c then ([], s) else let '(d, r) := take_word w s' in (c :: d, r)
  | _, _ => ([], s)
  end.
Definition scan_word (w : nat) (s : list Z) : option (list Z * list Z) :=
  match take_word w (skip_space s) with ([], _) => None | r => Some r end.

(** [sscanf(line, "%15s %511s", keybuf, valbuf)] *)
Definition scan_line (line : list Z) : option (list Z * list Z) :=
  match scan_word 15 line with
  | None => None
  | Some (k, r) => match scan_word 511 r with None => None | Some (v, _) => Some (k, v) end
  end.

(** [scan_configfile] on the text of the file. *)
Fixpoint scan_lines (fuel : nat) (keyword text : list Z) : option (list Z) :=
  match fuel with
  | O => None
  | S fuel =>
      let '(line, rest) := fgets 512 text in
      match line with
      | [] => None
      | _ => match scan_line (cstr line) with
             | Some (k, v) => if bool_decide (k = keyword) then Some v else scan_lines fuel keyword rest
             | None => scan_lines fuel keyword rest
             end
      end
  end.
Definition scan_configfile (keyword text : list Z) : option (list Z) := scan_lines (S (length text)) keyword text.
Definition get_printserver : list Z → option (list Z) := scan_configfile (bytes "printserver").

(** ** [submit_file] *)

Section client.
(** What was in the memory of the request before, and whether [read] of the file fails with the
    bytes that are left. *)
Context (stack_usernm stack_jobnm : list Z) (read_fails : list Z → bool).

(** [strcpy] into a buffer of [n] bytes with the old contents [old]. *)
Definition strcpy_buf (old s : list Z) : list Z := s ++ 0 :: drop (S (length s)) old.

Definition submit_header (user : option (list Z)) (nbytes : Z) (fname : list Z) (text : bool) : printreq :=
  PrintReq nbytes (if text then PR_TEXT else 0)
    (match user with
     | None => strcpy_buf stack_usernm (bytes "unknown")
     | Some name => take (Z.to_nat (USERNM_MAX - 1)) (strncpy (USERNM_MAX - 1) name) ++ [0]
     end)
    (let len := zlen fname in
     if JOBNM_MAX <=? len then
       strcpy_buf stack_jobnm (bytes "... " ++ take (Z.to_nat (JOBNM_MAX - 5)) (drop (Z.to_nat (len - JOBNM_MAX + 5)) fname))
     else strcpy_buf stack_jobnm fname).

(** The file in blocks of [IOBUFSZ] bytes. The loop ends at 0 only: the -1 of an error is the
    length of the next [writen]. *)
Definition submit_block (rest : list Z) : M sock (list Z + ()) :=
  if read_fails rest then fail (UB "writen of (size_t) -1 bytes") else
  let buf := take (Z.to_nat IOBUFSZ) rest in
  if zlen buf =? 0 then mret (inr ())
  else
    nw ← writen buf;
    if negb (nw =? zlen buf) then fail (Quit "write to print server") else mret (inl (drop (Z.to_nat IOBUFSZ) rest)).

(** The job number the server gave, or [None] when it refused. *)
Definition submit_file (user : option (list Z)) (content fname : list Z) (text : bool) : M sock (option Z) :=
  nw ← writen (req_net (submit_header user (zlen content) fname text));
  if negb (nw =? SIZEOF_printreq) then fail (Quit "write to print server") else
  _ ← iter (S (length content)) submit_block content;
  r ← sreadn SIZEOF_printresp;
  match r with
  | Some b =>
      if negb (zlen b =? SIZEOF_printresp) then fail (Quit "response") else
      if negb (retcode (net_resp b) =? 0) then mret None else mret (Some (resp_jobid (net_resp b)))
  | None => fail (Quit "response")
  end.
End client.

(** ** Reading *)

(** The bytes up to the first pause. *)
Fixpoint arrived (c : conn) : list Z := match c with Data bs :: c' => bs ++ arrived c' | _ => [] end.
(** What arrives after them. *)
Fixpoint later (c : conn) : conn := match c with Data _ :: c' => later c' | _ => c end.

(** Pieces are not empty: an empty read is the end of the stream. *)
Definition pieces_ok (c : conn) : Prop := Forall (λ a, a ≠ Data []) c.

Lemma tread_data n c : 0 < n → pieces_ok c → arrived c ≠ [] →
  ∃ d c', tread n c = (Some d, c') ∧ d ≠ [] ∧ zlen d ≤ n ∧ pieces_ok c' ∧ arrived c = d ++ arrived c' ∧ later c' = later c ∧
    (length c' ≤ length c)%nat ∧ (zlen d < n → (length c' < length c)%nat).
Proof.
  intros Hn Hc Ha. destruct c as [|[bs|] c]; [done| |done]. apply Forall_cons in Hc as [Hbs Hc]. assert (bs ≠ []) as Hbs' by congruence.
  unfold tread. pose proof (take_drop (Z.to_nat n) bs) as E.
  assert (take (Z.to_nat n) bs ≠ []) as Hd.
  { destruct bs; [done|]. assert (Z.to_nat n = S (Z.to_nat n - 1)) as -> by lia. done. }
  destruct (drop (Z.to_nat n) bs) as [|x r] eqn:Ed.
  - exists (take (Z.to_nat n) bs), c. rewrite app_nil_r in E. rewrite E. split; [done|]. split; [done|].
    split; [rewrite <- E; unfold zlen; rewrite length_take; lia|]. simpl. split_and!; try done; lia.
  - exists (take (Z.to_nat n) bs), (Data (x :: r) :: c). simpl. rewrite <- E at 5. rewrite <- app_assoc.
    split_and!; try done; try (unfold zlen; rewrite length_take; lia).
    + by apply Forall_cons.
    + apply (f_equal length) in Ed. rewrite length_drop in Ed. simpl in Ed. unfold zlen. rewrite length_take. lia.
Qed.

Lemma treadn_loop_ok fuel got nleft c : 0 ≤ nleft → pieces_ok c → nleft ≤ zlen (arrived c) → (length c + (if (0 <? nleft)%Z then 1 else 0) < fuel)%nat →
  ∃ c', treadn_loop fuel got nleft c = (Some (got ++ take (Z.to_nat nleft) (arrived c)), c') ∧ pieces_ok c' ∧
    arrived c' = drop (Z.to_nat nleft) (arrived c) ∧ later c' = later c.
Proof.
  revert got nleft c. induction fuel as [|fuel IH]; intros got nleft c H0 Hc Hn Hf; [lia|]. simpl.
  destruct (Z.ltb_spec 0 nleft) as [Hl|Hl].
  2: { assert (nleft = 0) as -> by lia. exists c. simpl. by rewrite take_0, drop_0, app_nil_r. }
  assert (arrived c ≠ []) as Ha by (intros E; rewrite E in Hn; unfold zlen in Hn; simpl in Hn; lia).
  destruct (tread_data nleft c Hl Hc Ha) as (d & c1 & E & Hd & Hdn & Hc1 & Ea & El & Hlen & Hlen').
  rewrite E, Ea. destruct d as [|x d]; [done|]. set (d' := x :: d) in *.
  destruct (IH (got ++ d') (nleft - zlen d') c1) as (c' & E' & Hc' & Ea' & El'); [lia|done| | |].
  - rewrite Ea, zlen_app in Hn. lia.
  - destruct (Z.ltb_spec 0 (nleft - zlen d')); lia.
  - exists c'. rewrite E', <- app_assoc. unfold zlen in *. rewrite Z2Nat.inj_sub, Nat2Z.id in * by lia. split_and!; try done.
    + rewrite take_app_ge by lia. done.
    + by rewrite Ea', drop_app_ge by lia.
    + by rewrite El', El.
Qed.

(** [treadn] gives the first [n] bytes that arrive, however they are cut. *)
Lemma treadn_ok n c : 0 ≤ n → pieces_ok c → n ≤ zlen (arrived c) →
  ∃ c', treadn n c = (Some (take (Z.to_nat n) (arrived c)), c') ∧ pieces_ok c' ∧ arrived c' = drop (Z.to_nat n) (arrived c) ∧ later c' = later c.
Proof. intros H0 Hc Hn. apply (treadn_loop_ok _ []); [done..|]. destruct (0 <? n); lia. Qed.

(** ** Writing *)

Definition say (bs : list Z) (s : sock) : sock := Sock (sent s ++ bs) (room s - zlen bs) (inc s).

Lemma write_ok bs s : zlen bs ≤ room s → write bs s = Ok (zlen bs, say bs s).
Proof.
  intros H. unfold write, say. pose proof (zlen_nonneg bs). destruct (Z.eqb_spec (zlen bs) 0) as [E|].
  { assert (bs = []) as -> by (apply nil_length_inv; unfold zlen in E; lia). destruct s as [a b c]. simpl.
    by rewrite app_nil_r, Z.sub_0_r. }
  rewrite (proj2 (Z.leb_gt _ _)) by lia. rewrite Z.min_l by done. unfold zlen. by rewrite Nat2Z.id, firstn_all.
Qed.

Lemma writen_ok bs s : zlen bs ≤ room s → writen bs s = Ok (zlen bs, say bs s).
Proof.
  intros H. unfold writen. pose proof (zlen_nonneg bs).
  assert (∀ s', writen_body bs 0 s' = Ok (inr (zlen bs), s')) as E0 by (intros s'; unfold writen_body; simpl; by rewrite Z.sub_0_r).
  destruct (decide (bs = [])) as [->|Hne].
  - change (zlen (@nil Z)) with 0. rewrite iter_S, (bind_ok _ _ _ _ _ (E0 s)). unfold say. destruct s. simpl. by rewrite app_nil_r, Z.sub_0_r.
  - assert (0 < zlen bs) by (destruct bs; [done|rewrite zlen_cons; pose proof (zlen_nonneg bs); lia]).
    assert (writen_body bs (zlen bs) s = Ok (inl 0, say bs s)) as E1.
    { unfold writen_body. rewrite (proj2 (Z.ltb_lt _ _)), Z.sub_diag, drop_0, (bind_ok _ _ _ _ _ (write_ok bs s H)) by done.
      rewrite (proj2 (Z.ltb_ge _ _)), (proj2 (Z.eqb_neq _ _)) by lia. by rewrite Z.sub_diag. }
    by rewrite iter_S, (bind_ok _ _ _ _ _ E1), iter_S, (bind_ok _ _ _ _ _ (E0 _)).
Qed.

(** ** Records on the wire and in files *)

Definition req_ok (r : printreq) : Prop :=
  0 ≤ size r < 2 ^ 32 ∧ 0 ≤ flags r < 2 ^ 32 ∧ zlen (usernm r) = USERNM_MAX ∧ zlen (jobnm r) = JOBNM_MAX.

Lemma bread_last a b off n : off = zlen a → n = zlen b → bread (a ++ b) off n = b.
Proof. intros ? ?. pose proof (bread_mid a b [] off n). rewrite app_nil_r in *. auto. Qed.

Lemma fields_ok a b u j : zlen a = 4 → zlen b = 4 → zlen u = USERNM_MAX → zlen j = JOBNM_MAX →
  let s := a ++ b ++ u ++ j in
  bread s 0 4 = a ∧ bread s 4 4 = b ∧ bread s 8 USERNM_MAX = u ∧ bread s (8 + USERNM_MAX) JOBNM_MAX = j.
Proof.
  intros Ha Hb Hu Hj s. unfold s. split_and!.
  - by apply (bread_mid []).
  - by apply bread_mid.
  - rewrite app_assoc. apply bread_mid; [rewrite zlen_app; lia|done].
  - rewrite app_assoc, app_assoc. apply bread_last; [rewrite !zlen_app; lia|done].
Qed.

Lemma req_net_ok r : req_ok r → net_req (req_net r) = r ∧ zlen (req_net r) = SIZEOF_printreq.
Proof.
  intros (Hs & Hf & Hu & Hj). unfold net_req, req_net.
  destruct (fields_ok (be32 (size r)) (be32 (flags r)) (usernm r) (jobnm r)) as (-> & -> & -> & ->); [done..|].
  rewrite !of_be_be32, !Z.mod_small by done. split; [by destruct r|]. rewrite !zlen_app, Hu, Hj. done.
Qed.

Lemma req_host_ok r : req_ok r → host_req (req_host r) = r ∧ zlen (req_host r) = SIZEOF_printreq.
Proof.
  intros (Hs & Hf & Hu & Hj). unfold host_req, req_host.
  destruct (fields_ok (reverse (be32 (size r))) (reverse (be32 (flags r))) (usernm r) (jobnm r)) as (-> & -> & -> & ->); [done..|].
  rewrite !reverse_involutive, !of_be_be32, !Z.mod_small by done. split; [by destruct r|]. rewrite !zlen_app, Hu, Hj. done.
Qed.

(** Any bytes of the right number are some request. *)
Lemma of_be_range bs : Forall (λ c, 0 ≤ c < 256) bs → 0 ≤ of_be bs < 2 ^ (8 * zlen bs).
Proof.
  unfold of_be. intros H. enough (∀ a m, 0 ≤ m → 0 ≤ a < 2 ^ (8 * m) → 0 ≤ foldl (λ a b, 256 * a + b) a bs < 2 ^ (8 * (m + zlen bs))) as HH.
  { specialize (HH 0 0). rewrite Z.add_0_l in HH. apply HH; lia. }
  induction H as [|c bs Hc _ IH]; intros a m Hm Ha; [simpl; unfold zlen; simpl; by rewrite Z.add_0_r|].
  simpl. rewrite zlen_cons, Z.add_assoc. apply IH; [lia|]. replace (8 * (m + 1)) with (8 + 8 * m) by lia.
  rewrite Z.pow_add_r by lia. change (2 ^ 8) with 256. lia.
Qed.

Lemma net_req_ok b : zlen b = SIZEOF_printreq → Forall (λ c, 0 ≤ c < 256) b → req_ok (net_req b).
Proof.
  intros Hl Hb. unfold req_ok, net_req, bread. cbn [size flags usernm jobnm].
  assert (∀ k n, zlen (take k (drop n b)) = Z.of_nat (Nat.min k (Z.to_nat SIZEOF_printreq - n))) as HL.
  { intros k n. unfold zlen in *. rewrite length_take, length_drop. do 2 f_equal. lia. }
  assert (∀ k n, Forall (λ c, 0 ≤ c < 256) (take k (drop n b))) as HF by (intros k n; by apply Forall_take, Forall_drop).
  pose proof (of_be_range _ (HF (Z.to_nat 4) (Z.to_nat 0))) as H1. pose proof (of_be_range _ (HF (Z.to_nat 4) (Z.to_nat 4))) as H2.
  rewrite HL in H1, H2. split_and!; [apply H1|apply H1|apply H2|apply H2|by rewrite HL|by rewrite HL].
Qed.

Definition resp_ok (r : printresp) : Prop := 0 ≤ retcode r < 2 ^ 32 ∧ 0 ≤ resp_jobid r < 2 ^ 32 ∧ zlen (msg r) = MSGLEN_MAX.
Lemma resp_net_ok r : resp_ok r → net_resp (resp_net r) = r ∧ zlen (resp_net r) = SIZEOF_printresp.
Proof.
  intros (Hc & Hj & Hm). unfold net_resp, resp_net. split; [|by rewrite !zlen_app, Hm].
  rewrite (bread_mid [] (be32 (retcode r)) (be32 (resp_jobid r) ++ msg r)), (bread_mid (be32 (retcode r)) (be32 (resp_jobid r)) (msg r)) by done.
  rewrite app_assoc, bread_last by done. rewrite !of_be_be32, !Z.mod_small by done. by destruct r.
Qed.

(** ** The header of a request *)

Lemma strcpy_buf_ok old s : zlen s < zlen old → zlen (strcpy_buf old s) = zlen old.
Proof. intros H. unfold strcpy_buf, zlen in *. rewrite length_app. simpl. rewrite length_drop. lia. Qed.

(** The names a user can give: the last 251 characters of a long file name, after dots. *)
Definition job_name (fname : list Z) : list Z :=
  if JOBNM_MAX <=? zlen fname then bytes "... " ++ drop (Z.to_nat (zlen fname - 251)) fname else fname.

Lemma job_name_length fname : zlen (job_name fname) < JOBNM_MAX.
Proof.
  unfold job_name. destruct (Z.leb_spec JOBNM_MAX (zlen fname)) as [H|H]; [|done].
  rewrite zlen_app. unfold zlen, JOBNM_MAX in *. rewrite length_drop. change (Z.of_nat (length (bytes "... "))) with 4. lia.
Qed.

Lemma submit_header_ok su sj user nbytes fname text :
  zlen su = USERNM_MAX → zlen sj = JOBNM_MAX → 0 ≤ nbytes < 2 ^ 32 → no_nul fname → (∀ n, user = Some n → no_nul n) →
  let r := submit_header su sj user nbytes fname text in
  req_ok r ∧ cstr (usernm r) = default (bytes "unknown") (take 63 <$> user) ∧ 0 ∈ usernm r ∧
  cstr (jobnm r) = job_name fname ∧ 0 ∈ jobnm r.
Proof.
  intros Hsu Hsj Hn Hf Hu r. subst r. unfold submit_header, req_ok. cbn [size flags usernm jobnm].
  assert (∀ s old, no_nul s → cstr (strcpy_buf old s) = s ∧ 0 ∈ strcpy_buf old s) as Hc.
  { intros s old Hs. split; [by apply cstr_app|]. apply elem_of_app. right. left. }
  set (u := match user with Some _ => _ | None => _ end).
  assert (zlen u = USERNM_MAX ∧ cstr u = default (bytes "unknown") (take 63 <$> user) ∧ 0 ∈ u) as (Hu1 & Hu2 & Hu3).
  { subst u. destruct user as [n|]; simpl.
    - specialize (Hu n eq_refl). unfold strncpy. rewrite cstr_id by done. change (Z.to_nat (USERNM_MAX - 1)) with 63%nat.
      rewrite take_take, Nat.min_id. split; [|split; [|apply elem_of_app; right; left]].
      + unfold zlen. rewrite length_app, length_take, length_app, length_replicate. simpl length. unfold USERNM_MAX. lia.
      + destruct (le_lt_dec 63 (length n)) as [Hl|Hl].
        * rewrite take_app_le by lia. by apply cstr_app, Forall_take.
        * rewrite take_app_ge, (take_ge n), <- app_assoc by lia. rewrite take_replicate.
          replace (Nat.min (63 - length n) 63) with (S (63 - length n - 1)) by lia. cbn [replicate app]. by apply cstr_app.
    - rewrite strcpy_buf_ok by (by rewrite Hsu). split; [done|]. apply (Hc (bytes "unknown")). repeat constructor; done. }
  match goal with |- context [cstr ?x = job_name fname] => set (j := x) end.
  assert (zlen j = JOBNM_MAX ∧ cstr j = job_name fname ∧ 0 ∈ j) as (Hj1 & Hj2 & Hj3).
  { assert (j = strcpy_buf sj (job_name fname)) as ->.
    { subst j. unfold job_name, JOBNM_MAX. case_test; [|done]. do 2 f_equal. rewrite take_ge; [f_equal; lia|]. unfold zlen in *. rewrite length_drop. lia. }
    assert (no_nul (job_name fname)) as Hjn.
    { unfold job_name. case_match; [|done]. apply Forall_app. split; [repeat constructor; done|by apply Forall_drop]. }
    rewrite strcpy_buf_ok by (rewrite Hsj; apply job_name_length). split; [done|]. by apply Hc. }
  split_and!; try done; destruct text; unfold PR_TEXT; lia.
Qed.

(** ** The client *)

Lemma say_say a b s : say b (say a s) = say (a ++ b) s.
Proof. unfold say. simpl. rewrite app_assoc, zlen_app. f_equal. lia. Qed.

Lemma submit_block_ok rf content s : (∀ r, rf r = false) → zlen content ≤ room s →
  submit_block rf content s =
    Ok (if bool_decide (content = []) then inr () else inl (drop (Z.to_nat IOBUFSZ) content), say (take (Z.to_nat IOBUFSZ) content) s).
Proof.
  intros Hrf Hr. unfold submit_block. rewrite Hrf. set (n := Z.to_nat IOBUFSZ). assert (0 < n)%nat by (unfold n, IOBUFSZ; lia).
  assert (zlen (take n content) ≤ zlen content) by (unfold zlen; rewrite length_take; lia).
  case_bool_decide as Hc; [subst content|].
  - rewrite take_nil. change (zlen (@nil Z)) with 0. simpl. unfold say. destruct s. simpl. by rewrite app_nil_r, Z.sub_0_r.
  - rewrite (proj2 (Z.eqb_neq _ _)), (bind_ok _ _ _ _ _ (writen_ok (take n content) s ltac:(lia))), Z.eqb_refl; [done|].
    destruct content; [done|]. destruct n; [lia|]. simpl. rewrite zlen_cons. pose proof (zlen_nonneg (take n content)). lia.
Qed.

Lemma submit_blocks_ok rf fuel content s : (∀ r, rf r = false) → (length content < fuel)%nat → zlen content ≤ room s →
  iter fuel (submit_block rf) content s = Ok ((), say content s).
Proof.
  intros Hrf. revert content s. induction fuel as [|fuel IH]; intros content s Hf Hr; [lia|].
  rewrite iter_S, (bind_ok _ _ _ _ _ (submit_block_ok rf content s Hrf Hr)). case_bool_decide as Hc; [subst; done|].
  pose proof (take_drop (Z.to_nat IOBUFSZ) content) as E. set (buf := take (Z.to_nat IOBUFSZ) content) in *. set (rest := drop _ content) in *.
  assert (zlen content = zlen buf + zlen rest) as El by (rewrite <- E; apply zlen_app).
  assert (length rest < length content)%nat.
  { unfold rest. rewrite length_drop. destruct content; [done|]. unfold IOBUFSZ. simpl length. lia. }
  rewrite IH; [|lia|simpl; lia]. by rewrite say_say, E.
Qed.

(** [print] sends the header and the file, and believes the answer. *)
Lemma submit_file_ok su sj rf user content fname text s r : (∀ b, rf b = false) →
  zlen su = USERNM_MAX → zlen sj = JOBNM_MAX → zlen content < 2 ^ 32 → no_nul fname → (∀ n, user = Some n → no_nul n) →
  SIZEOF_printreq + zlen content ≤ room s → resp_ok r →
  pieces_ok (inc s) → (∃ t, arrived (filter is_data (inc s)) = resp_net r ++ t) →
  ∃ c, submit_file su sj rf user content fname text s =
    Ok (if retcode r =? 0 then Some (resp_jobid r) else None,
        Sock (sent s ++ req_net (submit_header su sj user (zlen content) fname text) ++ content)
             (room s - SIZEOF_printreq - zlen content) c).
Proof.
  intros Hrf Hsu Hsj Hn Hf Hu Hroom Hr Hp [t Ht]. pose proof (zlen_nonneg content).
  destruct (submit_header_ok su sj user (zlen content) fname text) as [Hreq _]; [done..|].
  set (h := submit_header _ _ _ _ _ _) in *. destruct (req_net_ok h Hreq) as [_ Hlen]. destruct (resp_net_ok r Hr) as [Er Hrl].
  unfold submit_file. fold h. rewrite (bind_ok _ _ _ _ _ (writen_ok (req_net h) s ltac:(lia))), Hlen, Z.eqb_refl. cbn [negb].
  rewrite (bind_ok _ _ _ _ _ (submit_blocks_ok rf (S (length content)) content (say (req_net h) s) Hrf ltac:(lia) ltac:(simpl; lia))), say_say.
  destruct (treadn_ok SIZEOF_printresp (filter is_data (inc s))) as (c & E & _).
  - done.
  - unfold pieces_ok in *. rewrite Forall_forall in *. intros a Ha. apply Hp. by apply list_elem_of_filter in Ha as [_ ?].
  - rewrite Ht, zlen_app, Hrl. pose proof (zlen_nonneg t). lia.
  - exists c. assert (take (Z.to_nat SIZEOF_printresp) (resp_net r ++ t) = resp_net r) as Etake.
    { rewrite <- Hrl. unfold zlen. by rewrite Nat2Z.id, take_app_length. }
    rewrite Ht, Etake in E.
    assert (sreadn SIZEOF_printresp (say (req_net h ++ content) s) =
      Ok (Some (resp_net r), Sock (sent (say (req_net h ++ content) s)) (room (say (req_net h ++ content) s)) c)) as Es.
    { unfold sreadn. simpl. by rewrite E. }
    rewrite (bind_ok _ _ _ _ _ Es). cbv beta iota. rewrite Hrl, Er, Z.eqb_refl. cbn [negb].
    unfold say. cbn [sent room]. rewrite zlen_app, Hlen, Z.sub_add_distr. by destruct (retcode r =? 0).
Qed.

(** ** The configuration file *)

(** A word that [scanf] reads whole. *)
Definition word (w : nat) (s : list Z) : Prop := s ≠ [] ∧ (length s ≤ w)%nat ∧ Forall (λ c, isspace c = false ∧ c ≠ 0) s.

Lemma take_word_ok w s r : word w s → (∀ c r', r = c :: r' → isspace c = true) → take_word w (s ++ r) = (s, r).
Proof.
  intros (_ & Hw & Hs) Hr. revert w Hw. induction Hs as [|c s [Hc _] _ IH]; intros w Hw; simpl in Hw.
  - destruct w, r as [|c r]; try done. simpl. by rewrite (Hr c r).
  - destruct w as [|w]; [lia|]. simpl. rewrite Hc, IH by lia. done.
Qed.

Lemma scan_word_ok w s r : word w s → (∀ c r', r = c :: r' → isspace c = true) → scan_word w (s ++ r) = Some (s, r) ∧ scan_word w (32 :: s ++ r) = Some (s, r).
Proof.
  intros Hs Hr. pose proof (take_word_ok _ _ _ Hs Hr) as E. destruct Hs as (Hne & Hw & Hs). unfold scan_word. destruct s as [|c s]; [done|].
  apply Forall_cons in Hs as [[Hc _] _]. simpl. rewrite Hc. change (c :: s ++ r) with ((c :: s) ++ r). by rewrite E.
Qed.

(** A configuration of keywords with values. *)
Definition config (entries : list (list Z * list Z)) : list Z := entries ≫= λ e, e.1 ++ 32 :: e.2 ++ [10].
Definition config_ok (entries : list (list Z * list Z)) : Prop := Forall (λ e, word 15 e.1 ∧ word 400 e.2) entries.

(** [scan_configfile] finds the first value of a keyword. *)
Lemma scan_configfile_ok keyword entries : config_ok entries →
  scan_configfile keyword (config entries) = snd <$> head (filter (λ e, e.1 = keyword) entries).
Proof.
  intros He. unfold scan_configfile. assert (length (config entries) < S (length (config entries)))%nat as Hf by lia.
  revert Hf. generalize (S (length (config entries))) as fuel. induction He as [|[k v] entries [Hk Hv] _ IH]; intros [|fuel] Hf; try (simpl in Hf; lia); [done|].
  simpl in Hk, Hv. unfold config in *. rewrite bind_cons in *. cbn [fst snd] in *. 
  assert (∀ w s c, word w s → c ∈ s → c ≠ 10 ∧ c ≠ 0) as Hw.
  { intros w s c (_ & _ & Hs) Hc. rewrite Forall_forall in Hs. destruct (Hs c Hc) as [H1 H2]. split; [by intros ->|done]. }
  assert ((k ++ 32 :: v ++ [10]) ++ (entries ≫= λ e, e.1 ++ 32 :: e.2 ++ [10]) = (k ++ 32 :: v) ++ 10 :: (entries ≫= λ e, e.1 ++ 32 :: e.2 ++ [10])) as E.
  { rewrite <- !app_assoc. simpl. by rewrite <- app_assoc. }
  rewrite E in Hf |- *. cbn [scan_lines].
  rewrite fgets_line.
  2: { rewrite elem_of_app, elem_of_cons. intros [H|[H|H]]; [by destruct (Hw _ _ _ Hk H)|done|by destruct (Hw _ _ _ Hv H)]. }
  2: { destruct Hk as (_ & Hk & _), Hv as (_ & Hv & _). unfold zlen. rewrite length_app. simpl. lia. }
  destruct ((k ++ 32 :: v) ++ [10]) as [|x l] eqn:El; [by destruct k|]. rewrite <- El. rewrite cstr_id.
  2: { apply Forall_app. split; [apply Forall_app; split; [|apply Forall_cons; split; [done|]]|by repeat constructor];
       rewrite Forall_forall; intros c Hc; [by destruct (Hw _ _ _ Hk Hc)|by destruct (Hw _ _ _ Hv Hc)]. }
  unfold scan_line. rewrite <- app_assoc. destruct (scan_word_ok 15 k ((32 :: v) ++ [10]) Hk) as [-> _]; [by intros c r' [= <- _]|].
  destruct (scan_word_ok 511 v [10]) as [_ Hv']; [destruct Hv as (? & ? & ?); split_and!; [done|lia|done]|by intros c r' [= <- _]|].
  cbn [app]. rewrite Hv'. case_bool_decide as Hk'; [by rewrite filter_cons_True|].
  rewrite filter_cons_False by done. apply IH. rewrite length_app in Hf. simpl in Hf. lia.
Qed.
