(* ===== verification/PrintIpp.v ===== *)
(** The messages between the spooler and the printer, [apue.3e/printer/ipp.h] and [printd.c]:
    the headers of a request ([add_option] and the first half of [printer_thread]), and
    [printer_status], which reads and parses the response. *)
From S2P Require Import Prelude CLib Print.

(** ** Building a request *)

Definition OP_PRINT_JOB : Z := 2.
Definition TAG_OPERATION_ATTR : Z := 1.
Definition TAG_END_OF_ATTR : Z := 3.
Definition TAG_NAMEWOLANG : Z := 66.
Definition TAG_URI : Z := 69.
Definition TAG_CHARSET : Z := 71.
Definition TAG_NATULANG : Z := 72.
Definition TAG_MIMETYPE : Z := 73.

(** [htons] and the two bytes it is stored as. *)
Definition be16 (z : Z) : list Z := [(z / 2 ^ 8) mod 256; z mod 256].

Section request.
Context {S : Type}.

(** Bytes stored at the pointer into a buffer of [cap] bytes; [cp] is what is before it. *)
Definition put (cap : Z) (bs cp : list Z) : M S (list Z) :=
  if zlen cp + zlen bs <=? cap then mret (cp ++ bs) else fail (UB "write beyond the buffer").
(** [strcpy] to the pointer also stores a NUL, which the next bytes overwrite. *)
Definition put_str (cap : Z) (s cp : list Z) : M S (list Z) :=
  if zlen cp + zlen s <? cap then mret (cp ++ s) else fail (UB "string copied beyond the buffer").

Definition add_option (tag : Z) (optname optval cp : list Z) : M S (list Z) :=
  cp ← put IBUFSZ [tag] cp;
  cp ← put IBUFSZ (be16 (zlen optname)) cp;
  cp ← put_str IBUFSZ optname cp;
  cp ← put IBUFSZ (be16 (zlen optval)) cp;
  put_str IBUFSZ optval cp.

(** A name in its buffer, to its end. *)
Definition c_string (buf : list Z) : M S (list Z) :=
  if bool_decide (0 ∈ buf) then mret (cstr buf) else fail (UB "string without terminator").

Definition is_text (r : printreq) : bool := has_flag (flags r) PR_TEXT.

(** The IPP header of a job. *)
Definition ipp_header (printer_name : list Z) (jobid : Z) (r : printreq) : M S (list Z) :=
  icp ← put IBUFSZ ([1; 1] ++ be16 OP_PRINT_JOB ++ be32 jobid) [];
  icp ← put IBUFSZ [TAG_OPERATION_ATTR] icp;
  icp ← add_option TAG_CHARSET (bytes "attributes-charset") (bytes "utf-8") icp;
  icp ← add_option TAG_NATULANG (bytes "attributes-natural-language") (bytes "en-us") icp;
  str ← strcpy 64 (bytes "http://" ++ printer_name ++ bytes "/ipp");
  icp ← add_option TAG_URI (bytes "printer-uri") str icp;
  user ← c_string (usernm r);
  icp ← add_option TAG_NAMEWOLANG (bytes "requesting-user-name") user icp;
  job ← c_string (jobnm r);
  icp ← add_option TAG_NAMEWOLANG (bytes "job-name") job icp;
  icp ← add_option TAG_MIMETYPE (bytes "document-format") (if is_text r then bytes "text/plain" else bytes "application/postscript") icp;
  put IBUFSZ [TAG_END_OF_ATTR] icp.

Definition CRLF : list Z := [13; 10].

(** The HTTP header, before an IPP header of [ilen] bytes and [size] bytes of data. *)
Definition http_header (printer_name : list Z) (size ilen extra : Z) : M S (list Z) :=
  hcp ← put_str HBUFSZ (bytes "POST /ipp HTTP/1.1" ++ CRLF) [];
  hcp ← put_str HBUFSZ (bytes "Content-Length: " ++ dec (size + ilen + extra) ++ CRLF) hcp;
  hcp ← put_str HBUFSZ (bytes "Content-Type: application/ipp" ++ CRLF) hcp;
  hcp ← put_str HBUFSZ (bytes "Host: " ++ printer_name ++ bytes ":" ++ dec IPP_PORT ++ CRLF) hcp;
  put HBUFSZ CRLF hcp.
End request.

(** ** The response *)

(** The connection and the buffer [bp]; its size is [bufsz]. *)
Record rx := Rx { rsock : sock; buf : list Z }.
Definition set_rsock (v : sock) (s : rx) : rx := Rx v (buf s).
Definition set_buf (v : list Z) (s : rx) : rx := Rx (rsock s) v.

Section response.
(** The contents of fresh memory, and the sizes of buffers there is memory for. *)
Context (fresh : Z → Z) (allocate : Z → bool).
Definition memory (off n : Z) : list Z := fresh <$> seqZ off n.

(** [*cp] for [cp] at [i], and a store to it. *)
Definition peek (i : Z) : M rx Z :=
  b ← gets buf;
  match (if i <? 0 then None else b !! Z.to_nat i) with Some c => mret c | None => fail (UB "read beyond the buffer") end.
Definition poke (i c : Z) : M rx () :=
  b ← gets buf;
  if (i <? 0) || (zlen b <=? i) then fail (UB "write beyond the buffer") else modify (set_buf (<[Z.to_nat i := c]> b)).

(** [tread] into the buffer at [off]: the number of bytes, 0 at the end, -1 for a time-out. *)
Definition tread_at (off n : Z) : M rx Z := λ s,
  let '(r, c) := tread n (inc (rsock s)) in
  let s' := set_rsock (Sock (sent (rsock s)) (room (rsock s)) c) s in
  match r with
  | Some bs => Ok (zlen bs, set_buf (bwrite (buf s') off bs) s')
  | None => Ok (-1, s')
  end.

Definition bufsz : M rx Z := gets (λ s, zlen (buf s)).

Definition readmore (off : Z) : M rx Z :=
  bsz ← bufsz;
  _ ← when (bsz <=? off)
        (if allocate (bsz + IOBUFSZ) then modify (λ s, set_buf (buf s ++ memory bsz IOBUFSZ) s)
         else fail (Quit "can't allocate bigger read buffer"));
  bsz ← bufsz;
  nr ← tread_at off (bsz - off);
  mret (if 0 <? nr then off + nr else -1).

(** [while (p( *cp)) cp++;] *)
Definition scan_body (p : Z → bool) (i : Z) : M rx (Z + Z) := c ← peek i; mret (if p c then inl (i + 1) else inr i).
Definition scan (p : Z → bool) (i : Z) : M rx Z := n ← bufsz; iter (S (Z.to_nat n)) (scan_body p) i.

Definition tolower (c : Z) : Z := if (65 <=? c) && (c <=? 90) then c + 32 else c.
(** [strncasecmp(cp, pat, strlen(pat)) == 0], which stops at the first difference. *)
Fixpoint match_at (pat : list Z) (i : Z) : M rx bool :=
  match pat with
  | [] => mret true
  | p :: pat' => c ← peek i; if tolower c =? tolower p then match_at pat' (i + 1) else mret false
  end.

(** [log_msg] with the response itself as the format. *)
Definition log_response : M rx () :=
  b ← gets buf;
  if bool_decide (0 ∈ b) && negb (bool_decide (37 ∈ cstr b)) then mret () else fail (UB "response used as a format").

Definition HTTP_INFO (x : Z) : bool := (100 <=? x) && (x <=? 199).
Definition HTTP_SUCCESS (x : Z) : bool := (200 <=? x) && (x <=? 299).
Definition STATCLASS_OK (x : Z) : bool := (0 <=? x) && (x <=? 255).

(** In the loops below [cp] is always [bp + i]. *)

(** [if (i >= datsz)]: get more; the new [datsz], or [None] for [goto out]. *)
Definition more_header (i datsz : Z) : M rx (option Z) :=
  nr ← readmore i; mret (if nr <? 0 then None else Some (datsz + nr)).
Definition more_at_end (i datsz : Z) : M rx (option Z) :=
  if datsz <=? i then more_header i datsz else mret (Some datsz).

Definition skip_body (datsz i : Z) : M rx (Z + Z) :=
  c ← peek i;
  mret (if negb (c =? 67) && negb (c =? 99) && (i <? datsz) then inl (i + 1) else inr i).

(** One turn of the search for the length: [inr (Some (i, datsz, len))] when it was found. *)
Definition length_body (x : Z * Z) : M rx (Z * Z + option (Z * Z * Z)) :=
  let '(i, datsz) := x in
  n ← bufsz;
  i ← iter (S (Z.to_nat n)) (skip_body datsz) i;
  d ← more_at_end i datsz;
  match d with
  | None => mret (inr None)
  | Some datsz =>
      found ← match_at (bytes "Content-Length:") i;
      if found : bool then
        contentlen ← scan isspace (i + 15);
        cp ← scan isdigit contentlen;
        _ ← poke cp 0;
        b ← gets buf;
        mret (inr (Some (cp + 1, datsz, atoi (drop (Z.to_nat contentlen) b))))
      else mret (inl (i + 1, datsz))
  end.

(** The inner loop for the end of the header: [inr i] with the place, and whether it was found. *)
Definition end_inner (datsz i : Z) : M rx (Z + (Z * bool)) :=
  if i <? datsz - 2 then
    c0 ← peek i;
    if negb (c0 =? 10) then mret (inl (i + 1)) else
    c1 ← peek (i + 1);
    if negb (c1 =? 13) then mret (inl (i + 1)) else
    c2 ← peek (i + 2);
    if negb (c2 =? 10) then mret (inl (i + 1)) else mret (inr (i + 3, true))
  else mret (inr (i, false)).
Definition end_body (x : Z * Z) : M rx (Z * Z + option (Z * Z)) :=
  let '(i, datsz) := x in
  r ← iter (S (Z.to_nat datsz)) (end_inner datsz) i;
  let '(i, found) := (r : Z * bool) in
  d ← more_at_end i datsz;
  match d with
  | None => mret (inr None)
  | Some datsz => mret (if found then inr (Some (i, datsz)) else inl (i, datsz))
  end.

(** [fuel] bounds the turns of the loops that read more. *)
Context (fuel : nat) (jobid : Z).

(** After the status line: the result of [printer_status]. *)
Definition ipp_status (i datsz : Z) : M rx bool :=
  r ← iter fuel length_body (i, datsz);
  match r with
  | None => mret false
  | Some (i, datsz, len) =>
      d ← more_at_end i datsz;
      match d with
      | None => mret false
      | Some datsz =>
          r ← iter fuel end_body (i, datsz);
          match r with
          | None => mret false
          | Some (i, datsz) =>
              d ← (if datsz - i <? len then more_header i datsz else mret (Some datsz));
              match d with
              | None => mret false
              | Some _ =>
                  b ← gets buf;
                  if zlen b <? i + 8 then fail (UB "read beyond the buffer") else
                  let st := wrap_u 16 (of_be (bread b (i + 2) 2)) in
                  mret ((of_be32 (bread b (i + 4) 4) =? jobid) && STATCLASS_OK st)
              end
          end
      end
  end.

(** One turn of the outer loop. *)
Definition status_body (_ : ()) : M rx (() + bool) :=
  n ← bufsz;
  nr ← tread_at 0 n;
  if nr <=? 0 then mret (inr false) else
  statcode ← scan isspace 8;
  cp ← scan isdigit statcode;
  if cp =? statcode then _ ← log_response; mret (inl ()) else
  _ ← poke cp 0;
  cp ← scan (λ c, negb (c =? 13) && negb (c =? 10)) (cp + 1);
  _ ← poke cp 0;
  b ← gets buf;
  let code := atoi (drop (Z.to_nat statcode) b) in
  if HTTP_INFO code then mret (inl ()) else
  if negb (HTTP_SUCCESS code) then _ ← poke nr 0; mret (inr false) else
  ok ← ipp_status cp nr;
  mret (inr ok).
Definition printer_status : M sock bool := λ s,
  if negb (allocate IOBUFSZ) then Fault (Quit "can't allocate read buffer") else
  match iter fuel status_body () (Rx s (memory 0 IOBUFSZ)) with
  | Ok (ok, r) => Ok (ok, rsock r)
  | Fault f => Fault f
  end.
End response.

(** ** Requests *)

(** An attribute as RFC 2910 lays it out, and a message with its attributes. *)
Definition attr (a : Z * list Z * list Z) : list Z :=
  let '(tag, name, val) := a in [tag] ++ be16 (zlen name) ++ name ++ be16 (zlen val) ++ val.

Fixpoint parse_attrs (fuel : nat) (s : list Z) : option (list (Z * list Z * list Z)) :=
  match fuel, s with
  | S fuel, tag :: s' =>
      if tag =? TAG_END_OF_ATTR then match s' with [] => Some [] | _ => None end else
      let n := Z.to_nat (of_be (take 2 s')) in
      let s1 := drop 2 s' in
      let m := Z.to_nat (of_be (take 2 (drop n s1))) in
      let s2 := drop 2 (drop n s1) in
      cons (tag, take n s1, take m s2) <$> parse_attrs fuel (drop m s2)
  | _, _ => None
  end.
(** Operation, request number and attributes of a version 1.1 request. *)
Definition parse_ipp (s : list Z) : option (Z * Z * list (Z * list Z * list Z)) :=
  match s with
  | 1 :: 1 :: s' =>
      match drop 6 s' with
      | tag :: s'' => if tag =? TAG_OPERATION_ATTR then (λ l, (of_be (take 2 s'), of_be32 (take 4 (drop 2 s')), l)) <$> parse_attrs (S (length s'')) s'' else None
      | [] => None
      end
  | _ => None
  end.

Definition attr_ok (a : Z * list Z * list Z) : Prop := a.1.1 ≠ TAG_END_OF_ATTR ∧ zlen a.1.2 < 2 ^ 16 ∧ zlen a.2 < 2 ^ 16.

Lemma of_be_be16 z : 0 ≤ z < 2 ^ 16 → of_be (be16 z) = z.
Proof. intros. unfold of_be, be16. cbn [foldl]. change (2 ^ 8) with 256. change (2 ^ 16) with 65536 in *. Z.to_euclidean_division_equations. lia. Qed.

Lemma zlen_be16 z : zlen (be16 z) = 2.
Proof. done. Qed.

Lemma zlen_attr tag name val : zlen (attr (tag, name, val)) = 5 + zlen name + zlen val.
Proof. unfold attr. rewrite !zlen_app, !zlen_be16. change (zlen [tag]) with 1. lia. Qed.

Lemma parse_attrs_ok l fuel : Forall attr_ok l → (length (l ≫= attr) < fuel)%nat →
  parse_attrs fuel ((l ≫= attr) ++ [TAG_END_OF_ATTR]) = Some l.
Proof.
  intros Hl. revert fuel. induction Hl as [|[[tag name] val] l (Ht & Hn & Hv) _ IH]; intros [|fuel] Hf; try (simpl in Hf; lia); [done|].
  simpl in Ht, Hn, Hv. pose proof (zlen_nonneg name). pose proof (zlen_nonneg val).
  rewrite bind_cons in *. rewrite length_app in Hf. unfold attr at 1 in Hf. cbn [length app] in Hf.
  unfold attr at 1. rewrite <- !app_assoc. cbn [parse_attrs app]. rewrite (proj2 (Z.eqb_neq _ _)) by done.
  rewrite !take_app_length', !drop_app_length' by done. rewrite !of_be_be16 by lia.
  assert (∀ s : list Z, Z.to_nat (zlen s) = length s) as E by (intros; unfold zlen; lia). rewrite !E.
  rewrite !take_app_length, !drop_app_length. rewrite !take_app_length', !drop_app_length' by done. rewrite !of_be_be16, !E by lia.
  rewrite !take_app_length, !drop_app_length. rewrite IH; [done|]. lia.
Qed.

(** The pointer moves over what was stored, or the buffer overflows. *)
Lemma put_ok {S} cap bs cp (s : S) : zlen cp + zlen bs ≤ cap → put cap bs cp s = Ok (cp ++ bs, s).
Proof. intros. unfold put. by rewrite (proj2 (Z.leb_le _ _)). Qed.
Lemma put_str_ok {S} cap bs cp (s : S) : zlen cp + zlen bs < cap → put_str cap bs cp s = Ok (cp ++ bs, s).
Proof. intros. unfold put_str. by rewrite (proj2 (Z.ltb_lt _ _)). Qed.

Lemma add_option_ok {S} tag name val cp (s : S) : zlen cp + zlen (attr (tag, name, val)) < IBUFSZ →
  add_option tag name val cp s = Ok (cp ++ attr (tag, name, val), s).
Proof.
  intros H. rewrite zlen_attr in H. pose proof (zlen_nonneg name). pose proof (zlen_nonneg val).
  unfold add_option, put, put_str, mbind, M_bind, fail, mret, M_ret, attr. assert (zlen [tag] = 1) by done.
  repeat (case_test; [|exfalso; rewrite ?zlen_app, ?zlen_be16 in *; lia]). by rewrite <- !app_assoc.
Qed.

Lemma add_option_full {S} tag name val cp (s : S) : IBUFSZ ≤ zlen cp + zlen (attr (tag, name, val)) →
  ∃ w, add_option tag name val cp s = Fault (UB w).
Proof.
  intros H. rewrite zlen_attr in H. unfold add_option, put, put_str, mbind, M_bind, fail, mret, M_ret.
  repeat (case_test; [|by eexists]). assert (zlen [tag] = 1) by done. rewrite !zlen_app, !zlen_be16 in *. lia.
Qed.

Fixpoint put_attrs {S} (l : list (Z * list Z * list Z)) (cp : list Z) : M S (list Z) :=
  match l with [] => mret cp | (tag, name, val) :: l' => cp ← add_option tag name val cp; put_attrs l' cp end.

Lemma put_attrs_ok {S} l cp (s : S) : zlen cp + zlen (l ≫= attr) < IBUFSZ → put_attrs l cp s = Ok (cp ++ (l ≫= attr), s).
Proof.
  revert cp. induction l as [|[[tag name] val] l IH]; intros cp H; [simpl; by rewrite app_nil_r|].
  rewrite bind_cons, zlen_app in H. pose proof (zlen_nonneg (l ≫= attr)). cbn [put_attrs].
  rewrite (bind_ok _ _ _ _ _ (add_option_ok tag name val cp s ltac:(lia))), IH by (rewrite zlen_app; lia). by rewrite bind_cons, app_assoc.
Qed.

Lemma put_attrs_full {S} l cp (s : S) : zlen cp < IBUFSZ → IBUFSZ ≤ zlen cp + zlen (l ≫= attr) → ∃ w, put_attrs l cp s = Fault (UB w).
Proof.
  revert cp. induction l as [|[[tag name] val] l IH]; intros cp H0 H; [unfold zlen in *; simpl in *; lia|].
  rewrite bind_cons, zlen_app in H. cbn [put_attrs].
  destruct (Z.lt_ge_cases (zlen cp + zlen (attr (tag, name, val))) IBUFSZ) as [Hl|Hl].
  - rewrite (bind_ok _ _ _ _ _ (add_option_ok tag name val cp s Hl)). apply IH; rewrite zlen_app; lia.
  - destruct (add_option_full tag name val cp s Hl) as [w E]. exists w. by apply bind_fault.
Qed.

(** The attributes of a job, and the bytes of the header. *)
Definition job_attrs (printer_name user job : list Z) (text : bool) : list (Z * list Z * list Z) :=
  [(TAG_CHARSET, bytes "attributes-charset", bytes "utf-8");
   (TAG_NATULANG, bytes "attributes-natural-language", bytes "en-us");
   (TAG_URI, bytes "printer-uri", bytes "http://" ++ printer_name ++ bytes "/ipp");
   (TAG_NAMEWOLANG, bytes "requesting-user-name", user);
   (TAG_NAMEWOLANG, bytes "job-name", job);
   (TAG_MIMETYPE, bytes "document-format", if text then bytes "text/plain" else bytes "application/postscript")].
Definition ipp_bytes (printer_name : list Z) (jobid : Z) (user job : list Z) (text : bool) : list Z :=
  ([1; 1] ++ be16 OP_PRINT_JOB ++ be32 jobid) ++ [TAG_OPERATION_ATTR] ++ (job_attrs printer_name user job text ≫= attr) ++ [TAG_END_OF_ATTR].
Definition ipp_size (printer_name user job : list Z) (text : bool) : Z :=
  160 + zlen printer_name + zlen user + zlen job + (if text then 10 else 22).

Lemma zlen_attrs p u j text : zlen (job_attrs p u j text ≫= attr) = ipp_size p u j text - 10.
Proof.
  unfold job_attrs, ipp_size. rewrite !bind_cons. change (mbind (M := list) attr []) with (@nil Z). rewrite !zlen_app, !zlen_attr, !zlen_app.
  destruct text; vm_compute (zlen (bytes _)); change (zlen []) with 0; lia.
Qed.

Lemma zlen_ipp p i u j text : zlen (ipp_bytes p i u j text) = ipp_size p u j text.
Proof.
  unfold ipp_bytes. rewrite !zlen_app, zlen_attrs, zlen_be16, zlen_be32. change (zlen [1; 1]) with 2.
  change (zlen [TAG_OPERATION_ATTR]) with 1. change (zlen [TAG_END_OF_ATTR]) with 1. lia.
Qed.

Lemma ipp_header_attrs {S} p jobid r (s : S) : 0 ∈ usernm r → 0 ∈ jobnm r → zlen p < 53 →
  ipp_header p jobid r s =
    (cp ← put_attrs (job_attrs p (cstr (usernm r)) (cstr (jobnm r)) (is_text r)) (([1; 1] ++ be16 OP_PRINT_JOB ++ be32 jobid) ++ [TAG_OPERATION_ATTR]);
     put IBUFSZ [TAG_END_OF_ATTR] cp) s.
Proof.
  intros Hu Hj Hp. unfold ipp_header, strcpy, c_string. rewrite !bool_decide_true by done.
  rewrite (proj2 (Z.ltb_lt _ _)); [|rewrite !zlen_app; change (zlen (bytes "http://")) with 7; change (zlen (bytes "/ipp")) with 4; lia].
  set (h := [1; 1] ++ be16 OP_PRINT_JOB ++ be32 jobid). assert (zlen h = 8) as Hh by done.
  unfold job_attrs. cbn [put_attrs]. rewrite (bind_ok _ _ _ _ _ (put_ok IBUFSZ h [] s ltac:(rewrite Hh; done))).
  rewrite (bind_ok _ _ _ _ _ (put_ok IBUFSZ [TAG_OPERATION_ATTR] h s ltac:(rewrite Hh; done))).
  unfold mbind, M_bind, mret, M_ret. do 6 (match goal with |- context [add_option ?a ?b ?c ?d ?e] => destruct (add_option a b c d e) as [[? ?]|]; [|done] end).
  done.
Qed.

Lemma ipp_header_ok {S} p jobid r (s : S) : 0 ∈ usernm r → 0 ∈ jobnm r → zlen p < 53 →
  let u := cstr (usernm r) in let j := cstr (jobnm r) in
  if bool_decide (ipp_size p u j (is_text r) ≤ IBUFSZ) then ipp_header p jobid r s = Ok (ipp_bytes p jobid u j (is_text r), s)
  else ∃ w, ipp_header p jobid r s = Fault (UB w).
Proof.
  intros Hu Hj Hp u j. rewrite ipp_header_attrs by done. fold u j. set (l := job_attrs p u j (is_text r)). set (h := _ ++ [TAG_OPERATION_ATTR]).
  pose proof (zlen_attrs p u j (is_text r)) as Hl. fold l in Hl. assert (zlen h = 9) as Hh by done.
  case_bool_decide as Hs; unfold IBUFSZ in Hs.
  - rewrite (bind_ok _ _ _ _ _ (put_attrs_ok l h s ltac:(unfold IBUFSZ; lia))).
    rewrite put_ok by (rewrite zlen_app; change (zlen [TAG_END_OF_ATTR]) with 1; unfold IBUFSZ; lia).
    unfold ipp_bytes. fold l. unfold h. by rewrite <- !app_assoc.
  - destruct (put_attrs_full l h s) as [w E]; [unfold IBUFSZ; lia..|]. exists w. by apply bind_fault.
Qed.

Lemma parse_ipp_ok p jobid u j text : - 2 ^ 31 ≤ jobid < 2 ^ 31 → ipp_size p u j text ≤ IBUFSZ →
  parse_ipp (ipp_bytes p jobid u j text) = Some (OP_PRINT_JOB, jobid, job_attrs p u j text).
Proof.
  intros Hid Hs. unfold ipp_bytes. set (body := (job_attrs p u j text ≫= attr) ++ [TAG_END_OF_ATTR]).
  assert (∀ fuel, (length body ≤ fuel)%nat → parse_attrs fuel body = Some (job_attrs p u j text)) as Hb.
  { intros fuel Hf. apply parse_attrs_ok; [|unfold body in Hf; rewrite length_app in Hf; change (length [TAG_END_OF_ATTR]) with 1%nat in Hf; lia].
    unfold ipp_size, IBUFSZ in Hs. pose proof (zlen_nonneg p). pose proof (zlen_nonneg u). pose proof (zlen_nonneg j).
    assert (10 ≤ (if text then 10 else 22)) by (destruct text; lia). unfold job_attrs.
    repeat apply Forall_cons_2; try apply Forall_nil_2; unfold attr_ok; cbn [fst snd]; (split; [done|]); (split; [done|]);
      rewrite ?zlen_app; change (zlen (bytes "http://")) with 7; change (zlen (bytes "/ipp")) with 4; try done; try lia; by destruct text. }
  unfold parse_ipp. cbn [app be16 be32 drop take]. rewrite Hb by lia.
  change (of_be [OP_PRINT_JOB / 2 ^ 8 `mod` 256; OP_PRINT_JOB `mod` 256]) with OP_PRINT_JOB.
  fold (be32 jobid). rewrite of_be32_be32 by done. done.
Qed.

(** The HTTP header of a body of [n] bytes. *)
Definition http_bytes (printer_name : list Z) (n : Z) : list Z :=
  (bytes "POST /ipp HTTP/1.1" ++ CRLF) ++ (bytes "Content-Length: " ++ dec n ++ CRLF) ++
  (bytes "Content-Type: application/ipp" ++ CRLF) ++ (bytes "Host: " ++ printer_name ++ bytes ":" ++ dec IPP_PORT ++ CRLF) ++ CRLF.

Lemma http_header_ok {S} p size ilen extra (s : S) : zlen p < 53 → 0 ≤ size + ilen + extra < 2 ^ 63 →
  http_header p size ilen extra s = Ok (http_bytes p (size + ilen + extra), s).
Proof.
  intros Hp Hn. set (n := size + ilen + extra) in *. pose proof (dec_length n 19 ltac:(lia) ltac:(lia)) as Hd.
  assert (zlen (dec n) ≤ 19) as Hd' by (unfold zlen; lia). pose proof (zlen_nonneg p). pose proof (zlen_nonneg (dec n)).
  unfold http_header. fold n. unfold put_str, put, mbind, M_bind, fail, mret, M_ret. change (dec IPP_PORT) with (bytes "631").
  assert (∀ (b : bytes "x" = bytes "x"), zlen CRLF = 2) as Hc by done.
  repeat (case_test; [|exfalso; rewrite ?zlen_app in *; vm_compute (zlen (bytes _)) in *; vm_compute (zlen CRLF) in *; unfold HBUFSZ in *; change (zlen (@nil Z)) with 0 in *; lia]).
  unfold http_bytes. change (dec IPP_PORT) with (bytes "631"). cbn [app]. by rewrite <- !app_assoc.
Qed.

(** ** Responses *)

(** The reference: a response is split at the places HTTP names. *)
Fixpoint span (p : Z → bool) (s : list Z) : list Z * list Z :=
  match s with
  | c :: s' => if p c then let '(a, b) := span p s' in (c :: a, b) else ([], s)
  | [] => ([], [])
  end.
Definition same_name (pat s : list Z) : bool := bool_decide (tolower <$> take (length pat) s = tolower <$> pat).
Fixpoint find_field (pat s : list Z) : option (list Z) :=
  if same_name pat s then Some (drop (length pat) s) else match s with [] => None | _ :: s' => find_field pat s' end.
(** What follows the first empty line. *)
Fixpoint body_of (s : list Z) : option (list Z) :=
  match s with
  | [] => None
  | c :: s' => if bool_decide (take 3 s = [10; 13; 10]) then Some (drop 3 s) else body_of s'
  end.
Definition eol (c : Z) : bool := negb (c =? 13) && negb (c =? 10).

(** Status code, content length and body. *)
Definition parse_response (s : list Z) : option (Z * Z * list Z) :=
  let '(_, s1) := span isspace (drop 8 s) in
  match span isdigit s1 with
  | ([], _) | (_, []) => None
  | (code, _ :: s2) =>
      match (span eol s2).2 with
      | [] => None
      | _ :: s3 =>
          t ← find_field (bytes "Content-Length:") s3;
          match span isdigit (span isspace t).2 with
          | (_, []) => None
          | (len, _ :: t') => b ← body_of t'; Some (digits_val 0 code, digits_val 0 len, b)
          end
      end
  end.

Lemma span_spec p s a b : span p s = (a, b) → s = a ++ b ∧ Forall (λ c, p c = true) a ∧ (∀ c b', b = c :: b' → p c = false).
Proof.
  revert a b. induction s as [|c s IH]; simpl; intros a b; [by intros [= <- <-]|]. destruct (p c) eqn:Ep.
  - destruct (span p s) as [a' b'] eqn:E. intros [= <- <-]. destruct (IH _ _ eq_refl) as (-> & ? & ?). split; [done|]. split; [by constructor|done].
  - intros [= <- <-]. split; [done|]. split; [done|]. by intros c' b' [= <- <-].
Qed.

Section status.
Context (fresh : Z → Z) (allocate : Z → bool).

(** Places in the buffer are given by what is before them. *)
Lemma peek_at s pre c post : buf s = pre ++ c :: post → peek (zlen pre) s = Ok (c, s).
Proof.
  intros E. unfold peek. rewrite bind_gets, E. rewrite (proj2 (Z.ltb_ge _ _)) by apply zlen_nonneg.
  unfold zlen. by rewrite Nat2Z.id, list_lookup_middle.
Qed.

Lemma poke_at s pre c post v : buf s = pre ++ c :: post → poke (zlen pre) v s = Ok ((), set_buf (pre ++ v :: post) s).
Proof.
  intros E. unfold poke. rewrite bind_gets, E, zlen_app, zlen_cons. pose proof (zlen_nonneg pre). pose proof (zlen_nonneg post).
  rewrite (proj2 (Z.ltb_ge _ _)), (proj2 (Z.leb_gt _ _)) by lia. unfold modify, zlen. simpl. rewrite Nat2Z.id.
  by rewrite insert_app_r_alt, Nat.sub_diag by lia.
Qed.

Lemma scan_body_at p s pre c post : buf s = pre ++ c :: post →
  scan_body p (zlen pre) s = Ok (if p c then inl (zlen pre + 1) else inr (zlen pre), s).
Proof. intros E. unfold scan_body. by rewrite (bind_ok _ _ _ _ _ (peek_at s pre c post E)). Qed.

Lemma scan_steps p mid c post s pre fuel : buf s = pre ++ mid ++ c :: post → Forall (λ c, p c = true) mid → p c = false →
  (length mid < fuel)%nat → iter fuel (scan_body p) (zlen pre) s = Ok (zlen pre + zlen mid, s).
Proof.
  intros E Hm Hc. revert pre E fuel. induction Hm as [|x mid Hx _ IH]; intros pre E [|fuel] Hf; try (simpl in Hf; lia); rewrite iter_S.
  - rewrite (bind_ok _ _ _ _ _ (scan_body_at p s pre c post E)), Hc. by rewrite Z.add_0_r.
  - rewrite (bind_ok _ _ _ _ _ (scan_body_at p s pre x (mid ++ c :: post) E)), Hx.
    replace (zlen pre + 1) with (zlen (pre ++ [x])) by (rewrite zlen_app; done).
    rewrite IH; [|by rewrite <- app_assoc|simpl in Hf; lia]. rewrite zlen_app, !zlen_cons. change (zlen (@nil Z)) with 0. do 2 f_equal. lia.
Qed.

Lemma scan_buf_ok p s pre mid t : buf s = pre ++ mid ++ t → Forall (λ c, p c = true) mid → t ≠ [] → p (hd 0 t) = false →
  scan p (zlen pre) s = Ok (zlen (pre ++ mid), s).
Proof.
  intros E Hm Ht Hc. destruct t as [|c post]; [done|]. unfold scan, bufsz.
  rewrite bind_gets, (scan_steps p mid c post); [by rewrite zlen_app|done..|].
  rewrite E, !zlen_app, zlen_cons. unfold zlen. lia.
Qed.

Lemma match_at_ok pat s pre t : buf s = pre ++ t → (length pat ≤ length t)%nat →
  match_at pat (zlen pre) s = Ok (same_name pat t, s).
Proof.
  revert pre t. induction pat as [|p pat IH]; intros pre t E Hl; [by unfold same_name; rewrite bool_decide_true|].
  destruct t as [|c t]; [simpl in Hl; lia|]. cbn [match_at]. rewrite (bind_ok _ _ _ _ _ (peek_at s pre c t E)).
  unfold same_name. cbn [length take]. rewrite !fmap_cons. destruct (Z.eqb_spec (tolower c) (tolower p)) as [Ec|Ec].
  - replace (zlen pre + 1) with (zlen (pre ++ [c])) by (rewrite zlen_app; done).
    rewrite (IH _ t); [|by rewrite <- app_assoc|simpl in Hl; lia]. do 2 f_equal. unfold same_name. apply bool_decide_ext. rewrite Ec. split; [by intros ->|by intros [= ->]].
  - rewrite bool_decide_false; [done|]. congruence.
Qed.

(** ** The search for the length *)

Definition not_c (c : Z) : bool := negb (c =? 67) && negb (c =? 99).
Definition PAT : list Z := bytes "Content-Length:".

Lemma skip_steps mid c post s pre datsz fuel : buf s = pre ++ mid ++ c :: post → Forall (λ c, not_c c = true) mid → not_c c = false →
  zlen pre + zlen mid ≤ datsz → (length mid < fuel)%nat → iter fuel (skip_body datsz) (zlen pre) s = Ok (zlen (pre ++ mid), s).
Proof.
  intros E Hm Hc. revert pre E fuel. induction Hm as [|x mid Hx _ IH]; intros pre E [|fuel] Hd Hf; try (simpl in Hf; lia); rewrite iter_S.
  - assert (skip_body datsz (zlen pre) s = Ok (inr (zlen pre), s)) as Es.
    { unfold skip_body. rewrite (bind_ok _ _ _ _ _ (peek_at s pre c post E)). fold (not_c c). by rewrite Hc. }
    rewrite (bind_ok _ _ _ _ _ Es). by rewrite app_nil_r.
  - rewrite zlen_cons in Hd. pose proof (zlen_nonneg mid).
    assert (skip_body datsz (zlen pre) s = Ok (inl (zlen pre + 1), s)) as Es.
    { unfold skip_body. rewrite (bind_ok _ _ _ _ _ (peek_at s pre x (mid ++ c :: post) E)). fold (not_c x). rewrite Hx, (proj2 (Z.ltb_lt _ _)) by lia. done. }
    rewrite (bind_ok _ _ _ _ _ Es). replace (zlen pre + 1) with (zlen (pre ++ [x])) by (rewrite zlen_app; done).
    rewrite IH; [by rewrite <- app_assoc|by rewrite <- app_assoc|rewrite zlen_app; change (zlen [x]) with 1; lia|simpl in Hf; lia].
Qed.

Lemma same_name_app pat s x : (length pat ≤ length s)%nat → same_name pat (s ++ x) = same_name pat s.
Proof. intros H. unfold same_name. by rewrite take_app_le. Qed.
Lemma same_name_length pat s : same_name pat s = true → (length pat ≤ length s)%nat.
Proof. unfold same_name. intros H%bool_decide_eq_true. apply (f_equal length) in H. rewrite !length_fmap, length_take in H. lia. Qed.
Lemma same_name_c c s : same_name PAT (c :: s) = true → not_c c = false.
Proof.
  unfold same_name. intros H%bool_decide_eq_true. apply (f_equal head) in H. change (Some (tolower c) = Some 99) in H.
  injection H as H. unfold tolower in H. unfold not_c.
  destruct (Z.eqb_spec c 67), (Z.eqb_spec c 99); try done. simpl in H. destruct (Z.leb_spec 65 c), (Z.leb_spec c 90); simpl in H; lia.
Qed.

Lemma find_field_spec pat s r : find_field pat s = Some r → ∃ h m, s = h ++ m ++ r ∧ length m = length pat ∧ same_name pat m = true ∧
  ∀ a b, h = a ++ b → b ≠ [] → same_name pat (b ++ m ++ r) = false.
Proof.
  induction s as [|c s IH]; cbn [find_field]; (destruct (same_name pat _) eqn:E; [|try done]).
  - intros [= <-]. apply same_name_length in E as El. exists [], (take (length pat) []).
    rewrite take_nil, drop_nil. destruct pat; [|simpl in El; lia]. split; [done|]. split; [done|]. split; [done|]. by intros [|] [|].
  - intros [= <-]. apply same_name_length in E as El. exists [], (take (length pat) (c :: s)). split; [by rewrite take_drop|].
    split; [rewrite length_take; lia|]. split; [unfold same_name in *; by rewrite take_take, Nat.min_id|]. by intros [|] [|].
  - intros H. destruct (IH H) as (h & m & -> & Hm & Es & Hn). exists (c :: h), m. split; [done|]. split; [done|]. split; [done|].
    intros [|a0 a] b Ha Hb; [|injection Ha as -> Ha; by apply (Hn a)]. simpl in Ha. by subst b.
Qed.

Lemma isdigit_range c : isdigit c = true → 48 ≤ c ≤ 57.
Proof. unfold isdigit. intros [H1%Z.leb_le H2%Z.leb_le]%andb_true_iff. lia. Qed.
Lemma digits_val_nonneg ds a : 0 ≤ a → 0 ≤ digits_val a ds.
Proof.
  revert a. induction ds as [|c ds IH]; intros a Ha; [done|]. simpl. destruct (isdigit c) eqn:E; [|done].
  apply isdigit_range in E. apply IH. lia.
Qed.

Lemma atoi_digits ds post : Forall (λ c, isdigit c = true) ds → digits_val 0 ds < 2 ^ 31 → atoi (ds ++ 0 :: post) = digits_val 0 ds.
Proof.
  intros Hd Hv. pose proof (digits_val_nonneg ds 0 ltac:(lia)).
  assert (digits_val 0 (ds ++ 0 :: post) = digits_val 0 ds) as E.
  { rewrite digits_val_app; [done|]. eapply Forall_impl; [exact Hd|]. intros c. apply isdigit_range. }
  assert (atol (ds ++ 0 :: post) = digits_val 0 ds) as Ea.
  { unfold atol, strtol, LONG_MIN, LONG_MAX.
    assert (match skip_space (ds ++ 0 :: post) with [] => 0 | c :: s' => if c =? 45 then - digits_val 0 s' else if c =? 43 then digits_val 0 s' else digits_val 0 (c :: s') end = digits_val 0 ds) as ->; [|lia].
    rewrite <- E. destruct ds as [|c ds]; [done|]. apply Forall_cons in Hd as [Hc%isdigit_range _]. cbn [app skip_space].
    unfold isspace. destruct (Z.eqb_spec c 32), (Z.leb_spec 9 c), (Z.leb_spec c 13); try lia; cbn [orb andb];
      destruct (Z.eqb_spec c 45), (Z.eqb_spec c 43); try lia; done. }
  rewrite atoi_small; lia.
Qed.

Lemma drop_zlen {A} (a b : list A) : drop (Z.to_nat (zlen a)) (a ++ b) = b.
Proof. unfold zlen. by rewrite Nat2Z.id, drop_app_length. Qed.

(** A turn that skips to the field. *)
Lemma length_hit pre mid m sp len x post s datsz : buf s = pre ++ mid ++ m ++ sp ++ len ++ x :: post →
  Forall (λ c, not_c c = true) mid → same_name PAT m = true → length m = length PAT → zlen (pre ++ mid) < datsz →
  Forall (λ c, isspace c = true) sp → Forall (λ c, isdigit c = true) len → isdigit x = false → isspace (hd 0 (len ++ x :: post)) = false →
  digits_val 0 len < 2 ^ 31 →
  length_body fresh allocate (zlen pre, datsz) s =
    Ok (inr (Some (zlen (pre ++ mid ++ m ++ sp ++ len) + 1, datsz, digits_val 0 len)), set_buf (pre ++ mid ++ m ++ sp ++ len ++ 0 :: post) s).
Proof.
  intros E Hmid Hm Hml Hd Hsp Hlen Hx Hx' Hv. unfold length_body, bufsz. rewrite bind_gets.
  destruct m as [|c m]; [done|]. pose proof (same_name_c _ _ Hm) as Hc.
  rewrite (bind_ok _ _ _ _ _ (skip_steps mid c (m ++ sp ++ len ++ x :: post) s pre datsz (S (Z.to_nat (zlen (buf s)))) E
    Hmid Hc ltac:(rewrite zlen_app in Hd; lia) ltac:(rewrite E; unfold zlen; rewrite !length_app; lia))).
  rewrite app_assoc in E. unfold more_at_end. rewrite (proj2 (Z.leb_gt _ _)), bind_ret by lia. cbv beta iota.
  rewrite (bind_ok _ _ _ _ _ (match_at_ok (bytes "Content-Length:") s (pre ++ mid) _ E ltac:(rewrite length_app, Hml; unfold PAT; lia))).
  fold PAT. rewrite same_name_app by lia. rewrite Hm. cbv iota.
  replace (zlen (pre ++ mid) + 15) with (zlen ((pre ++ mid) ++ c :: m)) by (rewrite (zlen_app (pre ++ mid)); unfold zlen; rewrite Hml; done).
  rewrite app_assoc in E. rewrite (bind_ok _ _ _ _ _ (scan_buf_ok isspace s ((pre ++ mid) ++ c :: m) sp (len ++ x :: post) E Hsp ltac:(by destruct len) Hx')).
  rewrite app_assoc in E. rewrite (bind_ok _ _ _ _ _ (scan_buf_ok isdigit s _ len (x :: post) E Hlen ltac:(done) Hx)).
  rewrite app_assoc in E. rewrite (bind_ok _ _ _ _ _ (poke_at s _ x post 0 E)), bind_gets. cbn [buf set_buf].
  rewrite <- (app_assoc (_ ++ sp)), drop_zlen, atoi_digits by done. by rewrite <- !app_assoc.
Qed.

(** A turn that stops at another letter C. *)
Lemma length_miss pre mid c t s datsz : buf s = pre ++ mid ++ c :: t →
  Forall (λ c, not_c c = true) mid → not_c c = false → same_name PAT (c :: t) = false → (length PAT ≤ length (c :: t))%nat →
  zlen (pre ++ mid) < datsz →
  length_body fresh allocate (zlen pre, datsz) s = Ok (inl (zlen (pre ++ mid ++ [c]), datsz), s).
Proof.
  intros E Hmid Hc Hm Hl Hd. unfold length_body, bufsz. rewrite bind_gets.
  rewrite (bind_ok _ _ _ _ _ (skip_steps mid c t s pre datsz (S (Z.to_nat (zlen (buf s)))) E
    Hmid Hc ltac:(rewrite zlen_app in Hd; lia) ltac:(rewrite E; unfold zlen; rewrite !length_app; lia))).
  rewrite app_assoc in E. unfold more_at_end. rewrite (proj2 (Z.leb_gt _ _)), bind_ret by lia. cbv beta iota.
  rewrite (bind_ok _ _ _ _ _ (match_at_ok (bytes "Content-Length:") s (pre ++ mid) _ E Hl)).
  fold PAT. rewrite Hm. unfold mret, M_ret. do 4 f_equal. rewrite app_assoc, (zlen_app (pre ++ mid) [c]). done.
Qed.

Lemma length_loop_ok h pre m sp len x post s datsz fuel : buf s = pre ++ h ++ m ++ sp ++ len ++ x :: post →
  same_name PAT m = true → length m = length PAT → zlen (pre ++ h) < datsz →
  (∀ a b, h = a ++ b → b ≠ [] → same_name PAT (b ++ m) = false) →
  Forall (λ c, isspace c = true) sp → Forall (λ c, isdigit c = true) len → isdigit x = false → isspace (hd 0 (len ++ x :: post)) = false →
  digits_val 0 len < 2 ^ 31 → (length h < fuel)%nat →
  iter fuel (length_body fresh allocate) (zlen pre, datsz) s =
    Ok (Some (zlen (pre ++ h ++ m ++ sp ++ len) + 1, datsz, digits_val 0 len), set_buf (pre ++ h ++ m ++ sp ++ len ++ 0 :: post) s).
Proof.
  intros E Hm Hml Hd Hn Hsp Hlen Hx Hx' Hv. revert h pre E Hd Hn. induction fuel as [|fuel IH]; intros h pre E Hd Hn Hf; [lia|].
  rewrite iter_S. destruct (span not_c h) as [mid h'] eqn:Eh. apply span_spec in Eh as (-> & Hmid & Hh'). destruct h' as [|c h'].
  - rewrite app_nil_r in *. by rewrite (bind_ok _ _ _ _ _ (length_hit pre mid m sp len x post s datsz E Hmid Hm Hml Hd Hsp Hlen Hx Hx' Hv)).
  - rewrite <- app_assoc in E. cbn [app] in E.
    assert (same_name PAT (c :: h' ++ m ++ sp ++ len ++ x :: post) = false) as Hno.
    { rewrite <- (Hn mid (c :: h') eq_refl ltac:(done)). rewrite (app_assoc h'), app_comm_cons.
      apply same_name_app. rewrite <- Hml. simpl. rewrite length_app. lia. }
    rewrite (bind_ok _ _ _ _ _ (length_miss pre mid c _ s datsz E Hmid (Hh' c h' eq_refl) Hno
      ltac:(rewrite <- Hml; simpl; rewrite !length_app; lia) ltac:(rewrite !zlen_app, zlen_cons in *; pose proof (zlen_nonneg h'); lia))).
    rewrite (IH h' (pre ++ mid ++ [c])).
    + by rewrite <- !app_assoc.
    + rewrite E, <- !app_assoc. done.
    + rewrite <- !app_assoc in *. done.
    + intros a b -> Hb. apply (Hn (mid ++ c :: a) b); [by rewrite <- app_assoc|done].
    + rewrite length_app in Hf. simpl in Hf. lia.
Qed.
End status.

Section status2.
Context (fresh : Z → Z) (allocate : Z → bool).

(** ** The search for the end of the header *)

Lemma body_of_spec s b : body_of s = Some b → ∃ t, s = t ++ 10 :: 13 :: 10 :: b ∧
  ∀ a d, t = a ++ d → d ≠ [] → take 3 (d ++ [10; 13; 10]) ≠ [10; 13; 10].
Proof.
  induction s as [|c s IH]; [done|]. cbn [body_of]. case_bool_decide as E.
  - intros [= <-]. exists []. split; [|by intros [|] [|]]. destruct s as [|c1 [|c2 s]]; try done. by injection E as -> -> ->.
  - intros H. destruct (IH H) as (t & -> & Ht). exists (c :: t). split; [done|]. intros [|a0 a] d Ha Hd; [|injection Ha as -> Ha; by apply (Ht a)].
    simpl in Ha. subst d. by destruct t as [|? [|? t]].
Qed.

Lemma end_inner_hit pre post s datsz : buf s = pre ++ 10 :: 13 :: 10 :: post → zlen pre + 3 ≤ datsz →
  end_inner datsz (zlen pre) s = Ok (inr (zlen pre + 3, true), s).
Proof.
  intros E Hd. unfold end_inner. rewrite (proj2 (Z.ltb_lt _ _)) by lia.
  assert (∀ a c r, buf s = (pre ++ a) ++ c :: r → peek (zlen pre + zlen a) s = Ok (c, s)) as Hp by (intros a c r Ha; rewrite <- zlen_app; by eapply peek_at).
  rewrite <- (Z.add_0_r (zlen pre)) at 1. rewrite (bind_ok _ _ _ _ _ (Hp [] 10 _ ltac:(rewrite app_nil_r; exact E))). cbn [Z.eqb negb Pos.eqb].
  rewrite (bind_ok _ _ _ _ _ (Hp [10] 13 (10 :: post) ltac:(rewrite <- app_assoc; exact E))). cbn [Z.eqb negb Pos.eqb].
  by rewrite (bind_ok _ _ _ _ _ (Hp [10; 13] 10 post ltac:(rewrite <- app_assoc; exact E))).
Qed.

Lemma end_inner_miss pre c0 c1 c2 post s datsz : buf s = pre ++ c0 :: c1 :: c2 :: post → [c0; c1; c2] ≠ [10; 13; 10] → zlen pre + 3 ≤ datsz →
  end_inner datsz (zlen pre) s = Ok (inl (zlen pre + 1), s).
Proof.
  intros E Hne Hd. unfold end_inner. rewrite (proj2 (Z.ltb_lt _ _)) by lia.
  assert (∀ a c r, buf s = (pre ++ a) ++ c :: r → peek (zlen pre + zlen a) s = Ok (c, s)) as Hp by (intros a c r Ha; rewrite <- zlen_app; by eapply peek_at).
  rewrite <- (Z.add_0_r (zlen pre)) at 1. rewrite (bind_ok _ _ _ _ _ (Hp [] c0 _ ltac:(rewrite app_nil_r; exact E))).
  destruct (Z.eqb_spec c0 10) as [->|]; [cbn [negb]|done].
  rewrite (bind_ok _ _ _ _ _ (Hp [10] c1 (c2 :: post) ltac:(rewrite <- app_assoc; exact E))).
  destruct (Z.eqb_spec c1 13) as [->|]; [cbn [negb]|done].
  rewrite (bind_ok _ _ _ _ _ (Hp [10; 13] c2 post ltac:(rewrite <- app_assoc; exact E))).
  by destruct (Z.eqb_spec c2 10) as [->|].
Qed.

Lemma end_inner_loop t pre post s datsz fuel : buf s = pre ++ t ++ 10 :: 13 :: 10 :: post →
  (∀ a d, t = a ++ d → d ≠ [] → take 3 (d ++ [10; 13; 10]) ≠ [10; 13; 10]) → zlen (pre ++ t) + 3 ≤ datsz → (length t < fuel)%nat →
  iter fuel (end_inner datsz) (zlen pre) s = Ok ((zlen (pre ++ t) + 3, true), s).
Proof.
  revert pre fuel. induction t as [|c t IH]; intros pre [|fuel] E Ht Hd Hf; try (simpl in Hf; lia); rewrite iter_S.
  - rewrite app_nil_r in Hd. rewrite (bind_ok _ _ _ _ _ (end_inner_hit pre post s datsz E Hd)). by rewrite app_nil_r.
  - assert (∃ c1 c2 r, t ++ 10 :: 13 :: 10 :: post = c1 :: c2 :: r ∧ [c; c1; c2] ≠ [10; 13; 10]) as (c1 & c2 & r & Er & Hne).
    { pose proof (Ht [] (c :: t) eq_refl ltac:(done)) as Hne. destruct t as [|c1 [|c2 t]]; simpl in Hne |- *; by eexists _, _, _. }
    cbn [app] in E. rewrite Er in E. rewrite zlen_app, zlen_cons in Hd. pose proof (zlen_nonneg t).
    rewrite (bind_ok _ _ _ _ _ (end_inner_miss pre c c1 c2 r s datsz E Hne ltac:(lia))).
    replace (zlen pre + 1) with (zlen (pre ++ [c])) by (rewrite zlen_app; done). rewrite IH.
    + by rewrite <- app_assoc.
    + rewrite E, <- app_assoc, Er. done.
    + intros a d -> Hdd. by apply (Ht (c :: a)).
    + rewrite !zlen_app. change (zlen [c]) with 1. lia.
    + simpl in Hf. lia.
Qed.

(** Bytes that arrive go where the pointer is. *)
Lemma tread_at_ok off pre post body c s n : buf s = pre ++ post → off = zlen pre → inc (rsock s) = Data body :: c →
  zlen body ≤ n → zlen body ≤ zlen post →
  tread_at off n s = Ok (zlen body, Rx (Sock (sent (rsock s)) (room (rsock s)) c) (pre ++ body ++ drop (length body) post)).
Proof.
  intros E -> Ec Hn Hp. unfold tread_at, tread. rewrite Ec. pose proof (zlen_nonneg body).
  rewrite take_ge, drop_ge by (unfold zlen in *; lia). unfold set_buf, set_rsock. cbn [buf rsock sent room].
  rewrite E. do 3 f_equal. rewrite <- (take_drop (length body) post) at 1. apply bwrite_mid; [done|].
  rewrite length_take. unfold zlen in *. lia.
Qed.

Lemma readmore_ok pre post body c s : buf s = pre ++ post → inc (rsock s) = Data body :: c → body ≠ [] → zlen body ≤ zlen post →
  readmore fresh allocate (zlen pre) s = Ok (zlen pre + zlen body, Rx (Sock (sent (rsock s)) (room (rsock s)) c) (pre ++ body ++ drop (length body) post)).
Proof.
  intros E Ec Hne Hp. assert (0 < zlen body) by (destruct body; [done|rewrite zlen_cons; pose proof (zlen_nonneg body); lia]).
  unfold readmore, bufsz. rewrite bind_gets, E, zlen_app. rewrite (proj2 (Z.leb_gt _ _)) by lia. cbn [when].
  rewrite bind_ret, bind_gets, E, zlen_app.
  rewrite (bind_ok _ _ _ _ _ (tread_at_ok (zlen pre) pre post body c s (zlen pre + zlen post - zlen pre) E eq_refl Ec ltac:(lia) Hp)). by rewrite (proj2 (Z.ltb_lt _ _)).
Qed.
End status2.

Section status3.
Context (fresh : Z → Z) (allocate : Z → bool).

(** ** A whole response *)

(** What a response of this job means for it. *)
Definition ipp_result (jobid : Z) (body : list Z) : bool :=
  (of_be32 (bread body 4 4) =? jobid) && STATCLASS_OK (wrap_u 16 (of_be (bread body 2 2))).

Lemma bread_in pre body post k n : 0 ≤ k → 0 ≤ n → k + n ≤ zlen body → bread (pre ++ body ++ post) (zlen pre + k) n = bread body k n.
Proof.
  intros Hk Hn H. unfold bread, zlen in *. replace (Z.to_nat (Z.of_nat (length pre) + k)) with (length pre + Z.to_nat k)%nat by lia.
  rewrite <- drop_drop, drop_app_length, drop_app_le by lia. rewrite take_app_le by (rewrite length_drop; lia). done.
Qed.

(** The socket after the rest of a response was read: it was there, or it arrives in one piece. *)
Inductive body_comes (body : list Z) : list Z → sock → sock → Z → Prop :=
  | body_here k room : body_comes body body k k room
  | body_next k c room : inc k = Data body :: c → zlen body ≤ room → body_comes body [] k (Sock (sent k) (Print.room k) c) room.

Lemma end_body_ok t pre b1 post body s k datsz : buf s = pre ++ t ++ 10 :: 13 :: 10 :: b1 ++ post →
  (∀ a d, t = a ++ d → d ≠ [] → take 3 (d ++ [10; 13; 10]) ≠ [10; 13; 10]) →
  datsz = zlen (pre ++ t) + 3 + zlen b1 → body_comes body b1 (rsock s) k (zlen post) → body ≠ [] →
  ∃ datsz' post', end_body fresh allocate (zlen pre, datsz) s =
      Ok (inr (Some (zlen (pre ++ t) + 3, datsz')), Rx k ((pre ++ t ++ [10; 13; 10]) ++ body ++ post')) ∧
    zlen (pre ++ t) + 3 + zlen body ≤ datsz'.
Proof.
  intros E Ht Hd Hb Hne. pose proof (zlen_nonneg (pre ++ t)). pose proof (zlen_nonneg b1). pose proof (zlen_nonneg pre). pose proof (zlen_nonneg t).
  rewrite zlen_app in *. assert (0 < zlen body) by (destruct body; [done|rewrite zlen_cons; pose proof (zlen_nonneg body); lia]).
  unfold end_body. rewrite (bind_ok _ _ _ _ _ (end_inner_loop t pre (b1 ++ post) s datsz (S (Z.to_nat datsz)) E Ht
    ltac:(rewrite zlen_app; lia) ltac:(unfold zlen in *; lia))). rewrite zlen_app.
  assert (zlen pre + zlen t + 3 = zlen (pre ++ t ++ [10; 13; 10])) as Ei by (rewrite !zlen_app; change (zlen [10; 13; 10]) with 3; lia).
  assert (buf s = (pre ++ t ++ [10; 13; 10]) ++ b1 ++ post) as Eb by (rewrite E, <- !app_assoc; done).
  rewrite Ei in *. set (pre3 := pre ++ t ++ [10; 13; 10]) in *. unfold more_at_end. inversion Hb as [k0 room0|k0 c room0 Hc Hr]; subst.
  - rewrite (proj2 (Z.leb_gt _ _)), bind_ret by lia. exists (zlen pre3 + zlen b1), post. split; [|lia]. rewrite <- Eb. by destruct s.
  - change (zlen []) with 0. rewrite Z.add_0_r, (proj2 (Z.leb_le _ _)) by lia. unfold more_header.
    rewrite bind_assoc, (bind_ok _ _ _ _ _ (readmore_ok fresh allocate pre3 post body c s Eb Hc Hne Hr)), bind_ret.
    rewrite (proj2 (Z.ltb_ge _ _)) by lia. eexists _, _. split; [done|]. lia.
Qed.


Lemma ipp_status_ok jobid fuel pre h m sp len x t b1 post body s k datsz :
  buf s = pre ++ h ++ m ++ sp ++ len ++ x :: t ++ 10 :: 13 :: 10 :: b1 ++ post →
  same_name PAT m = true → length m = length PAT →
  (∀ a b, h = a ++ b → b ≠ [] → same_name PAT (b ++ m) = false) →
  Forall (λ c, isspace c = true) sp → Forall (λ c, isdigit c = true) len → isdigit x = false →
  isspace (hd 0 (len ++ x :: t ++ 10 :: 13 :: 10 :: b1 ++ post)) = false →
  digits_val 0 len < 2 ^ 31 → (∀ a d, t = a ++ d → d ≠ [] → take 3 (d ++ [10; 13; 10]) ≠ [10; 13; 10]) →
  datsz = zlen (pre ++ h ++ m ++ sp ++ len ++ x :: t) + 3 + zlen b1 → body_comes body b1 (rsock s) k (zlen post) →
  8 ≤ zlen body → digits_val 0 len ≤ zlen body → (S (length h) < fuel)%nat →
  ∃ s', ipp_status fresh allocate fuel jobid (zlen pre) datsz s = Ok (ipp_result jobid body, s') ∧ rsock s' = k.
Proof.
  intros E Hm Hml Hh Hsp Hlen Hx Hx' Hv Ht Hd Hb H8 Hbl Hf.
  assert (body ≠ []) as Hne by (intros ->; unfold zlen in H8; simpl in H8; lia).
  set (pre2 := pre ++ h ++ m ++ sp ++ len ++ [0]).
  assert (zlen pre2 = zlen (pre ++ h ++ m ++ sp ++ len) + 1) as Hpre2 by (unfold pre2; rewrite !zlen_app; change (zlen [0]) with 1; lia).
  assert (datsz = zlen (pre2 ++ t) + 3 + zlen b1) as Hd2 by (rewrite zlen_app, Hpre2; rewrite Hd, !zlen_app, zlen_cons; lia).
  pose proof (zlen_nonneg t). pose proof (zlen_nonneg b1). rewrite zlen_app in Hd2.
  unfold ipp_status.
  rewrite (bind_ok _ _ _ _ _ (length_loop_ok fresh allocate h pre m sp len x (t ++ 10 :: 13 :: 10 :: b1 ++ post) s datsz fuel E Hm Hml
    ltac:(rewrite Hd, !zlen_app, zlen_cons; pose proof (zlen_nonneg m); pose proof (zlen_nonneg sp); pose proof (zlen_nonneg len); lia)
    Hh Hsp Hlen Hx Hx' Hv ltac:(lia))).
  rewrite <- Hpre2. set (s2 := set_buf _ s). unfold more_at_end at 1. rewrite (proj2 (Z.leb_gt _ _)), bind_ret by lia.
  assert (buf s2 = pre2 ++ t ++ 10 :: 13 :: 10 :: b1 ++ post) as E2 by (unfold s2, pre2; simpl; rewrite <- !app_assoc; done).
  destruct (end_body_ok t pre2 b1 post body s2 k datsz E2 Ht ltac:(rewrite zlen_app; lia) Hb Hne) as (datsz' & post' & Ee & Hd').
  assert (iter fuel (end_body fresh allocate) (zlen pre2, datsz) s2 =
    Ok (Some (zlen (pre2 ++ t) + 3, datsz'), Rx k ((pre2 ++ t ++ [10; 13; 10]) ++ body ++ post'))) as Ei.
  { destruct fuel as [|fuel]; [lia|]. by rewrite iter_S, (bind_ok _ _ _ _ _ Ee). }
  rewrite (bind_ok _ _ _ _ _ Ei). rewrite (proj2 (Z.ltb_ge _ _)), bind_ret, bind_gets by lia. cbn [buf].
  assert (zlen (pre2 ++ t) + 3 = zlen (pre2 ++ t ++ [10; 13; 10])) as E3 by (rewrite !zlen_app; change (zlen [10; 13; 10]) with 3; lia).
  rewrite E3. rewrite (proj2 (Z.ltb_ge _ _)) by (rewrite (zlen_app _ (body ++ post')), (zlen_app body); pose proof (zlen_nonneg post'); lia).
  rewrite !bread_in by lia. by eexists.
Qed.

(** ** The status line *)

Record status_line := StatusLine { l_version : list Z; l_space : list Z; l_code : list Z; l_sep : Z; l_reason : list Z; l_eol : Z }.
Definition line_bytes (l : status_line) : list Z := l_version l ++ l_space l ++ l_code l ++ l_sep l :: l_reason l ++ [l_eol l].
Definition line_ok (l : status_line) : Prop :=
  zlen (l_version l) = 8 ∧ Forall (λ c, isspace c = true) (l_space l) ∧ l_code l ≠ [] ∧
  Forall (λ c, isdigit c = true) (l_code l) ∧ isdigit (l_sep l) = false ∧ Forall (λ c, eol c = true) (l_reason l) ∧ eol (l_eol l) = false ∧
  digits_val 0 (l_code l) < 2 ^ 31.

(** The buffer after the status line was cut out of it. *)
Definition cut_line (l : status_line) : list Z := l_version l ++ l_space l ++ l_code l ++ 0 :: l_reason l.

Lemma digit_not_space c : isdigit c = true → isspace c = false.
Proof.
  intros H%isdigit_range. unfold isspace. destruct (Z.eqb_spec c 32); [lia|].
  destruct (Z.leb_spec 9 c), (Z.leb_spec c 13); simpl; lia || done.
Qed.

Lemma zlen_cut l r : zlen (cut_line l ++ 0 :: r) = zlen (line_bytes l ++ r).
Proof. unfold cut_line, line_bytes. repeat (rewrite zlen_app || rewrite zlen_cons). change (zlen (@nil Z)) with 0. lia. Qed.

Lemma status_body_line jobid fuel l r c s :
  line_ok l → inc (rsock s) = Data (line_bytes l ++ r) :: c → zlen (buf s) = IOBUFSZ → zlen (line_bytes l ++ r) < IOBUFSZ →
  let code := digits_val 0 (l_code l) in
  ∃ junk, zlen junk = IOBUFSZ - zlen (line_bytes l ++ r) ∧
  let s' := Rx (Sock (sent (rsock s)) (room (rsock s)) c) (cut_line l ++ 0 :: r ++ junk) in
  status_body fresh allocate fuel jobid () s =
    if HTTP_INFO code then Ok (inl (), s')
    else (if negb (HTTP_SUCCESS code) then _ ← poke (zlen (line_bytes l ++ r)) 0; mret (inr false)
          else ok ← ipp_status fresh allocate fuel jobid (zlen (cut_line l)) (zlen (line_bytes l ++ r)); mret (inr ok)) s'.
Proof.
  intros (Hv & Hsp & Hne & Hcode & Hsep & Hre & Heol & Hval) Ec Hb Hl code. set (piece := line_bytes l ++ r) in *.
  exists (drop (length piece) (buf s)). split; [unfold zlen in *; rewrite length_drop; lia|]. intros s'.
  set (junk := drop (length piece) (buf s)) in *. unfold status_body, bufsz. rewrite bind_gets.
  assert (0 < zlen piece) as Hp.
  { unfold piece, line_bytes. rewrite !zlen_app, zlen_cons, zlen_app. pose proof (zlen_nonneg (l_space l)).
    pose proof (zlen_nonneg (l_code l)). pose proof (zlen_nonneg (l_reason l)). pose proof (zlen_nonneg [l_eol l]). pose proof (zlen_nonneg r). lia. }
  rewrite (bind_ok _ _ _ _ _ (tread_at_ok 0 [] (buf s) piece c s (zlen (buf s)) eq_refl eq_refl Ec ltac:(lia) ltac:(lia))).
  rewrite (proj2 (Z.leb_gt _ _)) by lia. cbn [app]. fold junk. set (s1 := Rx _ (piece ++ junk)).
  destruct l as [v sp cd sep re el]. cbn [l_version l_space l_code l_sep l_reason l_eol] in *. unfold line_bytes in piece. cbn [l_version l_space l_code l_sep l_reason l_eol] in piece.
  assert (buf s1 = v ++ sp ++ cd ++ sep :: re ++ el :: r ++ junk) as E1 by (unfold s1, piece; simpl; rewrite <- !app_assoc; simpl; rewrite <- !app_assoc; done).
  rewrite <- Hv. rewrite (bind_ok _ _ _ _ _ (scan_buf_ok isspace s1 v sp _ E1 Hsp ltac:(by destruct cd)
    ltac:(destruct cd as [|d cd]; [done|]; apply Forall_cons in Hcode as [Hd _]; by apply digit_not_space))).
  rewrite app_assoc in E1. rewrite (bind_ok _ _ _ _ _ (scan_buf_ok isdigit s1 (v ++ sp) cd _ E1 Hcode ltac:(done) Hsep)).
  rewrite (proj2 (Z.eqb_neq _ _)).
  2: { rewrite (zlen_app (v ++ sp)). destruct cd; [done|]. rewrite zlen_cons. pose proof (zlen_nonneg cd). lia. }
  rewrite app_assoc in E1. rewrite (bind_ok _ _ _ _ _ (poke_at s1 _ sep _ 0 E1)).
  set (s2 := set_buf _ s1). assert (buf s2 = (((v ++ sp) ++ cd) ++ [0]) ++ re ++ el :: r ++ junk) as E2 by (unfold s2; simpl; rewrite <- !app_assoc; done).
  replace (zlen ((v ++ sp) ++ cd) + 1) with (zlen (((v ++ sp) ++ cd) ++ [0])) by (rewrite (zlen_app _ [0]); done).
  rewrite (bind_ok _ _ _ _ _ (scan_buf_ok (λ c, negb (c =? 13) && negb (c =? 10)) s2 _ re _ E2 Hre ltac:(done) Heol)).
  rewrite app_assoc in E2. rewrite (bind_ok _ _ _ _ _ (poke_at s2 _ el _ 0 E2)), bind_gets. cbn [set_buf buf].
  assert ((((((v ++ sp) ++ cd) ++ [0]) ++ re) ++ 0 :: r ++ junk) = (v ++ sp) ++ cd ++ 0 :: re ++ 0 :: r ++ junk) as E3 by (rewrite <- !app_assoc; done).
  rewrite E3, drop_zlen, atoi_digits by done. rewrite <- E3.
  assert (set_buf (((((v ++ sp) ++ cd) ++ [0]) ++ re) ++ 0 :: r ++ junk) s2 = s') as ->.
  { unfold s', s2, set_buf, s1, cut_line. cbn [rsock buf l_version l_space l_code l_reason]. do 2 f_equal. rewrite <- !app_assoc. done. }
  change (digits_val 0 cd) with code. destruct (HTTP_INFO code); [done|]. destruct (negb (HTTP_SUCCESS code)); [done|].
  unfold cut_line. cbn [l_version l_space l_code l_reason]. by replace ((((v ++ sp) ++ cd) ++ [0]) ++ re) with (v ++ sp ++ cd ++ 0 :: re) by (rewrite <- !app_assoc; done).
Qed.

(** ** [printer_status] *)

(** The parts the reference finds. *)
Lemma parse_response_spec s code n body : parse_response s = Some (code, n, body) → code < 2 ^ 31 →
  ∃ l h m sp len x t, s = line_bytes l ++ h ++ m ++ sp ++ len ++ x :: t ++ 10 :: 13 :: 10 :: body ∧
    line_ok l ∧ code = digits_val 0 (l_code l) ∧ n = digits_val 0 len ∧
    same_name PAT m = true ∧ length m = length PAT ∧ (∀ a b, h = a ++ b → b ≠ [] → same_name PAT (b ++ m) = false) ∧
    Forall (λ c, isspace c = true) sp ∧ Forall (λ c, isdigit c = true) len ∧ isdigit x = false ∧
    isspace (hd 0 (len ++ [x])) = false ∧
    (∀ a d, t = a ++ d → d ≠ [] → take 3 (d ++ [10; 13; 10]) ≠ [10; 13; 10]).
Proof.
  unfold parse_response. intros H Hcode. pose proof (take_drop 8 s) as Es. destruct (span isspace (drop 8 s)) as [sp0 s1] eqn:E0.
  destruct (span isdigit s1) as [cd [|sep s2]] eqn:E1; [by destruct cd|]. destruct cd as [|d cd]; [done|]. set (cd' := d :: cd) in *.
  destruct (span eol s2) as [re s2'] eqn:E2. cbn [snd] in H. destruct s2' as [|el s3]; [done|].
  apply bind_Some in H as (tl & Ef & H). destruct (span isspace tl) as [sp t1] eqn:E3. cbn [snd] in H.
  destruct (span isdigit t1) as [len [|x t']] eqn:E4; [done|]. apply bind_Some in H as (b & Eb & [= <- <- <-]).
  apply span_spec in E0 as (E0 & Hsp0 & _), E1 as (-> & Hcd & Hsep), E2 as (-> & Hre & Hel), E3 as (-> & Hsp & Hsp'), E4 as (-> & Hlen & Hx).
  apply find_field_spec in Ef as (h & m & -> & Hm & Hs & Hh). apply body_of_spec in Eb as (t & -> & Ht).
  exists (StatusLine (take 8 s) sp0 cd' sep re el), h, m, sp, len, x, t. cbn [l_code]. split_and!; try done.
  - rewrite <- Es at 1. rewrite E0. unfold line_bytes. cbn [l_version l_space l_code l_sep l_reason l_eol]. rewrite <- !app_assoc. cbn [app].
    rewrite <- !app_assoc. cbn [app]. done.
  - unfold line_ok. cbn [l_version l_space l_code l_sep l_reason l_eol]. split_and!; try done; [|by eapply Hsep|by eapply Hel].
    unfold zlen. rewrite length_take. apply (f_equal length) in E0. rewrite length_drop, length_app in E0.
    unfold cd' in E0. simpl in E0. rewrite length_app in E0. lia.
  - intros a b' -> Hb. rewrite <- (Hh a b' eq_refl Hb). rewrite app_assoc. symmetry. apply same_name_app. rewrite length_app. unfold PAT. lia.
  - by eapply Hx.
  - destruct len as [|c len]; [by apply (Hsp' x _ eq_refl)|]. by apply (Hsp' c _ eq_refl).
Qed.

(** A response of code 100 to 199 that arrives in one piece. *)
Definition info_piece (s : list Z) : Prop :=
  ∃ l r, s = line_bytes l ++ r ∧ line_ok l ∧ HTTP_INFO (digits_val 0 (l_code l)) = true ∧ zlen s < IOBUFSZ.

Lemma status_final jobid fuel l h m sp len x t b1 body c k s :
  let r := h ++ m ++ sp ++ len ++ x :: t ++ 10 :: 13 :: 10 :: b1 in let code := digits_val 0 (l_code l) in
  line_ok l → HTTP_INFO code = false → same_name PAT m = true → length m = length PAT →
  (∀ a b, h = a ++ b → b ≠ [] → same_name PAT (b ++ m) = false) →
  Forall (λ c, isspace c = true) sp → Forall (λ c, isdigit c = true) len → isdigit x = false → isspace (hd 0 (len ++ [x])) = false →
  digits_val 0 len < 2 ^ 31 → (∀ a d, t = a ++ d → d ≠ [] → take 3 (d ++ [10; 13; 10]) ≠ [10; 13; 10]) →
  8 ≤ zlen body → digits_val 0 len ≤ zlen body → zlen (buf s) = IOBUFSZ → zlen (line_bytes l ++ r) < IOBUFSZ → (Z.to_nat IOBUFSZ < fuel)%nat →
  inc (rsock s) = Data (line_bytes l ++ r) :: c →
  body_comes body b1 (Sock (sent (rsock s)) (room (rsock s)) c) k (IOBUFSZ - zlen (line_bytes l ++ r)) →
  ∃ s', status_body fresh allocate fuel jobid () s = Ok (inr (HTTP_SUCCESS code && ipp_result jobid body), s').
Proof.
  intros r code Hl Hinfo Hm Hml Hh Hsp Hlen Hx Hx' Hv Ht H8 Hbl Hb Hp Hf Ec Hk.
  destruct (status_body_line jobid fuel l r c s Hl Ec Hb Hp) as (junk & Hj & E). fold code in E. rewrite Hinfo in E. rewrite E. clear E.
  destruct (HTTP_SUCCESS code); cbn [negb andb].
  - destruct (ipp_status_ok jobid fuel (cut_line l) (0 :: h) m sp len x t b1 junk body
      (Rx (Sock (sent (rsock s)) (room (rsock s)) c) (cut_line l ++ 0 :: r ++ junk)) k (zlen (line_bytes l ++ r))) as (s' & E & _); try done.
    + unfold r. cbn [buf app]. rewrite <- !app_assoc. cbn [app]. rewrite <- !app_assoc. done.
    + intros a b Hab Hbne. destruct a as [|a0 a]; [|injection Hab as _ Hab; by apply (Hh a)]. cbn [app] in Hab. subst b.
      destruct (same_name PAT ((0 :: h) ++ m)) eqn:En; [|done]. by apply same_name_c in En.
    + destruct len; done.
    + rewrite <- zlen_cut. unfold r. repeat (rewrite zlen_app || rewrite zlen_cons). lia.
    + by rewrite Hj.
    + cbn [length]. unfold r, line_bytes in Hp. repeat (rewrite zlen_app in Hp || rewrite zlen_cons in Hp). unfold IOBUFSZ, zlen in *. lia.
    + exists s'. by rewrite (bind_ok _ _ _ _ _ E).
  - destruct junk as [|j junk]; [unfold zlen in Hj, Hp; simpl in Hj; lia|]. rewrite <- zlen_cut.
    match goal with |- context [poke _ 0 ≫= _] => idtac end.
    set (s0 := Rx _ (cut_line l ++ 0 :: r ++ j :: junk)).
    assert (buf s0 = (cut_line l ++ 0 :: r) ++ j :: junk) as Eb by (unfold s0; cbn [buf]; rewrite <- app_assoc; done).
    rewrite (bind_ok _ _ _ _ _ (poke_at s0 _ j junk 0 Eb)). by eexists.
Qed.

Lemma printer_status_ok jobid fuel infos text hd code n body c k : allocate IOBUFSZ = true →
  Forall info_piece infos → parse_response text = Some (code, n, body) → HTTP_INFO code = false → code < 2 ^ 31 → n < 2 ^ 31 →
  n ≤ zlen body → 8 ≤ zlen body → zlen text < IOBUFSZ →
  (inc k = (Data <$> infos) ++ Data text :: c ∨ (text = hd ++ body ∧ inc k = (Data <$> infos) ++ Data hd :: Data body :: c)) →
  (length infos + Z.to_nat IOBUFSZ < fuel)%nat →
  ∃ k', printer_status fresh allocate fuel jobid k = Ok (HTTP_SUCCESS code && ipp_result jobid body, k').
Proof.
  intros Hal Hi Ep Hc Hcode Hn Hnb H8 Htext Hinc Hf.
  assert (∀ fuel0 s, (length infos < fuel0)%nat → zlen (buf s) = IOBUFSZ →
    (inc (rsock s) = (Data <$> infos) ++ Data text :: c ∨ (text = hd ++ body ∧ inc (rsock s) = (Data <$> infos) ++ Data hd :: Data body :: c)) →
    ∃ s', iter fuel0 (status_body fresh allocate fuel jobid) () s = Ok (HTTP_SUCCESS code && ipp_result jobid body, s')) as H.
  2: { unfold printer_status. rewrite Hal. cbn [negb]. destruct (H fuel (Rx k (memory fresh 0 IOBUFSZ))) as (s' & ->); [lia| |done|by eexists].
       unfold memory, zlen. cbn [buf]. rewrite length_fmap, length_seqZ. done. }
  clear Hinc. induction Hi as [|p infos (l & r & -> & Hl & Hinf & Hp) _ IH]; intros [|fuel0] s Hf0 Hb Hinc; try (simpl in *; lia); rewrite iter_S.
  - apply parse_response_spec in Ep as (l & h & m & sp & len & x & t & Et & Hl & -> & -> & Hm & Hml & Hh & Hsp & Hlen & Hx & Hx' & Ht); [|done].
    cbn [fmap list_fmap app] in Hinc.
    assert (∃ b1 c0 k0, inc (rsock s) = Data (line_bytes l ++ h ++ m ++ sp ++ len ++ x :: t ++ 10 :: 13 :: 10 :: b1) :: c0 ∧
      zlen (line_bytes l ++ h ++ m ++ sp ++ len ++ x :: t ++ 10 :: 13 :: 10 :: b1) < IOBUFSZ ∧
      body_comes body b1 (Sock (sent (rsock s)) (room (rsock s)) c0) k0 (IOBUFSZ - zlen (line_bytes l ++ h ++ m ++ sp ++ len ++ x :: t ++ 10 :: 13 :: 10 :: b1)))
      as (b1 & c0 & k0 & Ei & Hlt & Hbc).
    { destruct Hinc as [Hinc|[Ehd Hinc]].
      - exists body, c, (Sock (sent (rsock s)) (room (rsock s)) c). rewrite <- Et. split; [done|]. split; [done|]. constructor.
      - assert (hd = line_bytes l ++ h ++ m ++ sp ++ len ++ x :: t ++ [10; 13; 10]) as Ehd'.
        { apply (app_inv_tail body). rewrite <- Ehd, Et. repeat (rewrite <- app_assoc; cbn [app]). done. }
        exists [], (Data body :: c), (Sock (sent (rsock s)) (room (rsock s)) c). rewrite <- Ehd'. rewrite Ehd, zlen_app in Htext. split; [done|]. split; [lia|].
        by apply (body_next body (Sock _ _ _) c); [|lia]. }
    destruct (status_final jobid fuel l h m sp len x t b1 body c0 k0 s) as (s' & E); try done.
    rewrite (bind_ok _ _ _ _ _ E). by eexists.
  - assert (∃ c1, inc (rsock s) = Data (line_bytes l ++ r) :: c1 ∧
      (c1 = (Data <$> infos) ++ Data text :: c ∨ (text = hd ++ body ∧ c1 = (Data <$> infos) ++ Data hd :: Data body :: c))) as (c1 & Ec & Hc1).
    { destruct Hinc as [Hinc|[? Hinc]]; (eexists; split; [exact Hinc|]); [by left|by right]. }
    destruct (status_body_line jobid fuel l r c1 s Hl Ec Hb Hp) as (junk & Hj & E). rewrite Hinf in E. rewrite (bind_ok _ _ _ _ _ E).
    apply IH; [simpl in Hf; lia|simpl in Hf0; lia| |done]. cbn [buf]. rewrite app_comm_cons, app_assoc, zlen_app, zlen_cut. lia.
Qed.

(** ** A header in two pieces *)

Lemma end_inner_none t pre post s datsz fuel : buf s = pre ++ t ++ post → (2 ≤ length t)%nat →
  (∀ a d, t = a ++ d → take 3 d ≠ [10; 13; 10]) → datsz = zlen (pre ++ t) → (length t < fuel)%nat →
  iter fuel (end_inner datsz) (zlen pre) s = Ok ((datsz - 2, false), s).
Proof.
  revert pre fuel. induction t as [|c t IH]; intros pre [|fuel] E H2 Ht Hd Hf; try (simpl in *; lia). rewrite iter_S.
  rewrite zlen_app, zlen_cons in Hd. destruct (decide (length t = 1)%nat) as [E1|E1].
  - assert (datsz - 2 = zlen pre) as Ez by (unfold zlen in *; lia).
    assert (end_inner datsz (zlen pre) s = Ok (inr (zlen pre, false), s)) as Ei by (unfold end_inner; by rewrite (proj2 (Z.ltb_ge _ _)) by lia).
    by rewrite (bind_ok _ _ _ _ _ Ei), Ez.
  - destruct t as [|c1 [|c2 t]]; [simpl in H2; lia|done|]. cbn [app] in E.
    rewrite (bind_ok _ _ _ _ _ (end_inner_miss pre c c1 c2 (t ++ post) s datsz E (Ht [] _ eq_refl)
      ltac:(rewrite !zlen_cons in Hd; pose proof (zlen_nonneg t); lia))).
    replace (zlen pre + 1) with (zlen (pre ++ [c])) by (rewrite zlen_app; done). apply IH.
    + rewrite E, <- app_assoc. done.
    + simpl. lia.
    + intros a d Ha. apply (Ht (c :: a)). by rewrite Ha.
    + rewrite !zlen_app. change (zlen [c]) with 1. lia.
    + simpl in *. lia.
Qed.

Lemma iter_spins {S X R} (body : X → M S (X + R)) x s : body x s = Ok (inl x, s) → ∀ fuel, iter fuel body x s = Fault NoFuel.
Proof. intros E fuel. induction fuel as [|fuel IH]; [done|]. by rewrite iter_S, (bind_ok _ _ _ _ _ E). Qed.

(** When a piece ends after the length but before the empty line, the search for the empty
    line never reads on. *)
Lemma printer_status_spins jobid fuel l h m sp len x t c k : allocate IOBUFSZ = true →
  let r := h ++ m ++ sp ++ len ++ x :: t in
  line_ok l → HTTP_SUCCESS (digits_val 0 (l_code l)) = true → same_name PAT m = true → length m = length PAT →
  (∀ a b, h = a ++ b → b ≠ [] → same_name PAT (b ++ m) = false) →
  Forall (λ c, isspace c = true) sp → Forall (λ c, isdigit c = true) len → isdigit x = false → isspace (hd 0 (len ++ [x])) = false →
  digits_val 0 len < 2 ^ 31 → (2 ≤ length t)%nat → (∀ a d, t = a ++ d → take 3 d ≠ [10; 13; 10]) →
  zlen (line_bytes l ++ r) < IOBUFSZ → (Z.to_nat IOBUFSZ < fuel)%nat → inc k = Data (line_bytes l ++ r) :: c →
  printer_status fresh allocate fuel jobid k = Fault NoFuel.
Proof.
  intros Hal r Hl Hs Hm Hml Hh Hsp Hlen Hx Hx' Hv H2 Ht Hp Hf Ec. unfold printer_status. rewrite Hal. cbn [negb]. set (s := Rx k _).
  assert (zlen (buf s) = IOBUFSZ) as Hb by (unfold s, memory, zlen; cbn [buf]; rewrite length_fmap, length_seqZ; done).
  destruct (status_body_line jobid fuel l r c s Hl Ec Hb Hp) as (junk & Hj & E).
  assert (HTTP_INFO (digits_val 0 (l_code l)) = false) as Hi.
  { unfold HTTP_SUCCESS, HTTP_INFO in *. apply andb_true_iff in Hs as [Hs1%Z.leb_le Hs2]. rewrite andb_false_iff, !Z.leb_gt. lia. }
  rewrite Hi, Hs in E. cbn [negb] in E. destruct fuel as [|fuel0]; [lia|]. set (fuel := S fuel0) in *.
  unfold fuel at 1. rewrite iter_S. enough (status_body fresh allocate fuel jobid () s = Fault NoFuel) as Ef by by rewrite (bind_fault _ _ _ _ Ef).
  rewrite E. clear E. set (s1 := Rx _ _). set (n := zlen (line_bytes l ++ r)) in *.
  enough (ipp_status fresh allocate fuel jobid (zlen (cut_line l)) n s1 = Fault NoFuel) as Ef by by rewrite (bind_fault _ _ _ _ Ef).
  set (pre2 := cut_line l ++ (0 :: h) ++ m ++ sp ++ len ++ [0]).
  assert (buf s1 = cut_line l ++ (0 :: h) ++ m ++ sp ++ len ++ x :: t ++ junk) as E1 by (unfold s1, r; cbn [buf app]; repeat (rewrite <- app_assoc; cbn [app]); done).
  assert (n = zlen (pre2 ++ t)) as En.
  { unfold n. rewrite <- zlen_cut. unfold pre2, r. repeat (rewrite zlen_app || rewrite zlen_cons). change (zlen []) with 0. lia. }
  assert (zlen pre2 = zlen (cut_line l ++ (0 :: h) ++ m ++ sp ++ len) + 1) as Hpre2 by (unfold pre2; repeat (rewrite zlen_app || rewrite zlen_cons); change (zlen []) with 0; lia).
  assert (2 ≤ zlen t) by (unfold zlen; lia). rewrite zlen_app in En.
  unfold ipp_status. rewrite (bind_ok _ _ _ _ _ (length_loop_ok fresh allocate (0 :: h) (cut_line l) m sp len x (t ++ junk) s1 n fuel E1 Hm Hml
    ltac:(unfold pre2 in En; repeat (rewrite zlen_app in En || rewrite zlen_cons in En); rewrite !zlen_app, zlen_cons;
          pose proof (zlen_nonneg m); pose proof (zlen_nonneg sp); pose proof (zlen_nonneg len); change (zlen []) with 0 in *; lia)
    ltac:(intros a b Hab Hbne; destruct a as [|a0 a]; [cbn [app] in Hab; subst b; destruct (same_name PAT ((0 :: h) ++ m)) eqn:Eq; [by apply same_name_c in Eq|done]|
          injection Hab as _ Hab; by apply (Hh a)]) Hsp Hlen Hx ltac:(by destruct len) Hv
    ltac:(unfold n, line_bytes, r in Hp; repeat (rewrite zlen_app in Hp || rewrite zlen_cons in Hp); unfold IOBUFSZ, zlen in *; simpl; lia))).
  rewrite <- Hpre2. set (s2 := set_buf _ s1). unfold more_at_end at 1. rewrite (proj2 (Z.leb_gt _ _)), bind_ret by lia.
  assert (buf s2 = pre2 ++ t ++ junk) as E2 by (unfold s2, pre2; cbn [buf set_buf]; repeat (rewrite <- app_assoc; cbn [app]); done).
  assert (∀ i, iter (S (Z.to_nat n)) (end_inner n) i s2 = Ok ((n - 2, false), s2) → end_body fresh allocate (i, n) s2 = Ok (inl (n - 2, n), s2)) as He.
  { intros i Ei. unfold end_body. rewrite (bind_ok _ _ _ _ _ Ei). unfold more_at_end. by rewrite (proj2 (Z.leb_gt _ _)), bind_ret by lia. }
  enough (iter fuel (end_body fresh allocate) (zlen pre2, n) s2 = Fault NoFuel) as Ef by by rewrite (bind_fault _ _ _ _ Ef).
  unfold fuel. rewrite iter_S. rewrite (bind_ok _ _ _ _ _ (He (zlen pre2) (end_inner_none t pre2 junk s2 n (S (Z.to_nat n)) E2 H2 Ht ltac:(rewrite zlen_app; lia) ltac:(unfold zlen in *; lia)))).
  apply iter_spins, He. rewrite iter_S.
  assert (end_inner n (n - 2) s2 = Ok (inr (n - 2, false), s2)) as Ei by (unfold end_inner; by rewrite Z.ltb_irrefl).
  by rewrite (bind_ok _ _ _ _ _ Ei).
Qed.
End status3.
