(* ===== verification/Printd.v ===== *)
(** The print server [apue.3e/printer/printd.c]: the lists of jobs and workers in the heap,
    the spool directory, the threads that serve clients, the thread that talks to the printer,
    and the start of the daemon.  Threads run as in [Monitor]; a segment is what a thread does
    under one lock, or one step on its own socket and files. *)
From S2P Require Import Prelude CLib Monitor Print PrintIpp.

(** ** Doubly linked lists *)

Record node (A : Type) := Node { next : option nat; prev : option nat; item : A }.
Arguments Node {_} _ _ _.
Arguments next {_} _.
Arguments prev {_} _.
Arguments item {_} _.

(** The allocated nodes (new addresses start at [brk]) and the two ends. *)
Record dlist (A : Type) := DList { heap : gmap nat (node A); brk : nat; dhead : option nat; dtail : option nat }.
Arguments DList {_} _ _ _ _.
Arguments heap {_} _.
Arguments brk {_} _.
Arguments dhead {_} _.
Arguments dtail {_} _.

Section dlist.
Context {A : Type}.
Implicit Types l : dlist A.
Definition set_head v l := DList (heap l) (brk l) v (dtail l).
Definition set_tail v l := DList (heap l) (brk l) (dhead l) v.
Definition malloc (n : node A) : M (dlist A) nat :=
  p ← gets brk; _ ← modify (λ l, DList (<[p := n]> (heap l)) (S p) (dhead l) (dtail l)); mret p.
Definition deref (p : nat) : M (dlist A) (node A) :=
  h ← gets heap; match h !! p with Some n => mret n | None => fail (UB "access to freed memory") end.
Definition free (p : nat) : M (dlist A) () := _ ← deref p; modify (λ l, DList (delete p (heap l)) (brk l) (dhead l) (dtail l)).
Definition store (p : nat) (n : node A) : M (dlist A) () := modify (λ l, DList (<[p := n]> (heap l)) (brk l) (dhead l) (dtail l)).
Definition set_next (p : nat) (v : option nat) : M (dlist A) () := n ← deref p; store p (Node v (prev n) (item n)).
Definition set_prev (p : nat) (v : option nat) : M (dlist A) () := n ← deref p; store p (Node (next n) v (item n)).
End dlist.

(** ** Jobs *)

Record job := Job { jobid : Z; req : printreq }.
Abbreviation jobs := (dlist job).

(** [memory] tells whether there is memory for another job. *)
Definition add_job (memory : jobs → bool) (reqp : printreq) (id : Z) : M jobs () :=
  l ← get;
  if negb (memory l) then fail (Quit "malloc failed") else
  jp ← malloc (Node None None (Job id reqp));
  t ← gets dtail;
  _ ← set_prev jp t;
  _ ← match t with None => modify (set_head (Some jp)) | Some t => set_next t (Some jp) end;
  modify (set_tail (Some jp)).

Definition replace_job (jp : nat) : M jobs () :=
  _ ← set_prev jp None;
  h ← gets dhead;
  _ ← set_next jp h;
  _ ← match h with None => modify (set_tail (Some jp)) | Some h => set_prev h (Some jp) end;
  modify (set_head (Some jp)).

Definition remove_job (target : nat) : M jobs () :=
  t ← deref target;
  _ ← match next t with Some n => set_prev n (prev t) | None => modify (set_tail (prev t)) end;
  t ← deref target;
  match prev t with Some p => set_next p (next t) | None => modify (set_head (next t)) end.

(** ** Workers *)

Record worker := Worker { tid : nat }.
Abbreviation workers := (dlist worker).

(** The list has a head only. Without memory the thread exits: the result tells. *)
Definition add_worker (memory : workers → bool) (t : nat) : M workers bool :=
  l ← get;
  if negb (memory l) then mret false else
  wtp ← malloc (Node None None (Worker t));
  h ← gets dhead;
  _ ← set_next wtp h;
  _ ← match h with None => modify (set_head (Some wtp)) | Some h => set_prev h (Some wtp) end;
  mret true.

(** The loop of [client_cleanup]: the node that was taken out. *)
Definition cleanup_body (t : nat) (wtp : option nat) : M workers (option nat + option nat) :=
  match wtp with
  | None => mret (inr None)
  | Some p =>
      w ← deref p;
      if bool_decide (tid (item w) = t) then
        _ ← match next w with Some n => set_prev n (prev w) | None => mret () end;
        w ← deref p;
        _ ← match prev w with Some q => set_next q (next w) | None => modify (set_head (next w)) end;
        mret (inr (Some p))
      else mret (inl (next w))
  end.
(** Whether the thread's socket was closed. *)
Definition client_cleanup (t : nat) : M workers bool :=
  n ← gets brk;
  h ← gets dhead;
  wtp ← iter (S (S n)) (cleanup_body t) h;
  match wtp with Some p => _ ← free p; mret true | None => mret false end.

(** The threads [kill_workers] cancels. *)
Definition kill_body (x : option nat * list nat) : M workers (option nat * list nat + list nat) :=
  match x with
  | (None, ts) => mret (inr ts)
  | (Some p, ts) => w ← deref p; mret (inl (next w, ts ++ [tid (item w)]))
  end.
Definition kill_workers : M workers (list nat) := n ← gets brk; h ← gets dhead; iter (S (S n)) kill_body (h, []).

(** ** The daemon *)

(** A connection to the printer: [None] when it cannot be reached, or what the socket takes
    and what arrives on it. *)
Abbreviation attempt := (option sock).

(** The shared state: the lists, the job number and its file, the data and control files of
    the spool directory by name, the printer's name, whether it must be read again, the
    connections to come and those that were made with the job, what was sent, and the result.
    The last four components are history that the code does not read: the jobs that were
    added, those that are over, the job the printer thread holds, and who got which number. *)
Record entry := Entry { e_id : Z; e_req : printreq; e_data : list Z }.
Record pd := Pd {
  js : jobs; ws : workers; nextjob : Z; jobfile : list Z;
  data : gmap (list Z) (list Z); reqs : gmap (list Z) (list Z);
  printer_name : list Z; reread : bool;
  attempts : list attempt; wire : list (Z * list Z * bool);
  added : list entry; finished : list entry; hand : list (nat * entry); owner : gmap Z nat
}.
Definition set_js v s := Pd v (ws s) (nextjob s) (jobfile s) (data s) (reqs s) (printer_name s) (reread s) (attempts s) (wire s) (added s) (finished s) (hand s) (owner s).
Definition set_ws v s := Pd (js s) v (nextjob s) (jobfile s) (data s) (reqs s) (printer_name s) (reread s) (attempts s) (wire s) (added s) (finished s) (hand s) (owner s).
Definition set_nextjob v s := Pd (js s) (ws s) v (jobfile s) (data s) (reqs s) (printer_name s) (reread s) (attempts s) (wire s) (added s) (finished s) (hand s) (owner s).
Definition set_jobfile v s := Pd (js s) (ws s) (nextjob s) v (data s) (reqs s) (printer_name s) (reread s) (attempts s) (wire s) (added s) (finished s) (hand s) (owner s).
Definition set_data v s := Pd (js s) (ws s) (nextjob s) (jobfile s) v (reqs s) (printer_name s) (reread s) (attempts s) (wire s) (added s) (finished s) (hand s) (owner s).
Definition set_reqs v s := Pd (js s) (ws s) (nextjob s) (jobfile s) (data s) v (printer_name s) (reread s) (attempts s) (wire s) (added s) (finished s) (hand s) (owner s).
Definition set_printer v r s := Pd (js s) (ws s) (nextjob s) (jobfile s) (data s) (reqs s) v r (attempts s) (wire s) (added s) (finished s) (hand s) (owner s).
Definition set_wire a v s := Pd (js s) (ws s) (nextjob s) (jobfile s) (data s) (reqs s) (printer_name s) (reread s) a v (added s) (finished s) (hand s) (owner s).
Definition set_history a f h o s := Pd (js s) (ws s) (nextjob s) (jobfile s) (data s) (reqs s) (printer_name s) (reread s) (attempts s) (wire s) a f h o.

(** What a client sends, its socket, and who serves it. *)
Record client := Client { c_tid : nat; c_in : conn; c_sock : sock }.
Definition set_sock v c := Client (c_tid c) (c_in c) v.

(** Where a thread is.  A client thread before [add_worker], before the header, before it has
    a number, before [creat] of the data file, in the loop that stores the file, before [creat]
    and [write] of the control file, before the answer, before [add_job], before
    [pthread_cond_signal] and before its cleanup.  The printer thread before it takes a job, and
    with the job it took: before [update_jobno], the configuration, the connection, the two
    [unlink]s, and the return of the job.  The signal thread at a [SIGHUP]. *)
Inductive loc :=
  | CStart (c : client)
  | CHeader (c : client)
  | CJobno (c : client) (r : printreq)
  | CData (c : client) (r : printreq) (id : Z)
  | CRecv (c : client) (r : printreq) (id : Z) (first : bool)
  | CReq (c : client) (r : printreq) (id : Z)
  | CReqWrite (c : client) (r : printreq) (id : Z)
  | CReply (c : client) (r : printreq) (id : Z)
  | CAddJob (c : client) (r : printreq) (id : Z)
  | CSignal (c : client) (id : Z)
  | CCleanup (c : client) (ok : option Z)
  | PGet
  | PUpdate (jp : nat)
  | PConfig (jp : nat)
  | PPrint (jp : nat)
  | PUnlinkData (jp : nat)
  | PUnlinkReq (jp : nat)
  | PDefer (jp : nat)
  | Hup (n : nat).

(** A client thread ends with its socket, whether it was closed, and the number of the job it
    accepted. *)
Inductive res := RClient (c : client) (closed : bool) (ok : option Z) | RSignal.

Abbreviation pM := (M (mon () pd)).
Abbreviation pout := (outcome () loc res).

Definition on_jobs {X} (m : M jobs X) : pM X := λ s,
  match m (js (sh s)) with Ok (x, l) => Ok (x, Mon (set_js l (sh s)) (wk s)) | Fault f => Fault f end.
Definition on_workers {X} (m : M workers X) : pM X := λ s,
  match m (ws (sh s)) with Ok (x, l) => Ok (x, Mon (set_ws l (sh s)) (wk s)) | Fault f => Fault f end.

(** ** One job to the printer *)

Section print.
(** The contents of fresh memory, the sizes there is memory for, and the turns
    [printer_status] may take. *)
Context (fresh : Z → Z) (allocate : Z → bool) (fuel : nat).

Definition send_block (rest : list Z) : M sock (list Z + bool) :=
  let buf := take (Z.to_nat IOBUFSZ) rest in
  if zlen buf =? 0 then mret (inr true)
  else nw ← writen buf; mret (if nw =? zlen buf then inl (drop (Z.to_nat IOBUFSZ) rest) else inr false).

(** The part of [printer_thread] between [connect_retry] and [defer]: whether the job is done. *)
Definition print_job (printer_name : list Z) (j : job) (d : list Z) : M sock bool :=
  let extra := if is_text (req j) then 1 else 0 in
  ibuf ← ipp_header printer_name (jobid j) (req j);
  hbuf ← http_header printer_name (zlen d) (zlen ibuf) extra;
  n ← write (hbuf ++ ibuf);
  if negb (n =? zlen hbuf + zlen ibuf) then mret false else
  n ← (if is_text (req j) then write [8] else mret 1);
  if negb (n =? 1) then mret false else
  ok ← iter (S (length d)) send_block d;
  if negb ok then mret false else printer_status fresh allocate fuel (jobid j).
End print.

(** ** The threads *)

Section daemon.
Context (fresh : Z → Z) (allocate : Z → bool) (fuel : nat).
(** Whether there is memory for a job and for a worker; the result of writing a text to the job
    number file; the data files that can be opened. *)
Context (job_memory : jobs → bool) (worker_memory : workers → bool) (write_jobno : list Z → list Z → Z) (open_data : list Z → bool).
(** The failures of [creat] and the results of [write], by control or data file, name, offset and
    number of bytes; the [errno] of a failed write; the error texts; what was in the answer's
    number and message and in the buffer before; the configuration file, and [getaddrinfo] with the
    canonical name it may give. *)
Context (creat_fails : bool → list Z → bool) (write_res : bool → list Z → Z → Z → Z) (write_errno : Z).
Context (strerror : Z → list Z) (stack_jobid : Z) (stack_msg stack_buf : list Z).
Context (config : list Z) (getaddrinfo : list Z → option (option (list Z))).

Definition pget {A} (f : pd → A) : pM A := sgets f.
Definition pset (f : pd → pd) : pM () := smodify f.

(** A step of the client's socket. *)
Definition on_sock {X} (c : client) (m : M sock X) : pM (X * client) := λ s,
  match m (c_sock c) with Ok (x, k) => Ok ((x, set_sock k c), s) | Fault f => Fault f end.

(** The answer of an error: the text is that of the number in network order, and the job number
    is 0 or, where the code does not set it, what was there. *)
Definition swapped (e : Z) : Z := of_be32 (reverse (be32 e)).
Definition error_resp (id e : Z) : printresp := PrintResp e id (strncpy MSGLEN_MAX (strerror (swapped e))).
Definition ok_resp (id : Z) : printresp := PrintResp 0 id (strcpy_buf stack_msg (bytes "request ID " ++ dec id)).
Definition refuse (c : client) (id e : Z) : pM pout :=
  '(_, c) ← on_sock c (writen (resp_net (error_resp id e)));
  mret (Next (CCleanup c None)).

Definition file_name (id : Z) : list Z := dec id.
Definition unlink_data (n : list Z) : pM () := pset (λ s, set_data (delete n (data s)) s).
Definition unlink_req (n : list Z) : pM () := pset (λ s, set_reqs (delete n (reqs s)) s).

(** [get_newjobno] *)
Definition get_newjobno (t : nat) : pM Z :=
  id ← pget nextjob;
  if id =? 2 ^ 31 - 1 then fail (UB "job number overflow") else
  _ ← pset (set_nextjob (if id + 1 <=? 0 then 1 else id + 1));
  _ ← pset (λ s, set_history (added s) (finished s) (hand s) (<[id := t]> (owner s)) s);
  mret id.

(** The first bytes of the buffer after its first read. *)
Definition not_postscript (bs : list Z) : bool :=
  negb (bool_decide (take 4 (bs ++ drop (length bs) stack_buf) = bytes "%!PS")).
Definition text_flag (first : bool) (bs : list Z) (r : printreq) : printreq :=
  if first && not_postscript bs then PrintReq (size r) (Z.lor (flags r) PR_TEXT) (usernm r) (jobnm r) else r.

Definition client_seg (l : loc) : pM pout :=
  match l with
  | CStart c => b ← on_workers (add_worker worker_memory (c_tid c)); mret (Next (if (b : bool) then CHeader c else CCleanup c None))
  | CHeader c =>
      '(n, c) ← on_sock c (λ k, let '(r, i) := treadn SIZEOF_printreq (inc k) in Ok (r, Sock (sent k) (room k) i));
      match n with
      | None => refuse c 0 ETIME
      | Some b => if negb (zlen b =? SIZEOF_printreq) then refuse c 0 EIO else mret (Next (CJobno c (net_req b)))
      end
  | CJobno c r => id ← get_newjobno (c_tid c); mret (Next (CData c r id))
  | CData c r id =>
      if creat_fails false (file_name id) then refuse c 0 EIO
      else _ ← pset (λ s, set_data (<[file_name id := []]> (data s)) s); mret (Next (CRecv c r id true))
  | CRecv c r id first =>
      '(nr, c) ← on_sock c (sread IOBUFSZ);
      match nr with
      | None | Some [] => mret (Next (CReq c r id))
      | Some bs =>
          let r := text_flag first bs r in
          d ← pget (λ s, default [] (data s !! file_name id));
          let nw := write_res false (file_name id) (zlen d) (zlen bs) in
          if negb (nw =? zlen bs) then
            o ← refuse c stack_jobid (if nw <? 0 then write_errno else EIO);
            _ ← unlink_data (file_name id);
            mret o
          else
            _ ← pset (λ s, set_data (<[file_name id := d ++ bs]> (data s)) s);
            mret (Next (CRecv c r id false))
      end
  | CReq c r id =>
      if creat_fails true (file_name id) then o ← refuse c 0 EIO; _ ← unlink_data (file_name id); mret o
      else _ ← pset (λ s, set_reqs (<[file_name id := []]> (reqs s)) s); mret (Next (CReqWrite c r id))
  | CReqWrite c r id =>
      let nw := write_res true (file_name id) 0 SIZEOF_printreq in
      if negb (nw =? SIZEOF_printreq) then
        o ← refuse c 0 (if nw <? 0 then write_errno else EIO);
        _ ← unlink_req (file_name id);
        _ ← unlink_data (file_name id);
        mret o
      else
        _ ← pset (λ s, set_reqs (<[file_name id := req_host r]> (reqs s)) s);
        mret (Next (CReply c r id))
  | CReply c r id =>
      '(_, c) ← on_sock c (writen (resp_net (ok_resp id)));
      mret (Next (CAddJob c r id))
  | CAddJob c r id =>
      _ ← on_jobs (add_job job_memory r id);
      _ ← pset (λ s, set_history (added s ++ [Entry id r (default [] (data s !! file_name id))]) (finished s) (hand s) (owner s) s);
      mret (Next (CSignal c id))
  | CSignal c id => _ ← cond_signal (); mret (Next (CCleanup c (Some id)))
  | CCleanup c ok => b ← on_workers (client_cleanup (c_tid c)); mret (Done (RClient c b ok))
  | _ => fail (UB "not a client")
  end.

(** [init_printer] *)
Definition get_printaddr : option (option (list Z)) := p ← scan_configfile (bytes "printer") config; getaddrinfo p.
Definition init_printer : pM () :=
  match get_printaddr with
  | None => fail (Quit "no printer address")
  | Some canon => pset (set_printer (default (bytes "printer") canon) false)
  end.
Definition update_jobno : pM () :=
  f ← pget jobfile;
  n ← pget nextjob;
  let nw := write_jobno f (dec n) in
  if nw <? 0 then fail (Quit "can't update job file")
  else pset (set_jobfile (bwrite f 0 (take (Z.to_nat nw) (dec n)))).

(** The job the thread holds is over, or goes back to the list (history only). *)
Definition hand_over (over : bool) : pM () :=
  pset (λ s, set_history (added s) (if over then finished s ++ (hand s).*2 else finished s) [] (owner s) s).

Definition printer_seg (l : loc) : pM pout :=
  match l with
  | PGet =>
      h ← pget (λ s, dhead (js s));
      match h with
      | None => mret (Block () PGet)
      | Some jp =>
          _ ← on_jobs (remove_job jp);
          _ ← pset (λ s, set_history (added s) (finished s) ((jp,.) <$> option_list (added s !! length (finished s))) (owner s) s);
          mret (Next (PUpdate jp))
      end
  | PUpdate jp => _ ← update_jobno; mret (Next (PConfig jp))
  | PConfig jp =>
      b ← pget reread;
      _ ← when b init_printer;
      mret (Next (PPrint jp))
  | PPrint jp =>
      n ← on_jobs (deref jp);
      let j := item n in
      d ← pget (λ s, data s !! file_name (jobid j));
      match (if open_data (file_name (jobid j)) then d else None) with
      | None => _ ← on_jobs (free jp); _ ← hand_over true; mret (Next PGet)
      | Some d =>
          a ← pget attempts;
          p ← pget printer_name;
          match a with
          | [] => mret (Next (PDefer jp))
          | None :: a' => _ ← pset (λ s, set_wire a' (wire s) s); mret (Next (PDefer jp))
          | Some k :: a' =>
              match print_job fresh allocate fuel p j d k with
              | Fault f => fail f
              | Ok (ok, k') =>
                  _ ← pset (λ s, set_wire a' (wire s ++ [(jobid j, sent k', ok)]) s);
                  mret (Next (if (ok : bool) then PUnlinkData jp else PDefer jp))
              end
          end
      end
  | PUnlinkData jp =>
      n ← on_jobs (deref jp); _ ← unlink_data (file_name (jobid (item n))); mret (Next (PUnlinkReq jp))
  | PUnlinkReq jp =>
      n ← on_jobs (deref jp);
      _ ← unlink_req (file_name (jobid (item n)));
      _ ← on_jobs (free jp);
      _ ← hand_over true;
      mret (Next PGet)
  | PDefer jp => _ ← on_jobs (replace_job jp); _ ← hand_over false; mret (Next PGet)
  | _ => fail (UB "not the printer")
  end.

Definition seg (l : loc) : pM pout :=
  match l with
  | Hup n => _ ← pset (λ s, set_printer (printer_name s) true s); mret (match n with O => Done RSignal | S n => Next (Hup n) end)
  | PGet | PUpdate _ | PConfig _ | PPrint _ | PUnlinkData _ | PUnlinkReq _ | PDefer _ => printer_seg l
  | _ => client_seg l
  end.

(** ** The start of the daemon *)

Definition FILENMSZ : Z := 64.
Definition JOBPATH : list Z := bytes "/var/spool/printer/jobno".

(** [init_request]; the number is read into the buffer that holds the path. *)
Definition init_request (locked : bool) : pM () :=
  if locked then fail (Quit "daemon already running") else
  d ← pget (λ s, take (Z.to_nat FILENMSZ) (jobfile s));
  pset (set_nextjob (if zlen d =? 0 then 1 else wrap_s 32 (atol (d ++ drop (length d) (JOBPATH ++ [0]))))).

(** The control files that can be opened and read, and the descriptors the process may have. *)
Context (open_req read_req : list Z → bool) (max_fds : nat).

(** One entry of the directory of control files, with the number of descriptors in use before
    and after. *)
Definition build_entry (d_name : list Z) (fds : nat) : pM nat :=
  if bool_decide (d_name = bytes ".") || bool_decide (d_name = bytes "..") then mret fds else
  if FILENMSZ <=? zlen (bytes "/var/spool/printer/reqs/") + zlen d_name then fail (UB "file name beyond the array") else
  f ← pget (λ s, reqs s !! d_name);
  match f with
  | None => mret fds
  | Some b =>
      if negb (open_req d_name) || (max_fds <=? fds)%nat then mret fds else
      let bs := take (Z.to_nat SIZEOF_printreq) b in
      let nr := if read_req d_name then zlen bs else -1 in
      if negb (nr =? SIZEOF_printreq) then _ ← unlink_req d_name; _ ← unlink_data d_name; mret fds
      else
        let id := wrap_s 32 (atol d_name) in
        let r := host_req bs in
        _ ← on_jobs (add_job job_memory r id);
        _ ← pset (λ s, set_history (added s ++ [Entry id r (default [] (data s !! file_name id))]) (finished s) (hand s) (owner s) s);
        _ ← cond_signal ();
        mret (S fds)
  end.
Fixpoint build_qonstart (entries : list (list Z)) (fds : nat) : pM nat :=
  match entries with [] => mret fds | e :: entries' => fds ← build_entry e fds; build_qonstart entries' fds end.
End daemon.
