(* ===== verification/PrintdSpec.v ===== *)
(** What the print server keeps: the list of jobs is a queue, every job that was accepted is in
    the queue with its files or was printed whole, in order; no other thread than those that
    touch the list of workers, or print, can fail. *)
From S2P Require Import Prelude CLib Monitor Print PrintIpp Printd.

(** ** The list *)

Section dll.
Context {A : Type}.
Implicit Types (l : dlist A) (ps : list (nat * A)).

Definition before ps (i : nat) : option nat := match i with O => None | S j => fst <$> ps !! j end.

(** The nodes at the addresses of [ps], in order, with their contents. *)
Record dll l ps : Prop := {
  dll_nodes : ∀ i p x, ps !! i = Some (p, x) → heap l !! p = Some (Node (fst <$> ps !! S i) (before ps i) x);
  dll_head : dhead l = fst <$> ps !! 0%nat;
  dll_tail : dtail l = before ps (length ps);
  dll_nodup : NoDup ps.*1
}.

Lemma dll_inj l ps i j p x y : dll l ps → ps !! i = Some (p, x) → ps !! j = Some (p, y) → i = j.
Proof.
  intros H Hi Hj. apply (proj1 (NoDup_alt ps.*1) (dll_nodup _ _ H) i j p); rewrite list_lookup_fmap; [by rewrite Hi|by rewrite Hj].
Qed.

Lemma deref_ok l p n : heap l !! p = Some n → deref p l = Ok (n, l).
Proof. intros E. unfold deref. by rewrite bind_gets, E. Qed.
Definition with_heap (h : gmap nat (node A)) l := DList h (brk l) (dhead l) (dtail l).
Lemma set_next_ok l p n v : heap l !! p = Some n → set_next p v l = Ok ((), with_heap (<[p := Node v (prev n) (item n)]> (heap l)) l).
Proof. intros E. unfold set_next. by rewrite (bind_ok _ _ _ _ _ (deref_ok l p n E)). Qed.
Lemma set_prev_ok l p n v : heap l !! p = Some n → set_prev p v l = Ok ((), with_heap (<[p := Node (next n) v (item n)]> (heap l)) l).
Proof. intros E. unfold set_prev. by rewrite (bind_ok _ _ _ _ _ (deref_ok l p n E)). Qed.
End dll.

(** ** Operations on the list of jobs *)

Section jobs.
Implicit Types (l : jobs) (ps : list (nat * job)).

Lemma dll_not_in l ps p : dll l ps → heap l !! p = None → p ∉ ps.*1.
Proof.
  intros H Hp (i & Hi)%list_elem_of_lookup. rewrite list_lookup_fmap in Hi. destruct (ps !! i) as [[q y]|] eqn:Ei; [|done].
  simpl in Hi. injection Hi as ->. by rewrite (dll_nodes _ _ H _ _ _ Ei) in Hp.
Qed.

Lemma dll_neq ps i p q x : p ∉ ps.*1 → ps !! i = Some (q, x) → q ≠ p.
Proof. intros Hp Hi ->. apply Hp. apply list_elem_of_lookup. exists i. by rewrite list_lookup_fmap, Hi. Qed.

Lemma before_app ps qs i : (i ≤ length ps)%nat → before (ps ++ qs) i = before ps i.
Proof. intros Hi. destruct i as [|i]; [done|]. simpl. by rewrite lookup_app_l by lia. Qed.

(** A new last node. *)
Lemma dll_snoc l l' ps p x : dll l ps → p ∉ ps.*1 → heap l' !! p = Some (Node None (before ps (length ps)) x) →
  (∀ i q y, ps !! i = Some (q, y) → heap l' !! q = Some (Node (if decide (S i = length ps) then Some p else fst <$> ps !! S i) (before ps i) y)) →
  dhead l' = Some (default p (dhead l)) → dtail l' = Some p → dll l' (ps ++ [(p, x)]).
Proof.
  intros H Hp Hn Hps Hh Ht. split.
  - intros i q y [Hi|[Hi Hl]]%lookup_app_Some.
    + rewrite (Hps _ _ _ Hi). pose proof (lookup_lt_Some _ _ _ Hi). rewrite before_app by lia. f_equal. f_equal.
      case_decide; [by rewrite lookup_app_r, H1, Nat.sub_diag by lia|]. by rewrite lookup_app_l by lia.
    + apply list_lookup_singleton_Some in Hl as [Hi' [= <- <-]]. assert (i = length ps) as -> by lia.
      rewrite before_app, Hn by lia. f_equal. f_equal. rewrite lookup_ge_None_2; [done|]. rewrite length_app. simpl. lia.
  - rewrite Hh, (dll_head _ _ H). by destruct ps.
  - rewrite Ht, length_app, Nat.add_1_r. simpl. by rewrite list_lookup_middle.
  - rewrite fmap_app. simpl. apply NoDup_app. split; [apply H|]. split; [|repeat constructor; apply not_elem_of_nil].
    intros q Hq ->%list_elem_of_singleton. done.
Qed.

Lemma add_job_ok memory l ps r id : memory l = true → dll l ps → heap l !! brk l = None →
  ∃ l', add_job memory r id l = Ok ((), l') ∧ dll l' (ps ++ [(brk l, Job id r)]) ∧ brk l' = S (brk l) ∧
    ∀ q, q ∉ ps.*1 → q ≠ brk l → heap l' !! q = heap l !! q.
Proof.
  intros Hmem H Hb. set (p := brk l) in *. set (x := Job id r). pose proof (dll_not_in l ps p H Hb) as Hp.
  set (l1 := DList (<[p := Node None None x]> (heap l)) (S p) (dhead l) (dtail l)).
  set (l2 := with_heap (<[p := Node None (dtail l) x]> (heap l1)) l1).
  assert (heap l2 !! p = Some (Node None (dtail l) x)) as E2 by (simpl; by rewrite lookup_insert_eq).
  assert (∀ q, q ≠ p → heap l2 !! q = heap l !! q) as E2' by (intros q Hq; simpl; by rewrite !lookup_insert_ne).
  assert (add_job memory r id l = (_ ← match dtail l with None => modify (set_head (Some p)) | Some t => set_next t (Some p) end; modify (set_tail (Some p))) l2) as Eadd.
  { unfold add_job, get. rewrite (bind_ok (λ s, Ok (s, s)) _ l l l eq_refl), Hmem. cbn [negb]. assert (malloc (Node None None x) l = Ok (p, l1)) as Em by done. rewrite (bind_ok _ _ _ _ _ Em), bind_gets.
    assert (heap l1 !! p = Some (Node None None x)) as E1 by (simpl; by rewrite lookup_insert_eq).
    rewrite (bind_ok _ _ _ _ _ (set_prev_ok l1 p _ (dtail l) E1)). done. }
  rewrite Eadd. clear Eadd. pose proof (dll_tail _ _ H) as Ht. pose proof (dll_head _ _ H) as Hh.
  destruct (list_snoc_case ps) as [->|(ps' & [t y] & Eps)].
  - simpl in Ht, Hh. rewrite Ht. exists (set_tail (Some p) (set_head (Some p) l2)). split; [done|]. split; [|split; [done|]].
    + apply (dll_snoc l); try done; [cbn [heap set_tail set_head]; by rewrite E2, Ht|simpl; by rewrite Hh].
    + intros q _ Hq. by apply E2'.
  - assert (dtail l = Some t) as Ett by (by rewrite Ht, Eps, length_app, Nat.add_1_r; simpl; rewrite list_lookup_middle).
    assert (ps !! length ps' = Some (t, y)) as Elast by (rewrite Eps; by rewrite list_lookup_middle).
    assert (length ps = S (length ps')) as Elen by (rewrite Eps, length_app; simpl; lia).
    assert (t ≠ p) as Htp by (by eapply dll_neq).
    assert (heap l2 !! t = Some (Node None (before ps (length ps')) y)) as E3.
    { rewrite E2' by done. rewrite (dll_nodes _ _ H _ _ _ Elast). by rewrite lookup_ge_None_2 by lia. }
    rewrite Ett, (bind_ok _ _ _ _ _ (set_next_ok l2 t _ (Some p) E3)).
    eexists. split; [done|]. split; [|split; [done|]].
    + cbn [prev item]. apply (dll_snoc l); try done.
      * cbn [heap set_tail with_heap]. rewrite lookup_insert_ne by done. cbn [heap l2 with_heap l1]. by rewrite lookup_insert_eq, Ht.
      * intros i q z Hi. cbn [heap set_tail with_heap]. pose proof (lookup_lt_Some _ _ _ Hi). destruct (decide (i = length ps')) as [->|Hne].
        -- rewrite Hi in Elast. injection Elast as -> ->. rewrite lookup_insert_eq. by rewrite decide_True by lia.
        -- rewrite lookup_insert_ne by (intros <-; apply Hne; by eapply dll_inj). rewrite decide_False by lia.
           rewrite <- (dll_nodes _ _ H _ _ _ Hi). apply E2'. by eapply dll_neq.
      * cbn [dhead set_tail with_heap l2 l1]. rewrite Hh. by destruct ps.
    + intros q Hq Hqp. cbn [heap set_tail with_heap]. rewrite lookup_insert_ne; [by apply E2'|].
      intros <-. apply Hq. apply list_elem_of_lookup. exists (length ps'). by rewrite list_lookup_fmap, Elast.
Qed.

(** A new first node. *)
Lemma dll_push l l' ps p x : dll l ps → p ∉ ps.*1 → heap l' !! p = Some (Node (dhead l) None x) →
  (∀ i q y, ps !! i = Some (q, y) → heap l' !! q = Some (Node (fst <$> ps !! S i) (if decide (i = 0%nat) then Some p else before ps i) y)) →
  dhead l' = Some p → dtail l' = Some (default p (dtail l)) → dll l' ((p, x) :: ps).
Proof.
  intros H Hp Hn Hps Hh Ht. split.
  - intros [|i] q y Hi; simpl in Hi.
    + injection Hi as <- <-. rewrite Hn, (dll_head _ _ H). done.
    + rewrite (Hps _ _ _ Hi). f_equal. f_equal. destruct i as [|i]; [done|]. by rewrite decide_False.
  - done.
  - rewrite Ht, (dll_tail _ _ H). simpl. destruct ps as [|[q y] ps]; [done|]. simpl.
    destruct (lookup_lt_is_Some_2 ((q, y) :: ps) (length ps)) as [[a b] E]; [simpl; lia|]. by rewrite E.
  - simpl. apply NoDup_cons. split; [done|apply H].
Qed.

(** Removing the first node. *)
Lemma dll_pop l l' ps p x : dll l ((p, x) :: ps) →
  (∀ i q y, ps !! i = Some (q, y) → heap l' !! q = Some (Node (fst <$> ps !! S i) (before ps i) y)) →
  dhead l' = fst <$> ps !! 0%nat → dtail l' = before ps (length ps) → dll l' ps.
Proof. intros H Hps Hh Ht. split; [done..|]. pose proof (dll_nodup _ _ H) as Hn. simpl in Hn. by apply NoDup_cons in Hn as [_ ?]. Qed.

Lemma replace_job_ok l ps p n : dll l ps → heap l !! p = Some n → p ∉ ps.*1 →
  ∃ l', replace_job p l = Ok ((), l') ∧ dll l' ((p, item n) :: ps) ∧ brk l' = brk l ∧ ∀ q, q ∉ ps.*1 → q ≠ p → heap l' !! q = heap l !! q.
Proof.
  intros H Hn Hp. pose proof (dll_head _ _ H) as Hh. pose proof (dll_tail _ _ H) as Ht.
  set (l1 := with_heap (<[p := Node (next n) None (item n)]> (heap l)) l).
  set (l2 := with_heap (<[p := Node (dhead l) None (item n)]> (heap l1)) l1).
  assert (heap l2 !! p = Some (Node (dhead l) None (item n))) as E2 by (simpl; by rewrite lookup_insert_eq).
  assert (∀ q, q ≠ p → heap l2 !! q = heap l !! q) as E2' by (intros q Hq; simpl; by rewrite !lookup_insert_ne).
  assert (replace_job p l = (_ ← match dhead l with None => modify (set_tail (Some p)) | Some h => set_prev h (Some p) end; modify (set_head (Some p))) l2) as Er.
  { unfold replace_job. rewrite (bind_ok _ _ _ _ _ (set_prev_ok l p n None Hn)), bind_gets.
    assert (heap l1 !! p = Some (Node (next n) None (item n))) as E1 by (simpl; by rewrite lookup_insert_eq).
    by rewrite (bind_ok _ _ _ _ _ (set_next_ok l1 p _ (dhead l) E1)). }
  rewrite Er. clear Er. destruct ps as [|[h y] ps].
  - simpl in Hh, Ht. rewrite Hh. exists (set_head (Some p) (set_tail (Some p) l2)). split; [done|]. split; [|split; [done|]].
    + apply (dll_push l); try done; simpl; by rewrite ?Ht.
    + intros q _ Hq. by apply E2'.
  - simpl in Hh. rewrite Hh. assert (h ≠ p) as Hhp by (by apply (dll_neq ((h, y) :: ps) 0 p h y)).
    assert (heap l2 !! h = Some (Node (fst <$> ps !! 0%nat) None y)) as E3 by (rewrite E2' by done; by apply (dll_nodes _ _ H 0%nat)).
    rewrite (bind_ok _ _ _ _ _ (set_prev_ok l2 h _ (Some p) E3)). eexists. split; [done|]. split; [|split; [done|]].
    + cbn [next item]. apply (dll_push l); try done.
      * cbn [heap set_head with_heap]. rewrite lookup_insert_ne by done. done.
      * intros i q z Hi. cbn [heap set_head with_heap]. destruct (decide (i = 0%nat)) as [->|Hne].
        -- simpl in Hi. injection Hi as <- <-. by rewrite lookup_insert_eq.
        -- rewrite lookup_insert_ne by (intros <-; apply Hne; by eapply (dll_inj l _ i 0%nat)).
           rewrite <- (dll_nodes _ _ H _ _ _ Hi). apply E2'. by eapply dll_neq.
      * cbn [dtail set_head with_heap l2 l1]. rewrite Ht. simpl.
        destruct (lookup_lt_is_Some_2 ((h, y) :: ps) (length ps)) as [[a b] E]; [simpl; lia|]. by rewrite E.
    + intros q Hq Hqp. cbn [heap set_head with_heap]. rewrite lookup_insert_ne; [by apply E2'|].
      intros <-. apply Hq. simpl. left.
Qed.

Lemma remove_first_ok l ps p x : dll l ((p, x) :: ps) →
  ∃ l' n, remove_job p l = Ok ((), l') ∧ dll l' ps ∧ brk l' = brk l ∧ heap l' !! p = Some n ∧ item n = x ∧
    ∀ q, q ∉ ((p, x) :: ps).*1 → heap l' !! q = heap l !! q.
Proof.
  intros H. pose proof (dll_nodes _ _ H 0%nat p x eq_refl) as Ep. simpl in Ep. pose proof (dll_head _ _ H) as Hh. pose proof (dll_tail _ _ H) as Ht.
  assert (p ∉ ps.*1) as Hp by (pose proof (dll_nodup _ _ H) as Hn; simpl in Hn; by apply NoDup_cons in Hn as [? _]).
  unfold remove_job. rewrite (bind_ok _ _ _ _ _ (deref_ok l p _ Ep)). cbn [next prev]. destruct ps as [|[h y] ps].
  - simpl. rewrite bind_modify. assert (heap (set_tail None l) !! p = Some (Node None None x)) as E1 by done.
    rewrite (bind_ok _ _ _ _ _ (deref_ok (set_tail None l) p _ E1)). cbn [prev next]. eexists _, _. split; [done|].
    split; [by apply (dll_pop l _ [] p x)|]. split; [done|]. split; [exact Ep|]. done.
  - cbn [lookup list_lookup fst fmap option_fmap option_map]. change (fst <$> ((h, y) :: ps) !! 0%nat) with (Some h). cbv iota.
    assert (h ≠ p) as Hhp by (by apply (dll_neq ((h, y) :: ps) 0 p h y)).
    pose proof (dll_nodes _ _ H 1%nat h y eq_refl) as Eh. rewrite (bind_ok _ _ _ _ _ (set_prev_ok l h _ None Eh)).
    set (l1 := with_heap _ l). assert (heap l1 !! p = Some (Node (Some h) None x)) as E1 by (simpl; by rewrite lookup_insert_ne).
    rewrite (bind_ok _ _ _ _ _ (deref_ok l1 p _ E1)). cbn [prev next]. eexists _, _. split; [done|]. split; [|split; [done|split; [exact E1|split; [done|]]]].
    + apply (dll_pop l _ _ p x); [done| |done|].
      * intros i q z Hi. cbn [heap set_head l1 with_heap]. destruct (decide (i = 0%nat)) as [->|Hne].
        -- simpl in Hi. injection Hi as <- <-. by rewrite lookup_insert_eq.
        -- rewrite lookup_insert_ne by (intros <-; apply Hne; assert (S i = 1)%nat as Hi1 by (by eapply (dll_inj l ((p, x) :: (h, y) :: ps) (S i) 1%nat)); lia).
           rewrite (dll_nodes _ _ H (S i) q z Hi). simpl. by destruct i.
      * cbn [dtail set_head l1 with_heap]. rewrite Ht. done.
    + intros q Hq. cbn [heap set_head l1 with_heap]. rewrite lookup_insert_ne; [done|]. intros <-. apply Hq. simpl. right. left.
Qed.
End jobs.

(** ** What is sent *)

(** The job of an entry, and the bytes of its request: both headers, a backspace before plain text, and the file. *)
Definition job_of (e : entry) : job := Job (e_id e) (e_req e).
Definition request_bytes (printer_name : list Z) (e : entry) : list Z :=
  let text := is_text (e_req e) in
  let ipp := ipp_bytes printer_name (e_id e) (cstr (usernm (e_req e))) (cstr (jobnm (e_req e))) text in
  http_bytes printer_name (zlen (e_data e) + zlen ipp + (if text then 1 else 0)) ++ ipp ++ (if text then [8] else []) ++ e_data e.

Lemma bind_Ok_inv {S A B} (m : M S A) (k : A → M S B) s r : (m ≫= k) s = Ok r → ∃ a s', m s = Ok (a, s') ∧ k a s' = Ok r.
Proof. unfold mbind, M_bind. destruct (m s) as [[a s']|] eqn:E; [|done]. intros H. by exists a, s'. Qed.

Lemma ipp_put_inv {S} cap bs cp (s : S) x s' : put cap bs cp s = Ok (x, s') → x = cp ++ bs ∧ s' = s.
Proof. unfold put. case_match; [|done]. by intros [= <- <-]. Qed.
Lemma put_str_inv {S} cap bs cp (s : S) x s' : put_str cap bs cp s = Ok (x, s') → x = cp ++ bs ∧ s' = s.
Proof. unfold put_str. case_match; [|done]. by intros [= <- <-]. Qed.
Lemma add_option_inv {S} tag name val cp (s : S) x s' : add_option tag name val cp s = Ok (x, s') → x = cp ++ attr (tag, name, val) ∧ s' = s.
Proof.
  unfold add_option. intros (? & ? & [-> ->]%ipp_put_inv & H)%bind_Ok_inv. apply bind_Ok_inv in H as (? & ? & [-> ->]%ipp_put_inv & H).
  apply bind_Ok_inv in H as (? & ? & [-> ->]%put_str_inv & H). apply bind_Ok_inv in H as (? & ? & [-> ->]%ipp_put_inv & H).
  apply put_str_inv in H as [-> ->]. split; [|done]. unfold attr. by rewrite <- !app_assoc.
Qed.

Lemma ipp_header_inv {S} p id r (s : S) x s' : ipp_header p id r s = Ok (x, s') →
  x = ipp_bytes p id (cstr (usernm r)) (cstr (jobnm r)) (is_text r) ∧ s' = s.
Proof.
  unfold ipp_header. intros (? & ? & [-> ->]%ipp_put_inv & H)%bind_Ok_inv. apply bind_Ok_inv in H as (? & ? & [-> ->]%ipp_put_inv & H).
  apply bind_Ok_inv in H as (? & ? & [-> ->]%add_option_inv & H). apply bind_Ok_inv in H as (? & ? & [-> ->]%add_option_inv & H).
  apply bind_Ok_inv in H as (str & ? & Hs & H). unfold strcpy in Hs. destruct (_ <? 64); [|done]. injection Hs as <- <-.
  apply bind_Ok_inv in H as (? & ? & [-> ->]%add_option_inv & H).
  apply bind_Ok_inv in H as (u & ? & Hu & H). unfold c_string in Hu. destruct (bool_decide _); [|done]. injection Hu as <- <-.
  apply bind_Ok_inv in H as (? & ? & [-> ->]%add_option_inv & H).
  apply bind_Ok_inv in H as (j & ? & Hj & H). unfold c_string in Hj. destruct (bool_decide _); [|done]. injection Hj as <- <-.
  apply bind_Ok_inv in H as (? & ? & [-> ->]%add_option_inv & H). apply bind_Ok_inv in H as (? & ? & [-> ->]%add_option_inv & H).
  apply ipp_put_inv in H as [-> ->]. split; [|done]. unfold ipp_bytes, job_attrs. rewrite !bind_cons. change (mbind (M := list) attr []) with (@nil Z).
  rewrite !app_nil_r. rewrite <- !app_assoc. done.
Qed.

Lemma http_header_inv {S} p a b e (s : S) x s' : http_header p a b e s = Ok (x, s') → x = http_bytes p (a + b + e) ∧ s' = s.
Proof.
  unfold http_header. intros (? & ? & [-> ->]%put_str_inv & H)%bind_Ok_inv. apply bind_Ok_inv in H as (? & ? & [-> ->]%put_str_inv & H).
  apply bind_Ok_inv in H as (? & ? & [-> ->]%put_str_inv & H). apply bind_Ok_inv in H as (? & ? & [-> ->]%put_str_inv & H).
  apply ipp_put_inv in H as [-> ->]. split; [|done]. unfold http_bytes. rewrite app_nil_l, <- !app_assoc. done.
Qed.

Lemma write_inv bs k n k' : write bs k = Ok (n, k') → n = zlen bs → sent k' = sent k ++ bs.
Proof.
  unfold write. destruct (Z.eqb_spec (zlen bs) 0) as [E|].
  - intros [= <- <-] _. assert (bs = []) as -> by (apply nil_length_inv; unfold zlen in E; lia). by rewrite app_nil_r.
  - case_match; [intros [= <- <-] Hn; pose proof (zlen_nonneg bs); lia|]. intros [= <- <-] Hn. simpl. rewrite Hn.
    unfold zlen. by rewrite Nat2Z.id, firstn_all.
Qed.

Lemma write_cases bs k : wlp (write bs) (λ n k', (n <= 0 ∧ sent k' = sent k) ∨ (0 < n <= zlen bs ∧ sent k' = sent k ++ take (Z.to_nat n) bs)) k.
Proof.
  unfold wlp, write. pose proof (zlen_nonneg bs). destruct (Z.eqb_spec (zlen bs) 0) as [E|]; [left; simpl; done|].
  destruct (Z.leb_spec (room k) 0); [left; simpl; done|]. right. simpl. split; [lia|done].
Qed.

Lemma writen_inv bs k n k' : writen bs k = Ok (n, k') → n = zlen bs → sent k' = sent k ++ bs.
Proof.
  assert (wlp (writen bs) (λ n k', n = zlen bs → sent k' = sent k ++ bs) k) as H.
  2: { unfold wlp in H. intros E. by rewrite E in H. }
  unfold writen. apply (wlp_iter _ (λ nleft s, 0 <= nleft <= zlen bs ∧ sent s = sent k ++ take (Z.to_nat (zlen bs - nleft)) bs)).
  2: { pose proof (zlen_nonneg bs). rewrite Z.sub_diag, take_0, app_nil_r. split; [lia|done]. }
  intros nleft s [Hn Hs]. unfold writen_body. destruct (Z.ltb_spec 0 nleft) as [Hl|Hl].
  2: { apply wlp_ret. intros _. rewrite Hs. replace nleft with 0 by lia. rewrite Z.sub_0_r. unfold zlen. by rewrite Nat2Z.id, firstn_all. }
  apply wlp_bind. eapply wlp_conseq; [apply write_cases|]. intros n0 s' [[Hn0 Hs']|[Hn0 Hs']].
  - destruct (Z.ltb_spec n0 0); [apply wlp_ret; intros Hx; exfalso; revert Hx; case_test; pose proof (zlen_nonneg bs); lia|]. rewrite (proj2 (Z.eqb_eq _ _)) by lia. apply wlp_ret. intros Hx. exfalso. lia.
  - rewrite (proj2 (Z.ltb_ge _ _)), (proj2 (Z.eqb_neq _ _)) by lia. apply wlp_ret.
    assert (zlen (drop (Z.to_nat (zlen bs - nleft)) bs) = nleft) as Ed by (unfold zlen in *; rewrite length_drop; lia).
    rewrite Ed in Hn0. split; [lia|]. rewrite Hs', Hs, <- app_assoc. f_equal.
    rewrite <- (take_drop (Z.to_nat (zlen bs - nleft)) (take (Z.to_nat (zlen bs - (nleft - n0))) bs)). f_equal.
    + rewrite take_take. f_equal. lia.
    + rewrite skipn_firstn_comm. f_equal. lia.
Qed.

(** Reading the response sends nothing. *)
Definition keeps {X} (m : M rx X) : Prop := ∀ s, wlp m (λ _ s', sent (rsock s') = sent (rsock s)) s.
Lemma keeps_ret {X} (x : X) : keeps (mret x).
Proof. by intros s. Qed.
Lemma keeps_fail {X} f : keeps (fail (A := X) f).
Proof. by intros s. Qed.
Lemma keeps_gets {X} (f : rx → X) : keeps (gets f).
Proof. by intros s. Qed.
Lemma keeps_buf f : keeps (modify (λ s, set_buf (f s) s)).
Proof. by intros s. Qed.
Lemma keeps_bind {X Y} (m : M rx X) (k : X → M rx Y) : keeps m → (∀ x, keeps (k x)) → keeps (m ≫= k).
Proof.
  intros Hm Hk s. apply wlp_bind. eapply wlp_conseq; [apply Hm|]. intros x s' E. simpl in E.
  eapply wlp_conseq; [apply Hk|]. intros y s'' E'. simpl in E'. congruence.
Qed.
Lemma keeps_iter {X Y} (body : X → M rx (X + Y)) fuel x : (∀ x, keeps (body x)) → keeps (iter fuel body x).
Proof.
  intros Hb. revert x. induction fuel as [|fuel IH]; intros x; [apply keeps_fail|]. rewrite iter_S. apply keeps_bind; [apply Hb|].
  intros [x'|y]; [apply IH|apply keeps_ret].
Qed.
Lemma keeps_peek i : keeps (peek i).
Proof. unfold peek. apply keeps_bind; [apply keeps_gets|]. intros b. case_match; [apply keeps_ret|apply keeps_fail]. Qed.
Lemma keeps_poke i c : keeps (poke i c).
Proof. unfold poke. apply keeps_bind; [apply keeps_gets|]. intros b. case_match; [apply keeps_fail|apply (keeps_buf (λ _, _))]. Qed.
Lemma keeps_tread off n : keeps (tread_at off n).
Proof. intros s. unfold wlp, tread_at. by destruct (tread n (inc (rsock s))) as [[bs|] c]. Qed.
Create HintDb keeps.
#[local] Hint Resolve keeps_ret keeps_fail keeps_gets keeps_peek keeps_poke keeps_tread : keeps.
Ltac keeps := repeat (first [progress intros | solve [auto with keeps] | apply keeps_bind | apply keeps_iter | case_match | apply (keeps_buf (λ s, _))]).

Lemma printer_status_sent fresh allocate fuel id k ok k' : printer_status fresh allocate fuel id k = Ok (ok, k') → sent k' = sent k.
Proof.
  unfold printer_status. destruct (negb _); [done|]. destruct (iter fuel (status_body fresh allocate fuel id) () _) as [[ok' r]|] eqn:E; [|done]. intros [= _ <-].
  assert (keeps (iter fuel (status_body fresh allocate fuel id) ())) as H.
  2: { specialize (H (Rx k (memory fresh 0 IOBUFSZ))). unfold wlp in H. by rewrite E in H. }
  assert (∀ p i, keeps (scan p i)) as Hscan by (unfold scan, scan_body, bufsz; keeps).
  assert (∀ pat i, keeps (match_at pat i)) as Hmatch by (induction pat; intros; simpl; keeps).
  assert (∀ i d, keeps (more_header fresh allocate i d)) as Hmore by (unfold more_header, readmore, bufsz, when; keeps).
  assert (∀ i d, keeps (ipp_status fresh allocate fuel id i d)) as Hipp.
  { unfold ipp_status, more_at_end, length_body, skip_body, end_body, end_inner, more_at_end, bufsz. keeps. }
  unfold status_body, log_response, bufsz. keeps.
Qed.

Lemma send_blocks_inv fuel d k ok k' : iter fuel send_block d k = Ok (ok, k') → ok = true → sent k' = sent k ++ d.
Proof.
  unfold send_block. assert (0 < Z.to_nat IOBUFSZ)%nat as Hm by (unfold IOBUFSZ; lia). revert Hm. generalize (Z.to_nat IOBUFSZ). intros m Hm.
  revert d k. induction fuel as [|fuel IH]; intros d k; [done|]. rewrite iter_S. intros (r & k1 & Hb & H)%bind_Ok_inv Hok.
  pose proof (take_drop m d) as Ed. set (b := take _ d) in *. set (rest := drop _ d) in *.
  destruct (Z.eqb_spec (zlen b) 0) as [E|E].
  - injection Hb as <- <-. injection H as _ <-. assert (d = []) as ->; [|by rewrite app_nil_r].
    unfold b, zlen in E. rewrite length_take in E. apply nil_length_inv. lia.
  - apply bind_Ok_inv in Hb as (n & k2 & Hw & Hb). injection Hb as <- <-. destruct (Z.eqb_spec n (zlen b)) as [En|En].
    + apply writen_inv in Hw; [|done]. rewrite (IH _ _ H Hok), Hw, <- app_assoc, Ed. done.
    + injection H as <- _. done.
Qed.

Lemma unless_inv {S X} (b : bool) (m m' : M S X) s r : (if negb b then m else m') s = r → b = false ∧ m s = r ∨ b = true ∧ m' s = r.
Proof. destruct b; auto. Qed.

(** The file and the response, after the headers. *)
Lemma print_rest_inv fresh allocate fuel id d k k' : (ok ← iter (S (length d)) send_block d;
    if negb ok then mret false else printer_status fresh allocate fuel id) k = Ok (true, k') → sent k' = sent k ++ d.
Proof.
  intros (ok & k1 & Hl & H)%bind_Ok_inv. apply unless_inv in H as [[_ H]|[Hok H]]; [done|].
  apply printer_status_sent in H. apply send_blocks_inv in Hl; [congruence|done].
Qed.

(** A job that is done was sent whole. *)
Lemma print_job_inv fresh allocate fuel p e k k' : print_job fresh allocate fuel p (job_of e) (e_data e) k = Ok (true, k') →
  sent k' = sent k ++ request_bytes p e.
Proof.
  unfold print_job. intros (ib & k1 & [-> ->]%ipp_header_inv & H)%bind_Ok_inv.
  apply bind_Ok_inv in H as (hb & k2 & [-> ->]%http_header_inv & H).
  change (req (job_of e)) with (e_req e) in H. change (jobid (job_of e)) with (e_id e) in H.
  remember (ipp_bytes _ _ _ _ _) as ib eqn:Eib. remember (http_bytes _ _) as hb eqn:Ehb.
  apply bind_Ok_inv in H as (n & k3 & Hw & H). apply unless_inv in H as [[_ H]|[Hn H]]; [done|].
  apply write_inv in Hw; [|rewrite zlen_app; by apply Z.eqb_eq].
  apply bind_Ok_inv in H as (n' & k4 & Ht & H). apply unless_inv in H as [[_ H]|[Hn' H]]; [done|]. apply Z.eqb_eq in Hn'.
  apply print_rest_inv in H. rewrite H. unfold request_bytes. rewrite <- Eib, <- Ehb, !app_assoc. f_equal.
  rewrite app_assoc in Hw. rewrite <- Hw.
  destruct (is_text (e_req e)); [by apply write_inv in Ht|]. injection Ht as _ <-. by rewrite app_nil_r.
Qed.

(** ** The invariant *)

Section kept.
Context (open_data : list Z → bool).

Definition ids (es : list entry) : list Z := e_id <$> es.
Definition in_spool (s : pd) (e : entry) : Prop :=
  data s !! file_name (e_id e) = Some (e_data e) ∧ reqs s !! file_name (e_id e) = Some (req_host (e_req e)).
Definition printed (s : pd) (e : entry) : Prop := ∃ p, (e_id e, request_bytes p e, true) ∈ wire s.

(** A job is over when it was printed, or cancelled because its data file could not be opened:
    then its files stay. *)
Definition over (s : pd) (e : entry) : Prop := printed s e ∨ (open_data (file_name (e_id e)) = false ∧ in_spool s e).

(** The list holds the entries [qs] in order, and the job in hand is allocated outside of it. *)
Record listed (s : pd) (ps : list (nat * job)) (qs : list entry) : Prop := {
  l_dll : dll (js s) ps;
  l_brk : ∀ q, (brk (js s) ≤ q)%nat → heap (js s) !! q = None;
  l_jobs : ps.*2 = job_of <$> qs;
  l_hand : ∀ p e, hand s = [(p, e)] → p ∉ ps.*1 ∧ ∃ n, heap (js s) !! p = Some n ∧ item n = job_of e
}.

Record inv (s : pd) : Prop := {
  i_listed : ∃ ps qs, listed s ps qs ∧ added s = finished s ++ (hand s).*2 ++ qs ∧ Forall (in_spool s) qs;
  i_one : (length (hand s) ≤ 1)%nat;
  i_nodup : NoDup (ids (added s));
  i_ids : Forall (λ i, 0 < i < nextjob s) (ids (added s));
  i_next : 0 < nextjob s < 2 ^ 31;
  i_owner : ∀ i t, owner s !! i = Some t → 0 < i < nextjob s;
  i_over : Forall (over s) (finished s);
  i_attempts : Forall (λ a, match a with Some k => sent k = [] | None => True end) (attempts s)
}.

Lemma file_name_inj a b : 0 < a < 2 ^ 31 → 0 < b < 2 ^ 31 → file_name a = file_name b → a = b.
Proof.
  intros Ha Hb E. rewrite <- (atol_dec a []), <- (atol_dec b []), !app_nil_r; unfold file_name in E; try (by rewrite E); unfold LONG_MAX; try lia; done.
Qed.

(** A job with its files in the spool goes to the end of the list. *)
Lemma inv_add memory s id r d : memory (js s) = true → inv s → 0 < id < nextjob s → id ∉ ids (added s) →
  data s !! file_name id = Some d → reqs s !! file_name id = Some (req_host r) →
  ∃ l', add_job memory r id (js s) = Ok ((), l') ∧ inv (set_history (added s ++ [Entry id r d]) (finished s) (hand s) (owner s) (set_js l' s)).
Proof.
  intros Hmem I Hid Hnot Hd Hq. pose proof I as [(ps & qs & L & Eadd & Hspool) H1 H2 H3 H4 H5 H6 H7]. pose proof L as [L1 L2 L3 L4].
  destruct (add_job_ok memory (js s) ps r id Hmem L1 (L2 _ (Nat.le_refl _))) as (l' & El & Hdll & Hbrk & Hother). exists l'. split; [done|].
  set (e := Entry id r d). set (s' := set_history (added s ++ [e]) (finished s) (hand s) (owner s) (set_js l' s)).
  split; try done.
  - exists (ps ++ [(brk (js s), Job id r)]), (qs ++ [e]). split; [|split].
    + split; [exact Hdll| | |].
      * intros q Hq'. change (brk l' ≤ q)%nat in Hq'. change (heap l' !! q = None). rewrite Hbrk in Hq'. rewrite Hother; [apply L2; lia| |lia].
        apply (dll_not_in (js s)); [done|apply L2; lia].
      * rewrite !fmap_app, L3. done.
      * intros p e' Hh. destruct (L4 p e' Hh) as (Hp & n & En & Eit). assert (p ≠ brk (js s)) as Hne by (intros ->; rewrite L2 in En by lia; done).
        split; [rewrite fmap_app, elem_of_app; simpl; rewrite list_elem_of_singleton; tauto|]. exists n. change (heap l' !! p = Some n ∧ item n = job_of e'). by rewrite Hother.
    + simpl. rewrite Eadd, <- !app_assoc. done.
    + apply Forall_app. split; [exact Hspool|]. apply Forall_singleton. split; [exact Hd|exact Hq].
  - unfold ids. simpl. rewrite fmap_app. apply NoDup_app. split; [done|]. split; [|simpl; repeat constructor; apply not_elem_of_nil].
    intros x Hx ->%list_elem_of_singleton. done.
  - unfold ids. simpl. rewrite fmap_app. apply Forall_app. split; [done|]. by apply Forall_singleton.
Qed.

(** What a step of client thread [i] leaves to the others. *)
Record frame (i : nat) (s s' : pd) : Prop := {
  f_hand : hand s' = hand s;
  f_finished : finished s' = finished s;
  f_wire : wire s' = wire s;
  f_attempts : attempts s' = attempts s;
  f_added : ∀ e, e ∈ added s → e ∈ added s';
  f_new : ∀ e, e ∈ added s' → e ∈ added s ∨ owner s !! e_id e = Some i;
  f_owner : ∀ id t, owner s !! id = Some t → owner s' !! id = Some t;
  f_files : ∀ id, 0 < id < 2 ^ 31 → owner s !! id ≠ Some i ∨ id ∈ ids (added s) →
    data s' !! file_name id = data s !! file_name id ∧ reqs s' !! file_name id = reqs s !! file_name id
}.

Lemma frame_refl i s : frame i s s.
Proof. split; auto. Qed.

(** ** The threads *)

Section threads.
Context (strerror : Z → list Z) (stack_jobid : Z) (worker_memory : workers → bool) (stack_msg : list Z).
Abbreviation ok_resp := (ok_resp stack_msg).
Abbreviation error_resp := (error_resp strerror).

(** What a client asked for, and the file it sent. *)
Definition asked (c : client) : printreq := net_req (take (Z.to_nat SIZEOF_printreq) (arrived (c_in c))).
Definition file_of (c : client) : list Z := drop (Z.to_nat SIZEOF_printreq) (arrived (c_in c)).
Definition same_req (r r0 : printreq) : Prop :=
  size r = size r0 ∧ usernm r = usernm r0 ∧ jobnm r = jobnm r0 ∧ (flags r = flags r0 ∨ flags r = Z.lor (flags r0) PR_TEXT).

(** A number that thread [i] got and did not use yet. *)
Definition mine (s : pd) (i : nat) (id : Z) : Prop := owner s !! id = Some i ∧ id ∉ ids (added s).

(** An open client: nothing was sent to it. *)
Definition open_client (i : nat) (c : client) : Prop :=
  i ≠ 0%nat ∧ c_tid c = i ∧ pieces_ok (inc (c_sock c)) ∧ SIZEOF_printresp <= room (c_sock c) ∧ sent (c_sock c) = [].
Definition accepted (s : pd) (c : client) (id : Z) : Prop :=
  sent (c_sock c) = resp_net (ok_resp id) ∧ ∃ e, e ∈ added s ∧ e_id e = id ∧ e_data e = file_of c ∧ same_req (e_req e) (asked c).
Definition refused (c : client) : Prop := ∃ id n, id ∈ [0; stack_jobid] ∧ sent (c_sock c) = resp_net (error_resp id n).
(** Without memory for a worker the client gets no answer. *)
Definition unserved (c : client) : Prop := (∃ l, worker_memory l = false) ∧ sent (c_sock c) = [].

(** The job number [id], with its data file complete and, from the write on, its control file. *)
Definition complete (s : pd) (i : nat) (c : client) (r : printreq) (id : Z) (control : bool) : Prop :=
  same_req r (asked c) ∧ mine s i id ∧ data s !! file_name id = Some (file_of c) ∧
  (control = true → reqs s !! file_name id = Some (req_host r)).

(** The job the printer thread holds. *)
Definition holds (s : pd) (jp : nat) (P : entry → Prop) : Prop := ∃ e, hand s = [(jp, e)] ∧ P e.

Definition at_loc (i : nat) (s : pd) (l : loc) : Prop :=
  match l with
  | CStart c | CHeader c => open_client i c ∧ inc (c_sock c) = c_in c
  | CJobno c r => open_client i c ∧ arrived (inc (c_sock c)) = file_of c ∧ r = asked c
  | CData c r id => open_client i c ∧ arrived (inc (c_sock c)) = file_of c ∧ r = asked c ∧ mine s i id
  | CRecv c r id first =>
      open_client i c ∧ same_req r (asked c) ∧ mine s i id ∧ (first = true → r = asked c) ∧
      ∃ d, data s !! file_name id = Some d ∧ d ++ arrived (inc (c_sock c)) = file_of c
  | CReq c r id | CReqWrite c r id => open_client i c ∧ complete s i c r id false
  | CReply c r id => open_client i c ∧ complete s i c r id true
  | CAddJob c r id => i ≠ 0%nat ∧ complete s i c r id true ∧ sent (c_sock c) = resp_net (ok_resp id)
  | CSignal c id | CCleanup c (Some id) => i ≠ 0%nat ∧ accepted s c id
  | CCleanup c None => i ≠ 0%nat ∧ (refused c ∨ unserved c)
  | PGet => i = 0%nat ∧ hand s = []
  | PUpdate jp | PConfig jp | PPrint jp | PDefer jp => i = 0%nat ∧ holds s jp (in_spool s)
  | PUnlinkData jp => i = 0%nat ∧ holds s jp (λ e, in_spool s e ∧ printed s e)
  | PUnlinkReq jp => i = 0%nat ∧ holds s jp (printed s)
  | Hup _ => i ≠ 0%nat
  end.
Definition at_thread (i : nat) (s : pd) (t : thread () loc res) : Prop :=
  match t with
  | Ready l | Waiting _ l => at_loc i s l
  | Finished (RClient c _ (Some id)) => i ≠ 0%nat ∧ accepted s c id
  | Finished (RClient c _ None) => i ≠ 0%nat ∧ (refused c ∨ unserved c)
  | Finished RSignal => i ≠ 0%nat
  end.

Lemma held_added s jp e : inv s → hand s = [(jp, e)] → e ∈ added s.
Proof. intros I Hh. destruct (i_listed _ I) as (ps & qs & _ & -> & _). rewrite Hh. apply elem_of_app. right. left. Qed.

Lemma added_range s e : inv s → e ∈ added s → 0 < e_id e < 2 ^ 31.
Proof.
  intros I He. pose proof (i_ids _ I) as H. rewrite Forall_forall in H. specialize (H (e_id e) ltac:(apply list_elem_of_fmap; by exists e)).
  pose proof (i_next _ I). lia.
Qed.

Lemma frame_spool i s s' e : inv s → frame i s s' → e ∈ added s → in_spool s e → in_spool s' e.
Proof.
  intros I F He [Hd Hr]. destruct (f_files _ _ _ F (e_id e)) as [E1 E2]; [by apply (added_range s)|right; apply list_elem_of_fmap; by eexists|].
  split; congruence.
Qed.

Lemma frame_mine i j s s' id : frame i s s' → j ≠ i → mine s j id → mine s' j id.
Proof.
  intros F Hne [Ho Hi]. split; [by apply (f_owner _ _ _ F)|]. intros (e & -> & He)%list_elem_of_fmap.
  destruct (f_new _ _ _ F e He) as [He'|He']; [|congruence]. apply Hi. apply list_elem_of_fmap; by eexists.
Qed.

Lemma frame_files i j s s' id : inv s → frame i s s' → j ≠ i → mine s j id →
  data s' !! file_name id = data s !! file_name id ∧ reqs s' !! file_name id = reqs s !! file_name id.
Proof.
  intros I F Hne [Ho _]. apply (f_files _ _ _ F); [pose proof (i_owner _ I _ _ Ho); pose proof (i_next _ I); lia|]. left. congruence.
Qed.

Lemma frame_complete i j s s' c r id b : inv s → frame i s s' → j ≠ i → complete s j c r id b → complete s' j c r id b.
Proof.
  intros I F Hne (Hs & Hm & Hd & Hr). destruct (frame_files _ _ _ _ _ I F Hne Hm) as [E1 E2].
  split; [done|]. split; [by eapply frame_mine|]. split; [congruence|]. intros Hb. specialize (Hr Hb). congruence.
Qed.

Lemma frame_accepted i s s' c id : frame i s s' → accepted s c id → accepted s' c id.
Proof. intros F (Hs & e & He & H). split; [done|]. exists e. split; [by apply (f_added _ _ _ F)|done]. Qed.

Lemma frame_printed i s s' e : frame i s s' → printed s e → printed s' e.
Proof. intros F [p H]. exists p. by rewrite (f_wire _ _ _ F). Qed.

Lemma frame_holds i s s' jp (P P' : entry → Prop) : frame i s s' → (∀ e, hand s = [(jp, e)] → P e → P' e) → holds s jp P → holds s' jp P'.
Proof. intros F HP (e & Hh & He). exists e. rewrite (f_hand _ _ _ F). split; [done|by apply HP]. Qed.

(** A step of a client leaves the properties of the other threads. *)
Lemma frame_thread i j s s' t : inv s → frame i s s' → j ≠ i → at_thread j s t → at_thread j s' t.
Proof.
  intros I F Hne. assert (∀ l, at_loc j s l → at_loc j s' l) as Hl.
  { intros l. destruct l as [| |c r|c r id|c r id fst|c r id|c r id|c r id|c r id|c id|c [id|]| |jp|jp|jp|jp|jp|jp|n]; simpl; auto.
    - intros (? & ? & ? & ?). split_and!; auto. by eapply frame_mine.
    - intros (? & ? & Hm & ? & d & ? & ?). destruct (frame_files _ _ _ _ _ I F Hne Hm) as [E1 _].
      split_and!; auto; [by eapply frame_mine|]. exists d. split; [congruence|done].
    - intros (? & ?). split; [done|by eapply frame_complete].
    - intros (? & ?). split; [done|by eapply frame_complete].
    - intros (? & ?). split; [done|by eapply frame_complete].
    - intros (? & ? & ?). split; [done|]. split; [by eapply frame_complete|done].
    - intros (? & ?). split; [done|by eapply frame_accepted].
    - intros (? & ?). split; [done|by eapply frame_accepted].
    - intros (? & ?). split; [done|]. by rewrite (f_hand _ _ _ F).
    - intros (? & H). split; [done|]. eapply frame_holds; [done| |done]. intros e He. apply (frame_spool _ _ _ _ I F). by eapply held_added.
    - intros (? & H). split; [done|]. eapply frame_holds; [done| |done]. intros e He. apply (frame_spool _ _ _ _ I F). by eapply held_added.
    - intros (? & H). split; [done|]. eapply frame_holds; [done| |done]. intros e He. apply (frame_spool _ _ _ _ I F). by eapply held_added.
    - intros (? & H). split; [done|]. eapply frame_holds; [done| |done]. intros e He [? ?]. split; [|by eapply frame_printed].
      apply (frame_spool _ _ _ _ I F); [by eapply held_added|done].
    - intros (? & H). split; [done|]. eapply frame_holds; [done| |done]. intros e He. by eapply frame_printed.
    - intros (? & H). split; [done|]. eapply frame_holds; [done| |done]. intros e He. apply (frame_spool _ _ _ _ I F). by eapply held_added. }
  destruct t as [l|[] l|[c b [id|]|]]; simpl; auto. intros [? ?]. split; [done|by eapply frame_accepted].
Qed.

(** A step of a client that leaves the list and the numbers alone keeps the invariant. *)
Lemma frame_inv i s s' : inv s → frame i s s' → js s' = js s → added s' = added s → nextjob s' = nextjob s → owner s' = owner s → inv s'.
Proof.
  intros I F Ej Ea En Eo. pose proof I as I'. destruct I as [(ps & qs & L & E & Hq) H1 H2 H3 H4 H5 H6 H7].
  assert (∀ e, e ∈ qs → e ∈ added s) as Hin by (intros e He; rewrite E, !elem_of_app; auto).
  split; rewrite ?Ea, ?En, ?Eo, ?(f_hand _ _ _ F), ?(f_finished _ _ _ F), ?(f_attempts _ _ _ F); try done.
  - exists ps, qs. split; [|split; [done|]].
    + destruct L as [L1 L2 L3 L4]. split; rewrite ?Ej, ?(f_hand _ _ _ F); done.
    + rewrite Forall_forall in *. intros e He. eapply frame_spool; [done..|by apply Hin|by apply Hq].
  - rewrite Forall_forall in *. intros e He. destruct (H6 e He) as [Hp|[Ho Hp]]; [left; by apply (frame_printed i s)|right].
    split; [done|]. eapply frame_spool; [done..| |done]. rewrite E. apply elem_of_app. by left.
Qed.

(** ** Client threads *)

Lemma tread_none n c : 0 < n → pieces_ok c → arrived c = [] → (tread n c).1 = None ∨ (tread n c).1 = Some [].
Proof.
  intros Hn Hc Ha. destruct c as [|[bs|] c]; [by right| |by left]. apply Forall_cons in Hc as [Hc _]. simpl in Ha. destruct bs; [done|done].
Qed.

Lemma treadn_loop_bound fuel got nleft c b c' : pieces_ok c → treadn_loop fuel got nleft c = (Some b, c') → zlen b <= zlen got + zlen (arrived c).
Proof.
  revert got nleft c. induction fuel as [|fuel IH]; intros got nleft c Hc; [done|]. simpl. pose proof (zlen_nonneg (arrived c)).
  destruct (Z.ltb_spec 0 nleft) as [Hl|]; [|intros [= <- <-]; lia].
  destruct (decide (arrived c = [])) as [Ha|Ha].
  - destruct (tread nleft c) as [r c1] eqn:E. destruct (tread_none nleft c Hl Hc Ha) as [Er|Er]; rewrite E in Er; simpl in Er; subst r.
    + case_bool_decide; [done|]. intros [= <- <-]. lia.
    + intros [= <- <-]. lia.
  - destruct (tread_data nleft c Hl Hc Ha) as (d & c1 & -> & Hd & _ & Hc1 & -> & _). destruct d as [|x d]; [done|].
    intros E. specialize (IH _ _ _ Hc1 E). rewrite !zlen_app in *. lia.
Qed.

Lemma treadn_full n c b c' : 0 <= n → pieces_ok c → treadn n c = (Some b, c') → zlen b = n →
  b = take (Z.to_nat n) (arrived c) ∧ arrived c' = drop (Z.to_nat n) (arrived c) ∧ pieces_ok c'.
Proof.
  intros Hn Hc E Hb. pose proof (treadn_loop_bound _ _ _ _ _ _ Hc E) as Hbound. unfold zlen at 2 in Hbound. simpl in Hbound.
  destruct (treadn_ok n c Hn Hc ltac:(lia)) as (c1 & E1 & H1 & H2 & _). rewrite E in E1. injection E1 as -> ->. done.
Qed.

Lemma zlen_resp r : zlen (msg r) = MSGLEN_MAX → zlen (resp_net r) = SIZEOF_printresp.
Proof. intros E. unfold resp_net. by rewrite !zlen_app, E. Qed.

Context (fresh : Z → Z) (allocate : Z → bool) (fuel : nat).
Context (job_memory : jobs → bool) (write_jobno : list Z → list Z → Z).
Context (creat_fails : bool → list Z → bool) (write_res : bool → list Z → Z → Z → Z) (write_errno : Z).
Context (stack_buf : list Z) (config : list Z) (getaddrinfo : list Z → option (option (list Z))).
Context (Hstack : zlen stack_msg = MSGLEN_MAX).
Abbreviation client_seg := (client_seg job_memory worker_memory creat_fails write_res write_errno strerror stack_jobid stack_msg stack_buf).
Abbreviation refuse := (refuse strerror).

Lemma zlen_ok_resp id : 0 < id < 2 ^ 31 → zlen (resp_net (ok_resp id)) = SIZEOF_printresp.
Proof.
  intros Hid. apply zlen_resp. cbn [msg Printd.ok_resp]. rewrite strcpy_buf_ok; [done|]. rewrite Hstack, zlen_app.
  pose proof (dec_length id 10 ltac:(lia) ltac:(lia)). unfold zlen, MSGLEN_MAX. change (length (bytes "request ID ")) with 11%nat. lia.
Qed.

Lemma on_sock_eq {X} c (m : M sock X) x k s w : m (c_sock c) = Ok (x, k) → on_sock c m (Mon s w) = Ok ((x, set_sock k c), Mon s w).
Proof. intros E. unfold on_sock. by rewrite E. Qed.

Lemma refuse_ok i c j e s w : j ∈ [0; stack_jobid] → open_client i c → ∃ c', refuse c j e (Mon s w) = Ok (Next (CCleanup c' None), Mon s w) ∧ refused c' ∧ c_tid c' = i.
Proof.
  intros Hj (_ & Ht & _ & Hr & Hs). unfold refuse.
  assert (zlen (resp_net (error_resp j e)) = SIZEOF_printresp) as Hl by (by apply zlen_resp, zlen_strncpy).
  rewrite (bind_ok _ _ _ _ _ (on_sock_eq c _ _ _ s w (writen_ok (resp_net (error_resp j e)) (c_sock c) ltac:(lia)))).
  eexists. split; [done|]. split; [|done]. exists j, e. split; [done|]. cbn [c_sock set_sock say sent]. by rewrite Hs.
Qed.

Definition client_post (i : nat) (s : pd) (o : pout) (m : mon () pd) : Prop := inv (sh m) ∧ at_thread i (sh m) (after o) ∧ frame i s (sh m).

(** A step that changes no list and no number: only the property of the thread is left. *)
Lemma post_same i s o s' w : inv s → js s' = js s → added s' = added s → nextjob s' = nextjob s → owner s' = owner s →
  frame i s s' → at_thread i s' (after o) → client_post i s o (Mon s' w).
Proof. intros I E1 E2 E3 E4 F T. split; [|done]. by eapply frame_inv. Qed.

Lemma post_refused i s c j e s' (m : pM pout) : j ∈ [0; stack_jobid] → inv s → open_client i c →
  js s' = js s → added s' = added s → nextjob s' = nextjob s → owner s' = owner s → frame i s s' →
  (∀ c' w, refuse c j e (Mon s w) = Ok (Next (CCleanup c' None), Mon s w) → m (Mon s w) = Ok (Next (CCleanup c' None), Mon s' w)) →
  wp m (client_post i s) (Mon s []).
Proof.
  intros Hj I Ho E1 E2 E3 E4 F Hm. destruct (refuse_ok i c j e s [] Hj Ho) as (c' & E & Hr & _). apply Hm in E. unfold wp. rewrite E.
  apply post_same; try done. split; [|by left]. apply Ho.
Qed.

Lemma frame_ws i s v : frame i s (set_ws v s).
Proof. by split; auto. Qed.

Lemma wlp_workers {X} (m : M workers X) Q s w : (∀ x v, Q x (Mon (set_ws v s) w)) → wlp (on_workers m) Q (Mon s w).
Proof. intros H. unfold wlp, on_workers. simpl. destruct (m (ws s)) as [[x v]|]; [apply H|done]. Qed.

Lemma step_start i s c : inv s → at_loc i s (CStart c) → wlp (client_seg (CStart c)) (client_post i s) (Mon s []).
Proof.
  intros I [Ho Hc]. cbn [client_seg]. apply wlp_bind. unfold wlp, on_workers. cbn [sh wk].
  destruct (add_worker worker_memory (c_tid c) (ws s)) as [[b v]|] eqn:E; [|done].
  apply (wlp_ret _ (client_post i s)), post_same; [done|done|done|done|done|apply frame_ws|]. destruct b; [done|]. split; [apply Ho|].
  right. split; [|apply Ho]. exists (ws s). unfold add_worker, get in E. rewrite (bind_ok (λ s, Ok (s, s)) _ _ _ _ eq_refl) in E.
  destruct (worker_memory (ws s)); [|done]. cbn [negb] in E. by do 4 apply bind_Ok_inv in E as (? & ? & _ & E).
Qed.

Lemma step_cleanup i s c ok : inv s → at_loc i s (CCleanup c ok) → wlp (client_seg (CCleanup c ok)) (client_post i s) (Mon s []).
Proof.
  intros I Hl. cbn [client_seg]. apply wlp_bind, wlp_workers. intros x v. apply wlp_ret, post_same; [done|done|done|done|done|apply frame_ws|].
  destruct ok as [id|]; [|done]. destruct Hl as [Hi Hl]. split; [done|]. by eapply frame_accepted; [apply (frame_ws i)|].
Qed.

Lemma step_header i s c : inv s → at_loc i s (CHeader c) → wp (client_seg (CHeader c)) (client_post i s) (Mon s []).
Proof.
  intros I [Ho Hc]. cbn [client_seg]. destruct (treadn SIZEOF_printreq (inc (c_sock c))) as [r k] eqn:Er.
  set (c' := set_sock (Sock (sent (c_sock c)) (room (c_sock c)) k) c).
  assert (on_sock c (λ k, let '(r, i) := treadn SIZEOF_printreq (inc k) in Ok (r, Sock (sent k) (room k) i)) (Mon s []) = Ok ((r, c'), Mon s [])) as E
    by (apply on_sock_eq; by rewrite Er).
  apply wp_bind. unfold wp at 1. rewrite E. cbv beta iota.
  assert (∀ e, wp (refuse c' 0 e) (client_post i s) (Mon s [])) as Href.
  { intros e. destruct Ho as (Hi & Ht & Hp & Hr & Hs). assert (∃ c2, refuse c' 0 e (Mon s []) = Ok (Next (CCleanup c2 None), Mon s []) ∧ refused c2) as (c2 & E2 & H2).
    { unfold refuse. assert (zlen (resp_net (error_resp 0 e)) = SIZEOF_printresp) as Hl by (by apply zlen_resp, zlen_strncpy).
      rewrite (bind_ok _ _ _ _ _ (on_sock_eq c' _ _ _ s [] (writen_ok (resp_net (error_resp 0 e)) (c_sock c') ltac:(rewrite Hl; exact Hr)))).
      eexists. split; [done|]. exists 0, e. split; [left|]. cbn [c_sock c' set_sock say sent]. by rewrite Hs. }
    unfold wp. rewrite E2. apply post_same; [done|done|done|done|done|apply frame_refl|]. split; [done|by left]. }
  destruct r as [b|]; [|exact (Href ETIME)]. cbv beta iota. destruct (Z.eqb_spec (zlen b) SIZEOF_printreq) as [Hb|]; [|exact (Href EIO)]. cbn [negb].
  apply wp_ret, post_same; [done|done|done|done|done|apply frame_refl|]. destruct Ho as (Hi & Ht & Hp & Hr & Hs).
  destruct (treadn_full SIZEOF_printreq (inc (c_sock c)) b k ltac:(done) Hp Er Hb) as (-> & Ha & Hk). rewrite Hc in Ha.
  cbn [after at_thread at_loc]. split; [exact (conj Hi (conj Ht (conj Hk (conj Hr Hs))))|]. split; [exact Ha|]. unfold asked. cbn [c_in c' set_sock]. by rewrite Hc.
Qed.

Lemma step_jobno i s c r : inv s → at_loc i s (CJobno c r) → nextjob s ≠ 2 ^ 31 - 1 → wp (client_seg (CJobno c r)) (client_post i s) (Mon s []).
Proof.
  intros I (Ho & Ha & Hs) Hmax. pose proof Ho as (Hi & Ht & _). cbn [client_seg]. pose proof (i_next _ I) as Hn. apply wp_bind. unfold get_newjobno, pget, pset.
  apply wp_bind. unfold sgets, gets, wp at 1. cbn [sh]. rewrite (proj2 (Z.eqb_neq _ _) Hmax).
  rewrite (proj2 (Z.leb_gt _ _)) by lia. set (id := nextjob s) in *.
  set (s' := set_history (added s) (finished s) (hand s) (<[id := c_tid c]> (owner s)) (set_nextjob (id + 1) s)).
  change (wp (mret id) (λ a s0, wp (mret (Next (CData c r a))) (client_post i s) s0) (Mon s' [])).
  apply wp_ret, wp_ret. assert (owner s !! id = None) as Hfresh.
  { destruct (owner s !! id) as [t|] eqn:E; [|done]. pose proof (i_owner _ I _ _ E). lia. }
  assert (frame i s s') as F.
  { split; try done; [by left|]. intros id' t E. simpl. rewrite lookup_insert_ne; [done|]. intros <-. congruence. }
  split; [|split; [|done]].
  - destruct I as [(ps & qs & L & E & Hq) H1 H2 H3 H4 H5 H6 H7]. split; try done.
    + exists ps, qs. split; [|split; [done|]]; [by destruct L as [L1 L2 L3 L4]; split|exact Hq].
    + eapply Forall_impl; [exact H3|]. simpl. intros x. fold id. lia.
    + simpl. lia.
    + intros x t. simpl. intros [[<- _]|[_ E']]%lookup_insert_Some; [lia|]. pose proof (H5 _ _ E'). fold id in H. lia.
  - simpl. split; [done|]. split; [done|]. split; [done|]. split; [simpl; rewrite lookup_insert_eq; by rewrite Ht|].
    simpl. intros Hin. pose proof (i_ids _ I) as Hids. rewrite Forall_forall in Hids. specialize (Hids _ Hin). fold id in Hids. lia.
Qed.

(** A client touches the files of its number only. *)
Lemma frame_store i s id d r : inv s → mine s i id →
  (∀ n, n ≠ file_name id → d !! n = data s !! n) → (∀ n, n ≠ file_name id → r !! n = reqs s !! n) →
  frame i s (set_data d (set_reqs r s)).
Proof.
  intros I [Ho Hi] Hd Hr. pose proof (i_owner _ I _ _ Ho) as Hid. pose proof (i_next _ I) as Hn.
  split; try done; [by left|]. intros id' Hid' H. assert (file_name id' ≠ file_name id) as Hne.
  { intros E%file_name_inj; [|done|lia]. subst id'. destruct H as [H|H]; [by apply H|by apply Hi]. }
  split; [by apply Hd|by apply Hr].
Qed.

Lemma step_data i s c r id : inv s → at_loc i s (CData c r id) → wp (client_seg (CData c r id)) (client_post i s) (Mon s []).
Proof.
  intros I (Ho & Ha & Hs & Hm). cbn [client_seg]. destruct (creat_fails false (file_name id)).
  { apply (post_refused i s c 0 EIO s); try done; [left|apply frame_refl]. }
  apply wp_bind. unfold pset, smodify. apply (wp_conseq _ (λ _ m, m = Mon (set_data (<[file_name id:=[]]> (data s)) s) []) _); [done|].
  intros _ m ->. apply wp_ret. set (s' := set_data _ s).
  assert (frame i s s') as F by (apply (frame_store i s id _ (reqs s) I Hm); [intros n Hn; by rewrite lookup_insert_ne|done]).
  apply post_same; [done|done|done|done|done|done|]. split; [done|]. split; [subst r; unfold same_req; auto|].
  split; [done|]. split; [done|]. exists []. split; [simpl; by rewrite lookup_insert_eq|done].
Qed.

Lemma complete_of s i c c' r id b : c_in c' = c_in c → complete s i c r id b → complete s i c' r id b.
Proof. unfold complete, asked, file_of. by intros ->. Qed.

Lemma text_flag_req first bs r r0 : (first = true → r = r0) → same_req r r0 → same_req (text_flag stack_buf first bs r) r0.
Proof.
  intros Hf Hs. unfold text_flag. destruct first; [|done]. specialize (Hf eq_refl). subst r0. destruct (not_postscript stack_buf bs); [|done].
  unfold same_req. simpl. auto.
Qed.

Lemma step_recv i s c r id first : inv s → at_loc i s (CRecv c r id first) → wp (client_seg (CRecv c r id first)) (client_post i s) (Mon s []).
Proof.
  intros I (Ho & Hs & Hm & Hfst & d & Hd & Hcat). pose proof Ho as (Hi & Ht & Hp & Hr & Hsent). cbn [client_seg].
  destruct (tread IOBUFSZ (inc (c_sock c))) as [nr k] eqn:Er. set (c' := set_sock (Sock (sent (c_sock c)) (room (c_sock c)) k) c).
  assert (on_sock c (sread IOBUFSZ) (Mon s []) = Ok ((nr, c'), Mon s [])) as E by (apply on_sock_eq; unfold sread; by rewrite Er).
  apply wp_bind. unfold wp at 1. rewrite E. cbv beta iota.
  assert (∀ (H : arrived (inc (c_sock c)) = []) (H1 : pieces_ok k), wp (mret (Next (CReq c' r id))) (client_post i s) (Mon s [])) as Hend.
  { intros H H1. apply wp_ret, post_same; [done|done|done|done|done|apply frame_refl|]. rewrite H, app_nil_r in Hcat.
    split; [done|]. split; [done|]. split; [done|]. split; [by rewrite Hd, Hcat|done]. }
  destruct (decide (arrived (inc (c_sock c)) = [])) as [Ha|Ha].
  - assert (pieces_ok k) as Hk.
    { revert Er Hp. unfold tread. destruct (inc (c_sock c)) as [|[bs|] l]; [by intros [= _ <-]| |by intros [= _ <-] [_ ?]%Forall_cons].
      intros [= _ <-] [Hb Hl]%Forall_cons. destruct (drop _ bs); [done|]. by apply Forall_cons. }
    destruct (tread_none IOBUFSZ _ ltac:(done) Hp Ha) as [En|En]; rewrite Er in En; simpl in En; subst nr; by apply Hend.
  - destruct (tread_data IOBUFSZ (inc (c_sock c)) ltac:(done) Hp Ha) as (bs & k' & E' & Hbs & _ & Hk & Earr & _). rewrite Er in E'. injection E' as -> ->.
    destruct bs as [|b0 bs0]; [done|]. set (bs := b0 :: bs0) in *. set (r' := text_flag stack_buf first bs r).
    assert (open_client i c') as Ho' by done. apply wp_bind. unfold pget, sgets, gets. apply (wp_conseq _ (λ x m, x = d ∧ m = Mon s []) _).
    { unfold wp. cbn [sh]. by rewrite Hd. }
    intros x m [-> ->]. match goal with |- context [negb (?a =? ?b)] => destruct (negb (a =? b)) end.
    + match goal with |- context [refuse c' _ ?x] => set (e := x) end. set (s' := set_data (delete (file_name id) (data s)) s).
      apply (post_refused i s c' stack_jobid e s'); try done.
      * right; left.
      * apply (frame_store i s id _ (reqs s) I Hm); [intros n Hn; by rewrite lookup_delete_ne|done].
      * intros c2 w E2. rewrite (bind_ok _ _ _ _ _ E2). done.
    + apply wp_bind. set (s' := set_data (<[file_name id:=d ++ bs]> (data s)) s).
      apply (wp_conseq _ (λ _ m, m = Mon s' []) _); [done|]. intros _ m ->. apply wp_ret.
      assert (frame i s s') as F by (apply (frame_store i s id _ (reqs s) I Hm); [intros n Hn; by rewrite lookup_insert_ne|done]).
      apply post_same; [done|done|done|done|done|done|]. split; [done|]. split; [by apply text_flag_req|]. split; [done|]. split; [done|].
      exists (d ++ bs). split; [simpl; by rewrite lookup_insert_eq|]. rewrite <- app_assoc. cbn [c_sock c' set_sock inc]. rewrite <- Earr. exact Hcat.
Qed.

Lemma step_req i s c r id : inv s → at_loc i s (CReq c r id) → wp (client_seg (CReq c r id)) (client_post i s) (Mon s []).
Proof.
  intros I (Ho & Hs & Hm & Hd & _). cbn [client_seg]. destruct (creat_fails true (file_name id)).
  - apply (post_refused i s c 0 EIO (set_data (delete (file_name id) (data s)) s)); try done.
    + left.
    + apply (frame_store i s id _ (reqs s) I Hm); [intros n Hn; by rewrite lookup_delete_ne|done].
    + intros c2 w E2. by rewrite (bind_ok _ _ _ _ _ E2).
  - apply wp_bind. set (s' := set_reqs (<[file_name id:=[]]> (reqs s)) s). apply (wp_conseq _ (λ _ m, m = Mon s' []) _); [done|].
    intros _ m ->. apply wp_ret, post_same; [done|done|done|done|done| |].
    + apply (frame_store i s id (data s) (reqs s') I Hm); [done|intros n Hn; simpl; by rewrite lookup_insert_ne].
    + split; [done|]. split; [done|]. split; [done|]. split; [done|]. done.
Qed.

Lemma step_reqwrite i s c r id : inv s → at_loc i s (CReqWrite c r id) → wp (client_seg (CReqWrite c r id)) (client_post i s) (Mon s []).
Proof.
  intros I (Ho & Hs & Hm & Hd & _). cbn [client_seg]. destruct (negb (write_res true (file_name id) 0 SIZEOF_printreq =? SIZEOF_printreq)).
  - match goal with |- context [refuse c _ ?x] => set (e := x) end.
    apply (post_refused i s c 0 e (set_data (delete (file_name id) (data s)) (set_reqs (delete (file_name id) (reqs s)) s))); try done.
    + left.
    + apply (frame_store i s id (delete (file_name id) (data s)) (delete (file_name id) (reqs s)) I Hm); intros n Hn; by rewrite lookup_delete_ne.
    + intros c2 w E2. by rewrite (bind_ok _ _ _ _ _ E2).
  - apply wp_bind. set (s' := set_reqs (<[file_name id:=req_host r]> (reqs s)) s). apply (wp_conseq _ (λ _ m, m = Mon s' []) _); [done|].
    intros _ m ->. apply wp_ret, post_same; [done|done|done|done|done| |].
    + apply (frame_store i s id (data s) (reqs s') I Hm); [done|intros n Hn; simpl; by rewrite lookup_insert_ne].
    + split; [done|]. split; [done|]. split; [done|]. split; [done|]. intros _. simpl. by rewrite lookup_insert_eq.
Qed.

Lemma step_reply i s c r id : inv s → at_loc i s (CReply c r id) → wp (client_seg (CReply c r id)) (client_post i s) (Mon s []).
Proof.
  intros I ((Hi & Ht & Hp & Hr & Hsent) & Hc). cbn [client_seg]. pose proof Hc as (_ & [Hown _] & _).
  pose proof (i_owner _ I _ _ Hown). pose proof (i_next _ I). pose proof (zlen_ok_resp id ltac:(lia)) as Hl.
  apply wp_bind. unfold wp at 1. rewrite (on_sock_eq c _ _ _ s [] (writen_ok (resp_net (ok_resp id)) (c_sock c) ltac:(lia))).
  apply wp_ret, post_same; [done|done|done|done|done|apply frame_refl|]. split; [done|]. split; [by eapply complete_of; [|exact Hc]|].
  cbn [c_sock set_sock say sent]. by rewrite Hsent.
Qed.

Lemma step_signal i s c id : inv s → at_loc i s (CSignal c id) → wp (client_seg (CSignal c id)) (client_post i s) (Mon s []).
Proof.
  intros I Hl. cbn [client_seg]. apply wp_bind. apply (wp_conseq _ (λ _ m, m = Mon s [Signal ()]) _); [done|].
  intros _ m ->. apply wp_ret, post_same; [done|done|done|done|done|apply frame_refl|done].
Qed.

Lemma step_add i s c r id : job_memory (js s) = true → inv s → at_loc i s (CAddJob c r id) → wp (client_seg (CAddJob c r id)) (client_post i s) (Mon s []).
Proof.
  intros Hmem I (Hi & (Hs & [Hown Hnot] & Hd & Hq) & Hsent). pose proof (i_owner _ I _ _ Hown) as Hid.
  destruct (inv_add job_memory s id r (file_of c) Hmem I Hid Hnot Hd (Hq eq_refl)) as (l' & El & I').
  set (e := Entry id r (file_of c)) in *. set (s' := set_history (added s ++ [e]) (finished s) (hand s) (owner s) (set_js l' s)) in *.
  assert (client_seg (CAddJob c r id) (Mon s []) = Ok (Next (CSignal c id), Mon s' [])) as E.
  { cbn [Printd.client_seg]. assert (on_jobs (add_job job_memory r id) (Mon s []) = Ok ((), Mon (set_js l' s) [])) as Ej by (unfold on_jobs; cbn [sh]; by rewrite El).
    rewrite (bind_ok _ _ _ _ _ Ej). unfold pset, smodify. rewrite bind_modify. cbn [sh data set_js]. rewrite Hd. done. }
  unfold wp. rewrite E. split; [exact I'|split].
  - split; [done|]. split; [done|]. exists e. split; [apply elem_of_app; right; by apply list_elem_of_singleton|]. done.
  - split; try done.
    + intros e' He. simpl. apply elem_of_app. by left.
    + intros e' [He| ->%list_elem_of_singleton]%elem_of_app; [by left|by right].
Qed.

(** ** The printer thread *)

(** What a step of the printer thread leaves to the clients. *)
Record pframe (s s' : pd) : Prop := {
  p_added : added s' = added s;
  p_owner : owner s' = owner s;
  p_files : ∀ id, 0 < id < 2 ^ 31 → id ∉ ids (added s) →
    data s' !! file_name id = data s !! file_name id ∧ reqs s' !! file_name id = reqs s !! file_name id
}.

Lemma pframe_thread j s s' t : inv s → pframe s s' → j ≠ 0%nat → at_thread j s t → at_thread j s' t.
Proof.
  intros I F Hne. assert (∀ id, mine s j id → mine s' j id ∧ data s' !! file_name id = data s !! file_name id ∧ reqs s' !! file_name id = reqs s !! file_name id) as Hm.
  { intros id [Ho Hi]. pose proof (i_owner _ I _ _ Ho). pose proof (i_next _ I). split; [|apply (p_files _ _ F); [lia|done]].
    split; [by rewrite (p_owner _ _ F)|by rewrite (p_added _ _ F)]. }
  assert (∀ c r id b, complete s j c r id b → complete s' j c r id b) as Hc.
  { intros c r id b (H1 & H2 & H3 & H4). destruct (Hm _ H2) as (? & ? & ?). split_and!; [done..|congruence|]. intros Hb. specialize (H4 Hb). congruence. }
  assert (∀ c id, accepted s c id → accepted s' c id) as Ha.
  { intros c id [? H]. split; [done|]. by rewrite (p_added _ _ F). }
  assert (∀ l, at_loc j s l → at_loc j s' l) as Hl.
  { intros l. destruct l as [| |c r|c r id|c r id fst|c r id|c r id|c r id|c r id|c id|c [id|]| |jp|jp|jp|jp|jp|jp|n]; simpl; auto; try (intros [? _]; done).
    - intros (? & ? & ? & H). destruct (Hm _ H) as [? _]. done.
    - intros (? & ? & H & ? & d & ? & ?). destruct (Hm _ H) as (? & E & _). split_and!; auto. exists d. split; [congruence|done].
    - intros (? & ?). auto.
    - intros (? & ?). auto.
    - intros (? & ?). auto.
    - intros (? & ? & ?). auto.
    - intros (? & ?). auto.
    - intros (? & ?). auto. }
  destruct t as [l|[] l|[c b [id|]|]]; simpl; auto. intros [? ?]. auto.
Qed.

(** The rest of a job is a matter of the wire, the connections, the printer and the number file. *)
Lemma inv_ext s s' : inv s → js s' = js s → added s' = added s → finished s' = finished s → hand s' = hand s → nextjob s' = nextjob s → owner s' = owner s →
  data s' = data s → reqs s' = reqs s → (∀ e, printed s e → printed s' e) → (∀ a, a ∈ attempts s' → a ∈ attempts s) → inv s'.
Proof.
  intros I Ej Ea Ef Eh En Eo Ed Er Hp Hat. destruct I as [(ps & qs & L & E & Hq) H1 H2 H3 H4 H5 H6 H7].
  split; rewrite ?Ea, ?Ef, ?Eh, ?En, ?Eo; try done.
  - exists ps, qs. split; [|split; [done|]].
    + destruct L as [L1 L2 L3 L4]. split; rewrite ?Ej, ?Eh; done.
    + eapply Forall_impl; [exact Hq|]. intros e. unfold in_spool. by rewrite Ed, Er.
  - eapply Forall_impl; [exact H6|]. intros e [He|[Ho He]]; [left; by apply Hp|right]. split; [done|]. unfold in_spool in *. by rewrite Ed, Er.
  - apply Forall_forall. intros a Ha. by apply (proj1 (Forall_forall _ _) H7), Hat.
Qed.

Lemma wp_wlp {S A} (m : M S A) Q s : wp m Q s → wlp m Q s.
Proof. unfold wp, wlp. by destruct (m s) as [[]|]. Qed.

Definition printer_post (s : pd) (o : pout) (m : mon () pd) : Prop := inv (sh m) ∧ at_thread 0 (sh m) (after o) ∧ pframe s (sh m).
Abbreviation printer_seg := (printer_seg fresh allocate fuel write_jobno open_data config getaddrinfo).

Lemma pframe_same s s' : added s' = added s → owner s' = owner s → data s' = data s → reqs s' = reqs s → pframe s s'.
Proof. intros E1 E2 E3 E4. split; [done..|]. by rewrite E3, E4. Qed.

Lemma holds_same s s' jp (P P' : entry → Prop) : hand s' = hand s → (∀ e, P e → P' e) → holds s jp P → holds s' jp P'.
Proof. intros E H (e & Hh & He). exists e. rewrite E. auto. Qed.

(** A step that changes none of the lists and files. *)
Lemma printer_same s o s' w : inv s → js s' = js s → added s' = added s → finished s' = finished s → hand s' = hand s → nextjob s' = nextjob s → owner s' = owner s →
  data s' = data s → reqs s' = reqs s → (∀ e, printed s e → printed s' e) → (∀ a, a ∈ attempts s' → a ∈ attempts s) →
  at_thread 0 s' (after o) → printer_post s o (Mon s' w).
Proof. intros. split; [by eapply inv_ext|]. split; [done|]. by apply pframe_same. Qed.

(** The job in hand. *)
Lemma hand_node s jp e : inv s → hand s = [(jp, e)] → ∃ n, heap (js s) !! jp = Some n ∧ item n = job_of e.
Proof. intros I Hh. destruct (i_listed _ I) as (ps & qs & L & _). by destruct (l_hand _ _ _ L jp e Hh) as [_ ?]. Qed.

Lemma on_jobs_ok {X} (m : M jobs X) s w x l : m (js s) = Ok (x, l) → on_jobs m (Mon s w) = Ok (x, Mon (set_js l s) w).
Proof. intros E. unfold on_jobs. cbn [sh wk]. by rewrite E. Qed.

Lemma deref_hand s jp e w : inv s → hand s = [(jp, e)] → ∃ n, on_jobs (deref jp) (Mon s w) = Ok (n, Mon (set_js (js s) s) w) ∧ item n = job_of e.
Proof. intros I Hh. destruct (hand_node s jp e I Hh) as (n & En & Ei). exists n. split; [|done]. by apply on_jobs_ok, deref_ok. Qed.

Lemma step_update s jp : 0 ≤ write_jobno (jobfile s) (dec (nextjob s)) → inv s → at_loc 0 s (PUpdate jp) → wp (printer_seg (PUpdate jp)) (printer_post s) (Mon s []).
Proof.
  intros Hw I Hl. cbn [Printd.printer_seg]. unfold update_jobno, pget, sgets. apply wp_bind, wp_bind, wp_gets, wp_bind, wp_gets. cbn [sh]. cbv zeta.
  rewrite (proj2 (Z.ltb_ge _ _)) by done. unfold pset, smodify. apply wp_modify, wp_ret.
  apply printer_same; try done; auto.
Qed.

Lemma step_config s jp : inv s → at_loc 0 s (PConfig jp) → wlp (printer_seg (PConfig jp)) (printer_post s) (Mon s []).
Proof.
  intros I Hl. cbn [Printd.printer_seg]. unfold pget. apply wlp_bind. unfold sgets, gets, wlp at 1. cbn [sh]. apply wlp_bind. destruct (reread s); cbn [when].
  - unfold init_printer. destruct (get_printaddr config getaddrinfo) as [canon|]; [|apply wlp_fail]. unfold wlp at 1, pset, smodify, modify. cbv beta iota zeta. cbn [sh].
    apply wlp_ret. apply printer_same; try done; auto.
  - apply wlp_ret, wlp_ret. apply printer_same; try done; auto.
Qed.

Lemma set_js_same s : set_js (js s) s = s.
Proof. by destruct s. Qed.

(** Numbers of different jobs name different files. *)
Lemma other_file s e e' : inv s → e ∈ added s → e' ∈ added s → e_id e ≠ e_id e' → file_name (e_id e') ≠ file_name (e_id e).
Proof. intros I He He' Hne E%file_name_inj; [done|by eapply added_range..]. Qed.

Lemma hand_split s jp e : inv s → hand s = [(jp, e)] → ∃ ps qs, listed s ps qs ∧ added s = finished s ++ e :: qs ∧ Forall (in_spool s) qs ∧
  e ∈ added s ∧ ∀ e', e' ∈ finished s ∨ e' ∈ qs → e' ∈ added s ∧ e_id e ≠ e_id e'.
Proof.
  intros I Hh. destruct (i_listed _ I) as (ps & qs & L & E & Hq). rewrite Hh in E. exists ps, qs. split; [done|]. split; [done|]. split; [done|].
  pose proof (i_nodup _ I) as Hn. unfold ids in Hn. rewrite E, fmap_app in Hn. apply NoDup_app in Hn as (_ & Hn' & Hn). cbn [fmap list_fmap app] in Hn, Hn'. apply NoDup_cons in Hn as [Hn _].
  rewrite E. split; [apply elem_of_app; right; left|]. intros e' [He'|He']; (split; [apply elem_of_app; first [by left|right; by right]|]); intros Eid.
  - apply (Hn' (e_id e')); [apply list_elem_of_fmap; by exists e'|]. rewrite <- Eid. simpl. left.
  - apply Hn. apply list_elem_of_fmap. by exists e'.
Qed.

(** Removing a file of the job in hand. *)
Lemma inv_unlink s s' jp e : inv s → hand s = [(jp, e)] → js s' = js s → added s' = added s → finished s' = finished s → hand s' = hand s → nextjob s' = nextjob s → owner s' = owner s →
  (∀ n, n ≠ file_name (e_id e) → data s' !! n = data s !! n ∧ reqs s' !! n = reqs s !! n) → wire s' = wire s → attempts s' = attempts s → inv s' ∧ pframe s s'.
Proof.
  intros I Hh Ej Ea Ef Eh En Eo Hf Ew Et. destruct (hand_split s jp e I Hh) as (ps & qs & L & E & Hq & He & Hqs).
  assert (∀ e', e' ∈ finished s ∨ e' ∈ qs → in_spool s e' → in_spool s' e') as Hkeep.
  { intros e' He' Hsp. destruct (Hqs _ He') as [Hin Hne]. destruct (Hf (file_name (e_id e'))) as [E1 E2]; [by apply (other_file s)|].
    unfold in_spool. by rewrite E1, E2. }
  split.
  - split; rewrite ?Ea, ?Ef, ?Eh, ?En, ?Eo, ?Et; try apply I.
    + exists ps, qs. split; [|split; [by rewrite Hh|]].
      * destruct L as [L1 L2 L3 L4]. split; rewrite ?Ej, ?Eh; done.
      * rewrite Forall_forall in *. intros e' He'. apply Hkeep; [by right|by apply Hq].
    + pose proof (i_over _ I) as Hov. rewrite Forall_forall in *. intros e' He'. destruct (Hov e' He') as [[p Hp]|[Ho Hp]]; [left; exists p; by rewrite Ew|].
      right. split; [done|]. apply Hkeep; [by left|done].
  - split; [done..|]. intros id Hid Hnot. apply Hf. intros Eid%file_name_inj; [|done|by apply (added_range s)]. subst id. apply Hnot. apply list_elem_of_fmap. by exists e.
Qed.

Lemma step_unlink_data s jp : inv s → at_loc 0 s (PUnlinkData jp) → wp (printer_seg (PUnlinkData jp)) (printer_post s) (Mon s []).
Proof.
  intros I (_ & e & Hh & [Hd Hr] & Hp). cbn [Printd.printer_seg]. destruct (deref_hand s jp e [] I Hh) as (n & En & Ei). rewrite set_js_same in En.
  apply wp_bind. unfold wp at 1. rewrite En, Ei. cbv beta iota. unfold unlink_data, pset, smodify. cbn [jobid job_of]. apply wp_bind, wp_modify, wp_ret. cbn [sh wk].
  set (s' := set_data _ s). destruct (inv_unlink s s' jp e I Hh) as [I' F]; try done.
  { intros m Hm. split; [|done]. cbn [data s' set_data]. by rewrite lookup_delete_ne. }
  split; [done|]. split; [|done]. split; [done|]. by exists e.
Qed.

Lemma dll_ext {A} (l l' : dlist A) ps : dll l ps → (∀ p, p ∈ ps.*1 → heap l' !! p = heap l !! p) → dhead l' = dhead l → dtail l' = dtail l → dll l' ps.
Proof.
  intros [H1 H2 H3 H4] Hh E1 E2. split; [|congruence..|done]. intros i p x Hi. rewrite Hh; [by apply H1|].
  apply list_elem_of_fmap. exists (p, x). split; [done|by eapply list_elem_of_lookup_2].
Qed.

(** The job in hand is over. *)
Lemma finish_ok s0 s jp e : inv s → hand s = [(jp, e)] → over s e → pframe s0 s →
  wp (_ ← on_jobs (free jp); _ ← hand_over true; mret (Next PGet)) (printer_post s0) (Mon s []).
Proof.
  intros I Hh Hov F. destruct (hand_split s jp e I Hh) as (ps & qs & L & E & Hq & He & Hqs). destruct (hand_node s jp e I Hh) as (n & En & Ei).
  assert (free jp (js s) = Ok ((), DList (delete jp (heap (js s))) (brk (js s)) (dhead (js s)) (dtail (js s)))) as Efree.
  { unfold free. by rewrite (bind_ok _ _ _ _ _ (deref_ok _ _ _ En)). }
  apply wp_bind. unfold wp at 1. rewrite (on_jobs_ok _ s [] _ _ Efree). cbv beta iota. unfold hand_over, pset, smodify. apply wp_bind, wp_modify, wp_ret. cbn [sh wk].
  set (l' := DList _ _ _ _). set (s' := set_history _ _ _ _ _). destruct L as [L1 L2 L3 L4]. destruct (L4 jp e Hh) as [Hnot _].
  split; [|split; [done|]].
  - split; try apply I; try done.
    + exists ps, qs. split; [|split; [|done]].
      * split; [|intros q Hq'; change (delete jp (heap (js s)) !! q = None); rewrite lookup_delete_None; right; by apply L2|done|done].
        apply (dll_ext (js s)); [done| |done|done]. intros p Hin. change (delete jp (heap (js s)) !! p = heap (js s) !! p).
        rewrite lookup_delete_ne; [done|]. by intros <-.
      * change (added s = (finished s ++ (hand s).*2) ++ [] ++ qs). rewrite E, Hh. simpl. by rewrite <- app_assoc.
    + simpl. lia.
    + change (Forall (over s') (finished s ++ (hand s).*2)). rewrite Hh. apply Forall_app. split; [apply I|by apply Forall_singleton].
  - destruct F as [F1 F2 F3]. by split.
Qed.

Lemma step_unlink_req s jp : inv s → at_loc 0 s (PUnlinkReq jp) → wp (printer_seg (PUnlinkReq jp)) (printer_post s) (Mon s []).
Proof.
  intros I (_ & e & Hh & Hp). cbn [Printd.printer_seg]. destruct (deref_hand s jp e [] I Hh) as (n & En & Ei). rewrite set_js_same in En.
  apply wp_bind. unfold wp at 1. rewrite En, Ei. cbv beta iota. unfold unlink_req, pset, smodify. cbn [jobid job_of]. apply wp_bind, wp_modify. cbn [sh wk].
  set (s1 := set_reqs _ s). destruct (inv_unlink s s1 jp e I Hh) as [I1 F1]; try done.
  { intros m Hm. split; [done|]. cbn [reqs s1 set_reqs]. by rewrite lookup_delete_ne. }
  apply (finish_ok s s1 jp e); [done|done|by left|done].
Qed.

Lemma step_print s jp : inv s → at_loc 0 s (PPrint jp) → wlp (printer_seg (PPrint jp)) (printer_post s) (Mon s []).
Proof.
  intros I Hl. pose proof Hl as (_ & e & Hh & Hd & Hr). cbn [Printd.printer_seg]. destruct (deref_hand s jp e [] I Hh) as (n & En & Ei). rewrite set_js_same in En.
  apply wlp_bind. unfold wlp at 1. rewrite En, Ei. cbv beta iota. unfold pget, pset. apply wlp_bind. unfold sgets, gets, wlp at 1. cbn [sh jobid job_of]. rewrite Hd.
  destruct (open_data (file_name (e_id e))) eqn:Eo.
  2: { apply wp_wlp, (finish_ok s s jp e); [done|done|by right|by apply pframe_same]. }
  cbv iota. apply wlp_bind. unfold wlp at 1. cbn [sh]. apply wlp_bind. unfold wlp at 1. cbn [sh].
  destruct (attempts s) as [|[k|] a] eqn:Ea.
  - apply wlp_ret, printer_same; try done; auto.
  - destruct (print_job fresh allocate fuel (printer_name s) (job_of e) (e_data e) k) as [[ok k']|] eqn:Ep; [|apply wlp_fail].
    apply wlp_bind. unfold wlp at 1, smodify, modify. cbv beta iota zeta. cbn [sh]. apply wlp_ret.
    assert (∀ a', a' ∈ a → a' ∈ attempts s) as Hin by (intros a' Ha'; rewrite Ea; by right).
    assert (∀ e' : entry, printed s e' → printed (set_wire a (wire s ++ [(e_id e, sent k', ok)]) s) e') as Hp.
    { intros e' [p Hp]. exists p. simpl. apply elem_of_app. by left. }
    assert (in_spool (set_wire a (wire s ++ [(e_id e, sent k', ok)]) s) e) as Hspool by done.
    apply printer_same; try done. destruct ok; [|by split; [|exists e]].
    split; [done|]. exists e. split; [done|]. split; [done|]. exists (printer_name s).
    apply print_job_inv in Ep. pose proof (i_attempts _ I) as Hat. rewrite Ea in Hat. apply Forall_cons in Hat as [Hk _].
    rewrite Hk in Ep. simpl. apply elem_of_app. right. apply list_elem_of_singleton. by rewrite Ep.
  - apply wlp_bind. unfold wlp at 1, smodify, modify. cbv beta iota zeta. cbn [sh]. apply wlp_ret.
    apply printer_same; try done; auto. intros a' Ha'. rewrite Ea. by right.
Qed.

Lemma step_defer s jp : inv s → at_loc 0 s (PDefer jp) → wp (printer_seg (PDefer jp)) (printer_post s) (Mon s []).
Proof.
  intros I (_ & e & Hh & Hsp). cbn [Printd.printer_seg]. destruct (hand_split s jp e I Hh) as (ps & qs & L & E & Hq & He & Hqs).
  destruct L as [L1 L2 L3 L4]. destruct (L4 jp e Hh) as (Hnot & n & En & Ei).
  destruct (replace_job_ok (js s) ps jp n L1 En Hnot) as (l' & El & Hdll & Hbrk & Hother).
  apply wp_bind. unfold wp at 1. rewrite (on_jobs_ok _ s [] _ _ El). cbv beta iota. unfold hand_over, pset, smodify. apply wp_bind, wp_modify, wp_ret. cbn [sh wk].
  set (s' := set_history _ _ _ _ _). split; [|split; [done|by apply pframe_same]].
  split; try apply I; try done; [|simpl; lia].
  exists ((jp, item n) :: ps), (e :: qs). split; [|split; [exact E|by apply Forall_cons]].
  split; [done| |by rewrite Ei; cbn [fmap list_fmap]; rewrite L3|done].
  intros q Hq'. change (brk l' ≤ q)%nat in Hq'. change (heap l' !! q = None). rewrite Hbrk in Hq'. rewrite Hother; [by apply L2| |].
  - apply (dll_not_in (js s)); [done|by apply L2].
  - intros ->. by rewrite L2 in En.
Qed.

Lemma step_get s : inv s → at_loc 0 s PGet → wp (printer_seg PGet) (printer_post s) (Mon s []).
Proof.
  intros I [_ Hh]. cbn [Printd.printer_seg]. unfold pget, pset. apply wp_bind. unfold sgets, gets, wp at 1. cbn [sh].
  destruct (i_listed _ I) as (ps & qs & L & E & Hq). destruct L as [L1 L2 L3 L4]. rewrite (dll_head _ _ L1). destruct ps as [|[jp x] ps]; simpl.
  { apply wp_ret. by apply printer_same; auto. }
  destruct qs as [|e qs]; [done|]. injection L3 as -> L3. rewrite Hh in E. simpl in E. apply Forall_cons in Hq as [Hqe Hqs].
  destruct (remove_first_ok (js s) ps jp (job_of e) L1) as (l' & n & El & Hdll & Hbrk & En & Ei & Hother).
  apply wp_bind. unfold wp at 1. rewrite (on_jobs_ok _ s [] _ _ El). cbv beta iota. apply wp_bind, wp_modify, wp_ret. cbn [sh wk].
  set (s' := set_history _ _ _ _ _). assert (hand s' = [(jp, e)]) as Hh'.
  { change (((jp,.) <$> option_list (added s !! length (finished s))) = [(jp, e)]). rewrite E. by rewrite lookup_app_r, Nat.sub_diag by done. }
  split; [|split; [by split; [|exists e]|by apply pframe_same]].
  split; try apply I; try done; [|change (length (hand s') ≤ 1)%nat; by rewrite Hh'].
  exists ps, qs. split; [|split; [change (added s = finished s ++ (hand s').*2 ++ qs); rewrite Hh'; exact E|exact Hqs]].
  split; [done| |done|].
  - intros q Hq'. change (brk l' ≤ q)%nat in Hq'. change (heap l' !! q = None). rewrite Hbrk in Hq'. rewrite Hother; [by apply L2|].
    apply (dll_not_in (js s)); [done|by apply L2].
  - intros p e' Hp. change (hand s' = [(p, e')]) in Hp. rewrite Hh' in Hp. injection Hp as <- <-. split; [pose proof (dll_nodup _ _ L1) as Hn; simpl in Hn; by apply NoDup_cons in Hn as [? _]|]. by exists n.
Qed.

(** ** All threads *)

Abbreviation seg := (seg fresh allocate fuel job_memory worker_memory write_jobno open_data creat_fails write_res write_errno strerror stack_jobid stack_msg stack_buf config getaddrinfo).

Lemma step_hup i s n : inv s → at_loc i s (Hup n) → wp (seg (Hup n)) (client_post i s) (Mon s []).
Proof.
  intros I Hi. cbn [Printd.seg]. unfold pset, smodify. apply wp_bind, wp_modify, wp_ret. cbn [sh wk].
  split; [by eapply inv_ext|]. split; [by destruct n|]. by split; auto.
Qed.

(** Where a step can fail: in the list of workers, at the largest number, without memory for a
    job, when the job number cannot be written, when the printer has no address, and while it
    prints. *)
Definition may_fail (s : pd) (l : loc) : Prop :=
  match l with
  | CStart _ | CCleanup _ _ | PConfig _ | PPrint _ => True
  | CJobno _ _ => nextjob s = 2 ^ 31 - 1
  | CAddJob _ _ _ => job_memory (js s) = false
  | PUpdate _ => write_jobno (jobfile s) (dec (nextjob s)) < 0
  | _ => False
  end.

Definition is_printer (l : loc) : bool :=
  match l with PGet | PUpdate _ | PConfig _ | PPrint _ | PUnlinkData _ | PUnlinkReq _ | PDefer _ => true | _ => false end.

Lemma client_step i s l : inv s → at_loc i s l → is_printer l = false → ¬ may_fail s l → wp (seg l) (client_post i s) (Mon s []).
Proof.
  intros Hs Hl Hp Hf. destruct l; try discriminate Hp; try (exfalso; exact (Hf I)); cbn [Printd.seg].
  - exact (step_header i s _ Hs Hl).
  - exact (step_jobno i s _ _ Hs Hl Hf).
  - exact (step_data i s _ _ _ Hs Hl).
  - exact (step_recv i s _ _ _ _ Hs Hl).
  - exact (step_req i s _ _ _ Hs Hl).
  - exact (step_reqwrite i s _ _ _ Hs Hl).
  - exact (step_reply i s _ _ _ Hs Hl).
  - apply (step_add i s); [|exact Hs|exact Hl]. by apply not_false_is_true.
  - exact (step_signal i s _ _ Hs Hl).
  - exact (step_hup i s _ Hs Hl).
Qed.
Lemma client_step_partial i s l : inv s → at_loc i s l → is_printer l = false → wlp (seg l) (client_post i s) (Mon s []).
Proof.
  intros Hs Hl Hp. destruct l; try discriminate Hp; try exact (wp_wlp _ _ _ (client_step i s _ Hs Hl Hp (λ H, H))).
  - exact (step_start i s _ Hs Hl).
  - destruct (decide (nextjob s = 2 ^ 31 - 1)) as [E|Hne]; [|exact (wp_wlp _ _ _ (client_step i s _ Hs Hl Hp Hne))].
    cbn [Printd.seg Printd.client_seg]. unfold get_newjobno, pget. apply wlp_bind, wlp_bind. unfold sgets, gets, wlp at 1. cbn [sh].
    rewrite E, Z.eqb_refl. apply wlp_fail.
  - destruct (decide (job_memory (js s) = false)) as [E|Hne]; [|exact (wp_wlp _ _ _ (client_step i s _ Hs Hl Hp Hne))].
    cbn [Printd.seg Printd.client_seg]. apply wlp_bind. unfold wlp, on_jobs, add_job, get. cbn [sh].
    rewrite (bind_ok (λ s, Ok (s, s)) _ _ _ _ eq_refl), E. done.
  - exact (step_cleanup i s _ _ Hs Hl).
Qed.
Lemma printer_step i s l : inv s → at_loc i s l → is_printer l = true → i = 0%nat ∧ wlp (seg l) (printer_post s) (Mon s []) ∧
  (¬ may_fail s l → wp (seg l) (printer_post s) (Mon s [])).
Proof.
  intros Hs Hl Hp. assert (i = 0%nat) as -> by (destruct l; try discriminate Hp; exact (proj1 Hl)). split; [done|].
  destruct l; try discriminate Hp; cbn [Printd.seg].
  - pose proof (step_get s Hs Hl) as H. exact (conj (wp_wlp _ _ _ H) (λ _, H)).
  - split; [|intros Hf; apply step_update; [apply Z.nlt_ge; exact Hf|done..]].
    destruct (Z.lt_ge_cases (write_jobno (jobfile s) (dec (nextjob s))) 0) as [Hw|Hw]; [|by apply wp_wlp, step_update].
    cbn [Printd.printer_seg]. unfold update_jobno, pget, sgets. apply wlp_bind, wlp_bind. unfold gets at 1. unfold wlp at 1. apply wlp_bind. unfold gets, wlp at 1. cbn [sh].
    cbv zeta. rewrite (proj2 (Z.ltb_lt _ _)) by done. apply wlp_fail.
  - exact (conj (step_config s _ Hs Hl) (λ Hf, False_ind _ (Hf I))).
  - exact (conj (step_print s _ Hs Hl) (λ Hf, False_ind _ (Hf I))).
  - pose proof (step_unlink_data s _ Hs Hl) as H. exact (conj (wp_wlp _ _ _ H) (λ _, H)).
  - pose proof (step_unlink_req s _ Hs Hl) as H. exact (conj (wp_wlp _ _ _ H) (λ _, H)).
  - pose proof (step_defer s _ Hs Hl) as H. exact (conj (wp_wlp _ _ _ H) (λ _, H)).
Qed.

Lemma seg_keeps i l s o s' ks : inv s → at_loc i s l → seg l (Mon s []) = Ok (o, Mon s' ks) →
  inv s' ∧ at_thread i s' (after o) ∧ ∀ j t, j ≠ i → at_thread j s t → at_thread j s' t.
Proof.
  intros I Hl E. destruct (is_printer l) eqn:Hp.
  - destruct (printer_step i s l I Hl Hp) as (-> & H & _). unfold wlp in H. rewrite E in H. destruct H as (I' & Ht & F).
    split; [done|]. split; [done|]. intros j t Hj. by eapply pframe_thread.
  - pose proof (client_step_partial i s l I Hl Hp) as H. unfold wlp in H. rewrite E in H. destruct H as (I' & Ht & F).
    split; [done|]. split; [done|]. intros j t Hj. by eapply frame_thread.
Qed.

Lemma reachable_printd cfg cfg' : reachable seg cfg cfg' → inv cfg.1 → (∀ i t, cfg.2 !! i = Some t → at_thread i cfg.1 t) →
  inv cfg'.1 ∧ ∀ i t, cfg'.2 !! i = Some t → at_thread i cfg'.1 t.
Proof.
  apply (reachable_rely seg inv at_thread).
  - intros i s [l|[] l|r]; auto.
  - intros i l s o s' ks Hs Hl E. exact (seg_keeps i l s o s' ks Hs Hl E).
Qed.

Lemma seg_fault i l s f : inv s → at_loc i s l → seg l (Mon s []) = Fault f → may_fail s l.
Proof.
  intros Hs Hl E. assert (¬ ¬ may_fail s l) as H.
  { intros Hf. destruct (is_printer l) eqn:Hp.
    - destruct (printer_step i s l Hs Hl Hp) as (_ & _ & H). specialize (H Hf). unfold wp in H. by rewrite E in H.
    - pose proof (client_step i s l Hs Hl Hp Hf) as H. unfold wp in H. by rewrite E in H. }
  destruct l; cbn [may_fail] in H |- *; first [exact I|exact (dec_stable H)].
Qed.
End threads.
End kept.
