(* ===== verification/PrintApi.v ===== *)
(** What the printing system promises: the spooler's theorems, with the runs that show where it
    breaks. The client of [print.c], the threads of [printd.c] and the printer's protocol of
    [ipp.h] meet here. *)
From S2P Require Import Prelude CLib Monitor Print PrintIpp Printd PrintdSpec.

(** ** A printer that takes the job *)

Section printer.
Context (fresh : Z → Z) (allocate : Z → bool) (fuel : nat).

(** The printer reports success for the job, after at most [fuel] less a buffer of interim
    answers, in one piece or with the body in a second piece. *)
Definition good_answer (id : Z) (c : conn) : Prop := ∃ infos text hd code n body rest,
  Forall info_piece infos ∧ parse_response text = Some (code, n, body) ∧ HTTP_SUCCESS code = true ∧ n < 2 ^ 31 ∧
  n ≤ zlen body ∧ 8 ≤ zlen body ∧ zlen text < IOBUFSZ ∧
  (c = (Data <$> infos) ++ Data text :: rest ∨ (text = hd ++ body ∧ c = (Data <$> infos) ++ Data hd :: Data body :: rest)) ∧
  (length infos + Z.to_nat IOBUFSZ < fuel)%nat ∧ ipp_result id body = true.
Definition good_printer (p : list Z) (e : entry) (k : sock) : Prop :=
  sent k = [] ∧ zlen (request_bytes p e) ≤ room k ∧ good_answer (e_id e) (inc k).
(** The request fits the arrays of the print server. *)
Definition printable (p : list Z) (e : entry) : Prop :=
  0 ∈ usernm (e_req e) ∧ 0 ∈ jobnm (e_req e) ∧ zlen p < 53 ∧
  ipp_size p (cstr (usernm (e_req e))) (cstr (jobnm (e_req e))) (is_text (e_req e)) ≤ IBUFSZ ∧ zlen (e_data e) < 2 ^ 62.

Lemma send_blocks_ok n d k : (length d < n)%nat → zlen d ≤ room k → iter n send_block d k = Ok (true, say d k).
Proof.
  unfold send_block. assert (0 < Z.to_nat IOBUFSZ)%nat as Hm by (unfold IOBUFSZ; lia). revert Hm. generalize (Z.to_nat IOBUFSZ). intros m Hm.
  revert d k. induction n as [|n IH]; intros d k Hn Hr; [lia|]. rewrite iter_S.
  pose proof (take_drop m d) as E. assert (zlen d = zlen (take m d) + zlen (drop m d)) as El by (rewrite <- E at 1; apply zlen_app).
  pose proof (zlen_nonneg (drop m d)). destruct (Z.eqb_spec (zlen (take m d)) 0) as [E0|E0].
  - assert (d = []) as -> by (unfold zlen in E0; rewrite length_take in E0; apply nil_length_inv; lia). rewrite bind_ret. unfold say. destruct k. simpl. by rewrite app_nil_r, Z.sub_0_r.
  - rewrite bind_assoc, (bind_ok _ _ _ _ _ (writen_ok (take m d) k ltac:(lia))), Z.eqb_refl, bind_ret, IH.
    + by rewrite say_say, E.
    + assert (d ≠ []) by (intros ->; by rewrite take_nil in E0). destruct d; [done|]. rewrite length_drop. simpl in *. lia.
    + simpl. lia.
Qed.

Lemma print_job_ok p e k : allocate IOBUFSZ = true → printable p e → good_printer p e k →
  ∃ k', print_job fresh allocate fuel p (job_of e) (e_data e) k = Ok (true, k') ∧ sent k' = request_bytes p e.
Proof.
  intros Hal (Hu & Hj & Hp & Hs & Hd) (Hsent & Hroom & infos & text & hd & code & n & body & rest & Hi & Hpt & Hc & Hn & Hnb & Hb & Ht & Hinc & Hf & Hr).
  pose proof (zlen_nonneg (e_data e)). set (x := if is_text (e_req e) then 1 else 0). assert (0 ≤ x ≤ 1) by (unfold x; by destruct (is_text _)).
  enough (∃ k', print_job fresh allocate fuel p (job_of e) (e_data e) k = Ok (true, k')) as [k' E].
  { exists k'. split; [done|]. by rewrite (print_job_inv _ _ _ _ _ _ _ E), Hsent. }
  unfold request_bytes in Hroom. unfold print_job. change (req (job_of e)) with (e_req e). change (jobid (job_of e)) with (e_id e).
  pose proof (ipp_header_ok p (e_id e) (e_req e) k Hu Hj Hp) as Ei. cbv zeta in Ei. rewrite bool_decide_true in Ei by done. rewrite (bind_ok _ _ _ _ _ Ei). fold x.
  assert (0 ≤ zlen (ipp_bytes p (e_id e) (cstr (usernm (e_req e))) (cstr (jobnm (e_req e))) (is_text (e_req e))) ≤ 512) as Hib by (rewrite zlen_ipp; split; [rewrite <- (zlen_ipp p (e_id e)); apply zlen_nonneg|exact Hs]).
  remember (ipp_bytes _ _ _ _ _) as ib eqn:Eib.
  rewrite (bind_ok _ _ _ _ _ (http_header_ok p (zlen (e_data e)) (zlen ib) x k Hp ltac:(lia))).
  replace (if is_text (e_req e) then 1 else 0) with x in Hroom by done.
  remember (http_bytes _ _) as hb eqn:Ehb. rewrite !zlen_app in Hroom. pose proof (zlen_nonneg hb).
  assert (zlen (if is_text (e_req e) then [8] else []) = x) as Hx by (unfold x; by destruct (is_text _)).
  rewrite (bind_ok _ _ _ _ _ (write_ok (hb ++ ib) k ltac:(rewrite zlen_app; lia))), zlen_app, Z.eqb_refl. cbn [negb].
  set (k1 := say (hb ++ ib) k). assert (room k1 = room k - zlen hb - zlen ib) as Hk1 by (simpl; rewrite zlen_app; lia).
  assert (∃ k2, (if is_text (e_req e) then write [8] else mret 1) k1 = Ok (1, k2) ∧ room k2 = room k1 - x ∧ inc k2 = inc k) as (k2 & E2 & Hk2 & Hi2).
  { unfold x in *. destruct (is_text (e_req e)); [rewrite write_ok by (change (zlen [8]) with 1; lia); by eexists|]. exists k1. split; [done|]. split; [lia|done]. }
  rewrite (bind_ok _ _ _ _ _ E2). cbn [negb Z.eqb Pos.eqb].
  rewrite (bind_ok _ _ _ _ _ (send_blocks_ok (S (length (e_data e))) (e_data e) k2 ltac:(lia) ltac:(lia))). cbn [negb].
  assert (200 ≤ code < 300) as Hcr by (unfold HTTP_SUCCESS in Hc; lia).
  destruct (printer_status_ok fresh allocate (e_id e) fuel infos text hd code n body rest (say (e_data e) k2)) as [k' E']; try done; try lia; [unfold HTTP_INFO; lia|by cbn [inc say]; rewrite Hi2|].
  exists k'. by rewrite E', Hc, Hr.
Qed.
End printer.

(** ** The start of the daemon *)

Section restart.
Context (open_data : list Z → bool) (job_memory : jobs → bool) (open_req read_req : list Z → bool) (max_fds : nat).
Context (Hmem : ∀ l, job_memory l = true).
Implicit Types (s : pd) (ps : list (nat * job)).
Abbreviation build_entry := (build_entry job_memory open_req read_req max_fds).
Abbreviation build_qonstart := (build_qonstart job_memory open_req read_req max_fds).
Abbreviation inv := (inv open_data).

(** The job a control file of the spool stands for, and whether the server takes the file for
    one that is left from a client that did not finish. *)
Definition is_dot (n : list Z) : bool := bool_decide (n = bytes ".") || bool_decide (n = bytes "..").
Definition whole (n b : list Z) : bool := read_req n && (zlen (take (Z.to_nat SIZEOF_printreq) b) =? SIZEOF_printreq).
Definition on_disk (r : gmap (list Z) (list Z)) (n : list Z) : option job :=
  if is_dot n then None else
  b ← r !! n;
  if open_req n && whole n b then Some (Job (wrap_s 32 (atol n)) (host_req (take (Z.to_nat SIZEOF_printreq) b))) else None.
Definition stale (r : gmap (list Z) (list Z)) (n : list Z) : bool :=
  negb (is_dot n) && match r !! n with Some b => open_req n && negb (whole n b) | None => false end.
Definition clean (l : jobs) : Prop := ∀ q, (brk l ≤ q)%nat → heap l !! q = None.

Lemma whole_read n b : ((if read_req n then zlen (take (Z.to_nat SIZEOF_printreq) b) else -1) =? SIZEOF_printreq) = whole n b.
Proof. unfold whole. by destruct (read_req n). Qed.

(** An entry that finds a free descriptor, and one that does not. *)
Lemma build_entry_ok s w ps n fds : dll (js s) ps → clean (js s) → zlen n < 40 → (fds < max_fds)%nat →
  ∃ s' w', build_entry n fds (Mon s w) = Ok (if on_disk (reqs s) n then S fds else fds, Mon s' (w ++ w')) ∧ clean (js s') ∧
    match on_disk (reqs s) n with
    | Some j => w' = [Signal ()] ∧ ∃ p, dll (js s') (ps ++ [(p, j)])
    | None => w' = [] ∧ dll (js s') ps
    end ∧
    reqs s' = (if stale (reqs s) n then delete n (reqs s) else reqs s) ∧ data s' = (if stale (reqs s) n then delete n (data s) else data s).
Proof.
  intros D B Hn Hfd. unfold Printd.build_entry, on_disk, stale. fold (is_dot n). destruct (is_dot n); cbn [negb andb].
  { exists s, []. rewrite app_nil_r. done. }
  rewrite (proj2 (Z.leb_gt _ _)) by (change (zlen (bytes "/var/spool/printer/reqs/")) with 24; unfold FILENMSZ; lia).
  unfold pget, sgets. rewrite bind_gets. cbn [sh]. destruct (reqs s !! n) as [b|]; [|exists s, []; rewrite app_nil_r; done].
  cbn [mbind option_bind]. rewrite (proj2 (Nat.leb_gt _ _)), orb_false_r by done. destruct (open_req n); cbn [negb andb]; [|exists s, []; rewrite app_nil_r; done].
  cbv zeta. rewrite whole_read. destruct (whole n b); cbn [negb].
  - set (r := host_req _). set (id := wrap_s 32 _). destruct (add_job_ok job_memory (js s) ps r id (Hmem _) D (B _ (Nat.le_refl _))) as (l' & El & D' & Ebrk & Ho).
    rewrite (bind_ok _ _ _ _ _ (on_jobs_ok _ s w _ _ El)). eexists _, [Signal ()]. split; [done|]. split; [|split; [split; [done|by eexists]|done]].
    intros q Hq. change (brk l' ≤ q)%nat in Hq. change (heap l' !! q = None). rewrite Ebrk in Hq. rewrite Ho; [apply B; lia| |lia].
    apply (dll_not_in (js s)); [done|apply B; lia].
  - eexists _, []. rewrite app_nil_r. split; [done|]. done.
Qed.

Lemma build_entry_full s w n fds : zlen n < 40 → (max_fds ≤ fds)%nat → build_entry n fds (Mon s w) = Ok (fds, Mon s w).
Proof.
  intros Hn Hfd. unfold Printd.build_entry. fold (is_dot n). destruct (is_dot n); [done|].
  rewrite (proj2 (Z.leb_gt _ _)) by (change (zlen (bytes "/var/spool/printer/reqs/")) with 24; unfold FILENMSZ; lia).
  unfold pget, sgets. rewrite bind_gets. cbn [sh]. destruct (reqs s !! n); [|done]. by rewrite (proj2 (Nat.leb_le _ _)), orb_true_r.
Qed.

Lemma build_full entries s w fds : Forall (λ n, zlen n < 40) entries → (max_fds ≤ fds)%nat → build_qonstart entries fds (Mon s w) = Ok (fds, Mon s w).
Proof. intros Hl Hfd. induction Hl as [|n entries Hn _ IH]; [done|]. cbn [Printd.build_qonstart]. by rewrite (bind_ok _ _ _ _ _ (build_entry_full s w n fds Hn Hfd)). Qed.

(** The stale files are gone, unless the descriptors ran out before. *)
Definition swept (entries : list (list Z)) (full : Prop) s s' : Prop := ∀ n,
  (reqs s' !! n = reqs s !! n ∧ data s' !! n = data s !! n ∧ (n ∈ entries → stale (reqs s) n = true → full)) ∨
  (n ∈ entries ∧ stale (reqs s) n = true ∧ reqs s' !! n = None ∧ data s' !! n = None).

Lemma build_ok entries s w ps fds : dll (js s) ps → clean (js s) → NoDup entries → Forall (λ n, zlen n < 40) entries →
  let waiting := omap (on_disk (reqs s)) entries in
  ∃ s' w' ps' fds', build_qonstart entries fds (Mon s w) = Ok (fds', Mon s' (w ++ w')) ∧ dll (js s') (ps ++ ps') ∧
    ps'.*2 = take (max_fds - fds) waiting ∧ w' = (λ _, Signal ()) <$> ps' ∧ swept entries (max_fds - fds ≤ length waiting)%nat s s'.
Proof.
  revert s w ps fds. induction entries as [|x entries IH]; intros s w ps fds D B Hnd Hl; cbv zeta.
  { exists s, [], [], fds. rewrite !app_nil_r. split; [done|]. split; [done|]. split; [by destruct (max_fds - fds)%nat|]. split; [done|].
    intros n. left. split; [done|]. split; [done|]. by intros ?%not_elem_of_nil. }
  destruct (Nat.le_gt_cases max_fds fds) as [Hfull|Hfd].
  { exists s, [], [], fds. rewrite !app_nil_r. split; [by apply build_full|]. split; [done|]. replace (max_fds - fds)%nat with 0%nat by lia.
    split; [done|]. split; [done|]. intros n. left. split_and!; [done..|]. intros _ _. lia. }
  apply NoDup_cons in Hnd as [Hx Hnd]. apply Forall_cons in Hl as [Hlx Hl].
  destruct (build_entry_ok s w ps x fds D B Hlx Hfd) as (s1 & w1 & E1 & B1 & H1 & R1 & D1).
  assert (∀ n, n ≠ x → reqs s1 !! n = reqs s !! n) as Hr by (intros n Hn; rewrite R1; case_match; [by rewrite lookup_delete_ne|done]).
  assert (∀ n, n ≠ x → data s1 !! n = data s !! n) as Hd by (intros n Hn; rewrite D1; case_match; [by rewrite lookup_delete_ne|done]).
  assert (∀ n, n ≠ x → on_disk (reqs s1) n = on_disk (reqs s) n ∧ stale (reqs s1) n = stale (reqs s) n) as Hsame by (intros n Hn; unfold on_disk, stale; by rewrite Hr).
  assert (omap (on_disk (reqs s1)) entries = omap (on_disk (reqs s)) entries) as Ho.
  { clear -Hx Hsame. induction entries as [|y entries IH]; [done|]. apply not_elem_of_cons in Hx as [Hne Hx]. cbn [omap list_omap].
    rewrite (proj1 (Hsame y ltac:(congruence))), IH; done. }
  set (fds1 := if on_disk (reqs s) x then S fds else fds) in *.
  assert (∃ ps1, dll (js s1) (ps ++ ps1) ∧ ps1.*2 = option_list (on_disk (reqs s) x) ∧ w1 = (λ _, Signal ()) <$> ps1) as (ps1 & D1' & P1 & W1).
  { destruct (on_disk (reqs s) x) as [j|]; [destruct H1 as (-> & p & Dp); by exists [(p, j)]|destruct H1 as [-> Dp]; exists []; by rewrite app_nil_r]. }
  destruct (IH s1 (w ++ w1) (ps ++ ps1) fds1 D1' B1 Hnd Hl) as (s' & w' & ps' & fds' & E' & D' & P' & W' & N'). rewrite Ho in P', N'.
  exists s', (w1 ++ w'), (ps1 ++ ps'), fds'. cbn [Printd.build_qonstart]. rewrite (bind_ok _ _ _ _ _ E1), E', <- app_assoc. split; [done|]. split; [by rewrite app_assoc|].
  split; [|split; [by rewrite W1, W', fmap_app|]].
  - rewrite fmap_app, P1, P'. unfold fds1. cbn [omap list_omap]. destruct (on_disk (reqs s) x) as [j|]; [|done]. cbn [option_list app].
    replace (max_fds - fds)%nat with (S (max_fds - S fds)) by lia. done.
  - assert ((max_fds - fds1 ≤ length (omap (on_disk (reqs s)) entries) → max_fds - fds ≤ length (omap (on_disk (reqs s)) (x :: entries)))%nat) as Hfull.
    { unfold fds1. cbn [omap list_omap]. destruct (on_disk (reqs s) x); simpl; lia. }
    intros n. destruct (decide (n = x)) as [->|Hne].
    + destruct (N' x) as [(-> & -> & _)|(Hin & _)]; [|done]. rewrite R1, D1. destruct (stale (reqs s) x) eqn:Es.
      * right. rewrite !lookup_delete_eq. split; [left|done].
      * left. done.
    + destruct (N' n) as [(-> & -> & H)|(Hin & Hs & H)]; rewrite ?(proj2 (Hsame n Hne)) in *.
      * left. rewrite Hr, Hd by done. split; [done|]. split; [done|]. intros [->|Hin]%elem_of_cons Hs; [done|]. by apply Hfull, H.
      * right. split; [by right|done].
Qed.

Lemma empty_list s : js s = DList ∅ 0 None None → dll (js s) [] ∧ clean (js s).
Proof. intros ->. split; [split; done || apply NoDup_nil_2|]. intros q _. apply lookup_empty. Qed.

(** At its start the server takes from the spool one job for each control file that is
    complete, in the order of the directory, with the number in the name and the request in the
    file, as long as there are descriptors, signals each, and removes the other control files
    with their data files and nothing else. *)
Theorem printd_restart entries s fds : js s = DList ∅ 0 None None → NoDup entries → Forall (λ n, zlen n < 40) entries →
  let waiting := omap (on_disk (reqs s)) entries in
  ∃ s' w ps fds', build_qonstart entries fds (Mon s []) = Ok (fds', Mon s' w) ∧ dll (js s') ps ∧
    ps.*2 = take (max_fds - fds) waiting ∧ w = (λ _, Signal ()) <$> ps ∧ swept entries (max_fds - fds ≤ length waiting)%nat s s'.
Proof.
  intros E Hnd Hl. destruct (empty_list s E) as [D B]. destruct (build_ok entries s [] [] fds D B Hnd Hl) as (s' & w & ps & fds' & H).
  by exists s', w, ps, fds'.
Qed.

Lemma fresh_inv s : js s = DList ∅ 0 None None → added s = [] → finished s = [] → hand s = [] → owner s = ∅ → 0 < nextjob s < 2 ^ 31 →
  Forall (λ a, match a with Some k => sent k = [] | None => True end) (attempts s) → inv s.
Proof.
  intros Ej Ea Ef Eh Eo En Eat. split; rewrite ?Ea, ?Ef, ?Eh, ?Eo; try done.
  - exists [], []. split; [|done]. destruct (empty_list s Ej) as [D B]. split; try done. by rewrite Eh.
  - simpl. lia.
  - apply NoDup_nil_2.
Qed.

(** A control file as the server writes it: its job has a number given out before, the name of
    that number, and a data file. *)
Definition proper (s : pd) (n : list Z) : Prop := ∀ j, on_disk (reqs s) n = Some j →
  n = file_name (jobid j) ∧ 0 < jobid j < nextjob s ∧ req_ok (req j) ∧ reqs s !! n = Some (req_host (req j)) ∧ is_Some (data s !! n).

Lemma stale_not_complete (m : gmap (list Z) (list Z)) n r : read_req n = true → req_ok r → m !! n = Some (req_host r) → stale m n = false.
Proof.
  intros Hrd Hr Hm. destruct (req_host_ok r Hr) as [_ Hl]. unfold stale, whole. rewrite Hm, Hrd.
  assert (take (Z.to_nat SIZEOF_printreq) (req_host r) = req_host r) as -> by (rewrite <- Hl; unfold zlen; by rewrite Nat2Z.id, firstn_all).
  by rewrite Hl, Z.eqb_refl, !andb_false_r.
Qed.

(** Removing a stale control file keeps the spool of the list. *)
Lemma inv_stale s n : inv s → hand s = [] → read_req n = true → Forall (λ e, req_ok (e_req e)) (added s) → stale (reqs s) n = true →
  inv (set_data (delete n (data s)) (set_reqs (delete n (reqs s)) s)).
Proof.
  intros Hs Hh Hrd Hok Hst. pose proof Hs as [(ps & qs & L & E & Hq) H1 H2 H3 H4 H5 H6 H7].
  assert (∀ e, e ∈ added s → in_spool s e → in_spool (set_data (delete n (data s)) (set_reqs (delete n (reqs s)) s)) e) as Hkeep.
  { intros e He [Hd Hr]. assert (n ≠ file_name (e_id e)) as Hne.
    { intros ->. rewrite Forall_forall in Hok. rewrite (stale_not_complete (reqs s) _ (e_req e)) in Hst; [done|done| |done]. by apply Hok. }
    unfold in_spool. cbn [data reqs set_data set_reqs]. by rewrite !lookup_delete_ne. }
  rewrite Forall_forall in Hq, H6. split; try done.
  - exists ps, qs. split; [by destruct L as [L1 L2 L3 L4]; split|]. split; [exact E|]. rewrite Forall_forall.
    intros e He. apply Hkeep; [rewrite E, !elem_of_app; auto|by apply Hq].
  - rewrite Forall_forall. intros e He. destruct (H6 e He) as [Hp|[Ho Hp]]; [by left|right]. split; [done|]. apply Hkeep; [rewrite E; apply elem_of_app; by left|done].
Qed.

Lemma build_entry_inv s w n fds : inv s → hand s = [] → Forall (λ e, req_ok (e_req e)) (added s) → zlen n < 40 → read_req n = true → proper s n →
  (∀ e, e ∈ added s → file_name (e_id e) ≠ n) →
  ∃ s' w' fds', build_entry n fds (Mon s w) = Ok (fds', Mon s' w') ∧ inv s' ∧ hand s' = [] ∧ Forall (λ e, req_ok (e_req e)) (added s') ∧ nextjob s' = nextjob s ∧
    (∀ e, e ∈ added s' → e ∈ added s ∨ file_name (e_id e) = n) ∧
    ∀ x, x ≠ n → reqs s' !! x = reqs s !! x ∧ data s' !! x = data s !! x.
Proof.
  intros Hs Hh Hok Hn Hrd Hp Hnew. unfold proper, on_disk in Hp. pose proof (inv_stale s n Hs Hh Hrd Hok) as Hst. unfold stale in Hst.
  destruct (Nat.le_gt_cases max_fds fds) as [Hfull|Hfd]; [exists s, w, fds; rewrite build_entry_full by done; split_and!; auto|].
  unfold Printd.build_entry. fold (is_dot n). destruct (is_dot n); cbn [negb andb] in *.
  { exists s, w, fds. split_and!; auto. }
  rewrite (proj2 (Z.leb_gt _ _)) by (change (zlen (bytes "/var/spool/printer/reqs/")) with 24; unfold FILENMSZ; lia).
  unfold pget, sgets. rewrite bind_gets. cbn [sh]. destruct (reqs s !! n) as [b|] eqn:Eb; [|exists s, w, fds; split_and!; auto].
  cbn [mbind option_bind] in Hp. rewrite (proj2 (Nat.leb_gt _ _)), orb_false_r by done. destruct (open_req n); cbn [negb andb] in *; [|exists s, w, fds; split_and!; auto].
  cbv zeta. rewrite whole_read. destruct (whole n b); cbn [negb] in *.
  - set (r := host_req _) in *. set (id := wrap_s 32 _) in *. destruct (Hp _ eq_refl) as (En & Hid & Hr & Hq & d & Hd). cbn [jobid req] in *.
    assert (id ∉ ids (added s)) as Hnot by (intros (e & -> & He)%list_elem_of_fmap; by apply (Hnew e He)).
    injection Hq as Hq. destruct (inv_add open_data job_memory s id r d (Hmem _) Hs Hid Hnot) as (l' & El & I'); [congruence|congruence|].
    rewrite (bind_ok _ _ _ _ _ (on_jobs_ok _ s w _ _ El)). eexists _, _, _. split; [done|]. cbn [sh added finished hand owner data reqs set_js nextjob].
    change (data (set_js l' s)) with (data s). rewrite <- En, Hd. change (default [] (Some d)) with d.
    split; [exact I'|]. split; [done|]. split; [apply Forall_app; split; [exact Hok|by apply Forall_singleton]|]. split; [done|]. split; [|done].
    intros e [He| ->%list_elem_of_singleton]%elem_of_app; [by left|by right].
  - eexists _, _, _. split; [done|]. split; [by apply Hst|]. split; [done|]. split; [done|]. split; [done|]. split; [by left|].
    intros x Hx. cbn [sh reqs data set_data set_reqs]. by rewrite !lookup_delete_ne.
Qed.

Lemma build_inv entries s w fds : inv s → hand s = [] → Forall (λ e, req_ok (e_req e)) (added s) → NoDup entries → Forall (λ n, zlen n < 40 ∧ read_req n = true) entries →
  Forall (proper s) entries → (∀ e, e ∈ added s → file_name (e_id e) ∉ entries) →
  ∃ s' w' fds', build_qonstart entries fds (Mon s w) = Ok (fds', Mon s' w') ∧ inv s' ∧ hand s' = [].
Proof.
  revert s w fds. induction entries as [|n entries IH]; intros s w fds Hs Hh Hok Hnd Hl Hp Hnew; [by exists s, w, fds|].
  apply NoDup_cons in Hnd as [Hn Hnd]. apply Forall_cons in Hl as [[Hln Hrn] Hl], Hp as [Hpn Hp].
  destruct (build_entry_inv s w n fds Hs Hh Hok Hln Hrn Hpn) as (s1 & w1 & f1 & E1 & I1 & H1 & O1 & N1 & A1 & R1); [intros e He Ex; apply (Hnew e He); rewrite Ex; left|].
  destruct (IH s1 w1 f1 I1 H1 O1 Hnd Hl) as (s' & w' & f' & E & I' & H'); [| |exists s', w', f'; cbn [Printd.build_qonstart]; by rewrite (bind_ok _ _ _ _ _ E1)].
  - rewrite Forall_forall in *. intros x Hx j Hj. assert (x ≠ n) as Hne by (by intros ->). destruct (R1 x Hne) as [Er Ed].
    rewrite N1, Er, Ed. apply Hp; [done|]. unfold on_disk in *. by rewrite Er in Hj.
  - intros e He Hin. destruct (A1 e He) as [He'|He']; [apply (Hnew e He'); by right|]. by rewrite He' in Hin.
Qed.
End restart.

(** ** Threads that run alone *)

Section runs.
Context (fresh : Z → Z) (allocate : Z → bool) (fuel : nat).
Context (job_memory : jobs → bool) (worker_memory : workers → bool) (write_jobno : list Z → list Z → Z) (open_data : list Z → bool).
Context (creat_fails : bool → list Z → bool) (write_res : bool → list Z → Z → Z → Z) (write_errno : Z).
Context (strerror : Z → list Z) (stack_jobid : Z) (stack_msg stack_buf : list Z).
Context (config : list Z) (getaddrinfo : list Z → option (option (list Z))).
Context (Hstack : zlen stack_msg = MSGLEN_MAX).
Abbreviation seg := (seg fresh allocate fuel job_memory worker_memory write_jobno open_data creat_fails write_res write_errno strerror stack_jobid stack_msg stack_buf config getaddrinfo).
Abbreviation at_loc := (at_loc strerror stack_jobid worker_memory stack_msg).
Abbreviation at_thread := (at_thread strerror stack_jobid worker_memory stack_msg).
Abbreviation inv := (inv open_data).

Definition solo (x y : pd * loc) : Prop := seg x.2 (Mon x.1 []) = Ok (Next y.2, Mon y.1 []).

Lemma solo_reachable i ts x y : (i < length ts)%nat → rtc solo x y →
  reachable seg (x.1, <[i:=Ready x.2]> ts) (y.1, <[i:=Ready y.2]> ts).
Proof.
  intros Hi. induction 1 as [x|x y z Hxy _ IH]; [done|]. eapply rtc_l; [|exact IH].
  rewrite <- (list_insert_insert_eq ts i (Ready y.2) (Ready x.2)).
  apply (step_run seg x.1 _ i x.2 (Next y.2) y.1 [] (<[i:=Ready x.2]> ts)); [by apply list_lookup_insert_eq|exact Hxy|constructor].
Qed.

Lemma solo_inv i s l s' l' : inv s → at_loc i s l → solo (s, l) (s', l') → inv s' ∧ at_loc i s' l'.
Proof.
  intros Hs Hl E. destruct (seg_keeps open_data strerror stack_jobid worker_memory stack_msg fresh allocate fuel job_memory write_jobno creat_fails write_res write_errno stack_buf config getaddrinfo Hstack i _ _ _ _ _ Hs Hl E) as (H1 & H2 & _).
  done.
Qed.

Lemma solo_get s jp x e qs ps : inv s → hand s = [] → listed s ((jp, x) :: ps) (e :: qs) → added s = finished s ++ e :: qs →
  ∃ l, solo (s, PGet) (set_history (added s) (finished s) [(jp, e)] (owner s) (set_js l s), PUpdate jp).
Proof.
  intros Hs Hh [L1 L2 L3 L4] E. destruct (remove_first_ok (js s) ps jp x L1) as (l & n & El & _). exists l.
  unfold solo. cbn [fst snd Printd.seg Printd.printer_seg]. unfold pget, sgets, pset, smodify. rewrite bind_gets. cbn [sh]. rewrite (dll_head _ _ L1). simpl (fst <$> _).
  cbv iota. rewrite (bind_ok _ _ _ _ _ (on_jobs_ok _ s [] _ _ El)), bind_modify. cbn [sh wk added finished owner set_js].
  rewrite E, lookup_app_r, Nat.sub_diag by done. done.
Qed.

(** The thread takes the first job, sends it, and removes its files. *)
Lemma prints_one s e qs k ks : (∀ f t, 0 ≤ write_jobno f t) → allocate IOBUFSZ = true → open_data (file_name (e_id e)) = true → inv s → hand s = [] → reread s = false → added s = finished s ++ e :: qs → attempts s = Some k :: ks →
  printable (printer_name s) e → good_printer fuel (printer_name s) e k →
  ∃ s', rtc solo (s, PGet) (s', PGet) ∧ inv s' ∧ hand s' = [] ∧ reread s' = false ∧ printer_name s' = printer_name s ∧ added s' = added s ∧
    finished s' = finished s ++ [e] ∧ attempts s' = ks ∧ wire s' = wire s ++ [(e_id e, request_bytes (printer_name s) e, true)] ∧
    data s' = delete (file_name (e_id e)) (data s) ∧ reqs s' = delete (file_name (e_id e)) (reqs s).
Proof.
  intros Hw Hal Hop Hs Hh Hre Ea Eat Hp Hk. destruct (i_listed _ _ Hs) as (ps & qs' & L & Ea' & _). rewrite Hh in Ea'.
  assert (qs' = e :: qs) as -> by (rewrite Ea in Ea'; by apply app_inv_head in Ea'). destruct ps as [|[jp x] ps]; [destruct L as [_ _ L _]; done|].
  destruct (solo_get s jp x e qs ps Hs Hh L Ea) as [l E1]. set (s1 := set_history _ _ _ _ (set_js l s)) in *.
  destruct (solo_inv 0 s PGet _ _ Hs (conj eq_refl Hh) E1) as [I1 L1].
  set (nw := write_jobno (jobfile s1) (dec (nextjob s1))).
  set (s2 := set_jobfile (bwrite (jobfile s1) 0 (take (Z.to_nat nw) (dec (nextjob s1)))) s1). assert (solo (s1, PUpdate jp) (s2, PConfig jp)) as E2.
  { unfold solo. cbn [fst snd Printd.seg Printd.printer_seg]. unfold update_jobno, pget, sgets. rewrite bind_assoc, bind_gets, bind_assoc, bind_gets. cbn [sh]. cbv zeta.
    fold nw. rewrite (proj2 (Z.ltb_ge _ _)) by apply Hw. done. }
  destruct (solo_inv 0 _ _ _ _ I1 L1 E2) as [I2 L2].
  assert (solo (s2, PConfig jp) (s2, PPrint jp)) as E3.
  { unfold solo. cbn [fst snd Printd.seg Printd.printer_seg]. unfold pget, sgets. rewrite bind_gets. cbn [sh]. change (reread s2) with (reread s). by rewrite Hre. }
  destruct (solo_inv 0 _ _ _ _ I2 L2 E3) as [I3 L3]. assert (hand s2 = [(jp, e)]) as Hh2 by done.
  destruct (deref_hand open_data s2 jp e [] I3 Hh2) as (n & En & Ei). rewrite set_js_same in En.
  assert (data s2 !! file_name (e_id e) = Some (e_data e)) as Hd.
  { destruct L3 as (_ & e' & Hh' & [Hd _]). rewrite Hh2 in Hh'. by injection Hh' as <-. }
  destruct (print_job_ok fresh allocate fuel _ e k Hal Hp Hk) as (k' & Ek & Es).
  set (s3 := set_wire ks (wire s2 ++ [(e_id e, sent k', true)]) s2).
  assert (solo (s2, PPrint jp) (s3, PUnlinkData jp)) as E4.
  { unfold solo. cbn [fst snd Printd.seg Printd.printer_seg]. rewrite (bind_ok _ _ _ _ _ En), Ei. unfold pget, pset, sgets, smodify. rewrite bind_gets. cbn [sh jobid job_of].
    rewrite Hd, Hop, !bind_gets. cbn [sh]. change (attempts s2) with (attempts s). change (printer_name s2) with (printer_name s). rewrite Eat.
    fold (job_of e). rewrite Ek. done. }
  destruct (solo_inv 0 _ _ _ _ I3 L3 E4) as [I4 L4]. assert (hand s3 = [(jp, e)]) as Hh3 by done.
  destruct (deref_hand open_data s3 jp e [] I4 Hh3) as (n3 & En3 & Ei3). rewrite set_js_same in En3.
  set (s4 := set_data (delete (file_name (e_id e)) (data s3)) s3). assert (solo (s3, PUnlinkData jp) (s4, PUnlinkReq jp)) as E5.
  { unfold solo. cbn [fst snd Printd.seg Printd.printer_seg]. rewrite (bind_ok _ _ _ _ _ En3), Ei3. done. }
  destruct (solo_inv 0 _ _ _ _ I4 L4 E5) as [I5 L5]. assert (hand s4 = [(jp, e)]) as Hh4 by done.
  destruct (hand_node open_data s4 jp e I5 Hh4) as (n4 & En4 & Ei4).
  set (s5 := set_reqs (delete (file_name (e_id e)) (reqs s4)) s4).
  set (l' := DList (delete jp (heap (js s5))) (brk (js s5)) (dhead (js s5)) (dtail (js s5))).
  set (s6 := set_history (added s5) (finished s5 ++ (hand s5).*2) [] (owner s5) (set_js l' s5)).
  assert (solo (s4, PUnlinkReq jp) (s6, PGet)) as E6.
  { unfold solo. cbn [fst snd Printd.seg Printd.printer_seg]. rewrite (bind_ok _ _ _ _ _ (on_jobs_ok _ s4 [] _ _ (deref_ok _ _ _ En4))), Ei4.
    unfold unlink_req, pset, smodify. rewrite bind_modify, set_js_same. cbn [sh wk jobid job_of].
    assert (free jp (js s5) = Ok ((), l')) as Efree by (unfold free; by rewrite (bind_ok _ _ _ _ _ (deref_ok _ _ _ En4))).
    fold s5. by rewrite (bind_ok _ _ _ _ _ (on_jobs_ok _ s5 [] _ _ Efree)). }
  destruct (solo_inv 0 _ _ _ _ I5 L5 E6) as [I6 _].
  exists s6. split; [by do 6 (eapply rtc_l; [eassumption|])|]. split; [exact I6|]. split_and!; try done. simpl. by rewrite Es.
Qed.

(** ** From a start *)

(** The printer thread, the threads of clients that have just been accepted and will take the
    answer, and the signal thread, on a spool and a list that agree. *)
Definition started (cfg : pd * list (thread () loc res)) : Prop :=
  inv cfg.1 ∧ hand cfg.1 = [] ∧ cfg.2 !! 0%nat = Some (Ready PGet) ∧
  ∀ i t, cfg.2 !! S i = Some t →
    match t with Ready (CStart c) => open_client (S i) c ∧ inc (c_sock c) = c_in c | Ready (Hup _) => True | _ => False end.

Lemma started_at cfg : started cfg → ∀ i t, cfg.2 !! i = Some t → at_thread i cfg.1 t.
Proof.
  intros (_ & Hh & H0 & Hc) [|i] t Ht; [rewrite H0 in Ht; by injection Ht as <-|]. specialize (Hc i t Ht).
  by destruct t as [[]| |].
Qed.

Lemma started_reachable cfg cfg' : started cfg → reachable seg cfg cfg' →
  inv cfg'.1 ∧ ∀ i t, cfg'.2 !! i = Some t → at_thread i cfg'.1 t.
Proof. intros Hs Hr. eapply reachable_printd; [done|exact Hr|apply Hs|by apply started_at]. Qed.


(** C37: a step of the server can only fail in the list of workers, when the job numbers are used
    up, without memory for a job, when the job number file cannot be written, when the printer
    has no address after a signal, or while the request is built for the printer and its answer
    is read; the use of the list of jobs and of the spool cannot fail. *)
Theorem printd_failures cfg s ts i l f : started cfg → reachable seg cfg (s, ts) →
  ts !! i = Some (Ready l) → seg l (Mon s []) = Fault f →
  match l with
  | CStart _ | CCleanup _ _ => True
  | CJobno _ _ => nextjob s = 2 ^ 31 - 1
  | CAddJob _ _ _ => job_memory (js s) = false
  | PUpdate _ => write_jobno (jobfile s) (dec (nextjob s)) < 0
  | PConfig _ => reread s = true ∧ get_printaddr config getaddrinfo = None
  | PPrint jp => ∃ e k, hand s = [(jp, e)] ∧ head (attempts s) = Some (Some k) ∧ print_job fresh allocate fuel (printer_name s) (job_of e) (e_data e) k = Fault f
  | _ => False
  end.
Proof.
  intros Hs Hr Hl E. destruct (started_reachable _ _ Hs Hr) as [Hi Ht]. cbn [fst snd] in Hi, Ht. specialize (Ht i _ Hl).
  pose proof (seg_fault open_data strerror stack_jobid worker_memory stack_msg fresh allocate fuel job_memory write_jobno creat_fails write_res write_errno stack_buf config getaddrinfo Hstack i l s f Hi Ht E) as Hf.
  destruct l as [| | | | | | | | | | | |jp|jp|jp|jp|jp|jp|]; try exact Hf.
  - revert E. cbn [Printd.seg Printd.printer_seg]. unfold pget, sgets. rewrite bind_gets. cbn [sh]. destruct (reread s); [|done]. cbn [when].
    unfold init_printer. destruct (get_printaddr config getaddrinfo); [done|]. done.
  - destruct Ht as (_ & e & Hh & Hd & _). destruct (deref_hand open_data s jp e [] Hi Hh) as (n & En & Ei). rewrite set_js_same in En.
    revert E. cbn [Printd.seg Printd.printer_seg]. rewrite (bind_ok _ _ _ _ _ En), Ei. unfold pget, sgets. rewrite bind_gets. cbn [sh].
    change (jobid (job_of e)) with (e_id e). rewrite Hd. destruct (open_data (file_name (e_id e))).
    2: { destruct (hand_node open_data s jp e Hi Hh) as (n0 & En0 & _).
         assert (free jp (js s) = Ok ((), DList (delete jp (heap (js s))) (brk (js s)) (dhead (js s)) (dtail (js s)))) as Efree by (unfold free; by rewrite (bind_ok _ _ _ _ _ (deref_ok _ _ _ En0))).
         by rewrite (bind_ok _ _ _ _ _ (on_jobs_ok _ s [] _ _ Efree)). }
    rewrite !bind_gets. cbn [sh]. destruct (attempts s) as [|[k|] a]; [done| |done].
    destruct (print_job fresh allocate fuel (printer_name s) (job_of e) (e_data e) k) as [[ok k']|f'] eqn:Ep; [done|].
    intros E. exists e, k. split; [done|]. split; [done|]. change (Fault (A := pout * mon () pd) f' = Fault f) in E. congruence.
Qed.

(** ** A printer that works *)

Lemma no_queue s : inv s → hand s = [] → added s = finished s → dhead (js s) = None.
Proof.
  intros Hs Hh Ea. destruct (i_listed _ _ Hs) as (ps & qs & [L1 _ L3 _] & E & _). rewrite Hh, Ea in E. simpl in E.
  rewrite <- (app_nil_r (finished s)) in E at 1. apply app_inv_head in E. subst qs. apply fmap_nil_inv in L3. subst ps. by rewrite (dll_head _ _ L1).
Qed.

Lemma prints_all qs ks rest s : (∀ f t, 0 ≤ write_jobno f t) → allocate IOBUFSZ = true → Forall (λ e, open_data (file_name (e_id e)) = true) qs → inv s → hand s = [] → reread s = false → added s = finished s ++ qs → attempts s = (Some <$> ks) ++ rest →
  Forall (printable (printer_name s)) qs → Forall2 (good_printer fuel (printer_name s)) qs ks →
  ∃ s', rtc solo (s, PGet) (s', PGet) ∧ inv s' ∧ hand s' = [] ∧ added s' = added s ∧ finished s' = added s ∧ attempts s' = rest ∧
    wire s' = wire s ++ ((λ e, (e_id e, request_bytes (printer_name s) e, true)) <$> qs) ∧
    ∀ n, data s' !! n = (if bool_decide (n ∈ file_name ∘ e_id <$> qs) then None else data s !! n) ∧
         reqs s' !! n = (if bool_decide (n ∈ file_name ∘ e_id <$> qs) then None else reqs s !! n).
Proof.
  intros Hw Hal. revert ks s. induction qs as [|e qs IH]; intros ks s Hop Hs Hh Hre Ea Eat Hp Hg.
  { apply Forall2_nil_inv_l in Hg as ->. rewrite app_nil_r in Ea. exists s. rewrite app_nil_r. by split_and!. }
  apply Forall2_cons_inv_l in Hg as (k & ks' & Hk & Hg & ->). apply Forall_cons in Hp as [Hpe Hp], Hop as [Hope Hop].
  destruct (prints_one s e qs k (fmap (M:=list) Some ks' ++ rest) Hw Hal Hope Hs Hh Hre Ea Eat Hpe Hk) as (s1 & R1 & I1 & H1 & Re1 & P1 & A1 & F1 & T1 & W1 & D1 & Q1).
  destruct (IH ks' s1) as (s' & R' & I' & H' & A' & F' & T' & W' & N'); try done.
  { by rewrite A1, F1, <- app_assoc. } { by rewrite P1. } { by rewrite P1. }
  exists s'. split; [by etrans|]. split; [done|]. split; [done|]. split; [congruence|]. split; [congruence|]. split; [done|].
  split; [by rewrite W', W1, P1, <- app_assoc|]. intros n. destruct (N' n) as [-> ->]. rewrite D1, Q1.
  change (file_name ∘ e_id <$> e :: qs) with (file_name (e_id e) :: (file_name ∘ e_id <$> qs)). destruct (decide (n = file_name (e_id e))) as [->|Hne].
  - rewrite !lookup_delete_eq. rewrite (bool_decide_true (_ ∈ _ :: _)) by left. by case_bool_decide.
  - rewrite !lookup_delete_ne by done. rewrite (bool_decide_ext (n ∈ _ :: _) (n ∈ file_name ∘ e_id <$> qs)); [done|]. rewrite elem_of_cons. naive_solver.
Qed.

(** C36: when the printer can be reached and reports success, and the number file can be
    written, the data files opened and a buffer allocated, the printer thread sends all jobs
    of the list in their order, each whole, removes their files and no others, and waits. *)
Theorem printd_prints cfg s ts qs ks : started cfg → reachable seg cfg (s, ts) → ts !! 0%nat = Some (Ready PGet) →
  reread s = false → added s = finished s ++ qs → attempts s = (Some <$> ks) →
  Forall (printable (printer_name s)) qs → Forall2 (good_printer fuel (printer_name s)) qs ks →
  (∀ f t, 0 ≤ write_jobno f t) → allocate IOBUFSZ = true → Forall (λ e, open_data (file_name (e_id e)) = true) qs →
  ∃ s', reachable seg (s, ts) (s', <[0%nat := Waiting () PGet]> ts) ∧ finished s' = added s' ∧ added s' = added s ∧
    wire s' = wire s ++ ((λ e, (e_id e, request_bytes (printer_name s) e, true)) <$> qs) ∧
    ∀ n, data s' !! n = (if bool_decide (n ∈ file_name ∘ e_id <$> qs) then None else data s !! n) ∧
         reqs s' !! n = (if bool_decide (n ∈ file_name ∘ e_id <$> qs) then None else reqs s !! n).
Proof.
  intros Hs Hr H0 Hre Ea Eat Hp Hg Hw Hal Hop. destruct (started_reachable _ _ Hs Hr) as [Hi Ht]. cbn [fst snd] in Hi, Ht. destruct (Ht _ _ H0) as [_ Hh].
  rewrite <- (app_nil_r (Some <$> ks)) in Eat. destruct (prints_all qs ks [] s Hw Hal Hop Hi Hh Hre Ea Eat Hp Hg) as (s' & R & I' & H' & A' & F' & T' & W' & N').
  exists s'. split; [|split; [congruence|done]]. pose proof (lookup_lt_Some _ _ _ H0) as Hlt.
  pose proof (solo_reachable 0 ts _ _ Hlt R) as R'. cbn [fst snd] in R'. rewrite (list_insert_id ts 0 _ H0) in R'.
  eapply rtc_r; [exact R'|].
  apply (step_run seg s' ts 0 PGet (Block () PGet) s' [] ts); [done| |constructor].
  cbn [Printd.seg Printd.printer_seg]. unfold pget, sgets. rewrite bind_gets. cbn [sh]. rewrite (no_queue s' I' H'); [done|congruence].
Qed.

(** ** A client that is served *)

(** Files can be created and written, and there is memory for a job. *)
Definition disk_ok : Prop := (∀ b n, creat_fails b n = false) ∧ (∀ b n off len, write_res b n off len = len) ∧ ∀ l, job_memory l = true.

Lemma solo_sock c {X} (m : M sock X) x k s (K : X * client → pM pout) : m (c_sock c) = Ok (x, k) →
  (r ← on_sock c m; K r) (Mon s []) = K (x, set_sock k c) (Mon s []).
Proof. intros E. by rewrite (bind_ok _ _ _ _ _ (on_sock_eq c m x k s [] E)). Qed.

Lemma recv_runs n s i c r id first : disk_ok → (length (arrived (inc (c_sock c))) < n)%nat → inv s → at_loc i s (CRecv c r id first) →
  ∃ s' c' r', rtc solo (s, CRecv c r id first) (s', CReq c' r' id) ∧ inv s' ∧ at_loc i s' (CReq c' r' id) ∧ c_in c' = c_in c.
Proof.
  intros (Hc & Hw & _). revert s c r first. induction n as [|n IH]; intros s c r first Hn Hs Hl; [lia|].
  pose proof Hl as ((Hi & Ht & Hp & Hr & Hsent) & _ & _ & _ & d & Hd & _).
  destruct (decide (arrived (inc (c_sock c)) = [])) as [Ha|Ha].
  - destruct (tread IOBUFSZ (inc (c_sock c))) as [nr k] eqn:E. set (c' := set_sock (Sock (sent (c_sock c)) (room (c_sock c)) k) c).
    assert (nr = None ∨ nr = Some []) as Hnr by (pose proof (tread_none IOBUFSZ _ ltac:(done) Hp Ha) as H; by rewrite E in H).
    assert (solo (s, CRecv c r id first) (s, CReq c' r id)) as E1.
    { unfold solo. cbn [fst snd Printd.seg Printd.client_seg]. 
      rewrite (solo_sock c (sread IOBUFSZ) nr (Sock (sent (c_sock c)) (room (c_sock c)) k)) by (unfold sread; by rewrite E). by destruct Hnr as [-> | ->]. }
    destruct (solo_inv i _ _ _ _ Hs Hl E1) as [I1 L1]. exists s, c', r. split; [by apply rtc_once|done].
  - destruct (tread_data IOBUFSZ (inc (c_sock c)) ltac:(done) Hp Ha) as (bs & k & E & Hbs & _ & _ & Earr & _).
    destruct bs as [|b0 bs0] eqn:Eb; [done|]. rewrite <- Eb in *.
    set (c' := set_sock (Sock (sent (c_sock c)) (room (c_sock c)) k) c). set (r' := text_flag stack_buf first bs r).
    set (s' := set_data (<[file_name id := d ++ bs]> (data s)) s).
    assert (solo (s, CRecv c r id first) (s', CRecv c' r' id false)) as E1.
    { unfold solo. cbn [fst snd Printd.seg Printd.client_seg].
      rewrite (solo_sock c (sread IOBUFSZ) (Some bs) (Sock (sent (c_sock c)) (room (c_sock c)) k)) by (unfold sread; by rewrite E).
      fold c'. rewrite Eb. cbv iota beta. rewrite <- Eb. unfold pget, pset, sgets, smodify. rewrite bind_gets. cbn [sh]. rewrite Hd. change (default [] (Some d)) with d.
      cbv zeta. rewrite Hw, Z.eqb_refl. cbn [negb]. done. }
    destruct (solo_inv i _ _ _ _ Hs Hl E1) as [I1 L1].
    destruct (IH s' c' r' false) as (s2 & c2 & r2 & R & I2 & L2 & E2); [|done|done|].
    { cbn [c' c_sock set_sock inc]. rewrite Earr, length_app in Hn. assert (bs ≠ []) by (by rewrite Eb). destruct bs; [done|]. simpl in *. lia. }
    exists s2, c2, r2. split; [by eapply rtc_l|done].
Qed.

Lemma reply_runs s i c r id : disk_ok → inv s → at_loc i s (CReq c r id) →
  ∃ s' c', rtc solo (s, CReq c r id) (s', CSignal c' id) ∧ inv s' ∧ at_loc i s' (CSignal c' id) ∧ c_in c' = c_in c.
Proof.
  intros (Hc & Hw & Hmem) Hs Hl. pose proof Hl as ((_ & _ & _ & Hr & _) & _ & [Ho _] & Hd & _).
  pose proof (i_owner _ _ Hs _ _ Ho) as Hid. pose proof (i_next _ _ Hs) as Hnx.
  set (s1 := set_reqs (<[file_name id := []]> (reqs s)) s). assert (solo (s, CReq c r id) (s1, CReqWrite c r id)) as E1.
  { unfold solo. cbn [fst snd Printd.seg Printd.client_seg]. by rewrite Hc. }
  destruct (solo_inv i _ _ _ _ Hs Hl E1) as [I1 L1].
  set (s2 := set_reqs (<[file_name id := req_host r]> (reqs s1)) s1). assert (solo (s1, CReqWrite c r id) (s2, CReply c r id)) as E2.
  { unfold solo. cbn [fst snd Printd.seg Printd.client_seg]. by rewrite Hw, Z.eqb_refl. }
  destruct (solo_inv i _ _ _ _ I1 L1 E2) as [I2 L2].
  set (c' := set_sock (say (resp_net (ok_resp stack_msg id)) (c_sock c)) c).
  assert (solo (s2, CReply c r id) (s2, CAddJob c' r id)) as E3.
  { unfold solo. cbn [fst snd Printd.seg Printd.client_seg].
    rewrite (solo_sock c (writen (resp_net (ok_resp stack_msg id))) (zlen (resp_net (ok_resp stack_msg id))) (say (resp_net (ok_resp stack_msg id)) (c_sock c))); [done|].
    apply writen_ok. rewrite zlen_ok_resp; [exact Hr|done|lia]. }
  destruct (solo_inv i _ _ _ _ I2 L2 E3) as [I3 L3].
  destruct (i_listed _ _ I3) as (ps & qs & [D B _ _] & _). destruct (add_job_ok job_memory (js s2) ps r id (Hmem _) D (B _ (Nat.le_refl _))) as (l' & El & _).
  set (s3 := set_js l' s2).
  set (s4 := set_history (added s3 ++ [Entry id r (default [] (data s3 !! file_name id))]) (finished s3) (hand s3) (owner s3) s3).
  assert (solo (s2, CAddJob c' r id) (s4, CSignal c' id)) as E4.
  { unfold solo. cbn [fst snd Printd.seg Printd.client_seg]. rewrite (bind_ok _ _ _ _ _ (on_jobs_ok _ s2 [] _ _ El)). done. }
  destruct (solo_inv i _ _ _ _ I3 L3 E4) as [I4 L4]. exists s4, c'. split; [by do 4 (eapply rtc_l; [eassumption|])|done].
Qed.

(** From its header on, with a number to give. *)
Lemma client_runs s i c : disk_ok → inv s → at_loc i s (CHeader c) → SIZEOF_printreq ≤ zlen (arrived (c_in c)) → nextjob s ≠ 2 ^ 31 - 1 →
  ∃ s' c', rtc solo (s, CHeader c) (s', CSignal c' (nextjob s)) ∧ inv s' ∧ at_loc i s' (CSignal c' (nextjob s)) ∧ c_in c' = c_in c.
Proof.
  intros Hk Hs Hl Hlen Hmax. pose proof Hk as (Hc & Hw & _). pose proof Hl as ((_ & Ht & Hp & _) & Hin). pose proof (i_next _ _ Hs) as Hnx.
  destruct (treadn_ok SIZEOF_printreq (inc (c_sock c)) ltac:(done) Hp ltac:(by rewrite Hin)) as (k & E & _).
  set (b := take _ _) in E. set (c1 := set_sock (Sock (sent (c_sock c)) (room (c_sock c)) k) c).
  assert (zlen b = SIZEOF_printreq) as Hb by (assert (0 ≤ SIZEOF_printreq) by done; unfold b; rewrite Hin; unfold zlen in *; rewrite length_take; lia).
  assert (solo (s, CHeader c) (s, CJobno c1 (net_req b))) as E1.
  { unfold solo. cbn [fst snd Printd.seg Printd.client_seg].
    rewrite (solo_sock c (λ k, let '(r, i) := treadn SIZEOF_printreq (inc k) in Ok (r, Sock (sent k) (room k) i)) (Some b) (Sock (sent (c_sock c)) (room (c_sock c)) k)) by (by rewrite E).
    cbv iota beta. rewrite Hb, Z.eqb_refl. done. }
  destruct (solo_inv i _ _ _ _ Hs Hl E1) as [I1 L1]. set (id := nextjob s). 
  set (s0 := set_nextjob (id + 1) s). set (s1 := set_history (added s0) (finished s0) (hand s0) (<[id := c_tid c1]> (owner s0)) s0).
  assert (solo (s, CJobno c1 (net_req b)) (s1, CData c1 (net_req b) id)) as E2.
  { unfold solo. cbn [fst snd Printd.seg Printd.client_seg]. unfold get_newjobno, pget, pset, sgets, smodify. rewrite bind_assoc, bind_gets. cbn [sh].
    rewrite (proj2 (Z.eqb_neq _ _) Hmax), bind_assoc, bind_modify. cbn [sh wk]. rewrite (proj2 (Z.leb_gt _ _)) by lia. done. }
  destruct (solo_inv i _ _ _ _ I1 L1 E2) as [I2 L2].
  set (s2 := set_data (<[file_name id := []]> (data s1)) s1). assert (solo (s1, CData c1 (net_req b) id) (s2, CRecv c1 (net_req b) id true)) as E3.
  { unfold solo. cbn [fst snd Printd.seg Printd.client_seg]. by rewrite Hc. }
  destruct (solo_inv i _ _ _ _ I2 L2 E3) as [I3 L3].
  destruct (recv_runs _ s2 i c1 (net_req b) id true Hk (Nat.lt_succ_diag_r _) I3 L3) as (s3 & c3 & r3 & R3 & I4 & L4 & Ec3).
  destruct (reply_runs s3 i c3 r3 id Hk I4 L4) as (s4 & c4 & R4 & I5 & L5 & Ec4).
  exists s4, c4. split; [|split; [done|split; [done|]]]; [|rewrite Ec4, Ec3; done].
  do 3 (eapply rtc_l; [eassumption|]). by etrans.
Qed.

Lemma wakes_signal_exists ts : ∃ ts', wakes (CV:=()) (L:=loc) (R:=res) [Signal ()] ts ts'.
Proof.
  destruct (decide (Forall (λ t, ¬ waits_on () t) ts)) as [H|H].
  { exists ts. econstructor; [by apply wakes_none|constructor]. }
  apply not_Forall_Exists in H; [|intros t; solve_decision]. apply Exists_exists in H as (t & Hin & Ht).
  apply list_elem_of_lookup in Hin as [j Hj]. destruct t as [l|[] l|r]; [exfalso; apply Ht; intros []| |exfalso; apply Ht; intros []].
  exists (<[j:=Ready l]> ts). econstructor; [by apply (wakes_signal () ts j l)|constructor].
Qed.

(** C35: what [print] sends, however the network cuts it, is accepted when the disk takes the
    files, there is memory for the job, and nobody disturbs the thread: the job is added with
    the file, its size and the names the user gave, cut to their fields, and [print], when it
    can read its file, reads in the answer the number of that job. *)
Theorem print_accepted cfg s ts i c su sj rf user content fname text : started cfg → reachable seg cfg (s, ts) →
  ts !! i = Some (Ready (CHeader c)) → nextjob s ≠ 2 ^ 31 - 1 → disk_ok →
  zlen su = USERNM_MAX → zlen sj = JOBNM_MAX → zlen content < 2 ^ 32 → no_nul fname → (∀ n, user = Some n → no_nul n) →
  arrived (c_in c) = req_net (submit_header su sj user (zlen content) fname text) ++ content →
  ∃ s' ts' c', reachable seg (s, ts) (s', ts') ∧ ts' !! i = Some (Ready (CCleanup c' (Some (nextjob s)))) ∧
    (∃ e, e ∈ added s' ∧ e_id e = nextjob s ∧ e_data e = content ∧ size (e_req e) = zlen content ∧
       cstr (usernm (e_req e)) = default (bytes "unknown") (take 63 <$> user) ∧ cstr (jobnm (e_req e)) = job_name fname) ∧
    ∀ k, (∀ b, rf b = false) → SIZEOF_printreq + zlen content ≤ room k → pieces_ok (inc k) → arrived (filter is_data (inc k)) = sent (c_sock c') →
      ∃ k', submit_file su sj rf user content fname text k = Ok (Some (nextjob s), k').
Proof.
  intros Hs Hr Hl Hmax Hk Hsu Hsj Hlen Hf Hu Harr. destruct (started_reachable _ _ Hs Hr) as [Hi Ht]. cbn [fst snd] in Hi, Ht. specialize (Ht i _ Hl).
  pose proof (zlen_nonneg content). destruct (submit_header_ok su sj user (zlen content) fname text) as (Hreq & Hun & _ & Hjn & _); [done..|].
  set (h := submit_header _ _ _ _ _ _) in *. destruct (req_net_ok h Hreq) as [Eh Hhl]. pose proof (i_next _ _ Hi) as Hnx.
  destruct (client_runs s i c Hk Hi Ht) as (s1 & c1 & R & I1 & L1 & Ec); [rewrite Harr, zlen_app; lia|done|].
  pose proof (lookup_lt_Some _ _ _ Hl) as Hlt. pose proof (solo_reachable i ts _ _ Hlt R) as R1. cbn [fst snd] in R1. rewrite (list_insert_id ts i _ Hl) in R1.
  set (ts1 := <[i:=Ready (CSignal c1 (nextjob s))]> ts) in *. destruct (wakes_signal_exists ts1) as [ts2 Hw].
  assert (ts1 !! i = Some (Ready (CSignal c1 (nextjob s)))) as H1 by by apply list_lookup_insert_eq.
  assert (i < length ts2)%nat as Hlt2 by (rewrite (wakes_length _ _ _ Hw); by eapply lookup_lt_Some).
  exists s1, (<[i:=Ready (CCleanup c1 (Some (nextjob s)))]> ts2), c1. split; [|split; [by apply list_lookup_insert_eq|]].
  { eapply rtc_r; [exact R1|]. by apply (step_run seg s1 ts1 i (CSignal c1 (nextjob s)) (Next (CCleanup c1 (Some (nextjob s)))) s1 [Signal ()] ts2). }
  destruct L1 as (_ & Hsent & e & He & Hid & Hd & Hsz & Husr & Hjob & _). unfold asked, file_of in *. rewrite Ec, Harr in *.
  assert (take (Z.to_nat SIZEOF_printreq) (req_net h ++ content) = req_net h) as Et by (rewrite <- Hhl; unfold zlen; by rewrite Nat2Z.id, take_app_length).
  assert (drop (Z.to_nat SIZEOF_printreq) (req_net h ++ content) = content) as Ed by (rewrite <- Hhl; unfold zlen; by rewrite Nat2Z.id, drop_app_length).
  rewrite Et, Eh in Hsz, Husr, Hjob. rewrite Ed in Hd. split.
  { exists e. rewrite Hsz, Husr, Hjob. done. }
  intros k Hrf Hroom Hp Ha. rewrite Hsent in Ha.
  destruct (submit_file_ok su sj rf user content fname text k (ok_resp stack_msg (nextjob s))) as [k' E]; try done.
  - split; [done|]. split; [cbn [resp_jobid Printd.ok_resp]; lia|]. cbn [msg Printd.ok_resp]. pose proof (zlen_ok_resp stack_msg Hstack (nextjob s) ltac:(lia)) as Hl'.
    unfold resp_net in Hl'. rewrite !zlen_app, !zlen_be32 in Hl'. unfold SIZEOF_printresp in Hl'. cbn [msg Printd.ok_resp] in Hl'. lia.
  - exists []. by rewrite Ha, app_nil_r.
  - eexists. exact E.
Qed.

(** ** A restart *)

Context (open_req read_req : list Z → bool) (max_fds : nat).
Abbreviation build_qonstart := (build_qonstart job_memory open_req read_req max_fds).

(** On a spool whose control files are as the server writes them, with numbers below the next
    one, the start ends where the theorems about the threads begin. *)
Corollary printd_restarted entries fds s ts : (∀ l, job_memory l = true) →
  js s = DList ∅ 0 None None → added s = [] → finished s = [] → hand s = [] → owner s = ∅ → 0 < nextjob s < 2 ^ 31 →
  Forall (λ a, match a with Some k => sent k = [] | None => True end) (attempts s) →
  NoDup entries → Forall (λ n, zlen n < 40 ∧ read_req n = true) entries → Forall (proper open_req read_req s) entries →
  (∀ i t, ts !! i = Some t → match t with Ready (CStart c) => open_client (S i) c ∧ inc (c_sock c) = c_in c | Ready (Hup _) => True | _ => False end) →
  ∃ s' w fds', build_qonstart entries fds (Mon s []) = Ok (fds', Mon s' w) ∧ started (s', Ready PGet :: ts).
Proof.
  intros Hmem Ej Ea Ef Eh Eo En Eat Hnd Hl Hp Hts. pose proof (fresh_inv open_data s Ej Ea Ef Eh Eo En Eat) as Hs.
  destruct (build_inv open_data job_memory open_req read_req max_fds Hmem entries s [] fds Hs Eh) as (s' & w & f & E & I' & H'); try done; [by rewrite Ea|intros e He; rewrite Ea in He; by apply not_elem_of_nil in He|].
  exists s', w, f. split; [exact E|]. split; [exact I'|]. split; [exact H'|]. split; [done|]. exact Hts.
Qed.

Lemma file_name_on_disk (r : printreq) (id : Z) (m : gmap (list Z) (list Z)) : open_req (file_name id) = true → read_req (file_name id) = true → 0 < id < 2 ^ 31 → req_ok r → m !! file_name id = Some (req_host r) →
  on_disk open_req read_req m (file_name id) = Some (Job id r) ∧ stale open_req read_req m (file_name id) = false.
Proof.
  intros Hop Hrd Hid Hr Hm. destruct (req_host_ok r Hr) as [Eh Hl].
  assert (is_dot (file_name id) = false) as Hdot.
  { pose proof (dec_digits id ltac:(lia)) as Hd. pose proof (dec_pos_length id). unfold is_dot, file_name.
    destruct (dec id) as [|c d]; [simpl in *; lia|]. apply Forall_cons in Hd as [Hc _]. by rewrite !bool_decide_false by (intros E; vm_compute (bytes _) in E; injection E as -> _; lia). }
  assert (take (Z.to_nat SIZEOF_printreq) (req_host r) = req_host r) as Et by (rewrite <- Hl; unfold zlen; by rewrite Nat2Z.id, firstn_all).
  unfold on_disk, stale, whole. rewrite Hdot, Hm, Hop, Hrd. cbn [mbind option_bind negb andb]. rewrite Et, Hl, Z.eqb_refl, Eh. split; [|done].
  rewrite <- (app_nil_r (file_name id)). unfold file_name at 1. rewrite atol_dec by (unfold LONG_MAX; lia || done). rewrite wrap_s_id; [done|lia|lia].
Qed.

Lemma reachable_length cfg cfg' : reachable seg cfg cfg' → length cfg'.2 = length cfg.2.
Proof.
  induction 1 as [|x y z Hxy _ IH]; [done|]. rewrite IH. destruct Hxy as [s ts i l o s' ks ts' _ _ Hw|]; simpl; rewrite length_insert; [by apply (wakes_length _ _ _ Hw)|done].
Qed.

(** The job in hand is on the disk or was printed. *)
Lemma hand_safe cfg s ts jp e : started cfg → reachable seg cfg (s, ts) → hand s = [(jp, e)] → in_spool s e ∨ printed s e.
Proof.
  intros Hs Hr Hh. destruct (started_reachable _ _ Hs Hr) as [Hi Ht]. cbn [fst snd] in Hi, Ht.
  assert (is_Some (ts !! 0%nat)) as [t E].
  { apply lookup_lt_is_Some. pose proof (reachable_length _ _ Hr) as El. simpl in El. rewrite El. destruct Hs as (_ & _ & H0 & _). by eapply lookup_lt_Some. }
  specialize (Ht _ _ E). assert (∀ jp' (P : entry → Prop), holds s jp' P → P e) as Hp.
  { intros jp' P (e' & Hh' & H). rewrite Hh in Hh'. by injection Hh' as _ ->. }
  assert (∀ l, at_loc 0 s l → in_spool s e ∨ printed s e) as Hl.
  { intros l. destruct l as [| |c r|c r id|c r id fst|c r id|c r id|c r id|c r id|c id|c [id|]| |j|j|j|j|j|j|n]; simpl; try (intros ((? & _) & _); done); try (intros (? & _); done); try done.
    - intros [_ H]. by rewrite H in Hh.
    - intros [_ H]. left. by apply Hp in H.
    - intros [_ H]. left. by apply Hp in H.
    - intros [_ H]. left. by apply Hp in H.
    - intros [_ H]. left. by apply Hp in H as [? _].
    - intros [_ H]. right. by apply Hp in H.
    - intros [_ H]. left. by apply Hp in H. }
  destruct t as [l|[] l|[c b [id|]|]]; [by apply (Hl l)|by apply (Hl l)|by destruct Ht|by destruct Ht|done].
Qed.

(** C34: a crash loses no job that was accepted, as far as the descriptors go: when the server
    stops at any moment and starts again on the spool it left, with a directory that names every
    control file and control files that can be opened and read, the new list has the jobs of the
    complete control files in the order of the directory, cut at the number of descriptors that
    were free, since none is closed; each job that was added was printed or is among those
    before the cut, with both files in the spool; and so is the job of a
    client that was told its number and whose thread did not reach the list. *)
Theorem printd_recovers cfg s ts s0 entries fds : started cfg → reachable seg cfg (s, ts) → (∀ l, job_memory l = true) →
  js s0 = DList ∅ 0 None None → reqs s0 = reqs s → data s0 = data s →
  NoDup entries → Forall (λ n, zlen n < 40) entries → (∀ n, is_Some (reqs s !! n) → n ∈ entries ∧ open_req n = true ∧ read_req n = true) →
  let waiting := omap (on_disk open_req read_req (reqs s)) entries in
  let kept s' e := job_of e ∈ waiting ∧ in_spool s' e in
  ∃ s' w ps fds', build_qonstart entries fds (Mon s0 []) = Ok (fds', Mon s' w) ∧ dll (js s') ps ∧
    ps.*2 = take (max_fds - fds) waiting ∧
    (∀ e, e ∈ added s → req_ok (e_req e) → printed s e ∨ kept s' e) ∧
    ∀ i c r id, ts !! i = Some (Ready (CAddJob c r id)) → req_ok r → kept s' (Entry id r (file_of c)).
Proof.
  intros Hs Hr Hmem Ej Er Ed Hnd Hl Hall waiting kept. destruct (started_reachable _ _ Hs Hr) as [Hi Ht]. cbn [fst snd] in Hi, Ht.
  destruct (empty_list s0 Ej) as [D0 B0]. destruct (build_ok job_memory open_req read_req max_fds Hmem entries s0 [] [] fds D0 B0 Hnd Hl) as (s' & w & ps & fds' & Eb & D & P & _ & N).
  rewrite Er in P. unfold swept in N. rewrite Er, Ed in N. exists s', w, ps, fds'. split; [exact Eb|]. split; [exact D|]. split; [exact P|].
  assert (∀ e, 0 < e_id e < 2 ^ 31 → req_ok (e_req e) → in_spool s e → kept s' e) as Hfound.
  { intros e Hid Hok [Hd Hq]. destruct (Hall (file_name (e_id e)) ltac:(by rewrite Hq)) as (Hin & Hop & Hrd).
    destruct (file_name_on_disk (e_req e) (e_id e) (reqs s) Hop Hrd Hid Hok Hq) as [E1 E2]. split.
    - apply list_elem_of_omap. by exists (file_name (e_id e)).
    - destruct (N (file_name (e_id e))) as [(En1 & En2 & _)|(_ & E3 & _)]; [|by rewrite E2 in E3]. split; congruence. }
  split.
  - intros e He Hok. pose proof (added_range open_data s e Hi He) as Hid.
    assert (printed s e ∨ in_spool s e) as [Hp|Hsp]; [|by left|right; by apply Hfound].
    destruct (i_listed _ _ Hi) as (ps0 & qs & _ & Ea & Hq). rewrite Ea, !elem_of_app in He. destruct He as [He|[He|He]].
    + pose proof (i_over _ _ Hi) as Hp. rewrite Forall_forall in Hp. destruct (Hp e He) as [?|[_ ?]]; auto.
    + pose proof (i_one _ _ Hi) as H1. destruct (hand s) as [|[jp e'] [|]] eqn:Eh; [by apply not_elem_of_nil in He| |simpl in H1; lia].
      apply list_elem_of_singleton in He as ->. destruct (hand_safe cfg s ts jp e' Hs Hr Eh); auto.
    + right. rewrite Forall_forall in Hq. by apply Hq.
  - intros i c r id Hc Hok. destruct (Ht i _ Hc) as (_ & (_ & [Ho _] & Hd & Hq) & _). apply Hfound; [|done|by split; [|apply Hq]].
    pose proof (i_owner _ _ Hi _ _ Ho). pose proof (i_next _ _ Hi). simpl. lia.
Qed.
End runs.

(** ** The printer's protocol *)

(** C38: the header of a request is built whole exactly when its size, 160 bytes and the lengths of
    the printer's, the user's and the job's names and of the format, is at most [IBUFSZ]; read
    back by the attributes' grammar it gives the operation, the number and the six attributes. A
    longer header is written beyond its array. *)
Theorem ipp_request_roundtrip {S} p id r (s : S) : 0 ∈ usernm r → 0 ∈ jobnm r → zlen p < 53 → - 2 ^ 31 ≤ id < 2 ^ 31 →
  if bool_decide (ipp_size p (cstr (usernm r)) (cstr (jobnm r)) (is_text r) ≤ IBUFSZ)
  then ∃ bs, ipp_header p id r s = Ok (bs, s) ∧ zlen bs = ipp_size p (cstr (usernm r)) (cstr (jobnm r)) (is_text r) ∧
       parse_ipp bs = Some (OP_PRINT_JOB, id, job_attrs p (cstr (usernm r)) (cstr (jobnm r)) (is_text r))
  else ∃ w, ipp_header p id r s = Fault (UB w).
Proof.
  intros Hu Hj Hp Hid. pose proof (ipp_header_ok p id r s Hu Hj Hp) as H. cbv zeta in H. case_bool_decide as Hs; [|exact H].
  eexists. split; [exact H|]. split; [apply zlen_ipp|by apply parse_ipp_ok].
Qed.

(** The first lines of a response that reports success. *)
Definition response_head (len lines : list Z) : list Z :=
  bytes "HTTP/1.1 200 OK" ++ CRLF ++ bytes "Content-Length: " ++ len ++ CRLF ++ lines.

(** C40: with memory for the buffer, when the first piece of a successful response ends after the content length and before
    the empty line, [printer_status] does not come to an end, whatever else arrives: the printer
    thread is lost with its job. *)
Theorem printer_status_hangs fresh allocate fuel id len lines c k : allocate IOBUFSZ = true →
  len ≠ [] → Forall (λ c, isdigit c = true) len → digits_val 0 len < 2 ^ 31 →
  lines ≠ [] → take 2 lines ≠ [13; 10] → (∀ a d, lines = a ++ d → take 3 d ≠ [10; 13; 10]) → zlen (response_head len lines) < IOBUFSZ →
  (Z.to_nat IOBUFSZ < fuel)%nat → inc k = Data (response_head len lines) :: c →
  printer_status fresh allocate fuel id k = Fault NoFuel.
Proof.
  intros Hal Hne Hd Hv Hl H2 H3 Hsz Hf Hinc. set (l := StatusLine (bytes "HTTP/1.1") [32] (bytes "200") 32 (bytes "OK") 13).
  assert (response_head len lines = line_bytes l ++ [10] ++ PAT ++ [32] ++ len ++ 13 :: 10 :: lines) as Eh by done.
  rewrite Eh in Hsz, Hinc. apply (printer_status_spins fresh allocate id fuel l [10] PAT [32] len 13 (10 :: lines) c k); try done.
  - split_and!; try done; by repeat constructor.
  - intros [|a0 a] b E Hb; [cbn [app] in E; by subst b|]. by destruct a, b.
  - by repeat constructor.
  - destruct len as [|d len]; [done|]. apply Forall_cons in Hd as [Hd _]. by apply digit_not_space.
  - destruct lines; [done|]. simpl. lia.
  - intros [|a0 a] d E; [cbn [app] in E; subst d; cbn [take]; intros [= E2]; by apply H2|]. injection E as _ E. by apply (H3 a).
Qed.

(** ** A small server *)

Definition demo_fuel : nat := Z.to_nat 20000.
Definition demo_msg : list Z := replicate 512 0.
Definition demo_strerror (_ : Z) : list Z := bytes "error".
Abbreviation demo_seg := (seg (λ _, 0) (λ _, true) demo_fuel (λ _, true) (λ _, true) (λ _ t, zlen t) (λ _, true) (λ _ _, false) (λ _ _ _ n, n) 5 demo_strerror 0 demo_msg [] (bytes "printer hp" ++ [10]) (λ _, Some None)).
Definition demo_header (n : Z) : printreq := submit_header (replicate 64 0) (replicate 256 0) (Some (bytes "ann")) n (bytes "a.txt") true.
(** A client whose request and file [content] arrive in two pieces. *)
Definition demo_client (i : nat) (content : list Z) : client :=
  let bs := req_net (demo_header (zlen content)) ++ content in
  let c := [Data (take 100 bs); Data (drop 100 bs)] in Client i c (Sock [] 600 c).
Definition demo_answer (id : Z) : list Z :=
  bytes "HTTP/1.1 200 OK" ++ CRLF ++ bytes "Content-Length: 8" ++ CRLF ++ CRLF ++ [1; 1; 0; 0] ++ be32 id.
Definition demo_state (next : Z) (answers : list attempt) : pd :=
  Pd (DList ∅ 0 None None) (DList ∅ 0 None None) next [] ∅ ∅ (bytes "hp") false answers [] [] [] [] ∅.
Definition demo_start (next : Z) : pd * list (thread () loc res) :=
  (demo_state next [Some (Sock [] 1000 [Data (demo_answer 1)])], [Ready PGet; Ready (CStart (demo_client 1 (bytes "hello")))]).
Definition demo_run (next : Z) (n m : nat) : pd * list (thread () loc res) :=
  default (demo_start next) (run_schedule demo_seg (replicate n (1%nat, []) ++ replicate m (0%nat, [])) (demo_start next)).

Lemma demo_started next : 0 < next < 2 ^ 31 → started (λ _, true) (demo_start next).
Proof.
  intros Hn. split; [|split; [done|split; [done|]]].
  - apply fresh_inv; try done. by repeat constructor.
  - intros [|i] t Ht; [|done]. injection Ht as <-. split; [|done]. split; [done|]. split; [done|]. split; [by repeat constructor|done].
Qed.

(** The run of [n] steps of the client and [m] of the printer exists. *)
Definition demo_runs (next : Z) (n m : nat) : bool :=
  match run_schedule demo_seg (replicate n (1%nat, []) ++ replicate m (0%nat, [])) (demo_start next) with Some _ => true | None => false end.
Lemma spool_reachable next n m : demo_runs next n m = true → reachable demo_seg (demo_start next) ((demo_run next n m).1, (demo_run next n m).2).
Proof.
  unfold demo_runs, demo_run. destruct (run_schedule _ _ _) as [[s ts]|] eqn:E; [|done]. intros _. eapply run_schedule_sound. exact E.
Qed.

Lemma demo_disk : disk_ok (λ _, true) (λ _ _, false) (λ _ _ _ n, n).
Proof. by split. Qed.

Lemma demo_msg_ok : zlen demo_msg = MSGLEN_MAX.
Proof. reflexivity. Qed.
Definition hello : list Z := bytes "hello".
Definition demo_entry : entry := Entry 1 (demo_header 5) hello.


Lemma printd_failures_witness : nextjob (demo_run (2 ^ 31 - 1) 2 0).1 = 2 ^ 31 - 1.
Proof.
  refine (printd_failures _ _ _ _ _ _ _ _ _ _ _ _ _ _ _ _ demo_msg_ok _ _ _ 1
    (CJobno (set_sock (Sock [] 600 [Data hello]) (demo_client 1 hello)) (demo_header 5)) (UB "job number overflow")
    (demo_started (2 ^ 31 - 1) ltac:(lia)) (spool_reachable _ 2 0 ltac:(vm_compute; reflexivity)) _ _); vm_compute; reflexivity.
Defined.

Lemma demo_printable : printable (bytes "hp") demo_entry.
Proof. split; [by apply (bool_decide_unpack _); vm_compute|]. split; [by apply (bool_decide_unpack _); vm_compute|]. split; [done|]. split; [by vm_compute|done]. Qed.
Lemma demo_good : good_printer demo_fuel (bytes "hp") demo_entry (Sock [] 1000 [Data (demo_answer 1)]).
Proof.
  split; [done|]. split; [by vm_compute|]. exists [], (demo_answer 1), [], 200, 8, ([1; 1; 0; 0] ++ be32 1), [].
  split; [constructor|]. split; [by vm_compute|]. split; [done|]. split; [done|]. split; [by vm_compute|]. split; [by vm_compute|]. split; [by vm_compute|].
  split; [by left|]. split; [|by vm_compute]. unfold demo_fuel, IOBUFSZ. simpl length. lia.
Qed.

Lemma printd_prints_witness : ∃ s', reachable demo_seg ((demo_run 1 12 0).1, (demo_run 1 12 0).2) (s', <[0%nat := Waiting () PGet]> (demo_run 1 12 0).2) ∧
  finished s' = added s'.
Proof.
  destruct (printd_prints _ _ _ _ _ _ _ _ _ _ _ _ _ _ _ _ demo_msg_ok _ _ _ [demo_entry] [Sock [] 1000 [Data (demo_answer 1)]]
    (demo_started 1 ltac:(lia)) (spool_reachable 1 12 0 ltac:(vm_compute; reflexivity))) as (s' & R & F & _).
  - by vm_compute.
  - by vm_compute.
  - by vm_compute.
  - by vm_compute.
  - constructor; [exact demo_printable|constructor].
  - constructor; [exact demo_good|constructor].
  - intros f t. apply zlen_nonneg.
  - done.
  - by repeat constructor.
  - exists s'. split; [exact R|exact F].
Defined.

Lemma print_accepted_witness : ∃ s' ts' c', reachable demo_seg ((demo_run 1 1 0).1, (demo_run 1 1 0).2) (s', ts') ∧
  ts' !! 1%nat = Some (Ready (CCleanup c' (Some (nextjob (demo_run 1 1 0).1)))).
Proof.
  destruct (print_accepted _ _ _ _ _ _ _ _ _ _ _ _ _ _ _ _ demo_msg_ok _ _ _ 1 (demo_client 1 hello) (replicate 64 0) (replicate 256 0) (λ _, false) (Some (bytes "ann")) hello (bytes "a.txt") true
    (demo_started 1 ltac:(lia)) (spool_reachable 1 1 0 ltac:(vm_compute; reflexivity))) as (s' & ts' & c' & R & H & _).
  - by vm_compute.
  - by vm_compute.
  - exact demo_disk.
  - done.
  - done.
  - done.
  - apply (bool_decide_unpack _). by vm_compute.
  - intros n [= <-]. apply (bool_decide_unpack _). by vm_compute.
  - by vm_compute.
  - exists s', ts', c'. split; [exact R|exact H].
Defined.

(** When [read] of the file fails, [print] hands its -1 to [writen] as a length. *)
Example print_read_error : submit_file (replicate 64 0) (replicate 256 0) (λ _, true) None hello (bytes "a.txt") true
  (Sock [] 1000 []) = Fault (UB "writen of (size_t) -1 bytes").
Proof. by vm_compute. Qed.

(** A new server on a spool. *)
Definition demo_spool (d r : gmap (list Z) (list Z)) : pd := set_data d (set_reqs r (demo_state 1 [])).
Lemma demo_spool_ok d r : js (demo_spool d r) = DList ∅ 0 None None ∧ reqs (demo_spool d r) = r ∧ data (demo_spool d r) = d.
Proof. done. Qed.

(** The start with [max_fds] descriptors, three of them in use. *)
Definition demo_build (read_req : list Z → bool) (max_fds : nat) (entries : list (list Z)) : pM nat :=
  build_qonstart (λ _, true) (λ _, true) read_req max_fds entries 3.

Lemma printd_recovers_witness : ∃ s' w ps fds', demo_build (λ _, true) 20 [bytes "."; bytes ".."; bytes "1"]
    (Mon (demo_spool (data (demo_run 1 10 0).1) (reqs (demo_run 1 10 0).1)) []) = Ok (fds', Mon s' w) ∧ dll (js s') ps ∧ length ps = 1%nat.
Proof.
  assert (reqs (demo_run 1 10 0).1 = {[bytes "1" := req_host (demo_header 5)]}) as Er by by vm_compute.
  destruct (printd_recovers _ _ _ _ _ _ _ _ _ _ _ _ _ _ _ _ demo_msg_ok (λ _, true) (λ _, true) 20 _ _ _ (demo_spool (data (demo_run 1 10 0).1) (reqs (demo_run 1 10 0).1))
    [bytes "."; bytes ".."; bytes "1"] 3
    (demo_started 1 ltac:(lia)) (spool_reachable 1 10 0 ltac:(vm_compute; reflexivity))) as (s' & w & ps & fds' & E & D & P & _).
  - done.
  - exact (proj1 (demo_spool_ok _ _)).
  - exact (proj1 (proj2 (demo_spool_ok _ _))).
  - exact (proj2 (proj2 (demo_spool_ok _ _))).
  - apply (bool_decide_unpack _). by vm_compute.
  - apply (bool_decide_unpack _). by vm_compute.
  - intros n [b Hb]. rewrite Er in Hb. apply lookup_singleton_Some in Hb as [<- _]. split; [right; right; left|done].
  - exists s', w, ps, fds'. split; [exact E|]. split; [exact D|]. rewrite <- (length_fmap snd), P, Er. by vm_compute.
Defined.

Lemma ipp_request_roundtrip_witness : ∃ bs, ipp_header (bytes "hp") 1 (demo_header 5) () = Ok (bs, ()) ∧
  parse_ipp bs = Some (OP_PRINT_JOB, 1, job_attrs (bytes "hp") (bytes "ann") (bytes "a.txt") true).
Proof.
  pose proof (ipp_request_roundtrip (bytes "hp") 1 (demo_header 5) () ltac:(apply (bool_decide_unpack _); by vm_compute)
    ltac:(apply (bool_decide_unpack _); by vm_compute) ltac:(done) ltac:(lia)) as H.
  rewrite bool_decide_true in H by (by vm_compute). destruct H as (bs & E & _ & H). exists bs. split; [exact E|exact H].
Defined.

Lemma printer_status_hangs_witness : printer_status (λ _, 0) (λ _, true) demo_fuel 1
  (Sock [] 0 [Data (response_head (bytes "8") (bytes "Server: x" ++ CRLF)); Data (CRLF ++ [1; 1; 0; 0] ++ be32 1)]) = Fault NoFuel.
Proof.
  apply (printer_status_hangs _ _ _ _ (bytes "8") (bytes "Server: x" ++ CRLF) [Data (CRLF ++ [1; 1; 0; 0] ++ be32 1)]); try done.
  - by repeat constructor.
  - intros a d E. vm_compute (bytes _ ++ CRLF) in E.
    do 11 (destruct a as [|? a]; [cbn [app] in E; subst d; done|injection E as _ E]).
    destruct a; [cbn [app] in E; by subst d|done].
  - unfold demo_fuel, IOBUFSZ. lia.
Defined.

(** ** Where it breaks *)

(** Three clients, the first of which goes away at once. *)
Definition demo_three : pd * list (thread () loc res) :=
  (demo_state 1 [], [Ready PGet; Ready (CStart (Client 1 [] (Sock [] 600 []))); Ready (CStart (demo_client 2 hello)); Ready (CStart (demo_client 3 hello))]).

(** [add_worker] does not make the new worker the head of the list: when two clients overlap and
    the first one ends, the head is a freed worker, and the next client that connects makes the
    server use it. *)
Theorem printd_worker_dangles : ∃ s ts l, reachable demo_seg demo_three (s, ts) ∧ ts !! 3%nat = Some (Ready l) ∧
  demo_seg l (Mon s []) = Fault (UB "access to freed memory").
Proof.
  destruct (run_schedule demo_seg [(1%nat, []); (2%nat, []); (1%nat, []); (1%nat, [])] demo_three) as [[s ts]|] eqn:E; [|by vm_compute in E].
  exists s, ts, (CStart (demo_client 3 hello)). split; [by eapply run_schedule_sound|]. vm_compute in E. injection E as <- <-. by vm_compute.
Qed.

(** The server stopped after it accepted a job and before the printer thread took it, and
    started again. *)
Definition demo_restarted : pd :=
  match (_ ← init_request false; demo_build (λ _, true) 20 [bytes "."; bytes ".."; bytes "1"]) (Mon (demo_spool (data (demo_run 1 12 0).1) (reqs (demo_run 1 12 0).1)) []) with
  | Ok (_, m) => sh m
  | Fault _ => demo_state 0 []
  end.

(** The number file is only written when the printer thread takes a job: after a restart the
    number of a waiting job is given out again, and its file is lost to the new one. *)
Theorem printd_number_reused : jobfile (demo_run 1 12 0).1 = jobfile (demo_spool ∅ ∅) ∧ ids (added demo_restarted) = [1] ∧
  data demo_restarted !! file_name 1 = Some hello ∧
  ∃ s ts, reachable demo_seg (demo_restarted, [Ready PGet; Ready (CStart (demo_client 1 hello))]) (s, ts) ∧
    ids (added s) = [1] ∧ data s !! file_name 1 = Some [].
Proof.
  split; [by vm_compute|]. split; [by vm_compute|]. split; [by vm_compute|].
  destruct (run_schedule demo_seg (replicate 4 (1%nat, [])) (demo_restarted, [Ready PGet; Ready (CStart (demo_client 1 hello))])) as [[s ts]|] eqn:E; [|by vm_compute in E].
  exists s, ts. split; [by eapply run_schedule_sound|]. vm_compute in E. injection E as <- <-. split; by vm_compute.
Qed.

(** Two accepted jobs on a spool. *)
Definition demo_two : pd :=
  default (demo_state 1 []) (fst <$> run_schedule demo_seg (replicate 12 (1%nat, []) ++ replicate 12 (2%nat, []))
    (demo_state 1 [], [Ready PGet; Ready (CStart (demo_client 1 hello)); Ready (CStart (demo_client 2 hello))])).
Definition rebuilt (read_req : list Z → bool) (max_fds : nat) : pd :=
  match demo_build read_req max_fds [bytes "1"; bytes "2"] (Mon (demo_spool (data demo_two) (reqs demo_two)) []) with
  | Ok (_, m) => sh m
  | Fault _ => demo_state 0 []
  end.

(** No control file is closed: when the descriptors run out the start leaves accepted jobs out of
    the list, and their files on the disk. *)
Theorem printd_leaves_jobs : ids (added demo_two) = [1; 2] ∧ ids (added (rebuilt (λ _, true) 20)) = [1; 2] ∧
  ids (added (rebuilt (λ _, true) 4)) = [1] ∧ reqs (rebuilt (λ _, true) 4) = reqs demo_two.
Proof. split_and!; by vm_compute. Qed.

(** A control file that cannot be read is removed with its data file, though the job was
    accepted. *)
Theorem printd_read_error : ids (added (rebuilt (λ n, negb (bool_decide (n = bytes "1"))) 20)) = [2] ∧
  reqs (rebuilt (λ n, negb (bool_decide (n = bytes "1"))) 20) !! bytes "1" = None ∧
  data (rebuilt (λ n, negb (bool_decide (n = bytes "1"))) 20) !! bytes "1" = None ∧ data demo_two !! bytes "1" = Some hello.
Proof. split_and!; by vm_compute. Qed.

(** ** Records *)

Lemma be32_of_be l : zlen l = 4 → Forall (λ c, 0 ≤ c < 256) l → be32 (of_be l) = l.
Proof.
  intros Hl Hb. destruct l as [|a [|b [|c [|d [|]]]]]; try (unfold zlen in Hl; simpl in Hl; lia).
  repeat match goal with H : Forall _ (_ :: _) |- _ => apply Forall_cons in H as [? H] end.
  unfold be32, of_be. cbn [foldl]. set (v := 256 * (256 * (256 * (256 * 0 + a) + b) + c) + d).
  assert (v = a * 2 ^ 24 + b * 2 ^ 16 + c * 2 ^ 8 + d) as Ev by (unfold v; lia). clearbody v. subst v.
  repeat f_equal; Z.to_euclidean_division_equations; lia.
Qed.

Lemma bread_drop b n m : 0 ≤ n → 0 ≤ m → bread b n m ++ drop (Z.to_nat (n + m)) b = drop (Z.to_nat n) b.
Proof. intros Hn Hm. unfold bread. rewrite Z2Nat.inj_add, <- drop_drop by done. apply take_drop. Qed.

Lemma zlen_bread b n m : 0 ≤ n → 0 ≤ m → n + m ≤ zlen b → zlen (bread b n m) = m.
Proof. intros Hn Hm Hl. unfold bread, zlen in *. rewrite length_take, length_drop. lia. Qed.

(** C39: the records on the wire are typed: any bytes of the size of a request are a request whose
    fields fit their widths, and it is written back as the same bytes; a request is read back from
    the wire and from its control file as it was, and so is an answer. *)
Theorem print_records_typed b r a : zlen b = SIZEOF_printreq → Forall (λ c, 0 ≤ c < 256) b → req_ok r → resp_ok a →
  (req_ok (net_req b) ∧ req_net (net_req b) = b) ∧
  (net_req (req_net r) = r ∧ zlen (req_net r) = SIZEOF_printreq) ∧ (host_req (req_host r) = r ∧ zlen (req_host r) = SIZEOF_printreq) ∧
  (net_resp (resp_net a) = a ∧ zlen (resp_net a) = SIZEOF_printresp).
Proof.
  intros Hb Hbytes Hr Ha. split; [split; [by apply net_req_ok|]|split; [by apply req_net_ok|split; [by apply req_host_ok|by apply resp_net_ok]]].
  unfold req_net, net_req. cbn [size flags usernm jobnm].
  assert (∀ n, Forall (λ c, 0 ≤ c < 256) (bread b n 4)) as HF by (intros n; by apply Forall_take, Forall_drop).
  unfold SIZEOF_printreq, USERNM_MAX, JOBNM_MAX in *.
  rewrite !be32_of_be; [|by apply zlen_bread; lia|by apply HF|by apply zlen_bread; lia|by apply HF].
  pose proof (bread_drop b 0 4 ltac:(lia) ltac:(lia)) as E0. pose proof (bread_drop b 4 4 ltac:(lia) ltac:(lia)) as E1.
  pose proof (bread_drop b 8 64 ltac:(lia) ltac:(lia)) as E2. pose proof (bread_drop b 72 256 ltac:(lia) ltac:(lia)) as E3.
  rewrite (drop_ge b (Z.to_nat (72 + 256))), app_nil_r in E3 by (unfold zlen in Hb; lia).
  change (bread b (8 + 64) 256) with (bread b 72 256). rewrite E3. change 72 with (8 + 64) at 1. rewrite E2. change 8 with (4 + 4). by rewrite E1.
Qed.

Lemma print_records_typed_witness : net_req (req_net (demo_header 5)) = demo_header 5 ∧ net_resp (resp_net (ok_resp demo_msg 1)) = ok_resp demo_msg 1.
Proof.
  destruct (print_records_typed (replicate 328 65) (demo_header 5) (ok_resp demo_msg 1)) as (_ & [H1 _] & _ & [H2 _]).
  - reflexivity.
  - apply Forall_replicate. lia.
  - apply submit_header_ok; try done; [apply (bool_decide_unpack _); by vm_compute|]. intros n [= <-]. apply (bool_decide_unpack _). by vm_compute.
  - by split; [|split].
  - split; [exact H1|exact H2].
Defined.
